(* ===== verification/_CoqProject ===== *)
-Q . S2P
Prelude.v
Effect.v
Text.v
Unicode.v
Money.v
Domain.v
Principals.v
Host.v
Schema.v
Fixtures.v
Errors.v
Within.v
Multibuy.v
Market.v
Config.v
Extract.v
Webhooks.v
Detail.v
Pricing.v
Settlement.v
Wallet.v
Fulfillment.v
Claims.v
Reimbursements.v
Fulfillments.v
Contracts.v
Poller.v
Matching.v
Lists.v
Items.v
Groups.v
Corps.v
Invariant.v
Book.v
InvariantItems.v
InvariantMoney.v
Preservation.v
Purchases.v
DebtSteps.v
WorkerSteps.v
Edits.v
Prunes.v
Editing.v
Growth.v
Ledger.v
Liveness.v
Locality.v
Membership.v
Tenancy.v
TenantDebts.v
TenantLists.v
TenantGroups.v
Outbox.v
Budget.v
Cipher.v
Tokens.v
Server.v
Jwt.v
Auth.v
Citadels.v
Isolation.v
Policies.v
Export.v
Runs.v
Jobs.v
ContractsJob.v
CorpContractsJob.v
CorpWalletJob.v
Csa.v
CitadelDiscovery.v
CitadelDetails.v
CitadelOrders.v
NpcHubs.v
Worker.v
Anomalies.v
