(* ===== verification/Prelude.v ===== *)
(** * jitacart: a verification library for the backend

    jitacart lets the members of a group put EVE Online items on shopping
    lists, claim and buy them for each other, and settle what they owe through
    in-game contracts.  The backend is a Rust workspace under
    [src/backend/crates]: an HTTP service ([api]), a worker of periodic jobs
    ([worker]), and the libraries both use ([domain], [settlement], [market],
    [auth-tokens], [webhook-dispatch]).  All state is in one PostgreSQL
    database; the two processes meet only there.

    ** How the code is modelled

    The model is a shallow embedding.  A table is a finite map from the primary
    key to a row, a statement an expression that reads or updates the maps
    ([Schema]); a handler is a function of the database that ends with a value
    and the new database or with an error ([Effect.M]); an error carries no
    database because [db.rs: tx_middleware] rolls back ([Errors]).  The unique
    indexes, foreign keys and checks of the migration appear in the statements
    that can violate them, as the driver's error.  The jobs of the worker are
    no transactions, so their computations ([Jobs.J], [Outbox], [CorpWalletJob])
    keep the state they reached when they fail; so do the login handlers over
    the session ([Auth.A_]), where [respond] decides per response what of the
    database and of the session is kept.  Machine integers are [Z] with the
    wrap-around, saturation or range check of the operation written out;
    [numeric] columns are integers of the column's unit ([Money]); text that is
    inspected by character is a list of Unicode scalar values ([Unicode]), any
    other is a UTF-8 byte string ([Text]).

    What is not in the repository is a class with one field per call: ESI
    ([Poller.EsiApi], [Market.MarketApi], [ContractsJob.ContractEsi], ...), the
    SSO endpoints ([Auth.Sso]), AES-GCM ([Cipher.Aead], with its laws), token
    decoding ([Jwt.JwtLib]), serialization and text order ([Host.Runtime]),
    Decimal multiplication ([Pricing.RustDecimal], [Wallet.ShareArith]) and the
    random invite code ([Groups.InviteCodes]).  [Fixtures] and the sections
    called Witnesses instantiate them with concrete functions.

    ** Files

    Foundations: [Prelude] (scalars, boolean automation, tables, sums over
    tables), [Effect] (results, the monad, record update), [Text], [Unicode],
    [Money], [Domain] (domain/src/lib.rs), [Host], [Schema], [Fixtures],
    [Errors] (api/src/errors.rs, db.rs) and [Within], the logic that takes
    handlers apart.

    Pure components: [Multibuy] (domain/src/multibuy.rs), [Principals]
    (domain/src/principals.rs), [Market] (market/src/prices.rs, types.rs),
    [Jwt] (api/src/jwt.rs), [Budget] and [Cipher] (auth-tokens).

    The service: [Config], [Extract], [Webhooks], [Detail] (lists/detail.rs),
    [Pricing] (lists/pricing.rs), [Lists] (lists.rs, lists/crud.rs), [Items]
    (lists/items.rs), [Fulfillment], [Claims], [Fulfillments],
    [Reimbursements] (also tips.rs) and [Runs] (fulfillment.rs and its
    submodules), [Contracts], [Groups], [Corps], [Citadels] (citadels.rs,
    markets.rs), [Auth] and [Export] (auth.rs, turnstile.rs), [Server] (main.rs
    and the whole of db.rs: tx_middleware).

    Shared with the worker: [Settlement] and [Wallet] (settlement/src/lib.rs),
    [Tokens] (auth-tokens/src/store.rs and the re-encryption job), [Outbox]
    (webhook-dispatch and pending_webhooks.rs).

    The worker: [Jobs] and [Worker] (main.rs, jobs/mod.rs), [Poller] and
    [ContractsJob], [CorpContractsJob], [CorpWalletJob], [Matching]
    (contracts/match.rs), [Csa], [CitadelDiscovery], [CitadelDetails],
    [CitadelOrders], [NpcHubs].

    The ledger's proof: [Invariant] states what every reachable database
    satisfies about items, claims, purchases and debts; [InvariantItems],
    [InvariantMoney], [Edits] and [Prunes] say which kinds of change keep it;
    [Preservation], [Purchases], [DebtSteps], [WorkerSteps], [Editing] and
    [Growth] show that each handler is such a change; [Book] is the abstract
    account book; [Ledger] and [Liveness] draw the conclusions.  [Membership]
    is the same for groups.  [Anomalies] runs executions the code's comments
    rule out, those outside the premises below among them.

    The isolation of tenants, which [SECURITY.md] claims: [Tenancy] says whose a
    row is and when a state has kept a group's rows; [Locality] that a purchase
    and its claim are on one list; [TenantDebts], [TenantLists] and [TenantGroups]
    go through the handlers; [Isolation] adds the routes that write none of the
    ledger's tables (webhook settings, tracked markets, the active character) and
    concludes for all routes that write.  [Policies] is the second layer, the
    row-level policies of the migration.

    ** What is proved

    The ledger.  [Ledger.step] is one committed or rolled-back request of any
    route that writes the ledger's tables, or one transaction of the worker, with
    the database as state, and [Ledger.erasure] one of the three routes that
    delete.  In every state they reach, subtotals add up to the price of the
    standing purchases, each standing purchase is owed exactly once, items and
    claims are consistent with the purchases under them, and an item is settled
    only when everybody who bought of it is paid.  A step changes no settled debt
    but its audit columns, and is turns of the account book; an erasure tears out
    of the book what it deletes and changes nothing else of it.  A delivered debt
    that no contract is to pay can be settled, by its requester, if still a
    member, and by an owner of the group.  The worker, whatever ESI and Discord
    answer and in whatever order its slots tick, only makes such steps
    ([Worker.worker_refines_ledger]).

    Settlement, matching, contract links, wallet audit: what each operation does
    on each of its outcomes, which rows it may touch, what it stores in which
    column, and the rounding of the audited shares.  Groups: there is always an
    owner, and the quota is never exceeded.  Tenants: no request of a caller
    outside a group, on any route that writes, changes any row of it
    ([Isolation.tenant_isolation]); set aside are the holder of its invite code
    and the links of a contract one of its debts is linked to, where the code does
    look past its caller's groups ([Anomalies.link_settles_other_group]).  The
    row-level policies show a member all of a group and others nothing but the
    group's own row, whose table has no policy; two handlers misbehave under them
    ([Policies.unlink_guard_void], with what unlinking then does in
    [Policies.app_unlink_spec], and [Policies.unlink_corp_under_policies]).  The
    list detail shows each row column by column as it is stored.  Login: whose
    account a callback may end in, which tokens are accepted, and what becomes of
    a first login.  Tokens: a well-formed configuration yields a cipher that reads
    what it wrote, rotation round trips, repeated sweeps over rows the cipher can
    read end with none under an old key.  The outbox: each tick decides the rows
    it leases, and enough ticks that find a row ready empty it.  The market:
    refreshed prices are the best of the book, and every name is answered as a
    type or as unresolved.  The parser agrees with a line-by-line reference and
    reads back printed lists.

    ** Premises

    A request of the ledger is [admitted] when requested quantities stay below
    [max_requested] (so that a further purchase cannot overflow the column), when
    an item is edited only to more than is bought of it, and when the UUIDs it
    draws are new; an erasure has the first, and deletes an item only before it
    was first bought (deleting a list or a group has no such condition).  The code
    checks the item's status instead, which is weaker:
    [Anomalies.delete_bought_item_strands_debt] and
    [Anomalies.edit_below_bought_breaks_bound] leave these premises and break the
    invariants.  A transaction is atomic and isolated: the handlers that write a
    list's purchases lock its row, and an execution is the sequence of the
    committed transactions.  The clock stands still within a request and within a
    tick, and the tasks of one tick run in the order they are spawned.  The
    hypotheses of single theorems are named where they stand, and each has a
    witness.

    ** Recursion

    Loops over lists are structural.  The only fuel is in [Text.blank_bytes] (the
    length; each step consumes a byte) and [Unicode.show_digits] (the number of
    digits), both with the lemma that it suffices.  [Worker.turn] and
    [Outbox.draining] are relations; the latter counts the ticks that find a row
    ready, and termination is proved by the attempts the rows have left; the
    collision loop of [groups.rs] is bounded by its own count of tries.

    ** Not modelled

    The row-level policies inside the handlers: the service's role sees what
    [Policies.view] leaves of the database, while the handlers are modelled on all
    of it.  For a group of the caller the view leaves every row
    ([Policies.view_spec]) and the handlers change rows of no other ([Isolation]);
    where one looks further, [Policies] says what becomes of it.  Roles and
    grants; interleaving inside a transaction; loss of the connection to the
    database, apart from the middleware's own statements ([Server.tx_layer]) and
    the write of a rotated token ([Tokens.persist_rotations]); what else may write
    the queue while a tick of the outbox sends; the request-independent pool some
    list handlers refresh prices through is the request's own database.  Start-up
    (connecting, migrations, reading the configuration, listening), metrics,
    logging, the HTTP clients and the wiping of secrets from memory are input and
    output or glue.  The frontend is not Rust. *)

From Stdlib Require Import ZArith Lia.
From stdpp Require Import base tactics decidable option list gmap fin_maps strings pretty.

(** ** Scalars *)

Abbreviation Uuid := N (only parsing).
Abbreviation Timestamp := Z (only parsing).

(** [Uuid::nil()]. *)
Definition uuid_nil : Uuid := 0%N.

Definition i64_min : Z := (- 2 ^ 63)%Z.
Definition i64_max : Z := (2 ^ 63 - 1)%Z.
Definition i16_max : Z := (2 ^ 15 - 1)%Z.
Definition u32_max : Z := (2 ^ 32 - 1)%Z.

Definition in_i64 (z : Z) : bool := bool_decide (i64_min ≤ z ≤ i64_max)%Z.

(** Two's-complement wrap-around of an [i64] operation (release profile). *)
Definition wrap_i64 (z : Z) : Z := ((z - i64_min) `mod` 2 ^ 64 + i64_min)%Z.

(** [x as i32]. *)
Definition wrap_i32 (z : Z) : Z := ((z + 2 ^ 31) `mod` 2 ^ 32 - 2 ^ 31)%Z.

(** [i64::saturating_add]. *)
Definition sat_add_i64 (a b : Z) : Z := Z.max i64_min (Z.min i64_max (a + b)).

(** [u32::saturating_add]. *)
Definition sat_add_u32 (a b : Z) : Z := Z.min u32_max (a + b).

Lemma in_i64_spec z : in_i64 z = true ↔ (i64_min ≤ z ≤ i64_max)%Z.
Proof. unfold in_i64. by rewrite bool_decide_eq_true. Qed.

Lemma wrap_i64_id z : (i64_min ≤ z ≤ i64_max)%Z → wrap_i64 z = z.
Proof. unfold wrap_i64, i64_min, i64_max. intros. rewrite Z.mod_small; lia. Qed.

Lemma sat_add_i64_pos a b :
  (0 < a)%Z → (0 < b)%Z → sat_add_i64 a b = Z.min i64_max (a + b).
Proof. unfold sat_add_i64, i64_min, i64_max. lia. Qed.

(** ** Booleans and decidable tests *)

Declare Scope sql_scope.
Delimit Scope sql_scope with sql.

(** [x == y] is Rust's [==] on a type with decidable equality, and SQL's [=]
    on non-null operands. *)
Notation "x == y" := (bool_decide (x = y)) (at level 70, no associativity) : sql_scope.
Notation "x != y" := (negb (bool_decide (x = y))) (at level 70, no associativity) : sql_scope.
Open Scope sql_scope.

(** SQL equality when an operand may be NULL: a NULL operand makes the
    predicate NULL, which a WHERE clause treats as false. *)
Definition sql_eq {A} `{EqDecision A} (a b : option A) : bool :=
  match a, b with Some x, Some y => x == y | _, _ => false end.

Definition is_none {A} (o : option A) : bool :=
  match o with None => true | Some _ => false end.

Lemma sql_eq_true {A} `{EqDecision A} (a b : option A) :
  sql_eq a b = true ↔ ∃ x, a = Some x ∧ b = Some x.
Proof.
  destruct a as [x|], b as [y|]; simpl; rewrite ?bool_decide_eq_true; naive_solver.
Qed.

Lemma is_none_true {A} (o : option A) : is_none o = true ↔ o = None.
Proof. destruct o; naive_solver. Qed.

Lemma is_none_false {A} (o : option A) : is_none o = false ↔ is_Some o.
Proof. destruct o as [x|]; simpl; split; [by eauto | done | done | by intros [? ?]]. Qed.

(** Normalise boolean hypotheses produced by WHERE clauses and guards. *)
Ltac bool_simpl :=
  repeat match goal with
  | H : _ && _ = true |- _ => apply andb_true_iff in H; destruct H
  | H : negb _ = true |- _ => apply negb_true_iff in H
  | H : negb _ = false |- _ => apply negb_false_iff in H
  | H : _ || _ = false |- _ => apply orb_false_iff in H; destruct H
  | H : bool_decide _ = true |- _ => apply bool_decide_eq_true in H
  | H : bool_decide _ = false |- _ => apply bool_decide_eq_false in H
  | H : is_none _ = true |- _ => apply is_none_true in H
  | H : is_none _ = false |- _ => apply is_none_false in H
  | H : sql_eq _ _ = true |- _ => apply sql_eq_true in H; destruct H as (? & ? & ?)
  end; simplify_eq/=.

(** Prove a conjunction of such tests. *)
Ltac bool_solve :=
  repeat match goal with
  | |- _ && _ = true => apply andb_true_iff; split
  | |- negb _ = true => apply negb_true_iff
  | |- negb _ = false => apply negb_false_iff
  | |- bool_decide _ = true => apply bool_decide_eq_true
  | |- bool_decide _ = false => apply bool_decide_eq_false
  | |- is_none _ = true => apply is_none_true
  | |- is_none _ = false => apply is_none_false
  end; try done.

(** ** Tables

    A table with a primary key is a finite map from the key to the row; the
    statements below are the SQL forms the handlers use. *)
Section Tables.
Context {K V : Type} `{Countable K}.
Implicit Types (t : gmap K V) (P : K → V → bool) (f : K → V → Z) (g : V → V).

(** [EXISTS (SELECT 1 FROM t WHERE P)]. *)
Definition sel_exists P t : bool := map_fold (λ k v b, P k v || b) false t.

(** [SUM(f)] over the whole table; a row a WHERE clause drops contributes 0. *)
Definition sum_of f t : Z := map_fold (λ k v a, f k v + a)%Z 0%Z t.
Definition sum_where P f t : Z := sum_of (λ k v, if P k v then f k v else 0%Z) t.

(** [COUNT( * )]. *)
Definition count_where P t : Z := sum_where P (λ _ _, 1%Z) t.

(** [UPDATE t SET ... WHERE P]. *)
Definition update_where P g t : gmap K V :=
  map_imap (λ k v, Some (if P k v then g v else v)) t.

(** [UPDATE t SET ...] where the new row depends on the key. *)
Definition update_each (g : K → V → V) t : gmap K V := map_imap (λ k v, Some (g k v)) t.

(** [DELETE FROM t WHERE P]. *)
Definition delete_where P t : gmap K V :=
  map_imap (λ k v, if P k v then None else Some v) t.

(** [SELECT k, row FROM t WHERE P], in the order of the heap scan. *)
Definition select_where P t : list (K * V) :=
  List.filter (λ kv, P kv.1 kv.2) (map_to_list t).

Lemma sel_exists_true P t :
  sel_exists P t = true ↔ ∃ k v, t !! k = Some v ∧ P k v = true.
Proof.
  unfold sel_exists. induction t as [|i x t Hi Hf IH] using map_first_key_ind.
  - rewrite map_fold_empty. set_solver.
  - rewrite map_fold_insert_first_key by done.
    rewrite orb_true_iff, IH. split.
    + intros [HP | (k & v & Hk & HP)].
      * exists i, x. by rewrite lookup_insert_eq.
      * exists k, v. rewrite lookup_insert_ne; naive_solver.
    + intros (k & v & Hk & HP). destruct (decide (i = k)) as [->|Hne].
      * rewrite lookup_insert_eq in Hk. naive_solver.
      * rewrite lookup_insert_ne in Hk by done. naive_solver.
Qed.

Lemma sel_exists_false P t :
  sel_exists P t = false ↔ ∀ k v, t !! k = Some v → P k v = false.
Proof.
  split.
  - intros Hf k v Hk. apply not_true_is_false. intros HP.
    assert (sel_exists P t = true) by (apply sel_exists_true; eauto). congruence.
  - intros Hall. apply not_true_is_false. rewrite sel_exists_true.
    intros (k & v & Hk & HP). rewrite (Hall _ _ Hk) in HP. done.
Qed.

Lemma sum_of_empty f : sum_of f ∅ = 0%Z.
Proof. done. Qed.

Lemma sum_of_insert f t k v :
  t !! k = None → sum_of f (<[k:=v]> t) = (f k v + sum_of f t)%Z.
Proof.
  intros Hk. unfold sum_of. rewrite map_fold_insert_L; [done| |done].
  intros. lia.
Qed.

Lemma sum_of_delete f t k v :
  t !! k = Some v → sum_of f t = (f k v + sum_of f (delete k t))%Z.
Proof.
  intros Hk. rewrite <- (insert_delete_id t k v Hk) at 1.
  by rewrite sum_of_insert by apply lookup_delete_eq.
Qed.

Lemma sum_of_replace f t k v v' :
  t !! k = Some v → sum_of f (<[k:=v']> t) = (sum_of f t - f k v + f k v')%Z.
Proof.
  intros Hk. rewrite <- insert_delete_eq.
  rewrite sum_of_insert by apply lookup_delete_eq.
  rewrite (sum_of_delete f t k v Hk). lia.
Qed.

Lemma sum_of_ext f f' t :
  (∀ k v, t !! k = Some v → f k v = f' k v) → sum_of f t = sum_of f' t.
Proof.
  induction t as [|i x t Hi IH] using map_ind; [done|]. intros Hext.
  rewrite !sum_of_insert by done.
  rewrite (Hext i x) by apply lookup_insert_eq. rewrite IH; [done|].
  intros k v Hk. apply Hext. rewrite lookup_insert_ne; naive_solver.
Qed.

Lemma sum_of_le f f' t :
  (∀ k v, t !! k = Some v → f k v ≤ f' k v)%Z → (sum_of f t ≤ sum_of f' t)%Z.
Proof.
  induction t as [|i x t Hi IH] using map_ind; [done|]. intros Hle.
  rewrite !sum_of_insert by done.
  specialize (Hle i x) as Hix. rewrite lookup_insert_eq in Hix.
  specialize (Hix eq_refl). enough (sum_of f t ≤ sum_of f' t)%Z by lia.
  apply IH. intros k v Hk. apply Hle. rewrite lookup_insert_ne; naive_solver.
Qed.

Lemma sum_of_zero t : sum_of (λ _ _, 0%Z) t = 0%Z.
Proof. induction t using map_ind; [done|]. by rewrite sum_of_insert. Qed.

Lemma sum_of_nonneg f t :
  (∀ k v, t !! k = Some v → 0 ≤ f k v)%Z → (0 ≤ sum_of f t)%Z.
Proof. intros Hf. rewrite <- (sum_of_zero t). by apply sum_of_le. Qed.

(** Sums over a table and a part of it, when the rest contributes nothing. *)
Lemma sum_of_sub f f' t t' :
  (∀ k v', t' !! k = Some v' → ∃ v, t !! k = Some v ∧ f' k v' = f k v) →
  (∀ k v, t !! k = Some v → t' !! k = None → f k v = 0%Z) →
  sum_of f' t' = sum_of f t.
Proof.
  revert t'. induction t as [|i x t Hi IH] using map_ind; intros t' Hsub Hrest.
  - enough (t' = ∅) as -> by done. apply map_eq. intros k. rewrite lookup_empty.
    destruct (t' !! k) eqn:Hk; [|done]. destruct (Hsub _ _ Hk) as (? & Hv & _).
    by rewrite lookup_empty in Hv.
  - rewrite sum_of_insert by done.
    rewrite <- (IH (delete i t')).
    + destruct (t' !! i) as [v'|] eqn:Hv.
      * rewrite (sum_of_delete _ _ _ _ Hv). destruct (Hsub _ _ Hv) as (? & Hx & ->).
        rewrite lookup_insert_eq in Hx. by simplify_eq.
      * rewrite delete_id by done. rewrite (Hrest i x); [lia|by rewrite lookup_insert_eq|done].
    + intros k v' [Hne Hk]%lookup_delete_Some. destruct (Hsub _ _ Hk) as (? & Hx & ?).
      rewrite lookup_insert_ne in Hx by done. eauto.
    + intros k v Hk Hn. assert (i ≠ k) by congruence. apply Hrest.
      * by rewrite lookup_insert_ne.
      * by rewrite lookup_delete_ne in Hn.
Qed.

Lemma count_where_pos P t : (0 < count_where P t)%Z ↔ sel_exists P t = true.
Proof.
  unfold count_where, sum_where. rewrite sel_exists_true. split.
  - intros Hpos. destruct (sel_exists P t) eqn:He.
    + by apply sel_exists_true.
    + rewrite sel_exists_false in He.
      rewrite (sum_of_ext _ (λ _ _, 0%Z)), sum_of_zero in Hpos; [lia|].
      intros k v Hk. by rewrite (He _ _ Hk).
  - intros (k & v & Hk & HP). rewrite (sum_of_delete _ _ _ _ Hk), HP.
    enough (0 ≤ sum_of (λ k v, if P k v then 1 else 0)%Z (delete k t))%Z by lia.
    apply sum_of_nonneg. intros ? ? ?. case_match; lia.
Qed.

Lemma count_where_zero P t : (count_where P t ≤ 0)%Z ↔ sel_exists P t = false.
Proof.
  rewrite <- not_true_iff_false, <- count_where_pos. lia.
Qed.

Lemma sum_of_add f f' t :
  sum_of (λ k v, f k v + f' k v)%Z t = (sum_of f t + sum_of f' t)%Z.
Proof.
  induction t as [|i x t Hi IH] using map_ind; [done|].
  rewrite !sum_of_insert by done. lia.
Qed.

(** A summand present once. *)
Lemma sum_of_unique P t (k : K) (v : V) (z : Z) :
  t !! k = Some v → P k v = true →
  (∀ k' v', t !! k' = Some v' → P k' v' = true → k' = k) →
  sum_of (λ k v, if P k v then z else 0%Z) t = z.
Proof.
  intros Hk HP Hu. rewrite (sum_of_delete _ _ _ _ Hk), HP.
  rewrite (sum_of_ext _ (λ _ _, 0%Z)), sum_of_zero; [lia|].
  intros k' v' [Hne Hk']%lookup_delete_Some. destruct (P k' v') eqn:HP'; [|done].
  destruct Hne. symmetry. by eapply Hu.
Qed.

Lemma lookup_update_where P g t k :
  update_where P g t !! k = (λ v, if P k v then g v else v) <$> t !! k.
Proof. unfold update_where. rewrite map_lookup_imap. by destruct (t !! k). Qed.

Lemma lookup_update_each (g : K → V → V) t k : update_each g t !! k = g k <$> t !! k.
Proof. unfold update_each. rewrite map_lookup_imap. by destruct (t !! k). Qed.

Lemma lookup_update_where_Some P g t k v :
  update_where P g t !! k = Some v ↔
  ∃ v0, t !! k = Some v0 ∧ v = if P k v0 then g v0 else v0.
Proof.
  rewrite lookup_update_where. destruct (t !! k); simpl; naive_solver.
Qed.

Lemma update_where_insert P g t k v :
  update_where P g (<[k:=v]> t) = <[k:=if P k v then g v else v]> (update_where P g t).
Proof.
  apply map_eq. intros j. rewrite lookup_update_where.
  destruct (decide (k = j)) as [->|Hne].
  - by rewrite !lookup_insert_eq.
  - by rewrite !lookup_insert_ne, lookup_update_where.
Qed.

Lemma update_where_id P g t :
  (∀ k v, t !! k = Some v → P k v = true → g v = v) → update_where P g t = t.
Proof.
  intros Hid. apply map_eq. intros k. rewrite lookup_update_where.
  destruct (t !! k) as [v|] eqn:Hk; [simpl|done].
  destruct (P k v) eqn:HP; [|done]. by rewrite (Hid k v).
Qed.

(** An UPDATE by primary key. *)
Lemma update_where_key k g t v :
  t !! k = Some v → update_where (λ j _, j == k) g t = <[k := g v]> t.
Proof.
  intros Hk. apply map_eq. intros j. rewrite lookup_update_where.
  destruct (decide (j = k)) as [->|Hne].
  - rewrite Hk, lookup_insert_eq. cbn. by rewrite bool_decide_eq_true_2.
  - rewrite lookup_insert_ne, bool_decide_eq_false_2 by done. by destruct (t !! j).
Qed.

Lemma update_where_key_None k g t :
  t !! k = None → update_where (λ j _, j == k) g t = t.
Proof.
  intros Hk. apply update_where_id. intros j v Hj He. bool_simpl.
Qed.

Lemma sum_of_update_where P g f t :
  sum_of f (update_where P g t) = sum_of (λ k v, f k (if P k v then g v else v)) t.
Proof.
  induction t as [|i x t Hi IH] using map_ind; [done|].
  rewrite update_where_insert.
  rewrite !sum_of_insert; [by rewrite IH|done|].
  by rewrite lookup_update_where, Hi.
Qed.

Lemma sum_of_update_where_same P g f t :
  (∀ k v, t !! k = Some v → P k v = true → f k (g v) = f k v) →
  sum_of f (update_where P g t) = sum_of f t.
Proof.
  intros Hsame. rewrite sum_of_update_where. apply sum_of_ext.
  intros k v Hk. destruct (P k v) eqn:HP; [|done]. eauto.
Qed.

Lemma lookup_delete_where P t k :
  delete_where P t !! k = t !! k ≫= (λ v, if P k v then None else Some v).
Proof. unfold delete_where. by rewrite map_lookup_imap. Qed.

Lemma lookup_delete_where_Some P t k v :
  delete_where P t !! k = Some v ↔ t !! k = Some v ∧ P k v = false.
Proof.
  rewrite lookup_delete_where. destruct (t !! k) as [v0|]; cbn; [|by split; [|intros []]].
  split.
  - destruct (P k v0) eqn:HP; [done|]. by intros [= <-].
  - intros [[= ->] HP]. by rewrite HP.
Qed.

Lemma sum_of_delete_where P f t :
  sum_of f (delete_where P t) = sum_of (λ k v, if P k v then 0%Z else f k v) t.
Proof.
  apply sum_of_sub.
  - intros k v [Hk HP]%lookup_delete_where_Some. exists v. by rewrite HP.
  - intros k v Hk Hn. rewrite lookup_delete_where, Hk in Hn. cbn in Hn. by destruct (P k v).
Qed.

(** The rows a WHERE clause keeps, as a table. *)
Definition rows_where P t : gmap K V := delete_where (λ k v, negb (P k v)) t.

Lemma lookup_rows_where P t k v : rows_where P t !! k = Some v ↔ t !! k = Some v ∧ P k v = true.
Proof. unfold rows_where. by rewrite lookup_delete_where_Some, negb_false_iff. Qed.

Lemma rows_where_same P P' t t' :
  (∀ k v, t !! k = Some v ∧ P k v = true ↔ t' !! k = Some v ∧ P' k v = true) →
  rows_where P t = rows_where P' t'.
Proof. intros Heq. apply map_eq. intros k. apply option_eq. intros v. by rewrite !lookup_rows_where. Qed.

Lemma sum_where_rows P f t : sum_where P f t = sum_of f (rows_where P t).
Proof.
  unfold rows_where. rewrite sum_of_delete_where. apply sum_of_ext. intros k v _. by destruct (P k v).
Qed.

Lemma sum_of_one t : sum_of (λ _ _, 1%Z) t = Z.of_nat (size t).
Proof.
  induction t as [|i x t Hi IH] using map_ind; [done|].
  rewrite sum_of_insert, map_size_insert_None, IH by done. lia.
Qed.

Lemma count_where_size P t : count_where P t = Z.of_nat (size (dom (rows_where P t))).
Proof. unfold count_where. by rewrite sum_where_rows, sum_of_one, size_dom. Qed.

Lemma elem_of_select_where P t k v :
  (k, v) ∈ select_where P t ↔ t !! k = Some v ∧ P k v = true.
Proof.
  unfold select_where. rewrite list_elem_of_In, filter_In, <- list_elem_of_In.
  rewrite elem_of_map_to_list. done.
Qed.

Lemma select_where_nil P t : select_where P t = [] ↔ sel_exists P t = false.
Proof.
  rewrite sel_exists_false. split.
  - intros Hn k v Hk. apply not_true_is_false. intros HP.
    assert ((k, v) ∈ select_where P t) as Hin by by apply elem_of_select_where.
    rewrite Hn in Hin. set_solver.
  - intros Hall. destruct (select_where P t) as [|[k v] l] eqn:E; [done|].
    assert ((k, v) ∈ select_where P t) as Hin by (rewrite E; left).
    apply elem_of_select_where in Hin as [Hk HP]. rewrite (Hall _ _ Hk) in HP. done.
Qed.

Lemma NoDup_select_where P t : NoDup (select_where P t).*1.
Proof.
  unfold select_where.
  pose proof (NoDup_fst_map_to_list t) as Hnd. revert Hnd.
  generalize (map_to_list t). intros l.
  induction l as [|[k v] l IH]; simpl; [constructor|].
  rewrite NoDup_cons. intros [Hk Hnd]. specialize (IH Hnd).
  destruct (P k v); simpl; [|done]. rewrite NoDup_cons. split; [|done].
  intros Hin. apply Hk. rewrite list_elem_of_fmap in *.
  destruct Hin as ([k' v'] & Heq & Hin). exists (k', v'). split; [done|].
  rewrite list_elem_of_In, filter_In in Hin. rewrite list_elem_of_In. tauto.
Qed.
End Tables.

(** The order of a double sum over two tables. *)
Lemma sum_of_exchange {K1 V1 K2 V2} `{Countable K1, Countable K2}
    (g : K1 → V1 → K2 → V2 → Z) (t1 : gmap K1 V1) (t2 : gmap K2 V2) :
  sum_of (λ k1 v1, sum_of (g k1 v1) t2) t1 =
  sum_of (λ k2 v2, sum_of (λ k1 v1, g k1 v1 k2 v2) t1) t2.
Proof.
  induction t1 as [|k v t1 Hk IH] using map_ind.
  - rewrite sum_of_empty. symmetry. apply (sum_of_zero t2).
  - rewrite sum_of_insert, IH, <- sum_of_add by done. apply sum_of_ext. intros k2 v2 _.
    by rewrite sum_of_insert.
Qed.

(** Folds with the same step. *)
Lemma foldl_step_ext {A B} (f g : A → B → A) l a :
  (∀ a x, f a x = g a x) → foldl f a l = foldl g a l.
Proof. intros Hfg. revert a. induction l as [|x l IH]; intros a; [done|]. cbn. by rewrite Hfg, IH. Qed.
