(* ===== verification/Effect.v ===== *)
(** * Effects

    The handlers run inside one database transaction and return a [Result].
    [M S E A] is a computation over the state [S] that ends with [Ok] or with
    an error [E]; an error carries no state, because the transaction that
    raised it is rolled back (see [Errors.run_request]).  The file also holds
    the record-update notation the table rows are updated with. *)

From Stdlib Require Import ZArith.
From stdpp Require Import base tactics decidable option list.
From S2P Require Import Prelude.

(** ** [Result] *)

Inductive result (E A : Type) : Type :=
| Ok (a : A)
| Err (e : E).
Arguments Ok {E A} a.
Arguments Err {E A} e.

Definition is_ok {E A} (r : result E A) : bool :=
  match r with Ok _ => true | Err _ => false end.

Global Instance result_bind E : MBind (result E) := λ A B k r,
  match r with Ok a => k a | Err e => Err e end.
Global Instance result_ret E : MRet (result E) := λ A, Ok.

Definition ok_or {E A} (e : E) (o : option A) : result E A :=
  match o with Some a => Ok a | None => Err e end.

(** ** The transaction monad *)

Definition M (S E A : Type) : Type := S → result E (A * S).

Global Instance M_ret S E : MRet (M S E) := λ A a s, Ok (a, s).
Global Instance M_bind S E : MBind (M S E) := λ A B k m s,
  match m s with Ok (a, s') => k a s' | Err e => Err e end.

Definition throw {S E A} (e : E) : M S E A := λ _, Err e.

(** A query that only reads. *)
Definition reads {S E A} (f : S → A) : M S E A := λ s, Ok (f s, s).

(** A statement that only writes. *)
Definition modify {S E} (f : S → S) : M S E unit := λ s, Ok (tt, f s).

(** [if bad { return Err(e) }], as its negation. *)
Definition ensure {S E} (b : bool) (e : E) : M S E unit :=
  if b then mret tt else throw e.

(** [opt.ok_or(e)?]. *)
Definition expect {S E A} (e : E) (o : option A) : M S E A :=
  match o with Some a => mret a | None => throw e end.

(** [result?], when the error type is already the right one. *)
Definition of_result {S E A} (r : result E A) : M S E A :=
  match r with Ok a => mret a | Err e => throw e end.

(** [Result::map_err]. *)
Definition map_err {S E E' A} (f : E → E') (m : M S E A) : M S E' A := λ s,
  match m s with Ok r => Ok r | Err e => Err (f e) end.

(** [for x in xs { body(x)? }]. *)
Fixpoint for_each {S E X} (body : X → M S E unit) (xs : list X) : M S E unit :=
  match xs with
  | [] => mret tt
  | x :: rest => _ ← body x; for_each body rest
  end.

(** [when c m] is [if c { m }]. *)
Definition when {S E} (c : bool) (m : M S E unit) : M S E unit :=
  if c then m else mret tt.

(** The outcome of [m] as a value, for a caller that goes on after an error;
    a failed statement has no effect. *)
Definition attempt {S E E' A} (m : M S E A) : M S E' (result E A) := λ s,
  match m s with
  | Ok (a, s') => Ok (Ok a, s')
  | Err e => Ok (Err e, s)
  end.

(** [for x in xs { acc = body(acc, x)? }]. *)
Fixpoint fold_each {S E X A} (body : A → X → M S E A) (xs : list X) (a : A) : M S E A :=
  match xs with
  | [] => mret a
  | x :: rest => a' ← body a x; fold_each body rest a'
  end.

Section Inversion.
Context {S E E' A B : Type}.
Implicit Types (m : M S E A) (s : S).

Lemma bind_Ok m (k : A → M S E B) s b s'' :
  (m ≫= k) s = Ok (b, s'') ↔ ∃ a s', m s = Ok (a, s') ∧ k a s' = Ok (b, s'').
Proof.
  unfold mbind, M_bind. destruct (m s) as [[a s']|e]; naive_solver.
Qed.

Lemma bind_Err m (k : A → M S E B) s e :
  (m ≫= k) s = Err e ↔ m s = Err e ∨ ∃ a s', m s = Ok (a, s') ∧ k a s' = Err e.
Proof.
  unfold mbind, M_bind. destruct (m s) as [[a s']|e']; naive_solver.
Qed.

Lemma ret_Ok (a b : A) s s' : (mret a : M S E A) s = Ok (b, s') ↔ b = a ∧ s' = s.
Proof. unfold mret, M_ret. naive_solver. Qed.

Lemma throw_Ok (e : E) (a : A) s s' : (throw e : M S E A) s = Ok (a, s') ↔ False.
Proof. unfold throw. naive_solver. Qed.

Lemma reads_Ok (f : S → A) a s s' :
  (reads f : M S E A) s = Ok (a, s') ↔ a = f s ∧ s' = s.
Proof. unfold reads. naive_solver. Qed.

Lemma modify_Ok (f : S → S) u s s' :
  (modify f : M S E unit) s = Ok (u, s') ↔ s' = f s.
Proof. destruct u. unfold modify. naive_solver. Qed.

Lemma ensure_Ok (c : bool) (e : E) u s s' :
  (ensure c e : M S E unit) s = Ok (u, s') ↔ c = true ∧ s' = s.
Proof. destruct u, c; unfold ensure, mret, M_ret, throw; naive_solver. Qed.

Lemma expect_Ok (e : E) (o : option A) a s s' :
  (expect e o : M S E A) s = Ok (a, s') ↔ o = Some a ∧ s' = s.
Proof. destruct o; unfold expect, mret, M_ret, throw; naive_solver. Qed.

Lemma of_result_Ok (r : result E A) a s s' :
  (of_result r : M S E A) s = Ok (a, s') ↔ r = Ok a ∧ s' = s.
Proof. destruct r; unfold of_result, mret, M_ret, throw; naive_solver. Qed.

Lemma map_err_Ok (f : E → E') m a s s' :
  map_err f m s = Ok (a, s') ↔ m s = Ok (a, s').
Proof. unfold map_err. destruct (m s); naive_solver. Qed.

Lemma when_Ok (c : bool) (m : M S E unit) u s s' :
  when c m s = Ok (u, s') ↔ if c then m s = Ok (u, s') else s' = s.
Proof. destruct u, c; unfold when, mret, M_ret; naive_solver. Qed.
End Inversion.

Lemma for_each_nil {S E X} (body : X → M S E unit) s u s' :
  for_each body [] s = Ok (u, s') ↔ s' = s.
Proof. destruct u. simpl. rewrite ret_Ok. naive_solver. Qed.

(** A loop preserves what its body preserves. *)
Lemma for_each_inv {S E X} (I : S → Prop) (body : X → M S E unit) xs s u s' :
  (∀ x s u s', x ∈ xs → body x s = Ok (u, s') → I s → I s') →
  for_each body xs s = Ok (u, s') → I s → I s'.
Proof.
  revert s u. induction xs as [|x xs IH]; intros s u Hbody Hrun Hs.
  - apply for_each_nil in Hrun. by subst.
  - simpl in Hrun. apply bind_Ok in Hrun as (? & s1 & Hx & Hrest).
    eapply IH; [|exact Hrest|].
    + intros. eapply Hbody; [|done|done]. by right.
    + eapply Hbody; [|exact Hx|done]. left.
Qed.

Lemma attempt_Ok {S E E' A} (m : M S E A) r s s' :
  (attempt m : M S E' _) s = Ok (r, s') ↔
  (∃ a, r = Ok a ∧ m s = Ok (a, s')) ∨ (∃ e, r = Err e ∧ m s = Err e ∧ s' = s).
Proof. unfold attempt. destruct (m s) as [[a s1]|e]; naive_solver. Qed.

Lemma fold_each_inv {S E X A} (I : A → S → Prop) (body : A → X → M S E A) xs s a a' s' :
  (∀ x s a a' s', x ∈ xs → body a x s = Ok (a', s') → I a s → I a' s') →
  fold_each body xs a s = Ok (a', s') → I a s → I a' s'.
Proof.
  revert s a. induction xs as [|x xs IH]; intros s a Hbody Hrun Hs.
  - cbn in Hrun. apply ret_Ok in Hrun as [-> ->]. done.
  - cbn in Hrun. apply bind_Ok in Hrun as (a1 & s1 & Hx & Hrest).
    eapply IH; [|exact Hrest|].
    + intros. eapply Hbody; [|done|done]. by right.
    + eapply Hbody; [|exact Hx|done]. left.
Qed.

(** Splits a successful run into the runs of its statements. *)
Ltac inv_M_step :=
  match goal with
  | H : (_ ≫= _) _ = Ok _ |- _ => apply bind_Ok in H as (? & ? & ? & H)
  | H : mbind _ _ _ = Ok _ |- _ => apply bind_Ok in H as (? & ? & ? & H)
  | H : mret _ _ = Ok _ |- _ => apply ret_Ok in H as [? ?]
  | H : throw _ _ = Ok _ |- _ => apply throw_Ok in H; destruct H
  | H : reads _ _ = Ok _ |- _ => apply reads_Ok in H as [? ?]
  | H : modify _ _ = Ok _ |- _ => apply modify_Ok in H
  | H : ensure _ _ _ = Ok _ |- _ => apply ensure_Ok in H as [? ?]
  | H : expect _ _ _ = Ok _ |- _ => apply expect_Ok in H as [? ?]
  | H : of_result _ _ = Ok _ |- _ => apply of_result_Ok in H as [? ?]
  | H : map_err _ _ _ = Ok _ |- _ => apply map_err_Ok in H
  | H : Ok _ = Ok _ |- _ => injection H; clear H; intros
  | H : Err _ = Ok _ |- _ => discriminate H
  | H : False |- _ => destruct H
  | u : unit |- _ => destruct u
  end.
Ltac inv_M := repeat (inv_M_step; subst; simpl in * ).

Lemma is_ok_run {E A} (r : result E A) : is_ok r = true → ∃ a, r = Ok a.
Proof. destruct r; [by eexists|done]. Qed.

(** Runs a computation on a concrete state, where it evaluates to [Ok]. *)
Ltac run_concrete t a s' H :=
  destruct (is_ok_run t) as [[a s'] H]; [vm_compute; reflexivity|].

(** What a concrete run left, read without spelling the state out. *)
Lemma run_reads {E A S B} (q : A → S → B) (r : result E (A * S)) a s b :
  r = Ok (a, s) → match r with Ok (a, s) => q a s = b | Err _ => False end → q a s = b.
Proof. by intros ->. Qed.

(** ** Record update

    [r <| f := v |>] is [r] with field [f] replaced, as in an [UPDATE ... SET].
    A record type is given its eta-expansion once; the setter of each field is
    built from it. *)

Class Settable (R : Type) := eta_of : R → R.
Class Setter {R T : Type} (proj : R → T) := set : (T → T) → R → R.
Arguments set {R T} proj {_} _ _ : simpl never.

Ltac build_setter proj :=
  let R := match type of proj with ?R → _ => R end in
  exact (λ (f : _ → _) (r : R),
    ltac:(let body := eval hnf in (eta_of r) in
          match body with
          | context C [proj r] => let t := context C [f (proj r)] in exact t
          end)).

Hint Extern 1 (Setter ?proj) => build_setter proj : typeclass_instances.

Declare Scope update_scope.
Open Scope update_scope.
Notation "r <| f := v |>" := (set f (λ _, v) r)
  (at level 12, left associativity, f at level 9, v at level 200,
   format "r  <|  f  :=  v  |>") : update_scope.
Notation "r <| f ::= g |>" := (set f g r)
  (at level 12, left associativity, f at level 9, g at level 200,
   format "r  <|  f  ::=  g  |>") : update_scope.
