(* ===== verification/Text.v ===== *)
(** * Text

    Database text is a UTF-8 byte string.  [is_blank] is Rust's
    [s.trim().is_empty()]: every character is [char::is_whitespace], the 25
    code points with the Unicode property White_Space, here in their UTF-8
    encodings. *)

From Stdlib Require Import NArith Ascii String.
From stdpp Require Import base tactics decidable list strings.
From S2P Require Import Prelude.
Local Open Scope N_scope.

Fixpoint bytes_of (s : string) : list N :=
  match s with
  | EmptyString => []
  | String c rest => N_of_ascii c :: bytes_of rest
  end.

(** The bytes left after one whitespace character at the front, if any. *)
Definition skip_whitespace (bs : list N) : option (list N) :=
  match bs with
  | 0xC2 :: b :: rest => if (b =? 0x85) || (b =? 0xA0) then Some rest else None
  | 0xE1 :: 0x9A :: 0x80 :: rest => Some rest
  | 0xE2 :: 0x80 :: b :: rest =>
      if ((0x80 <=? b) && (b <=? 0x8A)) || (b =? 0xA8) || (b =? 0xA9) || (b =? 0xAF)
      then Some rest else None
  | 0xE2 :: 0x81 :: 0x9F :: rest => Some rest
  | 0xE3 :: 0x80 :: 0x80 :: rest => Some rest
  | b :: rest => if ((9 <=? b) && (b <=? 13)) || (b =? 32) then Some rest else None
  | [] => None
  end.

Fixpoint blank_bytes (fuel : nat) (bs : list N) : bool :=
  match bs, fuel with
  | [], _ => true
  | _, O => false
  | _, S fuel' =>
      match skip_whitespace bs with
      | Some rest => blank_bytes fuel' rest
      | None => false
      end
  end.

(** Every step consumes a byte, so the length is enough fuel. *)
Definition is_blank (s : string) : bool :=
  blank_bytes (length (bytes_of s)) (bytes_of s).

(** [nullif(btrim(s), '') IS NULL]: [btrim] strips the space character only. *)
Definition btrim_empty (s : string) : bool := forallb (λ b, b =? 32) (bytes_of s).

Lemma skip_whitespace_consumes bs rest :
  skip_whitespace bs = Some rest → (length rest < length bs)%nat.
Proof. unfold skip_whitespace. intros H. repeat case_match; simplify_eq/=; lia. Qed.

(** More fuel than bytes changes nothing. *)
Lemma blank_bytes_fuel fuel bs :
  (length bs ≤ fuel)%nat → blank_bytes fuel bs = blank_bytes (length bs) bs.
Proof.
  cut (∀ m, (length bs ≤ fuel)%nat → (length bs ≤ m)%nat → blank_bytes fuel bs = blank_bytes m bs).
  { intros H Hl. by apply H. }
  revert bs. induction fuel as [|fuel IH]; intros [|b bs] m Hf Hm; cbn [length] in *; try lia.
  - by destruct m.
  - by destruct m.
  - destruct m as [|m]; [lia|]. cbn [blank_bytes].
    destruct (skip_whitespace (b :: bs)) as [rest|] eqn:Hs; [|done].
    apply skip_whitespace_consumes in Hs. cbn [length] in Hs. apply IH; lia.
Qed.

(** A note the schema calls blank is blank for the handler too. *)
Lemma btrim_empty_blank s : btrim_empty s = true → is_blank s = true.
Proof.
  unfold btrim_empty, is_blank. generalize (bytes_of s). intros bs.
  induction bs as [|b bs IH]; [done|]. cbn [forallb length]. intros [Hb Hbs]%andb_true_iff.
  apply N.eqb_eq in Hb as ->. cbn. by apply IH.
Qed.

Example is_blank_nbsp :
  is_blank (String (ascii_of_N 0xC2) (String (ascii_of_N 0xA0) (String " " EmptyString))) = true.
Proof. reflexivity. Qed.
