(* ===== verification/Unicode.v ===== *)
(** * Unicode text

    A [String] of the Rust code that is handled character by character is a
    list of Unicode scalar values.  These are the [str] methods such code
    calls: trimming, splitting, [lines], the integer and float parsers, and
    the UTF-8 encoding a string has when it is measured or stored. *)

From Stdlib Require Import ZArith Lia Ascii.
From stdpp Require Import base tactics decidable option list strings.
From S2P Require Import Prelude Effect.

Abbreviation Str := (list N) (only parsing).

Local Open Scope N_scope.

(** ** Characters *)

(** [char::is_whitespace], the Unicode property White_Space. *)
Definition is_whitespace (c : N) : bool :=
  ((9 <=? c) && (c <=? 13)) || (c =? 32) || (c =? 0x85) || (c =? 0xA0) || (c =? 0x1680)
  || ((0x2000 <=? c) && (c <=? 0x200A)) || (c =? 0x2028) || (c =? 0x2029) || (c =? 0x202F)
  || (c =? 0x205F) || (c =? 0x3000).

Definition is_digit (c : N) : bool := (48 <=? c) && (c <=? 57).

(** ASCII case folding, as the keyword part of the float grammar uses it. *)
Definition ascii_lower (c : N) : N := if (65 <=? c) && (c <=? 90) then c + 32 else c.

(** The characters of an ASCII literal, and the UTF-8 bytes of a text. *)
Fixpoint str (s : string) : Str :=
  match s with
  | EmptyString => []
  | String a rest => N_of_ascii a :: str rest
  end.

Definition utf8_char (c : N) : list N :=
  if c <? 0x80 then [c]
  else if c <? 0x800 then [0xC0 + c / 64; 0x80 + c mod 64]
  else if c <? 0x10000 then [0xE0 + c / 4096; 0x80 + c / 64 mod 64; 0x80 + c mod 64]
  else [0xF0 + c / 262144; 0x80 + c / 4096 mod 64; 0x80 + c / 64 mod 64; 0x80 + c mod 64].

Definition utf8 (s : Str) : string :=
  foldr (λ b rest, String (ascii_of_N b) rest) EmptyString (s ≫= utf8_char).

(** [str::len]: bytes, not characters. *)
Definition byte_len (s : Str) : nat := length (s ≫= utf8_char).

(** ** Trimming and splitting *)

Fixpoint drop_while (P : N → bool) (s : Str) : Str :=
  match s with
  | [] => []
  | c :: rest => if P c then drop_while P rest else s
  end.

Definition trim_start (s : Str) : Str := drop_while is_whitespace s.
Definition trim_end (s : Str) : Str := rev (drop_while is_whitespace (rev s)).
Definition trim (s : Str) : Str := trim_end (trim_start s).

(** [s.replace(from, to)] and [s.replace(from, "")] for one character. *)
Definition replace_char (from to : N) (s : Str) : Str := (λ c, if c =? from then to else c) <$> s.
Definition remove_char (d : N) (s : Str) : Str := List.filter (λ c, negb (c =? d)) s.

(** [s.split(d)]: one more piece than there are separators. *)
Fixpoint split (d : N) (s : Str) : list Str :=
  match s with
  | [] => [[]]
  | c :: rest =>
      let pieces := split d rest in
      if c =? d then [] :: pieces
      else match pieces with
           | [] => [[c]]
           | p :: ps => (c :: p) :: ps
           end
  end.

(** [s.split_once(d)]: what precedes and follows the first [d]. *)
Fixpoint strip_prefix (d s : Str) : option Str :=
  match d, s with
  | [], _ => Some s
  | a :: d, b :: s => if a =? b then strip_prefix d s else None
  | _ :: _, [] => None
  end.
Fixpoint split_once (d s : Str) : option (Str * Str) :=
  match strip_prefix d s with
  | Some rest => Some ([], rest)
  | None => match s with
            | [] => None
            | c :: s => (λ '(pre, post), (c :: pre, post)) <$> split_once d s
            end
  end.

(** [s.split_whitespace()]: the non-empty runs between white space; [cur] is
    the run being read, reversed. *)
Fixpoint words (cur s : Str) : list Str :=
  let flush := match cur with [] => [] | _ => [rev cur] end in
  match s with
  | [] => flush
  | c :: rest => if is_whitespace c then flush ++ words [] rest else words (c :: cur) rest
  end.
Definition split_whitespace (s : Str) : list Str := words [] s.

(** [s.lines()]: pieces ended by a line feed, each without the feed and one
    carriage return before it; what follows the last feed is a line when it is
    not empty. *)
Definition strip_cr (cur : Str) : Str :=
  match cur with 13 :: r => rev r | _ => rev cur end.
Fixpoint lines_from (cur s : Str) : list Str :=
  match s with
  | [] => match cur with [] => [] | _ => [rev cur] end
  | c :: rest => if c =? 10 then strip_cr cur :: lines_from [] rest
                 else lines_from (c :: cur) rest
  end.
Definition lines (s : Str) : list Str := lines_from [] s.

(** [tokens.join(sep)]. *)
Fixpoint join (sep : Str) (ts : list Str) : Str :=
  match ts with
  | [] => []
  | [t] => t
  | t :: rest => t ++ sep ++ join sep rest
  end.

(** ** Numbers *)

Definition digits_value (acc : Z) (s : Str) : Z :=
  foldl (λ a c, a * 10 + Z.of_N (c - 48))%Z acc s.

Definition all_digits (s : Str) : bool := forallb is_digit s.

(** An optional sign at the front. *)
Definition take_sign (s : Str) : Z * Str :=
  match s with
  | c :: r => if c =? 43 then (1%Z, r) else if c =? 45 then ((-1)%Z, r) else (1%Z, s)
  | [] => (1%Z, s)
  end.

(** [s.parse::<i64>().ok()]. *)
Definition parse_i64 (s : Str) : option Z :=
  let '(sign, ds) := take_sign s in
  if bool_decide (ds = []) || negb (all_digits ds) then None
  else let v := (sign * digits_value 0 ds)%Z in if in_i64 v then Some v else None.

(** The digits at the front, and what follows them. *)
Fixpoint take_digits (s : Str) : Str * Str :=
  match s with
  | c :: rest => if is_digit c then let '(d, r) := take_digits rest in (c :: d, r) else ([], s)
  | [] => ([], [])
  end.

(** An optional exponent, up to the end. *)
Definition float_tail (s : Str) : bool :=
  match s with
  | [] => true
  | c :: r => (ascii_lower c =? 101) && negb (bool_decide ((take_sign r).2 = [])) &&
              all_digits (take_sign r).2
  end.

(** [s.parse::<f64>().is_ok()], by the grammar of [f64::from_str]. *)
Definition parses_f64 (s : Str) : bool :=
  let u := (take_sign s).2 in
  let l := ascii_lower <$> u in
  if bool_decide (l = str "inf") || bool_decide (l = str "infinity") ||
     bool_decide (l = str "nan") then true
  else
    let '(int, r) := take_digits u in
    match r with
    | 46 :: r' =>
        let '(frac, r'') := take_digits r' in
        negb (bool_decide (int = []) && bool_decide (frac = [])) && float_tail r''
    | _ => negb (bool_decide (int = [])) && float_tail r
    end.

(** ** Lemmas *)

Lemma drop_while_suffix P s : ∃ p, s = p ++ drop_while P s.
Proof.
  induction s as [|c s [p IH]]; [by exists []|]. cbn. destruct (P c); [|by exists []].
  exists (c :: p). cbn. by rewrite <- IH.
Qed.

Lemma drop_while_head P s c r : drop_while P s = c :: r → P c = false.
Proof. induction s as [|d s IH]; [done|]. cbn. destruct (P d) eqn:Hd; [done|]. by intros [= -> ->]. Qed.

Lemma drop_while_id P s : (∀ c r, s = c :: r → P c = false) → drop_while P s = s.
Proof. destruct s as [|c r]; [done|]. intros H. cbn. by rewrite (H c r eq_refl). Qed.

Lemma drop_while_all P s : forallb P s = true → drop_while P s = [].
Proof. induction s as [|c s IH]; [done|]. cbn. intros [-> H]%andb_true_iff. eauto. Qed.

(** No white space at either end. *)
Definition trimmed (s : Str) : Prop :=
  (∀ c r, s = c :: r → is_whitespace c = false) ∧
  (∀ c r, s = r ++ [c] → is_whitespace c = false).

Lemma trim_id s : trimmed s → trim s = s.
Proof.
  intros [Hs He]. unfold trim, trim_end, trim_start. rewrite (drop_while_id _ s) by done.
  rewrite drop_while_id, rev_involutive; [done|]. intros c r Hr.
  apply (He c (rev r)). apply (f_equal (@rev N)) in Hr. by rewrite rev_involutive in Hr.
Qed.

Lemma trim_trimmed s : trimmed (trim s).
Proof.
  unfold trim. set (t := trim_start s).
  assert (∀ c r, t = c :: r → is_whitespace c = false) as Ht by (intros c r; apply drop_while_head).
  clearbody t. unfold trim_end. destruct (drop_while_suffix is_whitespace (rev t)) as [p Hp].
  split.
  - intros c r Hr. destruct t as [|d t]; [done|]. apply (f_equal (@rev N)) in Hp.
    rewrite rev_involutive, rev_app_distr, Hr in Hp. injection Hp as -> _. by eapply Ht.
  - intros c r Hr. apply (f_equal (@rev N)) in Hr. rewrite rev_involutive, rev_app_distr in Hr.
    exact (drop_while_head _ _ _ _ Hr).
Qed.

Lemma trim_blank s : forallb is_whitespace s = true → trim s = [].
Proof. intros H. unfold trim, trim_start. by rewrite drop_while_all. Qed.

(** ** Decimal numerals *)

(** The digits of [n] before [acc]; the number of digits of [n] is enough fuel. *)
Fixpoint show_digits (fuel : nat) (n : N) (acc : Str) : Str :=
  match fuel with
  | O => acc
  | S fuel' =>
      let acc' := (48 + n mod 10) :: acc in
      if n / 10 =? 0 then acc' else show_digits fuel' (n / 10) acc'
  end.
Definition show (n : N) : Str := show_digits (S (N.to_nat (N.log2 n))) n [].

Lemma show_digits_value fuel n acc :
  n < 2 ^ N.of_nat fuel →
  digits_value 0 (show_digits fuel n acc) = digits_value (Z.of_N n) acc.
Proof.
  revert n acc. induction fuel as [|fuel IH]; intros n acc Hn.
  - cbn in Hn. assert (n = 0) as -> by lia. done.
  - rewrite Nat2N.inj_succ, N.pow_succ_r' in Hn.
    assert (n = 10 * (n / 10) + n mod 10) as Hd by (apply N.div_mod; lia).
    pose proof (N.mod_lt n 10 ltac:(lia)) as Hm.
    cbn [show_digits]. set (q := n / 10) in *. set (r := n mod 10) in *. clearbody q r.
    assert (Z.of_N q * 10 + Z.of_N (48 + r - 48) = Z.of_N n)%Z as Hz by lia.
    destruct (N.eqb_spec q 0) as [H0|H0].
    + unfold digits_value at 1. cbn [foldl]. fold (digits_value (0 * 10 + Z.of_N (48 + r - 48)) acc).
      f_equal. subst q. lia.
    + rewrite IH by lia. unfold digits_value at 1. cbn [foldl]. by rewrite Hz.
Qed.

Lemma show_value n : digits_value 0 (show n) = Z.of_N n.
Proof.
  unfold show. rewrite show_digits_value; [done|]. rewrite Nat2N.inj_succ, N2Nat.id.
  destruct (decide (n = 0)) as [->|Hn]; [done|]. apply N.log2_spec. lia.
Qed.

Lemma show_digits_digits fuel n acc :
  all_digits acc = true → all_digits (show_digits fuel n acc) = true.
Proof.
  revert n acc. induction fuel as [|fuel IH]; intros n acc Ha; [done|]. cbn [show_digits].
  assert (all_digits ((48 + n mod 10) :: acc) = true) as Ha'.
  { cbn [all_digits forallb]. rewrite andb_true_iff. split; [|done]. unfold is_digit.
    pose proof (N.mod_lt n 10 ltac:(lia)) as Hm. set (r := n mod 10) in *. clearbody r.
    rewrite andb_true_iff, !N.leb_le. lia. }
  destruct (_ =? 0); [done|]. by apply IH.
Qed.

Lemma show_all_digits n : all_digits (show n) = true.
Proof. by apply show_digits_digits. Qed.

Lemma show_digits_length fuel n acc : (length acc ≤ length (show_digits fuel n acc))%nat.
Proof.
  revert n acc. induction fuel as [|fuel IH]; intros n acc; [done|]. cbn [show_digits].
  destruct (_ =? 0); [cbn; lia|]. etransitivity; [|apply IH]. cbn. lia.
Qed.

Lemma show_not_nil n : show n ≠ [].
Proof.
  unfold show. cbn [show_digits]. destruct (_ =? 0); [done|].
  pose proof (show_digits_length (N.to_nat (N.log2 n)) (n / 10) [48 + n mod 10]) as Hl.
  intros He. rewrite He in Hl. cbn in Hl. lia.
Qed.

Lemma all_digits_Forall s : all_digits s = true ↔ Forall (λ c, 48 ≤ c ≤ 57) s.
Proof.
  unfold all_digits. rewrite forallb_forall, Forall_forall. setoid_rewrite list_elem_of_In.
  unfold is_digit. setoid_rewrite andb_true_iff. setoid_rewrite N.leb_le. done.
Qed.

Lemma parse_i64_digits s :
  s ≠ [] → all_digits s = true → (digits_value 0 s ≤ i64_max)%Z →
  parse_i64 s = Some (digits_value 0 s).
Proof.
  intros Hn Hd Hm. destruct s as [|c r]; [done|]. unfold parse_i64, take_sign.
  pose proof (proj1 (all_digits_Forall _) Hd) as Hf. apply Forall_cons in Hf as [Hc _].
  destruct (N.eqb_spec c 43); [lia|]. destruct (N.eqb_spec c 45); [lia|].
  rewrite bool_decide_eq_false_2, Hd, Z.mul_1_l by done. cbn [orb negb].
  rewrite (proj2 (in_i64_spec _)); [done|]. split; [|done].
  assert (∀ acc s, 0 ≤ acc → 0 ≤ digits_value acc s)%Z as Hpos.
  { intros acc s. revert acc. induction s as [|d s IH]; intros acc Ha; [done|]. cbn. apply IH. lia. }
  pose proof (Hpos 0%Z (c :: r) ltac:(lia)). unfold i64_min. lia.
Qed.

(** ** Splitting what was joined *)

Lemma split_none d s : d ∉ s → split d s = [s].
Proof.
  induction s as [|c s IH]; intros Hd; [done|]. cbn. apply not_elem_of_cons in Hd as [Hne Hd].
  rewrite (IH Hd). by destruct (N.eqb_spec c d); [congruence|].
Qed.

Lemma split_app d s t : d ∉ s → split d (s ++ d :: t) = s :: split d t.
Proof.
  induction s as [|c s IH]; intros Hd.
  - cbn. by rewrite N.eqb_refl.
  - cbn. apply not_elem_of_cons in Hd as [Hne Hd]. rewrite (IH Hd).
    by destruct (N.eqb_spec c d); [congruence|].
Qed.

Lemma lines_from_app cur s t :
  10 ∉ s → lines_from cur (s ++ 10 :: t) = strip_cr (rev s ++ cur) :: lines_from [] t.
Proof.
  revert cur. induction s as [|c s IH]; intros cur Hs; [done|]. cbn.
  apply not_elem_of_cons in Hs as [Hne Hs]. destruct (N.eqb_spec c 10); [congruence|].
  by rewrite IH, <- app_assoc.
Qed.

Lemma strip_cr_id s c : c ≠ 13 → strip_cr (rev (s ++ [c])) = s ++ [c].
Proof.
  intros Hc. rewrite rev_app_distr. unfold strip_cr. cbn.
  assert (rev (rev s) ++ [c] = s ++ [c]) as <- by by rewrite rev_involutive.
  destruct c as [|p]; [done|]. do 4 (destruct p as [p|p|]; try done).
Qed.

(** Lines that hold no line feed and do not end in a carriage return. *)
Lemma lines_unlines (ls : list Str) :
  Forall (λ l, 10 ∉ l ∧ ∃ s c, l = s ++ [c] ∧ c ≠ 13) ls →
  lines (ls ≫= λ l, l ++ [10]) = ls.
Proof.
  unfold lines. induction 1 as [|l ls (Hl & s & c & -> & Hc) _ IH]; [done|].
  cbn [mbind list_bind]. rewrite <- app_assoc. cbn [app].
  rewrite lines_from_app by done. by rewrite app_nil_r, strip_cr_id, IH.
Qed.

Definition starts_black (s : Str) : bool :=
  match s with c :: _ => negb (is_whitespace c) | [] => true end.

Lemma trimmed_check s : starts_black s && starts_black (rev s) = true → trimmed s.
Proof.
  intros [Hs He]%andb_true_iff. split.
  - intros c r ->. by apply negb_true_iff in Hs.
  - intros c r ->. rewrite rev_app_distr in He. by apply negb_true_iff in He.
Qed.
