(* ===== verification/Money.v ===== *)
(** * Money

    ISK amounts are [numeric(p,2)] columns, kept as an integer number of
    cents; [tip_pct] is [numeric(5,4)], kept in units of 1/10000.  A request
    body carries a [rust_decimal::Decimal], an integer mantissa with a decimal
    scale, which PostgreSQL rounds half away from zero when it is assigned to
    a column and refuses when it does not fit the precision. *)

From Stdlib Require Import ZArith Lia.
From stdpp Require Import base tactics decidable option numbers.
From S2P Require Import Prelude.
Local Open Scope Z_scope.

(** The value [mantissa / 10 ^ scale]. *)
Record Decimal := mkDecimal { mantissa : Z; scale : N }.

Definition pow10 (n : N) : Z := 10 ^ Z.of_N n.

Definition Decimal_ZERO : Decimal := mkDecimal 0 0.
Definition Decimal_ONE : Decimal := mkDecimal 1 0.

(** [a < b] of [Decimal], on the common denominator. *)
Definition Decimal_ltb (a b : Decimal) : bool :=
  mantissa a * pow10 (scale b) <? mantissa b * pow10 (scale a).

(** Division rounded half away from zero, for a positive divisor. *)
Definition div_round (a b : Z) : Z := Z.sgn a * ((2 * Z.abs a + b) / (2 * b)).

(** [numeric(p, _)] holds the unscaled integers below [10 ^ p]. *)
Definition fits (p : Z) (z : Z) : bool := Z.abs z <? 10 ^ p.

(** Assignment of a [Decimal] to a [numeric(p,s)] column; [None] is
    "numeric field overflow". *)
Definition numeric_cast (p : Z) (s : N) (d : Decimal) : option Z :=
  let v := if (scale d <=? s)%N then mantissa d * pow10 (s - scale d)
           else div_round (mantissa d) (pow10 (scale d - s)) in
  if fits p v then Some v else None.

(** [round(cents * pct, 2)] and [round(cents * (1 + pct), 2)]. *)
Definition tip_of (cents : Z) (pct : Decimal) : Z :=
  div_round (cents * mantissa pct) (pow10 (scale pct)).
Definition total_of (cents : Z) (pct : Decimal) : Z :=
  div_round (cents * (pow10 (scale pct) + mantissa pct)) (pow10 (scale pct)).

(** A [numeric(5,4)] column read back as a [Decimal]. *)
Definition pct_of_column (z : Z) : Decimal := mkDecimal z 4.

Lemma pow10_pos n : 0 < pow10 n.
Proof. unfold pow10. apply Z.pow_pos_nonneg; lia. Qed.

Lemma div_round_nonneg a b : 0 <= a -> 0 < b -> div_round a b = (2 * a + b) / (2 * b).
Proof.
  intros Ha Hb. unfold div_round. destruct (decide (a = 0)) as [->|].
  - simpl. symmetry. apply Z.div_small. lia.
  - rewrite Z.sgn_pos, Z.abs_eq by lia. lia.
Qed.

Lemma div_round_pos_le a b : 0 <= a -> 0 < b -> 0 <= div_round a b.
Proof.
  intros Ha Hb. rewrite div_round_nonneg by done. apply Z.div_pos; lia.
Qed.

(** The rounded quotient is within half a unit of the exact one. *)
Lemma div_round_bound a b :
  0 < b -> 2 * Z.abs (b * div_round a b - a) <= b.
Proof.
  intros Hb. unfold div_round.
  pose proof (Z.div_mod (2 * Z.abs a + b) (2 * b) ltac:(lia)) as Hd.
  pose proof (Z.mod_pos_bound (2 * Z.abs a + b) (2 * b) ltac:(lia)) as Hm.
  set (q := (2 * Z.abs a + b) / (2 * b)) in *.
  destruct (Z.lt_trichotomy a 0) as [Ha|[->|Ha]].
  - rewrite Z.sgn_neg by lia. rewrite Z.abs_neq in * by lia. nia.
  - simpl. lia.
  - rewrite Z.sgn_pos by lia. rewrite Z.abs_eq in * by lia. nia.
Qed.

Lemma div_round_add_mul a k b :
  0 <= a -> 0 <= k -> 0 < b -> div_round (k * b + a) b = k + div_round a b.
Proof.
  intros Ha Hk Hb. rewrite !div_round_nonneg by nia.
  replace (2 * (k * b + a) + b) with (2 * a + b + k * (2 * b)) by lia.
  rewrite Z.div_add by lia. lia.
Qed.

(** The two columns a reimbursement derives from its subtotal agree to the cent. *)
Lemma total_of_tip cents pct :
  0 <= cents -> 0 <= mantissa pct -> total_of cents pct = cents + tip_of cents pct.
Proof.
  intros Hc Hm. unfold total_of, tip_of. rewrite Z.mul_add_distr_l.
  apply div_round_add_mul; [nia|done|apply pow10_pos].
Qed.

Lemma tip_of_nonneg cents pct : 0 <= cents -> 0 <= mantissa pct -> 0 <= tip_of cents pct.
Proof. intros. apply div_round_pos_le; [nia|apply pow10_pos]. Qed.

Lemma fits_spec p z : 0 <= p -> fits p z = true <-> - 10 ^ p < z < 10 ^ p.
Proof. intros. unfold fits. rewrite Z.ltb_lt. lia. Qed.

Lemma numeric_cast_fits p s d z : numeric_cast p s d = Some z -> fits p z = true.
Proof. unfold numeric_cast. intros Hc. case_match; [|done]. by simplify_eq. Qed.

Lemma numeric_cast_nonneg p s d z :
  0 <= mantissa d -> numeric_cast p s d = Some z -> 0 <= z.
Proof.
  unfold numeric_cast. intros Hd Hc. case_match; [|done]. simplify_eq.
  destruct (_ <=? _)%N.
  - pose proof (pow10_pos (s - scale d)). nia.
  - apply div_round_pos_le; [done|apply pow10_pos].
Qed.

Lemma Decimal_ltb_zero d : Decimal_ltb d Decimal_ZERO = false <-> 0 <= mantissa d.
Proof.
  unfold Decimal_ltb. simpl. rewrite Z.ltb_ge. unfold pow10. simpl. lia.
Qed.

Lemma Decimal_one_ltb d :
  Decimal_ltb Decimal_ONE d = false <-> mantissa d <= pow10 (scale d).
Proof.
  unfold Decimal_ltb. simpl. rewrite Z.ltb_ge. unfold pow10. simpl. lia.
Qed.
