(* ===== verification/Domain.v ===== *)
(** * The domain crate's shared types

    [crates/domain/src/lib.rs]: the enums with their textual form (the
    [strum] display string, which is also the SQL enum label), the parsers of
    the ESI strings, and the records the handlers return.  The ESI id newtypes
    are transparent wrappers and are kept as [Z]. *)

From Stdlib Require Import ZArith.
From stdpp Require Import base tactics decidable option list gmap strings.
From S2P Require Import Prelude Effect.

Local Open Scope string_scope.

(** [esi_id_newtype!]: each id is its inner integer. *)
Definition EsiCharacterId : Type := Z.
Definition EsiCorporationId : Type := Z.
Definition EsiContractId : Type := Z.
Definition EsiLocationId : Type := Z.
Definition EsiRegionId : Type := Z.
Definition EsiStructureId : Type := Z.
Definition EsiJournalRefId : Type := Z.
Definition EsiRecordId : Type := Z.
Definition EsiTypeId : Type := Z.

(** ** Enumerations *)

Inductive GroupRole := Owner | Member.
Inductive MarketKind := NpcHub | PublicStructure.
Inductive ListStatus := List_Open | List_Closed | List_Archived.
Inductive ListItemStatus :=
  Item_Open | Item_Claimed | Item_Bought | Item_Delivered | Item_Settled.
Inductive ClaimStatus := Claim_Active | Claim_Released | Claim_Completed.
Inductive FulfillmentSource := Source_Manual | Source_Contract.
Inductive ReimbursementStatus := Reimb_Pending | Reimb_Settled | Reimb_Cancelled.
Inductive ContractType := ItemExchange | Auction | Courier | Type_Unknown.
Inductive ContractStatus :=
  Outstanding | InProgress | FinishedIssuer | FinishedContractor | Finished
| Cancelled | Rejected | Failed | Deleted | Reversed.
Inductive ContractMatchState :=
  Match_Pending | Match_Confirmed | Match_Rejected | Match_Superseded.
Inductive PrincipalKind := Principal_User | Principal_Corp.

Global Instance GroupRole_eq_dec : EqDecision GroupRole.
Proof. solve_decision. Defined.
Global Instance MarketKind_eq_dec : EqDecision MarketKind.
Proof. solve_decision. Defined.
Global Instance ListStatus_eq_dec : EqDecision ListStatus.
Proof. solve_decision. Defined.
Global Instance ListItemStatus_eq_dec : EqDecision ListItemStatus.
Proof. solve_decision. Defined.
Global Instance ClaimStatus_eq_dec : EqDecision ClaimStatus.
Proof. solve_decision. Defined.
Global Instance FulfillmentSource_eq_dec : EqDecision FulfillmentSource.
Proof. solve_decision. Defined.
Global Instance ReimbursementStatus_eq_dec : EqDecision ReimbursementStatus.
Proof. solve_decision. Defined.
Global Instance ContractType_eq_dec : EqDecision ContractType.
Proof. solve_decision. Defined.
Global Instance ContractStatus_eq_dec : EqDecision ContractStatus.
Proof. solve_decision. Defined.
Global Instance ContractMatchState_eq_dec : EqDecision ContractMatchState.
Proof. solve_decision. Defined.
Global Instance PrincipalKind_eq_dec : EqDecision PrincipalKind.
Proof. solve_decision. Defined.

(** ** Display strings *)

Definition GroupRole_to_string (r : GroupRole) : string :=
  match r with Owner => "owner" | Member => "member" end.

Definition ListStatus_to_string (s : ListStatus) : string :=
  match s with
  | List_Open => "open" | List_Closed => "closed" | List_Archived => "archived"
  end.

Definition ListItemStatus_to_string (s : ListItemStatus) : string :=
  match s with
  | Item_Open => "open" | Item_Claimed => "claimed" | Item_Bought => "bought"
  | Item_Delivered => "delivered" | Item_Settled => "settled"
  end.

Definition ClaimStatus_to_string (s : ClaimStatus) : string :=
  match s with
  | Claim_Active => "active" | Claim_Released => "released" | Claim_Completed => "completed"
  end.

Definition ReimbursementStatus_to_string (s : ReimbursementStatus) : string :=
  match s with
  | Reimb_Pending => "pending" | Reimb_Settled => "settled" | Reimb_Cancelled => "cancelled"
  end.

Definition ContractType_to_string (t : ContractType) : string :=
  match t with
  | ItemExchange => "item_exchange" | Auction => "auction"
  | Courier => "courier" | Type_Unknown => "unknown"
  end.

Definition ContractStatus_to_string (s : ContractStatus) : string :=
  match s with
  | Outstanding => "outstanding" | InProgress => "in_progress"
  | FinishedIssuer => "finished_issuer" | FinishedContractor => "finished_contractor"
  | Finished => "finished" | Cancelled => "cancelled" | Rejected => "rejected"
  | Failed => "failed" | Deleted => "deleted" | Reversed => "reversed"
  end.

Definition ContractMatchState_to_string (s : ContractMatchState) : string :=
  match s with
  | Match_Pending => "pending" | Match_Confirmed => "confirmed"
  | Match_Rejected => "rejected" | Match_Superseded => "superseded"
  end.

(** ** Parsing the ESI strings *)

(** [ContractType::from_str]. *)
Definition ContractType_from_str (s : string) : result string ContractType :=
  if s == "item_exchange" then Ok ItemExchange
  else if s == "auction" then Ok Auction
  else if s == "courier" then Ok Courier
  else if s == "unknown" then Ok Type_Unknown
  else Err ("unknown contract type: " +:+ s).

(** [ContractStatus::from_str]. *)
Definition ContractStatus_from_str (s : string) : result string ContractStatus :=
  if s == "outstanding" then Ok Outstanding
  else if s == "in_progress" then Ok InProgress
  else if s == "finished_issuer" then Ok FinishedIssuer
  else if s == "finished_contractor" then Ok FinishedContractor
  else if s == "finished" then Ok Finished
  else if s == "cancelled" then Ok Cancelled
  else if s == "rejected" then Ok Rejected
  else if s == "failed" then Ok Failed
  else if s == "deleted" then Ok Deleted
  else if s == "reversed" then Ok Reversed
  else Err ("unknown contract status: " +:+ s).

(** [ContractStatus::is_terminal_success] and [is_terminal_failure]. *)
Definition is_terminal_success (s : ContractStatus) : bool :=
  match s with Finished | FinishedIssuer | FinishedContractor => true | _ => false end.

Definition is_terminal_failure (s : ContractStatus) : bool :=
  match s with Cancelled | Rejected | Failed | Deleted | Reversed => true | _ => false end.

(** ** Records *)

Record Principal := mkPrincipal {
  Principal_id : Uuid;
  Principal_kind : PrincipalKind;
  Principal_user_id : option Uuid;
  Principal_corp_id : option Uuid
}.

Record PrincipalIndex := mkPrincipalIndex {
  corp_by_esi_id : gmap EsiCorporationId Uuid;
  user_by_character_id : gmap EsiCharacterId Uuid;
  principal_by_user_id : gmap Uuid Principal;
  principal_by_corp_id : gmap Uuid Principal
}.

(** [PrincipalIndex::default()]. *)
Definition PrincipalIndex_default : PrincipalIndex := mkPrincipalIndex ∅ ∅ ∅ ∅.

Record User := mkUser {
  User_id : Uuid;
  User_display_name : string;
  User_created_at : Timestamp
}.

Record Character := mkCharacter {
  Character_id : Uuid;
  Character_user_id : Uuid;
  Character_character_id : EsiCharacterId;
  Character_character_name : string;
  Character_owner_hash : string;
  Character_scopes : list string;
  Character_access_token_expires_at : option Timestamp;
  Character_created_at : Timestamp;
  Character_last_refreshed_at : option Timestamp
}.

Record Group := mkGroup {
  Group_id : Uuid;
  Group_name : string;
  Group_invite_code : string;
  Group_created_by_user_id : Uuid;
  Group_created_at : Timestamp;
  Group_default_tip_pct : Z
}.

Record GroupMember := mkGroupMember {
  GroupMember_user_id : Uuid;
  GroupMember_display_name : string;
  GroupMember_role : GroupRole;
  GroupMember_joined_at : Timestamp
}.

Record Market := mkMarket {
  Market_id : Uuid;
  Market_kind : MarketKind;
  Market_esi_location_id : EsiLocationId;
  Market_region_id : option EsiRegionId;
  Market_name : option string;
  Market_short_label : option string;
  Market_is_hub : bool;
  Market_is_public : bool
}.

Record List_ := mkList {
  List_id : Uuid;
  List_group_id : Uuid;
  List_created_by_user_id : Uuid;
  List_destination_label : option string;
  List_notes : option string;
  List_status : ListStatus;
  List_total_estimate_isk : Z;
  List_tip_pct : Z;
  List_created_at : Timestamp;
  List_updated_at : Timestamp;
  List_payer_corp_id : option Uuid;
  List_payer_division : option Z
}.

Record ListItem := mkListItem {
  ListItem_id : Uuid;
  ListItem_list_id : Uuid;
  ListItem_type_id : EsiTypeId;
  ListItem_type_name : string;
  ListItem_qty_requested : Z;
  ListItem_qty_fulfilled : Z;
  ListItem_est_unit_price_isk : option Z;
  ListItem_est_priced_market_id : option Uuid;
  ListItem_status : ListItemStatus;
  ListItem_source_line_no : option Z;
  ListItem_requested_by_user_id : Uuid
}.

Record ListSummary := mkListSummary {
  ListSummary_id : Uuid;
  ListSummary_destination_label : option string;
  ListSummary_status : ListStatus;
  ListSummary_item_count : Z;
  ListSummary_total_estimate_isk : Z;
  ListSummary_primary_market_short_label : option string;
  ListSummary_created_at : Timestamp
}.

Record LiveItemPrice := mkLiveItemPrice {
  LiveItemPrice_list_item_id : Uuid;
  LiveItemPrice_market_id : Uuid;
  LiveItemPrice_best_sell : option Z;
  LiveItemPrice_best_buy : option Z;
  LiveItemPrice_sell_volume : Z;
  LiveItemPrice_buy_volume : Z;
  LiveItemPrice_computed_at : option Timestamp
}.

Record Claim := mkClaim {
  Claim_id : Uuid;
  Claim_list_id : Uuid;
  Claim_hauler_user_id : Uuid;
  Claim_hauler_display_name : string;
  Claim_status : ClaimStatus;
  Claim_note : option string;
  Claim_item_ids : list Uuid;
  Claim_created_at : Timestamp;
  Claim_released_at : option Timestamp
}.

Record Fulfillment := mkFulfillment {
  Fulfillment_id : Uuid;
  Fulfillment_list_item_id : Uuid;
  Fulfillment_claim_id : option Uuid;
  Fulfillment_hauler_user_id : Uuid;
  Fulfillment_hauler_character_id : option Uuid;
  Fulfillment_hauler_character_name : option string;
  Fulfillment_source : FulfillmentSource;
  Fulfillment_qty : Z;
  Fulfillment_unit_price_isk : Z;
  Fulfillment_bought_at_market_id : option Uuid;
  Fulfillment_bought_at_market_short_label : option string;
  Fulfillment_bought_at_note : option string;
  Fulfillment_bought_at : Timestamp;
  Fulfillment_reversed_at : option Timestamp
}.

Record ContractSummary := mkContractSummary {
  ContractSummary_esi_contract_id : EsiContractId;
  ContractSummary_status : ContractStatus;
  ContractSummary_price_isk : Z;
  ContractSummary_expected_total_isk : option Z;
  ContractSummary_settlement_delta_isk : option Z;
  ContractSummary_date_completed : option Timestamp
}.

Record Reimbursement := mkReimbursement {
  Reimbursement_id : Uuid;
  Reimbursement_list_id : Uuid;
  Reimbursement_requester_user_id : option Uuid;
  Reimbursement_requester_display_name : string;
  Reimbursement_hauler_user_id : Uuid;
  Reimbursement_hauler_display_name : string;
  Reimbursement_subtotal_isk : Z;
  Reimbursement_tip_isk : Z;
  Reimbursement_total_isk : Z;
  Reimbursement_status : ReimbursementStatus;
  Reimbursement_settled_at : option Timestamp;
  Reimbursement_settled_by_user_id : option Uuid;
  Reimbursement_contract_id : option Uuid;
  Reimbursement_contract : option ContractSummary;
  Reimbursement_created_at : Timestamp;
  Reimbursement_updated_at : Timestamp;
  Reimbursement_requester_principal_id : Uuid;
  Reimbursement_hauler_principal_id : Uuid;
  Reimbursement_is_corp_funded : bool;
  Reimbursement_verified_by_wallet : bool;
  Reimbursement_wallet_settlement_delta_isk : option Z
}.

Record RunMarketRef := mkRunMarketRef {
  RunMarketRef_market_id : Uuid;
  RunMarketRef_short_label : option string;
  RunMarketRef_is_primary : bool
}.

Record RunSummary := mkRunSummary {
  RunSummary_list_id : Uuid;
  RunSummary_destination_label : option string;
  RunSummary_status : ListStatus;
  RunSummary_created_at : Timestamp;
  RunSummary_accepted_markets : list RunMarketRef;
  RunSummary_items_open : Z;
  RunSummary_items_claimed : Z;
  RunSummary_items_bought : Z;
  RunSummary_items_delivered : Z;
  RunSummary_items_settled : Z;
  RunSummary_total_estimate_isk : Z;
  RunSummary_claimed_by_me : bool;
  RunSummary_my_active_claim_id : option Uuid
}.

Record ListDetail := mkListDetail {
  ListDetail_list : List_;
  ListDetail_items : list ListItem;
  ListDetail_markets : list Market;
  ListDetail_primary_market_id : Uuid;
  ListDetail_live_prices : list LiveItemPrice;
  ListDetail_claims : list Claim;
  ListDetail_fulfillments : list Fulfillment;
  ListDetail_reimbursements : list Reimbursement;
  ListDetail_last_hauler_character_id : option Uuid;
  ListDetail_viewer_user_id : Uuid;
  ListDetail_viewer_role : GroupRole
}.

(** ** Properties *)

(** The ESI status strings and the enum are in bijection: parsing accepts
    exactly the display strings, and each parses to the variant it displays;
    every other string is the error that quotes it. *)
Theorem ContractStatus_from_str_to_string (s : string) :
  match ContractStatus_from_str s with
  | Ok v => ContractStatus_to_string v = s
  | Err e => e = "unknown contract status: " +:+ s ∧
             ∀ v, ContractStatus_to_string v ≠ s
  end ∧ ∀ v, ContractStatus_from_str (ContractStatus_to_string v) = Ok v.
Proof.
  split; [|by intros []].
  unfold ContractStatus_from_str.
  repeat case_bool_decide; try (subst; reflexivity).
  split; [done|]. intros []; cbn; congruence.
Qed.

(** The same for the contract type. *)
Lemma ContractType_from_str_to_string (s : string) :
  match ContractType_from_str s with
  | Ok v => ContractType_to_string v = s
  | Err e => e = "unknown contract type: " +:+ s ∧ ∀ v, ContractType_to_string v ≠ s
  end ∧ ∀ v, ContractType_from_str (ContractType_to_string v) = Ok v.
Proof.
  split; [|by intros []].
  unfold ContractType_from_str.
  repeat case_bool_decide; try (subst; reflexivity).
  split; [done|]. intros []; cbn; congruence.
Qed.

(** Every status is exactly one of terminal success, terminal failure, or
    still running (outstanding, in progress). *)
Lemma terminal_trichotomy (s : ContractStatus) :
  match is_terminal_success s, is_terminal_failure s with
  | true, false => s ∈ [Finished; FinishedIssuer; FinishedContractor]
  | false, true => s ∈ [Cancelled; Rejected; Failed; Deleted; Reversed]
  | false, false => s ∈ [Outstanding; InProgress]
  | true, true => False
  end.
Proof. destruct s; cbn; set_solver. Qed.
