(* ===== verification/Principals.v ===== *)
(** * Principal resolution

    [crates/domain/src/principals.rs], with [find_user_for_principal] of
    [crates/worker/src/jobs/contracts_common.rs]: an ESI contract names its
    parties by EVE ids, the index maps those to the principals of the
    database. *)

From Stdlib Require Import ZArith.
From stdpp Require Import base tactics decidable option list gmap strings.
From S2P Require Import Prelude Effect Domain.

Record ResolvedParties := mkResolvedParties {
  issuer_principal_id : option Uuid;
  assignee_principal_id : option Uuid;
  assignee_unknown : bool
}.

Record EsiContractParties := mkEsiContractParties {
  issuer_id : EsiCharacterId;
  issuer_corporation_id : EsiCorporationId;
  for_corporation : bool;
  assignee_id : option Z
}.

(** [idx.corp_by_esi_id.get(c).and_then(|c| idx.principal_by_corp_id.get(c)).map(|p| p.id)]. *)
Definition corp_principal (idx : PrincipalIndex) (esi_id : Z) : option Uuid :=
  corp_id ← corp_by_esi_id idx !! esi_id;
  Principal_id <$> principal_by_corp_id idx !! corp_id.

Definition user_principal (idx : PrincipalIndex) (esi_id : Z) : option Uuid :=
  user_id ← user_by_character_id idx !! esi_id;
  Principal_id <$> principal_by_user_id idx !! user_id.

Definition resolve_contract_parties (c : EsiContractParties) (idx : PrincipalIndex)
    : ResolvedParties :=
  let issuer :=
    if for_corporation c then corp_principal idx (issuer_corporation_id c)
    else user_principal idx (issuer_id c) in
  let '(assignee, unknown) :=
    match assignee_id c with
    | None => (None, false)
    | Some esi_id =>
        match corp_by_esi_id idx !! esi_id with
        | Some corp_id =>
            let pid := Principal_id <$> principal_by_corp_id idx !! corp_id in
            (pid, is_none pid)
        | None =>
            match user_by_character_id idx !! esi_id with
            | Some user_id =>
                let pid := Principal_id <$> principal_by_user_id idx !! user_id in
                (pid, is_none pid)
            | None => (None, true)
            end
        end
    end in
  mkResolvedParties issuer assignee unknown.

Definition add_user (idx : PrincipalIndex) (character_id : EsiCharacterId)
    (user_id : Uuid) (principal : Principal) : PrincipalIndex :=
  mkPrincipalIndex (corp_by_esi_id idx)
    (<[character_id := user_id]> (user_by_character_id idx))
    (<[user_id := principal]> (principal_by_user_id idx))
    (principal_by_corp_id idx).

Definition add_corp (idx : PrincipalIndex) (esi_corp_id : EsiCorporationId)
    (corp_id : Uuid) (principal : Principal) : PrincipalIndex :=
  mkPrincipalIndex (<[esi_corp_id := corp_id]> (corp_by_esi_id idx))
    (user_by_character_id idx)
    (principal_by_user_id idx)
    (<[corp_id := principal]> (principal_by_corp_id idx)).

(** [principal_by_user_id.values().find(|p| p.id == principal_id).and_then(|p| p.user_id)]. *)
Definition find_user_for_principal (idx : PrincipalIndex) (principal_id : Uuid)
    : option Uuid :=
  p ← List.find (λ p, Principal_id p == principal_id)
        (map_to_list (principal_by_user_id idx)).*2;
  Principal_user_id p.

(** ** The index invariant

    An index is closed when every id it maps has its principal; it is keyed
    when a principal stored under a user or corp is that user's or corp's, and
    no two entries share a principal id. *)
Record index_closed (idx : PrincipalIndex) : Prop := {
  closed_user c u : user_by_character_id idx !! c = Some u →
    is_Some (principal_by_user_id idx !! u);
  closed_corp c k : corp_by_esi_id idx !! c = Some k →
    is_Some (principal_by_corp_id idx !! k)
}.

Record index_keyed (idx : PrincipalIndex) : Prop := {
  keyed_user u p : principal_by_user_id idx !! u = Some p → Principal_user_id p = Some u;
  keyed_inj u1 u2 p1 p2 : principal_by_user_id idx !! u1 = Some p1 →
    principal_by_user_id idx !! u2 = Some p2 → Principal_id p1 = Principal_id p2 → u1 = u2
}.

Lemma index_closed_default : index_closed PrincipalIndex_default.
Proof. split; cbn; intros ??; by rewrite lookup_empty. Qed.

Lemma index_keyed_default : index_keyed PrincipalIndex_default.
Proof. split; cbn; intros; simplify_map_eq. Qed.

Lemma index_closed_add_user idx c u p :
  index_closed idx → index_closed (add_user idx c u p).
Proof.
  intros [Hu Hc]. split; cbn; [|exact Hc]. intros c' u' Hl.
  destruct (decide (u' = u)) as [->|]; [by rewrite lookup_insert_eq; eauto|].
  rewrite lookup_insert_ne by done.
  apply lookup_insert_Some in Hl as [[-> ->]|[_ Hl]]; [done|eauto].
Qed.

Lemma index_closed_add_corp idx c k p :
  index_closed idx → index_closed (add_corp idx c k p).
Proof.
  intros [Hu Hc]. split; cbn; [exact Hu|]. intros c' k' Hl.
  destruct (decide (k' = k)) as [->|]; [by rewrite lookup_insert_eq; eauto|].
  rewrite lookup_insert_ne by done.
  apply lookup_insert_Some in Hl as [[-> ->]|[_ Hl]]; [done|eauto].
Qed.

(** A principal id already in the index belongs to the user being added. *)
Lemma index_keyed_add_user idx c u p :
  Principal_user_id p = Some u →
  (∀ u' p', principal_by_user_id idx !! u' = Some p' →
     Principal_id p' = Principal_id p → u' = u) →
  index_keyed idx → index_keyed (add_user idx c u p).
Proof.
  intros Hp Hfresh [Hk Hi]. split; cbn.
  - intros u' p' [[-> ->]|[_ Hl]]%lookup_insert_Some; eauto.
  - intros u1 u2 p1 p2 [[<- <-]|[Hn1 H1]]%lookup_insert_Some
      [[<- <-]|[Hn2 H2]]%lookup_insert_Some Heq; [done| | |by eauto].
    + symmetry. by eapply Hfresh.
    + by eapply Hfresh.
Qed.

Lemma index_keyed_add_corp idx c k p :
  index_keyed idx → index_keyed (add_corp idx c k p).
Proof. intros [Hk Hi]. split; cbn; eauto. Qed.

(** ** Properties *)

(** C39 Resolution over a closed index: the issuer is the corporation's
    principal exactly for a corporation contract and the character's
    otherwise; an assignee id is looked up as a corporation first and as a
    character second, and is reported unknown exactly when it is given and is
    neither, in which case no principal is returned. *)
Theorem resolve_contract_parties_spec c idx :
  index_closed idx →
  let r := resolve_contract_parties c idx in
  (for_corporation c = true →
     issuer_principal_id r = corp_principal idx (issuer_corporation_id c)) ∧
  (for_corporation c = false → issuer_principal_id r = user_principal idx (issuer_id c)) ∧
  (assignee_principal_id r =
     id ← assignee_id c;
     match corp_principal idx id with
     | Some p => Some p
     | None => user_principal idx id
     end) ∧
  (assignee_unknown r = true ↔
     ∃ id, assignee_id c = Some id ∧ corp_by_esi_id idx !! id = None ∧
           user_by_character_id idx !! id = None).
Proof.
  intros [Hu Hc]. unfold resolve_contract_parties, corp_principal, user_principal.
  destruct (assignee_id c) as [id|]; cbn;
    [|repeat split; try (by intros ->); try done; by intros (? & [=] & _)].
  destruct (corp_by_esi_id idx !! id) as [k|] eqn:Hk; cbn.
  - destruct (Hc _ _ Hk) as [p Hp]. rewrite Hp. cbn.
    repeat split; try (by intros ->); try done. intros (? & [= <-] & ? & _). congruence.
  - destruct (user_by_character_id idx !! id) as [u|] eqn:Hu'; cbn.
    + destruct (Hu _ _ Hu') as [p Hp]. rewrite Hp. cbn.
      repeat split; try (by intros ->); try done. intros (? & [= <-] & _ & ?). congruence.
    + repeat split; try (by intros ->); try done. by exists id.
Qed.

(** Looking a principal up by value inverts the index: over a keyed index
    the user found for a principal id is the one whose entry carries it, and a
    user is found whenever there is such an entry. *)
Theorem find_user_for_principal_spec idx pid u :
  index_keyed idx →
  find_user_for_principal idx pid = Some u ↔
  ∃ p, principal_by_user_id idx !! u = Some p ∧ Principal_id p = pid.
Proof.
  intros [Hk Hi]. unfold find_user_for_principal. split.
  - destruct (List.find _ _) as [p|] eqn:Hf; cbn; [|done]. intros Hu.
    apply find_some in Hf as [Hin Heq]. bool_simpl.
    rewrite <- list_elem_of_In, list_elem_of_fmap in Hin.
    destruct Hin as ([u' p'] & -> & Hin). cbn in *.
    apply elem_of_map_to_list in Hin. pose proof (Hk _ _ Hin). naive_solver.
  - intros (p & Hl & Heq). destruct (List.find _ _) as [q|] eqn:Hf; cbn.
    + apply find_some in Hf as [Hin Heqq]. bool_simpl.
      rewrite <- list_elem_of_In, list_elem_of_fmap in Hin.
      destruct Hin as ([u' p'] & -> & Hin). cbn in *.
      apply elem_of_map_to_list in Hin.
      assert (u' = u) as -> by (eapply Hi; eauto). eauto.
    + exfalso. eapply find_none with (x := p) in Hf.
      * by bool_simpl.
      * rewrite <- list_elem_of_In, list_elem_of_fmap. exists (u, p). split; [done|].
        by apply elem_of_map_to_list.
Qed.

(** ** Witnesses *)

Definition fixture_index : PrincipalIndex :=
  add_corp (add_user PrincipalIndex_default 501%Z 1%N (mkPrincipal 101 Principal_User (Some 1%N) None))
    98000001%Z 70%N (mkPrincipal 170 Principal_Corp None (Some 70%N)).

Lemma fixture_index_closed : index_closed fixture_index.
Proof. apply index_closed_add_corp, index_closed_add_user, index_closed_default. Qed.

Lemma fixture_index_keyed : index_keyed fixture_index.
Proof.
  apply index_keyed_add_corp, index_keyed_add_user; [done| |apply index_keyed_default].
  intros u' p' Hl. cbn in Hl. by rewrite lookup_empty in Hl.
Qed.

Lemma resolve_contract_parties_spec_witness :
  assignee_principal_id (resolve_contract_parties
    (mkEsiContractParties 501%Z 98000001%Z true (Some 501%Z)) fixture_index) = Some 101%N.
Proof.
  destruct (resolve_contract_parties_spec
    (mkEsiContractParties 501%Z 98000001%Z true (Some 501%Z)) fixture_index fixture_index_closed)
    as (_ & _ & Ha & _). exact Ha.
Defined.

Lemma find_user_for_principal_spec_witness :
  find_user_for_principal fixture_index 101 = Some 1%N.
Proof.
  apply (find_user_for_principal_spec fixture_index 101 1 fixture_index_keyed).
  by exists (mkPrincipal 101 Principal_User (Some 1%N) None).
Defined.
