(* ===== verification/Host.v ===== *)
(** * What the program calls and this development does not define

    The webhook events of [crates/webhook-dispatch/src/lib.rs] and the class of
    everything outside the repository that the modelled code uses: JSON values
    and their serializer, PostgreSQL's [gen_random_uuid()], the display of a
    decimal, and the driver's answer to one decoding question. *)

From Stdlib Require Import ZArith.
From stdpp Require Import base strings.
From S2P Require Import Prelude.

(** [webhook_dispatch::WebhookEvent]. *)
Inductive WebhookEvent :=
| ListCreated (list_destination : string) (item_count : Z) (estimate_isk creator_name : string)
| ListClaimed (list_destination hauler_name : string) (item_count : Z)
| ListDelivered (list_destination hauler_name : string)
| ReimbursementSettled (list_destination requester_name hauler_name total_isk : string).

Class Runtime := {
  (** [serde_json::Value]. *)
  Value : Type;
  (** [serde_json::to_value(&event)], [None] for a serialization error. *)
  to_value : WebhookEvent → option Value;
  (** [gen_random_uuid()], as the sequence of its results. *)
  gen_random_uuid : N → Uuid;
  (** [Decimal::to_string] of a [numeric(_,2)] value given in cents. *)
  decimal_to_string : Z → string;
  (** Whether the driver decodes a PostgreSQL enum column into a [String];
      the alternative is a column-decode error. *)
  enum_as_text : bool;
  (** [str::to_lowercase], the Unicode lowercase mapping. *)
  to_lowercase : list N → list N;
  (** Text order of the database collation, for ORDER BY. *)
  collate_leb : string → string → bool
}.
