(* ===== verification/Schema.v ===== *)
(** * The database

    The tables of [migrations/20260427000000_init.sql] as finite maps from the
    primary key to the row, the error values of the driver, and the statement
    forms the handlers are written with.  A row holds the columns the modelled
    code reads or writes.  [db_now], [db_utc_now] and [db_draws] are the
    transaction's clock, the process clock and the number of generated UUIDs
    consumed.  Row-level security is not modelled: every query of the code
    carries its own tenancy predicate, and those are. *)

From Stdlib Require Import ZArith Strings.Byte.
From stdpp Require Import base tactics decidable option list gmap strings.
From S2P Require Import Prelude Effect Domain Host.

Inductive AccessStatus := Access_Ok | Access_Forbidden | Access_Unknown.
Global Instance AccessStatus_eq_dec : EqDecision AccessStatus.
Proof. solve_decision. Defined.

Section Schema.
Context `{RT : Runtime}.

(** ** Rows *)

Record UserRow := mkUserRow {
  u_display_name : string;
  u_active_character_id : option Uuid;
  u_created_at : Timestamp
}.
#[export] Instance UserRow_settable : Settable UserRow := λ r,
  mkUserRow (u_display_name r) (u_active_character_id r) (u_created_at r).

Record CharacterRow := mkCharacterRow {
  ch_user_id : Uuid;
  ch_character_id : Z;
  ch_character_name : string;
  ch_owner_hash : string;
  ch_scopes : list string;
  ch_refresh_token_ciphertext : list Byte.byte;
  ch_refresh_token_nonce : list Byte.byte;
  ch_access_token_ciphertext : option (list Byte.byte);
  ch_access_token_nonce : option (list Byte.byte);
  ch_access_token_expires_at : option Timestamp;
  ch_token_key_id : string;
  ch_contracts_next_poll_at : option Timestamp;
  ch_contracts_last_polled_at : option Timestamp;
  ch_created_at : Timestamp;
  ch_last_refreshed_at : option Timestamp
}.
#[export] Instance CharacterRow_settable : Settable CharacterRow := λ r,
  mkCharacterRow (ch_user_id r) (ch_character_id r) (ch_character_name r)
  (ch_owner_hash r) (ch_scopes r) (ch_refresh_token_ciphertext r)
  (ch_refresh_token_nonce r) (ch_access_token_ciphertext r) (ch_access_token_nonce r)
  (ch_access_token_expires_at r) (ch_token_key_id r) (ch_contracts_next_poll_at r)
  (ch_contracts_last_polled_at r) (ch_created_at r) (ch_last_refreshed_at r).

Record GroupRow := mkGroupRow {
  g_name : string;
  g_invite_code : string;
  g_created_by_user_id : Uuid;
  g_default_tip_pct : Z;
  g_created_at : Timestamp
}.
#[export] Instance GroupRow_settable : Settable GroupRow := λ r,
  mkGroupRow (g_name r) (g_invite_code r) (g_created_by_user_id r)
  (g_default_tip_pct r) (g_created_at r).

Record MembershipRow := mkMembershipRow {
  gm_role : GroupRole;
  gm_joined_at : Timestamp
}.
#[export] Instance MembershipRow_settable : Settable MembershipRow := λ r,
  mkMembershipRow (gm_role r) (gm_joined_at r).

Record WebhookRow := mkWebhookRow {
  gw_webhook_url : string;
  gw_notify_list_created : bool;
  gw_notify_list_claimed : bool;
  gw_notify_list_delivered : bool;
  gw_notify_reimbursement_settled : bool;
  gw_created_at : Timestamp;
  gw_updated_at : Timestamp
}.
#[export] Instance WebhookRow_settable : Settable WebhookRow := λ r,
  mkWebhookRow (gw_webhook_url r) (gw_notify_list_created r) (gw_notify_list_claimed r)
  (gw_notify_list_delivered r) (gw_notify_reimbursement_settled r) (gw_created_at r)
  (gw_updated_at r).

Record TypeCacheRow := mkTypeCacheRow {
  tc_name : list N;
  tc_type_id : Z;
  tc_type_name : list N;
  tc_cached_at : Timestamp
}.
#[export] Instance TypeCacheRow_settable : Settable TypeCacheRow := λ r,
  mkTypeCacheRow (tc_name r) (tc_type_id r) (tc_type_name r) (tc_cached_at r).

Record MarketRow := mkMarketRow {
  m_kind : MarketKind;
  m_esi_location_id : Z;
  m_region_id : option Z;
  m_name : option string;
  m_short_label : option string;
  m_is_hub : bool;
  m_is_public : bool;
  m_last_seen_public_at : option Timestamp;
  m_last_auth_error_at : option Timestamp;
  m_solar_system_id : option Z;
  m_structure_type_id : option Z;
  m_last_orders_synced_at : option Timestamp;
  m_details_synced_at : option Timestamp;
  m_missing_poll_count : Z;
  m_untrackable_until : option Timestamp;
  m_created_at : Timestamp
}.
#[export] Instance MarketRow_settable : Settable MarketRow := λ r,
  mkMarketRow (m_kind r) (m_esi_location_id r) (m_region_id r) (m_name r)
  (m_short_label r) (m_is_hub r) (m_is_public r) (m_last_seen_public_at r)
  (m_last_auth_error_at r) (m_solar_system_id r) (m_structure_type_id r)
  (m_last_orders_synced_at r) (m_details_synced_at r) (m_missing_poll_count r)
  (m_untrackable_until r) (m_created_at r).

Record MarketPriceRow := mkMarketPriceRow {
  mp_best_sell : option Z;
  mp_best_buy : option Z;
  mp_sell_volume : Z;
  mp_buy_volume : Z;
  mp_computed_at : Timestamp
}.
#[export] Instance MarketPriceRow_settable : Settable MarketPriceRow := λ r,
  mkMarketPriceRow (mp_best_sell r) (mp_best_buy r) (mp_sell_volume r)
  (mp_buy_volume r) (mp_computed_at r).

Record TrackedMarketRow := mkTrackedMarketRow {
  tm_added_by_user_id : Uuid;
  tm_added_at : Timestamp
}.
#[export] Instance TrackedMarketRow_settable : Settable TrackedMarketRow := λ r,
  mkTrackedMarketRow (tm_added_by_user_id r) (tm_added_at r).

Record CsaRow := mkCsaRow {
  csa_details_status : AccessStatus;
  csa_details_checked_at : option Timestamp;
  csa_market_status : AccessStatus;
  csa_market_checked_at : option Timestamp
}.
#[export] Instance CsaRow_settable : Settable CsaRow := λ r,
  mkCsaRow (csa_details_status r) (csa_details_checked_at r) (csa_market_status r)
  (csa_market_checked_at r).

Record CorpRow := mkCorpRow {
  co_esi_corporation_id : Z;
  co_name : string;
  co_ticker : string;
  co_last_synced_at : option Timestamp;
  co_last_auth_error_at : option Timestamp;
  co_disabled_at : option Timestamp;
  co_contracts_next_poll_at : option Timestamp;
  co_contracts_last_polled_at : option Timestamp;
  co_wallet_next_poll_at : option Timestamp;
  co_wallet_last_polled_at : option Timestamp;
  co_created_at : Timestamp
}.
#[export] Instance CorpRow_settable : Settable CorpRow := λ r,
  mkCorpRow (co_esi_corporation_id r) (co_name r) (co_ticker r) (co_last_synced_at r)
  (co_last_auth_error_at r) (co_disabled_at r) (co_contracts_next_poll_at r)
  (co_contracts_last_polled_at r) (co_wallet_next_poll_at r)
  (co_wallet_last_polled_at r) (co_created_at r).

Record GroupCorpRow := mkGroupCorpRow {
  gc_linked_at : Timestamp;
  gc_linked_by_user_id : Uuid;
  gc_unlinked_at : option Timestamp
}.
#[export] Instance GroupCorpRow_settable : Settable GroupCorpRow := λ r,
  mkGroupCorpRow (gc_linked_at r) (gc_linked_by_user_id r) (gc_unlinked_at r).

Record AmbassadorRow := mkAmbassadorRow {
  ca_granted_scopes : list string;
  ca_last_used_at : option Timestamp;
  ca_last_auth_error_at : option Timestamp;
  ca_disabled_at : option Timestamp;
  ca_contributed_via_group_id : option Uuid
}.
#[export] Instance AmbassadorRow_settable : Settable AmbassadorRow := λ r,
  mkAmbassadorRow (ca_granted_scopes r) (ca_last_used_at r) (ca_last_auth_error_at r)
  (ca_disabled_at r) (ca_contributed_via_group_id r).

Record JournalRow := mkJournalRow {
  wj_corp_id : Uuid;
  wj_division : Z;
  wj_esi_journal_ref_id : Z;
  wj_date : Timestamp;
  wj_ref_type : string;
  wj_amount : Z;
  wj_balance : Z;
  wj_first_party_id : option Z;
  wj_second_party_id : option Z;
  wj_context_id : option Z;
  wj_context_id_type : option string;
  wj_reason : option string;
  wj_raw_json : Value;
  wj_first_seen_at : Timestamp
}.
#[export] Instance JournalRow_settable : Settable JournalRow := λ r,
  mkJournalRow (wj_corp_id r) (wj_division r) (wj_esi_journal_ref_id r) (wj_date r)
  (wj_ref_type r) (wj_amount r) (wj_balance r) (wj_first_party_id r)
  (wj_second_party_id r) (wj_context_id r) (wj_context_id_type r) (wj_reason r)
  (wj_raw_json r) (wj_first_seen_at r).

Record DivisionRow := mkDivisionRow {
  wd_name : option string;
  wd_balance_isk : Z;
  wd_last_synced_at : option Timestamp
}.
#[export] Instance DivisionRow_settable : Settable DivisionRow := λ r,
  mkDivisionRow (wd_name r) (wd_balance_isk r) (wd_last_synced_at r).

Record PrincipalRow := mkPrincipalRow {
  p_kind : PrincipalKind;
  p_user_id : option Uuid;
  p_corp_id : option Uuid
}.
#[export] Instance PrincipalRow_settable : Settable PrincipalRow := λ r,
  mkPrincipalRow (p_kind r) (p_user_id r) (p_corp_id r).

Record ListRow := mkListRow {
  l_group_id : Uuid;
  l_created_by_user_id : Uuid;
  l_destination_label : option string;
  l_notes : option string;
  l_status : ListStatus;
  l_total_estimate_isk : Z;
  l_tip_pct : Z;
  l_payer_corp_id : option Uuid;
  l_payer_division : option Z;
  l_created_at : Timestamp;
  l_updated_at : Timestamp
}.
#[export] Instance ListRow_settable : Settable ListRow := λ r,
  mkListRow (l_group_id r) (l_created_by_user_id r) (l_destination_label r) (l_notes r)
  (l_status r) (l_total_estimate_isk r) (l_tip_pct r) (l_payer_corp_id r)
  (l_payer_division r) (l_created_at r) (l_updated_at r).

Record ListItemRow := mkListItemRow {
  li_list_id : Uuid;
  li_type_id : Z;
  li_type_name : string;
  li_qty_requested : Z;
  li_qty_fulfilled : Z;
  li_est_unit_price_isk : option Z;
  li_est_priced_market_id : option Uuid;
  li_requested_by_user_id : option Uuid;
  li_status : ListItemStatus;
  li_source_line_no : option Z;
  li_created_at : Timestamp
}.
#[export] Instance ListItemRow_settable : Settable ListItemRow := λ r,
  mkListItemRow (li_list_id r) (li_type_id r) (li_type_name r) (li_qty_requested r)
  (li_qty_fulfilled r) (li_est_unit_price_isk r) (li_est_priced_market_id r)
  (li_requested_by_user_id r) (li_status r) (li_source_line_no r) (li_created_at r).

Record ListMarketRow := mkListMarketRow {
  lm_is_primary : bool;
  lm_added_at : Timestamp
}.
#[export] Instance ListMarketRow_settable : Settable ListMarketRow := λ r,
  mkListMarketRow (lm_is_primary r) (lm_added_at r).

Record ClaimRow := mkClaimRow {
  cl_list_id : Uuid;
  cl_hauler_user_id : Uuid;
  cl_status : ClaimStatus;
  cl_note : option string;
  cl_created_at : Timestamp;
  cl_released_at : option Timestamp
}.
#[export] Instance ClaimRow_settable : Settable ClaimRow := λ r,
  mkClaimRow (cl_list_id r) (cl_hauler_user_id r) (cl_status r) (cl_note r)
  (cl_created_at r) (cl_released_at r).

Record ClaimItemRow := mkClaimItemRow {
  ci_active : bool;
  ci_created_at : Timestamp
}.
#[export] Instance ClaimItemRow_settable : Settable ClaimItemRow := λ r,
  mkClaimItemRow (ci_active r) (ci_created_at r).

Record FulfillmentRow := mkFulfillmentRow {
  f_list_item_id : Uuid;
  f_claim_id : option Uuid;
  f_hauler_user_id : Uuid;
  f_hauler_character_id : option Uuid;
  f_source : FulfillmentSource;
  f_qty : Z;
  f_unit_price_isk : Z;
  f_bought_at_market_id : option Uuid;
  f_bought_at_note : option string;
  f_bought_at : Timestamp;
  f_reversed_at : option Timestamp
}.
#[export] Instance FulfillmentRow_settable : Settable FulfillmentRow := λ r,
  mkFulfillmentRow (f_list_item_id r) (f_claim_id r) (f_hauler_user_id r)
  (f_hauler_character_id r) (f_source r) (f_qty r) (f_unit_price_isk r)
  (f_bought_at_market_id r) (f_bought_at_note r) (f_bought_at r) (f_reversed_at r).

Record ContractRow := mkContractRow {
  ct_esi_contract_id : Z;
  ct_issuer_character_id : Z;
  ct_issuer_user_id : option Uuid;
  ct_issuer_principal_id : option Uuid;
  ct_assignee_character_id : option Z;
  ct_assignee_user_id : option Uuid;
  ct_assignee_principal_id : option Uuid;
  ct_contract_type : ContractType;
  ct_status : ContractStatus;
  ct_price_isk : Z;
  ct_reward_isk : Z;
  ct_collateral_isk : Z;
  ct_expected_total_isk : option Z;
  ct_settlement_delta_isk : option Z;
  ct_date_issued : Timestamp;
  ct_date_expired : option Timestamp;
  ct_date_accepted : option Timestamp;
  ct_date_completed : option Timestamp;
  ct_start_location_id : option Z;
  ct_end_location_id : option Z;
  ct_raw_json : Value;
  ct_items_synced_at : option Timestamp;
  ct_wallet_verified_at : option Timestamp;
  ct_wallet_payout_aggregate_isk : option Z;
  ct_source_corp_id : option Uuid;
  ct_first_seen_at : Timestamp;
  ct_updated_at : Timestamp
}.
#[export] Instance ContractRow_settable : Settable ContractRow := λ r,
  mkContractRow (ct_esi_contract_id r) (ct_issuer_character_id r) (ct_issuer_user_id r)
  (ct_issuer_principal_id r) (ct_assignee_character_id r) (ct_assignee_user_id r)
  (ct_assignee_principal_id r) (ct_contract_type r) (ct_status r) (ct_price_isk r)
  (ct_reward_isk r) (ct_collateral_isk r) (ct_expected_total_isk r)
  (ct_settlement_delta_isk r) (ct_date_issued r) (ct_date_expired r)
  (ct_date_accepted r) (ct_date_completed r) (ct_start_location_id r)
  (ct_end_location_id r) (ct_raw_json r) (ct_items_synced_at r)
  (ct_wallet_verified_at r) (ct_wallet_payout_aggregate_isk r) (ct_source_corp_id r)
  (ct_first_seen_at r) (ct_updated_at r).

Record ContractItemRow := mkContractItemRow {
  cti_type_id : Z;
  cti_quantity : Z;
  cti_is_included : bool
}.
#[export] Instance ContractItemRow_settable : Settable ContractItemRow := λ r,
  mkContractItemRow (cti_type_id r) (cti_quantity r) (cti_is_included r).

Record ReimbursementRow := mkReimbursementRow {
  r_list_id : Uuid;
  r_requester_user_id : option Uuid;
  r_requester_principal_id : Uuid;
  r_hauler_user_id : Uuid;
  r_hauler_principal_id : Uuid;
  r_subtotal_isk : Z;
  r_tip_isk : Z;
  r_total_isk : Z;
  r_status : ReimbursementStatus;
  r_settled_at : option Timestamp;
  r_settled_by_user_id : option Uuid;
  r_contract_id : option Uuid;
  r_is_corp_funded : bool;
  r_verified_by_wallet : bool;
  r_wallet_settlement_delta_isk : option Z;
  r_created_at : Timestamp;
  r_updated_at : Timestamp
}.
#[export] Instance ReimbursementRow_settable : Settable ReimbursementRow := λ r,
  mkReimbursementRow (r_list_id r) (r_requester_user_id r) (r_requester_principal_id r)
  (r_hauler_user_id r) (r_hauler_principal_id r) (r_subtotal_isk r) (r_tip_isk r)
  (r_total_isk r) (r_status r) (r_settled_at r) (r_settled_by_user_id r)
  (r_contract_id r) (r_is_corp_funded r) (r_verified_by_wallet r)
  (r_wallet_settlement_delta_isk r) (r_created_at r) (r_updated_at r).

Record SuggestionRow := mkSuggestionRow {
  s_contract_id : Uuid;
  s_reimbursement_id : Uuid;
  s_score : Z;
  s_exact_match : bool;
  s_state : ContractMatchState;
  s_created_at : Timestamp;
  s_decided_at : option Timestamp;
  s_decided_by_user_id : option Uuid
}.
#[export] Instance SuggestionRow_settable : Settable SuggestionRow := λ r,
  mkSuggestionRow (s_contract_id r) (s_reimbursement_id r) (s_score r)
  (s_exact_match r) (s_state r) (s_created_at r) (s_decided_at r)
  (s_decided_by_user_id r).

Record PendingWebhookRow := mkPendingWebhookRow {
  pw_group_id : Uuid;
  pw_payload : Value;
  pw_created_at : Timestamp;
  pw_attempts : Z;
  pw_next_attempt_at : Timestamp
}.
#[export] Instance PendingWebhookRow_settable : Settable PendingWebhookRow := λ r,
  mkPendingWebhookRow (pw_group_id r) (pw_payload r) (pw_created_at r) (pw_attempts r)
  (pw_next_attempt_at r).

Record Db := mkDb {
  users : gmap Uuid UserRow;
  characters : gmap Uuid CharacterRow;
  groups : gmap Uuid GroupRow;
  group_memberships : gmap (Uuid * Uuid) MembershipRow;  (* (user_id, group_id) *)
  group_discord_webhooks : gmap Uuid WebhookRow;  (* group_id *)
  type_cache : gmap (list N) TypeCacheRow;  (* name_key *)
  markets : gmap Uuid MarketRow;
  market_prices : gmap (Uuid * Z) MarketPriceRow;  (* (market_id, type_id) *)
  group_tracked_markets : gmap (Uuid * Uuid) TrackedMarketRow;  (* (group_id, market_id) *)
  character_structure_access : gmap (Uuid * Uuid) CsaRow;  (* (character_id, market_id) *)
  corps : gmap Uuid CorpRow;
  group_corps : gmap (Uuid * Uuid) GroupCorpRow;  (* (group_id, corp_id) *)
  corp_ambassadors : gmap (Uuid * Uuid) AmbassadorRow;  (* (corp_id, character_id) *)
  corp_wallet_journal : gmap Uuid JournalRow;
  corp_wallet_divisions : gmap (Uuid * Z) DivisionRow;  (* (corp_id, division) *)
  principals : gmap Uuid PrincipalRow;
  lists : gmap Uuid ListRow;
  list_items : gmap Uuid ListItemRow;
  list_markets : gmap (Uuid * Uuid) ListMarketRow;  (* (list_id, market_id) *)
  claims : gmap Uuid ClaimRow;
  claim_items : gmap (Uuid * Uuid) ClaimItemRow;  (* (claim_id, list_item_id) *)
  fulfillments : gmap Uuid FulfillmentRow;
  contracts : gmap Uuid ContractRow;
  contract_items : gmap (Uuid * Z) ContractItemRow;  (* (contract_id, record_id) *)
  reimbursements : gmap Uuid ReimbursementRow;
  contract_match_suggestions : gmap Uuid SuggestionRow;
  pending_webhooks : gmap Uuid PendingWebhookRow;
  db_now : Timestamp;  (* now(), fixed for the transaction *)
  db_utc_now : Timestamp;  (* the process clock, Utc::now *)
  db_draws : N  (* results of gen_random_uuid() consumed so far *)
}.
#[export] Instance Db_settable : Settable Db := λ db,
  mkDb (users db) (characters db) (groups db) (group_memberships db)
  (group_discord_webhooks db) (type_cache db) (markets db) (market_prices db)
  (group_tracked_markets db) (character_structure_access db) (corps db)
  (group_corps db) (corp_ambassadors db) (corp_wallet_journal db)
  (corp_wallet_divisions db) (principals db) (lists db) (list_items db)
  (list_markets db) (claims db) (claim_items db) (fulfillments db) (contracts db)
  (contract_items db) (reimbursements db) (contract_match_suggestions db)
  (pending_webhooks db) (db_now db) (db_utc_now db) (db_draws db).

End Schema.

(** ** Driver errors

    The part of [sqlx::Error] the modelled statements can produce; a violated
    constraint is named as the database names it. *)
Inductive DbError :=
| RowNotFound
| ColumnDecode (column : string)
| UniqueViolation (constraint : string)
| ForeignKeyViolation (constraint : string)
| CheckViolation (constraint : string)
| NotNullViolation (column : string)
| NumericOverflow
| CardinalityViolation
| InFailedTransaction.

(** [db.constraint()] of a database error. *)
Definition constraint_of (e : DbError) : option string :=
  match e with
  | UniqueViolation c | ForeignKeyViolation c | CheckViolation c => Some c
  | _ => None
  end.

(** The conversion [?] applies to a driver error. *)
Class FromSql (E : Type) := from_sql : DbError → E.
#[export] Instance FromSql_DbError : FromSql DbError := id.

(** ** Statements *)

Section Statements.
Context `{RT : Runtime}.

Definition Stmt (A : Type) : Type := M Db DbError A.

Definition sql {E A} `{FromSql E} (s : Stmt A) : M Db E A := map_err from_sql s.

(** A SELECT that cannot fail. *)
Definition query {E A} (f : Db → A) : M Db E A := reads f.

(** [fetch_one] of a SELECT that may return no row. *)
Definition fetch_one {A} (f : Db → option A) : Stmt A :=
  o ← reads f; expect RowNotFound o.

(** A column read into a Rust type that is not an [Option]. *)
Definition not_null {A} (column : string) (o : option A) : Stmt A :=
  expect (ColumnDecode column) o.

Definition execute {E} (f : Db → Db) : M Db E unit := modify f.

Definition new_uuid : Stmt Uuid := λ db,
  Ok (gen_random_uuid (db_draws db), db <| db_draws ::= N.succ |>).

Definition row_exists {K V} `{Countable K} (t : gmap K V) (k : K) : bool :=
  negb (is_none (t !! k)).

Definition opt_row_exists {K V} `{Countable K} (t : gmap K V) (k : option K) : bool :=
  match k with None => true | Some k => row_exists t k end.

Definition unique (ok : Db → bool) (name : string) : Stmt unit :=
  b ← reads ok; ensure b (UniqueViolation name).
Definition foreign_key (ok : Db → bool) (name : string) : Stmt unit :=
  b ← reads ok; ensure b (ForeignKeyViolation name).
Definition check (ok : bool) (name : string) : Stmt unit :=
  ensure ok (CheckViolation name).

Lemma sql_Ok {E A} `{FromSql E} (s : Stmt A) db a db' :
  sql s db = Ok (a, db') ↔ s db = Ok (a, db').
Proof. apply map_err_Ok. Qed.

Lemma fetch_one_Ok {A} (f : Db → option A) db a db' :
  fetch_one f db = Ok (a, db') ↔ f db = Some a ∧ db' = db.
Proof.
  unfold fetch_one. rewrite bind_Ok. split.
  - intros (? & ? & Hr & He). apply reads_Ok in Hr as [-> ->].
    by apply expect_Ok in He as [-> ->].
  - intros [Hf ->]. exists (f db), db. split; [done|]. by apply expect_Ok.
Qed.

Lemma unique_Ok ok n db u db' :
  unique ok n db = Ok (u, db') ↔ ok db = true ∧ db' = db.
Proof.
  unfold unique. rewrite bind_Ok. setoid_rewrite reads_Ok. setoid_rewrite ensure_Ok.
  naive_solver.
Qed.

Lemma foreign_key_Ok ok n db u db' :
  foreign_key ok n db = Ok (u, db') ↔ ok db = true ∧ db' = db.
Proof.
  unfold foreign_key. rewrite bind_Ok. setoid_rewrite reads_Ok. setoid_rewrite ensure_Ok.
  naive_solver.
Qed.

Lemma row_exists_true {K V} `{Countable K} (t : gmap K V) k :
  row_exists t k = true ↔ is_Some (t !! k).
Proof. unfold row_exists. rewrite negb_true_iff. apply is_none_false. Qed.

Lemma row_exists_false {K V} `{Countable K} (t : gmap K V) k :
  row_exists t k = false ↔ t !! k = None.
Proof. unfold row_exists. rewrite negb_false_iff. apply is_none_true. Qed.
End Statements.

(** Splits a successful handler run into its statements. *)
Ltac inv_sql_step :=
  match goal with
  | H : sql _ _ = Ok _ |- _ => apply sql_Ok in H
  | H : query _ _ = Ok _ |- _ => unfold query in H; apply reads_Ok in H as [? ?]
  | H : execute _ _ = Ok _ |- _ => unfold execute in H; apply modify_Ok in H
  | H : fetch_one _ _ = Ok _ |- _ => apply fetch_one_Ok in H as [? ?]
  | H : not_null _ _ _ = Ok _ |- _ => unfold not_null in H
  | H : unique _ _ _ = Ok _ |- _ => apply unique_Ok in H as [? ?]
  | H : foreign_key _ _ _ = Ok _ |- _ => apply foreign_key_Ok in H as [? ?]
  | H : check _ _ _ = Ok _ |- _ => unfold check in H
  | H : new_uuid _ = Ok _ |- _ => unfold new_uuid in H; injection H; clear H; intros
  | _ => inv_M_step
  end.
Ltac inv_sql := repeat (inv_sql_step; subst).

(** Reads a column or a table through the updates made to it. *)
Ltac set_simpl :=
  repeat match goal with
  | |- context [?p (@set ?R ?T ?q ?i ?f ?x)] =>
      first [ let t := eval cbv beta in (f (q x)) in change (p (@set R T q i f x)) with t
            | change (p (@set R T q i f x)) with (p x) ]
  | H : context [?p (@set ?R ?T ?q ?i ?f ?x)] |- _ =>
      first [ let t := eval cbv beta in (f (q x)) in change (p (@set R T q i f x)) with t in H
            | change (p (@set R T q i f x)) with (p x) in H ]
  end.
