(* ===== verification/Fixtures.v ===== *)
(** * A concrete instance

    A runtime and a small database the witnesses run the handlers on: Alice
    (user 1, group owner) asks for two items, Bob (user 2) hauls, Carol (user
    3) is a bystander and corporation 70 may pay. *)

From Stdlib Require Import ZArith.
From stdpp Require Import base decidable option list gmap strings pretty.
From S2P Require Import Prelude Effect Unicode Domain Host Schema.

Local Open Scope string_scope.

Definition fixture_runtime : Runtime := {|
  Value := WebhookEvent;
  to_value := Some;
  gen_random_uuid n := (1000 + n)%N;
  decimal_to_string z := pretty z;
  enum_as_text := true;
  to_lowercase := fmap (M := list) ascii_lower;
  collate_leb := String.leb
|}.

#[local] Existing Instance fixture_runtime.

Definition empty_db : Db :=
  mkDb ∅ ∅ ∅ ∅ ∅ ∅ ∅ ∅ ∅ ∅ ∅ ∅ ∅ ∅ ∅ ∅ ∅ ∅ ∅ ∅ ∅ ∅ ∅ ∅ ∅ ∅ ∅ 100 101 0.

Definition fixture_item (qty : Z) (requester : Uuid) (status : ListItemStatus) : ListItemRow :=
  mkListItemRow 20 34 "Tritanium" qty 0 None None (Some requester) status None 5.

(** The list as it is created: nothing claimed, nothing bought. *)
Definition base_db : Db :=
  empty_db
    <| users := {[ 1%N := mkUserRow "Alice" None 1; 2%N := mkUserRow "Bob" None 1;
                   3%N := mkUserRow "Carol" None 1 ]} |>
    <| groups := {[ 10%N := mkGroupRow "Haulers" "code" 1 0 1 ]} |>
    <| group_memberships := {[ (1%N, 10%N) := mkMembershipRow Owner 1;
                               (2%N, 10%N) := mkMembershipRow Member 1;
                               (3%N, 10%N) := mkMembershipRow Member 1 ]} |>
    <| markets := {[ 50%N := mkMarketRow NpcHub 60003760 (Some 10000002%Z) (Some "Jita IV")
                               (Some "Jita") true true None None None None None None 0
                               None 1 ]} |>
    <| corps := {[ 70%N := mkCorpRow 98000001 "Corp" "CRP" None None None None None None None 1 ]} |>
    <| principals := {[ 101%N := mkPrincipalRow Principal_User (Some 1%N) None;
                        102%N := mkPrincipalRow Principal_User (Some 2%N) None;
                        103%N := mkPrincipalRow Principal_User (Some 3%N) None;
                        170%N := mkPrincipalRow Principal_Corp None (Some 70%N) ]} |>
    <| lists := {[ 20%N := mkListRow 10 1 (Some "Home") None List_Open 0 1000 None None 5 5 ]} |>
    <| list_markets := {[ (20%N, 50%N) := mkListMarketRow true 5 ]} |>
    <| list_items := {[ 30%N := fixture_item 10 1 Item_Open; 31%N := fixture_item 5 1 Item_Open ]} |>.

Definition fixture_contract (status : ContractStatus) : ContractRow :=
  mkContractRow 9000 501 (Some 2%N) (Some 102%N) (Some 502%Z) (Some 1%N) (Some 101%N)
    ItemExchange status 120000 0 0 (Some 110000%Z) None 50 None None (Some 90%Z) None None
    (ListDelivered "" "") (Some 60%Z) None None None 50 50.

(** Bob bought and delivered all of item 30; Alice owes him, under contract 80. *)
Definition bound_db : Db :=
  base_db
    <| list_items := {[ 30%N := fixture_item 10 1 Item_Delivered <| li_qty_fulfilled := 10%Z |>;
                        31%N := fixture_item 5 1 Item_Open ]} |>
    <| fulfillments := {[ 40%N := mkFulfillmentRow 30 None 2 None Source_Manual 10 10000
                                    (Some 50%N) None 70 None ]} |>
    <| contracts := {[ 80%N := fixture_contract Finished ]} |>
    <| reimbursements := {[ 60%N := mkReimbursementRow 20 (Some 1%N) 101 2 102
                                      100000 10000 110000 Reimb_Pending None None (Some 80%N)
                                      false false None 75 75 ]} |>
    <| contract_match_suggestions := {[ 90%N := mkSuggestionRow 80 60 10000 true Match_Confirmed
                                                  76 (Some 77%Z) (Some 2%N) ]} |>.

(** The same, before the contract was linked. *)
Definition unbound_db : Db :=
  bound_db
    <| reimbursements ::= fmap (λ r, r <| r_contract_id := None |>) |>
    <| contract_match_suggestions ::= fmap (λ s, s <| s_state := Match_Pending |>) |>.
