(* ===== verification/Errors.v ===== *)
(** * Errors and the request transaction

    [crates/api/src/errors.rs], the error type of [crates/settlement], the
    conversions between them, and the commit rule of
    [crates/api/src/db.rs: tx_middleware]. *)

From Stdlib Require Import ZArith.
From stdpp Require Import base tactics decidable option list gmap strings pretty.
From S2P Require Import Prelude Effect Domain Host Schema.

Local Open Scope string_scope.

(** ** [ApiError]

    The payload of an internal error is only logged, so it is kept as text. *)
Inductive ApiError :=
| BadRequest (msg : string)
| Unauthorized
| Forbidden (msg : string)
| NotFound (msg : string)
| Conflict (msg : string)
| QuotaExceeded (msg : string)
| Internal (e : string).

Definition forbidden : ApiError := Forbidden "you cannot perform this action".
Definition not_found : ApiError := NotFound "not found".
Definition internal (e : string) : ApiError := Internal e.

Definition DbError_to_string (e : DbError) : string :=
  match e with
  | RowNotFound => "no rows returned"
  | ColumnDecode c => "error decoding column " +:+ c
  | UniqueViolation c => "duplicate key value violates unique constraint " +:+ c
  | ForeignKeyViolation c => "violates foreign key constraint " +:+ c
  | CheckViolation c => "violates check constraint " +:+ c
  | NotNullViolation c => "null value violates not-null constraint of " +:+ c
  | NumericOverflow => "numeric field overflow"
  | CardinalityViolation => "ON CONFLICT DO UPDATE command cannot affect row a second time"
  | InFailedTransaction => "current transaction is aborted"
  end.

(** [impl From<sqlx::Error> for ApiError]. *)
#[export] Instance FromSql_ApiError : FromSql ApiError := λ e,
  match e with
  | RowNotFound => NotFound "not found"
  | other => Internal (DbError_to_string other)
  end.

(** [IntoResponse]: the status code and the body. *)
Definition into_response (e : ApiError) : Z * string :=
  match e with
  | BadRequest msg => (400%Z, msg)
  | Unauthorized => (401%Z, "not logged in")
  | Forbidden msg => (403%Z, msg)
  | NotFound msg => (404%Z, msg)
  | Conflict msg => (409%Z, msg)
  | QuotaExceeded msg => (422%Z, msg)
  | Internal _ => (500%Z, "internal error")
  end.

(** ** [SettlementError] *)
Inductive SettlementError :=
| Settlement_NotFound
| NotPending (s : ReimbursementStatus)
| NotDelivered (count : Z)
| Settlement_Db (e : DbError).

#[export] Instance FromSql_SettlementError : FromSql SettlementError := Settlement_Db.

Definition SettlementError_to_string (e : SettlementError) : string :=
  match e with
  | Settlement_NotFound => "settlement target not found"
  | NotPending s => "not in pending state: " +:+ ReimbursementStatus_to_string s
  | NotDelivered n => "items still owe delivery: " +:+ pretty n
  | Settlement_Db e => "database error: " +:+ DbError_to_string e
  end.

(** [anyhow::Error], as its text, and the conversion [?] applies to it. *)
Abbreviation Anyhow := string (only parsing).
#[export] Instance FromSql_Anyhow : FromSql Anyhow := DbError_to_string.

(** ** The request transaction

    A handler's [Ok] becomes a 200 response and its [Err] the error's status;
    [tx_middleware] commits on 2xx and rolls back otherwise.  The process
    clock and the UUID generator are not part of the database and are not
    rolled back; the next request reads them afresh. *)
Section Request.
Context `{RT : Runtime}.

Definition Handler (A : Type) : Type := M Db ApiError A.

Inductive Response (A : Type) := mkResponse (status : Z) (body : A + string).
Arguments mkResponse {A} status body.

Definition response_status {A} (r : Response A) : Z := let '(mkResponse s _) := r in s.

Definition is_success (status : Z) : bool := (200 <=? status)%Z && (status <? 300)%Z.

Definition to_response {A} (r : result ApiError (A * Db)) : Response A :=
  match r with
  | Ok (a, _) => mkResponse 200 (inl a)
  | Err e => let '(s, msg) := into_response e in mkResponse s (inr msg)
  end.

Definition tx_middleware {A} (h : Handler A) (db : Db) : Response A * Db :=
  let r := h db in
  let response := to_response r in
  let db' := match r with
             | Ok (_, tx) => if is_success (response_status response) then tx else db
             | Err _ => db
             end in
  (response, db').

(** A request is atomic: its writes are kept exactly when the handler
    succeeds, every error response has a 4xx or 5xx status and leaves the
    database as it was. *)
Theorem tx_middleware_atomic {A} (h : Handler A) (db : Db) :
  match h db with
  | Ok (a, tx) => tx_middleware h db = (mkResponse 200 (inl a), tx)
  | Err e => tx_middleware h db =
               (mkResponse (into_response e).1 (inr (into_response e).2), db) ∧
             (400 ≤ (into_response e).1 ≤ 500)%Z
  end.
Proof.
  unfold tx_middleware. destruct (h db) as [[a tx]|e]; [done|].
  split; [by destruct e|destruct e; cbn; lia].
Qed.

Definition anyhow {A} (m : M Db Anyhow A) : Handler A := map_err internal m.

(** A job's transaction: [pool.begin()], the body, and [tx.commit()] unless
    the body failed. *)
Definition in_transaction {A} (body : M Db Anyhow A) (db : Db) : result Anyhow A * Db :=
  match body db with
  | Ok (a, db') => (Ok a, db')
  | Err e => (Err e, db)
  end.
End Request.

(** [x.map_err(|e| ApiError::internal(anyhow!("ctx: {e}")))]. *)
Definition settlement_internal (ctx : string) (e : SettlementError) : ApiError :=
  internal (ctx +:+ ": " +:+ SettlementError_to_string e).
