(* ===== verification/Within.v ===== *)
(** * Programs within a relation

    A handler is a sequence of statements; when each of them moves the
    database within a preorder, so does the handler.  [within R m] says so of
    [m]; [within_solve] takes a handler apart into its statements. *)

From stdpp Require Import base tactics decidable option list gmap strings.
From S2P Require Import Prelude Effect Domain Host Schema.

Section Within.
Context {S : Type} (R : S → S → Prop) `{!PreOrder R}.

Definition within {E A} (m : M S E A) : Prop := ∀ s a s', m s = Ok (a, s') → R s s'.

Lemma within_bind {E A B} (m : M S E A) (k : A → M S E B) :
  within m → (∀ a, within (k a)) → within (m ≫= k).
Proof.
  intros Hm Hk s b s'' (a & s' & H1 & H2)%bind_Ok. etransitivity; [by eapply Hm|by eapply Hk].
Qed.

Lemma within_ret {E A} (a : A) : within (E := E) (mret a).
Proof. by intros s b s' [-> ->]%ret_Ok. Qed.

Lemma within_throw {E A} (e : E) : within (A := A) (throw e).
Proof. by intros s b s' []%throw_Ok. Qed.

Lemma within_reads {E A} (f : S → A) : within (E := E) (reads f).
Proof. by intros s b s' [-> ->]%reads_Ok. Qed.

Lemma within_modify {E} (f : S → S) : (∀ s, R s (f s)) → within (E := E) (modify f).
Proof. by intros Hf s b s' ->%modify_Ok. Qed.

Lemma within_ensure {E} b (e : E) : within (ensure b e).
Proof. by intros s u s' [_ ->]%ensure_Ok. Qed.

Lemma within_expect {E A} (e : E) (o : option A) : within (expect e o).
Proof. by intros s u s' [_ ->]%expect_Ok. Qed.

Lemma within_of_result {E A} (r : result E A) : within (of_result r).
Proof. by intros s u s' [_ ->]%of_result_Ok. Qed.

Lemma within_map_err {E E' A} (f : E → E') (m : M S E A) : within m → within (map_err f m).
Proof. intros Hm s a s' H%map_err_Ok. by eapply Hm. Qed.

Lemma within_when {E} b (m : M S E unit) : within m → within (when b m).
Proof. intros Hm s a s' H%when_Ok. destruct b; [by eapply Hm|by subst]. Qed.

Lemma within_attempt {E E' A} (m : M S E A) : within m → within (E := E') (attempt m).
Proof. intros Hm s a s' [(? & _ & H)|(? & _ & _ & ->)]%attempt_Ok; [by eapply Hm|done]. Qed.

Lemma within_for_each {E X} (body : X → M S E unit) xs :
  (∀ x, within (body x)) → within (for_each body xs).
Proof.
  intros Hb. induction xs as [|x xs IH]; [apply within_ret|]. by apply within_bind.
Qed.

Lemma within_fold_each {E X A} (body : A → X → M S E A) xs a :
  (∀ a x, within (body a x)) → within (fold_each body xs a).
Proof.
  intros Hb. revert a. induction xs as [|x xs IH]; intros a; [apply within_ret|].
  by apply within_bind.
Qed.
End Within.

Lemma within_sub {S} (R R' : S → S → Prop) {E A} (m : M S E A) :
  (∀ s s', R s s' → R' s s') → within R m → within R' m.
Proof. intros Hsub Hm s a s' H. by eapply Hsub, Hm. Qed.

Create HintDb within.

Ltac within_apply lem :=
  apply lem; try match goal with |- PreOrder _ => typeclasses eauto end.

(** Takes the goal [within R m] apart along [m]; what is left is about the
    statements that write. *)
Ltac within_step :=
  match goal with
  | |- within _ (_ ≫= _) => within_apply within_bind; [|intros ?]
  | |- within _ (mbind _ _) => within_apply within_bind; [|intros ?]
  | |- within _ (mret _) => within_apply within_ret
  | |- within _ (throw _) => within_apply within_throw
  | |- within _ (reads _) => within_apply within_reads
  | |- within _ (query _) => within_apply within_reads
  | |- within _ (fetch_one _) => unfold fetch_one
  | |- within _ (ensure _ _) => within_apply within_ensure
  | |- within _ (unique _ _) => unfold unique
  | |- within _ (foreign_key _ _) => unfold foreign_key
  | |- within _ (check _ _) => unfold check
  | |- within _ (not_null _ _) => unfold not_null
  | |- within _ (expect _ _) => within_apply within_expect
  | |- within _ (of_result _) => within_apply within_of_result
  | |- within _ (map_err _ _) => within_apply within_map_err
  | |- within _ (sql _) => within_apply within_map_err
  | |- within _ (when _ _) => within_apply within_when
  | |- within _ (attempt _) => within_apply within_attempt
  | |- within _ (for_each _ _) => within_apply within_for_each; intros ?
  | |- within _ (fold_each _ _ _) => within_apply within_fold_each; intros ? ?
  | |- within _ (execute _) => within_apply within_modify; intros ?
  | |- within _ (modify _) => within_apply within_modify; intros ?
  | |- within _ (match ?x with _ => _ end) => destruct x
  end.
Ltac within_solve := repeat first [within_step | solve [eauto with within]].
