(* ===== verification/Multibuy.v ===== *)
(** * The MultiBuy parser

    [crates/domain/src/multibuy.rs]: a pasted shopping list, one item per
    line, either tab-separated or with the quantity as the first of the
    trailing numeric columns; lines naming the same item are merged. *)

From Stdlib Require Import ZArith Lia.
From stdpp Require Import base tactics decidable option list gmap strings.
From S2P Require Import Prelude Effect Unicode Host Schema Fixtures.

Local Open Scope string_scope.
Local Open Scope list_scope.

Record ParsedLine := mkParsedLine {
  pl_line_nos : list Z;
  pl_name : Str;
  pl_qty : Z
}.
#[export] Instance ParsedLine_settable : Settable ParsedLine := λ r,
  mkParsedLine (pl_line_nos r) (pl_name r) (pl_qty r).

Record LineError := mkLineError {
  le_line_no : Z;
  le_raw : Str;
  le_reason : string
}.

Record ParsedMultibuy := mkParsedMultibuy {
  pm_lines : list ParsedLine;
  pm_errors : list LineError
}.

Definition nbsp : N := 0xA0.
Definition MAX_LINE_NOS_PER_KEY : nat := 1024.

Definition parse_qty (s : Str) : option Z :=
  q ← parse_i64 (remove_char 44 s); if (0 <? q)%Z then Some q else None.

Definition is_numeric_token (s : Str) : bool :=
  let cleaned := remove_char 44 s in
  if bool_decide (cleaned = []) then false else parses_f64 cleaned.

Definition qty_error (tok : Str) : string :=
  "quantity must be a positive integer (got '" +:+ utf8 tok +:+ "')".

Definition parse_tab_line (line : Str) : result string (Str * Z) :=
  match trim <$> split 9 line with
  | name :: qty_tok :: _ =>
      if bool_decide (name = []) then Err "missing item name"
      else qty ← ok_or (qty_error qty_tok) (parse_qty qty_tok); Ok (name, qty)
  | _ => Err "tab line needs at least name and qty"
  end.

(** The walk from the right: the tokens before the trailing numeric run, and
    the run. *)
Fixpoint numeric_run (rev_tokens run : list Str) : list Str * list Str :=
  match rev_tokens with
  | t :: rest => if is_numeric_token t then numeric_run rest (t :: run) else (rev rev_tokens, run)
  | [] => ([], run)
  end.

Definition parse_whitespace_line (line : Str) : result string (Str * Z) :=
  let tokens := split_whitespace line in
  if (length tokens <? 2)%nat then Err "need at least an item name and a quantity"
  else
    match numeric_run (rev tokens) [] with
    | (_, []) => Err "no trailing quantity column found"
    | ([], _) => Err "missing item name"
    | (name_tokens, qty_tok :: _) =>
        qty ← ok_or (qty_error qty_tok) (parse_qty qty_tok);
        let name := join [32%N] name_tokens in
        if bool_decide (name = []) then Err "missing item name" else Ok (name, qty)
    end.

Section Multibuy.
Context `{RT : Runtime}.

Definition name_key (name : Str) : Str := to_lowercase (trim (replace_char nbsp 32 name)).

(** One trimmed, non-empty line. *)
Definition parse_line (trimmed : Str) : result string (Str * Z) :=
  if bool_decide ((9%N : N) ∈ trimmed) then parse_tab_line trimmed
  else parse_whitespace_line trimmed.

(** What the loop accumulates: [agg], [order] and [errors]. *)
Record Aggregate := mkAggregate {
  agg : gmap Str ParsedLine;
  order : list Str;
  agg_errors : list LineError
}.

Definition add_line (line_no : Z) (key name : Str) (qty : Z) (a : Aggregate) : Aggregate :=
  match agg a !! key with
  | Some existing =>
      let nos := pl_line_nos existing in
      let existing' := mkParsedLine
        (if (length nos <? MAX_LINE_NOS_PER_KEY)%nat then nos ++ [line_no] else nos)
        (pl_name existing) (sat_add_i64 (pl_qty existing) qty) in
      mkAggregate (<[key := existing']> (agg a)) (order a) (agg_errors a)
  | None =>
      mkAggregate (<[key := mkParsedLine [line_no] name qty]> (agg a)) (order a ++ [key])
        (agg_errors a)
  end.

Definition line_error (e : LineError) (a : Aggregate) : Aggregate :=
  mkAggregate (agg a) (order a) (agg_errors a ++ [e]).

(** [idx] saturated to [u32], plus one, saturated. *)
Definition line_no_of (idx : nat) : Z := sat_add_u32 (Z.min u32_max (Z.of_nat idx)) 1.

Definition parse_step (a : Aggregate) (idx : nat) (raw : Str) : Aggregate :=
  let line_no := line_no_of idx in
  let trimmed := trim (replace_char nbsp 32 raw) in
  if bool_decide (trimmed = []) then a
  else
    match parse_line trimmed with
    | Ok (name, qty) =>
        let key := name_key name in
        if bool_decide (key = []) then line_error (mkLineError line_no raw "missing item name") a
        else add_line line_no key name qty a
    | Err reason => line_error (mkLineError line_no raw reason) a
    end.

Fixpoint parse_from (idx : nat) (raws : list Str) (a : Aggregate) : Aggregate :=
  match raws with
  | [] => a
  | raw :: rest => parse_from (S idx) rest (parse_step a idx raw)
  end.

Definition parse_multibuy (input : Str) : ParsedMultibuy :=
  let a := parse_from 0 (lines input) (mkAggregate ∅ [] []) in
  mkParsedMultibuy (omap (λ k, agg a !! k) (order a)) (agg_errors a).

(** ** The reference reading

    Every line is blank, an error, or an entry; the entries that name the same
    item are summed up. *)

Record Entry := mkEntry { en_no : Z; en_name : Str; en_qty : Z }.
Definition en_key (e : Entry) : Str := name_key (en_name e).

Definition line_outcome (idx : nat) (raw : Str) : option (LineError + Entry) :=
  let trimmed := trim (replace_char nbsp 32 raw) in
  if bool_decide (trimmed = []) then None
  else Some match parse_line trimmed with
            | Err reason => inl (mkLineError (line_no_of idx) raw reason)
            | Ok (name, qty) =>
                if bool_decide (name_key name = [])
                then inl (mkLineError (line_no_of idx) raw "missing item name")
                else inr (mkEntry (line_no_of idx) name qty)
            end.

Definition outcomes (idx : nat) (raws : list Str) : list (LineError + Entry) :=
  omap id (imap (λ i, line_outcome (idx + i)) raws).

Definition entries (os : list (LineError + Entry)) : list Entry :=
  omap (λ o, match o with inr e => Some e | inl _ => None end) os.
Definition rejected (os : list (LineError + Entry)) : list LineError :=
  omap (λ o, match o with inl e => Some e | inr _ => None end) os.

(** The entries of one item, as one line. *)
Definition summary (es : list Entry) : option ParsedLine :=
  match es with
  | [] => None
  | e :: _ => Some (mkParsedLine (take MAX_LINE_NOS_PER_KEY (en_no <$> es)) (en_name e)
                      (Z.min i64_max (foldr Z.add 0%Z (en_qty <$> es))))
  end.
Definition of_key (k : Str) (es : list Entry) : list Entry :=
  List.filter (λ e, en_key e == k) es.

Definition first_seen (ks : list Str) : list Str :=
  foldl (λ seen k, if bool_decide (k ∈ seen) then seen else seen ++ [k]) [] ks.

Definition reference (input : Str) : ParsedMultibuy :=
  let os := outcomes 0 (lines input) in
  let es := entries os in
  mkParsedMultibuy (omap (λ k, summary (of_key k es)) (first_seen (en_key <$> es))) (rejected os).

(** ** Lemmas *)

Lemma parse_i64_range s z : parse_i64 s = Some z → (i64_min ≤ z ≤ i64_max)%Z.
Proof.
  unfold parse_i64. intros Hp. destruct (take_sign s) as [sg ds].
  destruct (_ || _); [done|]. case_match; [|done]. simplify_eq. by apply in_i64_spec.
Qed.

Lemma parse_qty_range s q : parse_qty s = Some q → (0 < q ≤ i64_max)%Z.
Proof.
  unfold parse_qty. intros (z & Hz & Hq)%bind_Some. pose proof (parse_i64_range _ _ Hz).
  destruct (0 <? z)%Z eqn:Hpos; [|done]. injection Hq as <-. apply Z.ltb_lt in Hpos. lia.
Qed.

Lemma ok_or_bind_Ok {E A B} (e : E) (o : option A) (k : A → result E B) b :
  ok_or e o ≫= k = Ok b → ∃ a, o = Some a ∧ k a = Ok b.
Proof. destruct o; [eauto|done]. Qed.

Lemma parse_line_Ok line name qty :
  parse_line line = Ok (name, qty) → name ≠ [] ∧ (0 < qty ≤ i64_max)%Z.
Proof.
  unfold parse_line, parse_tab_line, parse_whitespace_line. intros Hp.
  repeat (case_match; try done); apply ok_or_bind_Ok in Hp as (q & Hq & Hr);
    apply parse_qty_range in Hq; cbn in Hr; repeat (case_match; try done); bool_simpl; done.
Qed.

Lemma line_outcome_entry idx raw e :
  line_outcome idx raw = Some (inr e) →
  en_no e = line_no_of idx ∧ en_name e ≠ [] ∧ (0 < en_qty e ≤ i64_max)%Z ∧ en_key e ≠ [].
Proof.
  unfold line_outcome. case_bool_decide; [done|].
  destruct (parse_line _) as [[name qty]|] eqn:Hp; [|done]. case_bool_decide; [done|].
  intros [= <-]. apply parse_line_Ok in Hp as [? ?]. done.
Qed.

Lemma entries_sound idx raws e :
  e ∈ entries (outcomes idx raws) →
  (1 ≤ en_no e ≤ u32_max)%Z ∧ en_name e ≠ [] ∧ (0 < en_qty e ≤ i64_max)%Z ∧ en_key e ≠ [].
Proof.
  unfold entries, outcomes. rewrite list_elem_of_omap. intros ([er|en] & Hin & [= ->]).
  apply list_elem_of_omap in Hin as (o & Hin & Ho). cbn in Ho. subst o.
  apply elem_of_lookup_imap in Hin as (i & raw & Ho & _). symmetry in Ho.
  apply line_outcome_entry in Ho as (-> & ? & ? & ?). split; [|done].
  unfold line_no_of, sat_add_u32, u32_max. lia.
Qed.

Lemma parse_step_outcome a idx raw :
  parse_step a idx raw =
  match line_outcome idx raw with
  | None => a
  | Some (inl e) => line_error e a
  | Some (inr e) => add_line (en_no e) (en_key e) (en_name e) (en_qty e) a
  end.
Proof.
  unfold parse_step, line_outcome. case_bool_decide; [done|].
  destruct (parse_line _) as [[name qty]|]; [|done]. by case_bool_decide.
Qed.

Lemma outcomes_cons idx raw raws :
  outcomes idx (raw :: raws) =
  match line_outcome idx raw with None => [] | Some o => [o] end ++ outcomes (S idx) raws.
Proof.
  unfold outcomes. cbn. rewrite Nat.add_0_r.
  rewrite (imap_ext _ (λ i, line_outcome (S idx + i))) by (intros; cbn; f_equal; lia).
  by destruct (line_outcome idx raw).
Qed.

Lemma of_key_snoc k es e :
  of_key k (es ++ [e]) = of_key k es ++ (if en_key e == k then [e] else []).
Proof. unfold of_key. rewrite List.filter_app. cbn. by destruct (en_key e == k). Qed.

Lemma sum_snoc zs z : foldr Z.add 0%Z (zs ++ [z]) = (foldr Z.add 0%Z zs + z)%Z.
Proof. induction zs; cbn; lia. Qed.

Lemma sum_pos zs : Forall (λ z, 0 < z)%Z zs → (0 ≤ foldr Z.add 0 zs)%Z.
Proof. induction 1; cbn; lia. Qed.

Lemma first_seen_snoc ks k :
  first_seen (ks ++ [k]) =
  if bool_decide (k ∈ first_seen ks) then first_seen ks else first_seen ks ++ [k].
Proof. unfold first_seen. by rewrite foldl_app. Qed.

Lemma elem_of_first_seen ks k : k ∈ first_seen ks ↔ k ∈ ks.
Proof.
  induction ks as [|k' ks IH] using rev_ind; [done|]. rewrite first_seen_snoc.
  case_bool_decide; set_solver.
Qed.

Lemma NoDup_first_seen ks : NoDup (first_seen ks).
Proof.
  induction ks as [|k ks IH] using rev_ind; [constructor|]. rewrite first_seen_snoc.
  case_bool_decide; [done|]. apply NoDup_app. split; [done|]. split; [set_solver|].
  apply NoDup_singleton.
Qed.

Lemma of_key_nil k es : of_key k es = [] ↔ k ∉ (en_key <$> es).
Proof.
  unfold of_key. induction es as [|e es IH]; cbn; [set_solver|].
  destruct (en_key e == k) eqn:Hk; bool_simpl; split; try done; set_solver.
Qed.

Lemma take_snoc {A} n (l : list A) x :
  take n (l ++ [x]) = if (length (take n l) <? n)%nat then take n l ++ [x] else take n l.
Proof.
  rewrite take_app, length_take. destruct (Nat.ltb_spec (Nat.min n (length l)) n).
  - rewrite (take_ge l), (take_ge [x]) by (cbn; lia). done.
  - replace (n - length l)%nat with 0%nat by lia. by rewrite app_nil_r.
Qed.

Definition merge (e : Entry) (o : option ParsedLine) : ParsedLine :=
  match o with
  | None => mkParsedLine [en_no e] (en_name e) (en_qty e)
  | Some x => mkParsedLine
      (if (length (pl_line_nos x) <? MAX_LINE_NOS_PER_KEY)%nat
       then pl_line_nos x ++ [en_no e] else pl_line_nos x)
      (pl_name x) (sat_add_i64 (pl_qty x) (en_qty e))
  end.

Definition entry_ok (e : Entry) : Prop := (0 < en_qty e ≤ i64_max)%Z.

Lemma summary_snoc es e :
  Forall entry_ok es → entry_ok e → summary (es ++ [e]) = Some (merge e (summary es)).
Proof.
  intros Hes He. destruct es as [|e0 es].
  - cbn. rewrite Z.add_0_r, Z.min_r by apply He. done.
  - cbn [app summary merge]. unfold merge. cbn [pl_line_nos pl_name pl_qty]. f_equal. f_equal.
    + rewrite app_comm_cons, fmap_app. apply take_snoc.
    + rewrite app_comm_cons, fmap_app. cbn [fmap list_fmap]. rewrite sum_snoc.
      assert (0 ≤ foldr Z.add 0 (en_qty <$> e0 :: es))%Z as Hs.
      { apply sum_pos, Forall_fmap. eapply Forall_impl; [exact Hes|]. by intros ? [? _]. }
      cbn [fmap list_fmap] in Hs.
      unfold sat_add_i64, entry_ok, i64_min, i64_max in *. lia.
Qed.

Definition agg_ok (os : list (LineError + Entry)) (a : Aggregate) : Prop :=
  (∀ k, agg a !! k = summary (of_key k (entries os))) ∧
  order a = first_seen (en_key <$> entries os) ∧ agg_errors a = rejected os.

Lemma entries_snoc os o :
  entries (os ++ [o]) = entries os ++ match o with inr e => [e] | inl _ => [] end.
Proof. unfold entries. rewrite omap_app. by destruct o. Qed.

Lemma rejected_snoc os o :
  rejected (os ++ [o]) = rejected os ++ match o with inl e => [e] | inr _ => [] end.
Proof. unfold rejected. rewrite omap_app. by destruct o. Qed.

Lemma agg_ok_error os a e : agg_ok os a → agg_ok (os ++ [inl e]) (line_error e a).
Proof.
  intros (Hk & Ho & He). unfold agg_ok. rewrite entries_snoc, rejected_snoc, app_nil_r.
  cbn. by rewrite He.
Qed.

Lemma agg_ok_entry os a e :
  Forall entry_ok (entries os) → entry_ok e → agg_ok os a →
  agg_ok (os ++ [inr e]) (add_line (en_no e) (en_key e) (en_name e) (en_qty e) a).
Proof.
  intros Hes Hen (Hk & Ho & He). unfold agg_ok. rewrite entries_snoc, rejected_snoc, app_nil_r.
  assert (Forall entry_ok (of_key (en_key e) (entries os))) as Hf.
  { apply Forall_forall. intros x Hx. rewrite Forall_forall in Hes. apply Hes.
    apply list_elem_of_In in Hx. apply filter_In in Hx as [Hx _]. by apply list_elem_of_In. }
  assert (agg (add_line (en_no e) (en_key e) (en_name e) (en_qty e) a) =
          <[en_key e := merge e (agg a !! en_key e)]> (agg a)) as ->.
  { unfold add_line, merge. by destruct (agg a !! en_key e). }
  split; [|split].
  - intros k. rewrite of_key_snoc. destruct (decide (k = en_key e)) as [->|Hne].
    + by rewrite lookup_insert_eq, bool_decide_eq_true_2, summary_snoc, Hk.
    + by rewrite lookup_insert_ne, bool_decide_eq_false_2, app_nil_r.
  - rewrite fmap_app. change (en_key <$> [e]) with [en_key e].
    rewrite first_seen_snoc, <- Ho. unfold add_line.
    assert (is_none (agg a !! en_key e) = negb (bool_decide (en_key e ∈ order a))) as Hd.
    { rewrite Hk, Ho. destruct (of_key (en_key e) (entries os)) eqn:Hof.
      - apply of_key_nil in Hof. by rewrite bool_decide_eq_false_2 by by rewrite elem_of_first_seen.
      - rewrite bool_decide_eq_true_2; [done|]. rewrite elem_of_first_seen.
        apply dec_stable. intros Hn. apply of_key_nil in Hn. congruence. }
    by destruct (agg a !! en_key e), (bool_decide _).
  - unfold add_line. by destruct (agg a !! en_key e).
Qed.

Lemma parse_from_agg idx raws os a :
  Forall entry_ok (entries os) → agg_ok os a →
  agg_ok (os ++ outcomes idx raws) (parse_from idx raws a).
Proof.
  revert idx os a. induction raws as [|raw raws IH]; intros idx os a Hes Ha.
  - by rewrite app_nil_r.
  - rewrite outcomes_cons, app_assoc. cbn [parse_from]. rewrite parse_step_outcome.
    destruct (line_outcome idx raw) as [[er|en]|] eqn:Ho.
    + apply IH; [by rewrite entries_snoc, app_nil_r|by apply agg_ok_error].
    + apply line_outcome_entry in Ho as (_ & _ & Hq & _). apply IH; [|by apply agg_ok_entry].
      rewrite entries_snoc. by apply Forall_app_2, Forall_singleton.
    + rewrite app_nil_r. by apply IH.
Qed.

Lemma parse_multibuy_run input : parse_multibuy input = reference input.
Proof.
  destruct (parse_from_agg 0 (lines input) [] (mkAggregate ∅ [] [])) as (Hk & Ho & He).
  { constructor. }
  { split; [|done]. intros k. apply lookup_empty. }
  unfold parse_multibuy, reference. rewrite Ho, He. f_equal.
  apply list_omap_ext. apply Forall_Forall2_diag, Forall_forall. intros k _. apply Hk.
Qed.

(** C34 The parser agrees with the reference reading: blank lines are skipped,
    each bad line is one error with its number and text, and the accepted
    lines are merged by item in the order of first sight, the quantity being
    the sum of theirs, saturated, and the name the first spelling. *)
Theorem parse_multibuy_reference input :
  parse_multibuy input =
  let os := outcomes 0 (lines input) in
  mkParsedMultibuy
    (omap (λ k, summary (of_key k (entries os))) (first_seen (en_key <$> entries os)))
    (rejected os).
Proof. apply parse_multibuy_run. Qed.

Lemma of_key_head k es e rest : of_key k es = e :: rest → en_key e = k ∧ e ∈ es.
Proof.
  intros Hk. assert (e ∈ of_key k es) as Hin by (rewrite Hk; left).
  apply list_elem_of_In in Hin. unfold of_key in Hin. apply filter_In in Hin as [Hin He].
  bool_simpl. by apply list_elem_of_In in Hin.
Qed.

Lemma NoDup_omap_key {A} (f : Str → option A) (g : A → Str) ks :
  (∀ k x, f k = Some x → g x = k) → NoDup ks → NoDup (g <$> omap f ks).
Proof.
  intros Hg. induction 1 as [|k ks Hk _ IH]; cbn; [constructor|].
  destruct (f k) as [x|] eqn:Hx; [|done]. cbn. constructor; [|done].
  rewrite (Hg _ _ Hx), list_elem_of_fmap. intros (y & -> & Hy).
  apply list_elem_of_omap in Hy as (k' & Hk' & Hy). by rewrite (Hg _ _ Hy) in Hk.
Qed.

(** Whatever is pasted, a parsed line is one a list item can be made of: it
    has a name, a positive quantity that fits 64 bits, and between 1 and 1024
    source line numbers, each at least 1 and within 32 bits; and no two
    lines name the same item. *)
Theorem parse_multibuy_bounds input :
  (∀ l, l ∈ pm_lines (parse_multibuy input) →
     pl_name l ≠ [] ∧ (0 < pl_qty l ≤ i64_max)%Z ∧
     (1 ≤ length (pl_line_nos l) ≤ MAX_LINE_NOS_PER_KEY)%nat ∧
     Forall (λ n, 1 ≤ n ≤ u32_max)%Z (pl_line_nos l)) ∧
  NoDup ((λ l, name_key (pl_name l)) <$> pm_lines (parse_multibuy input)).
Proof.
  rewrite parse_multibuy_run. unfold reference. cbn [pm_lines].
  set (es := entries (outcomes 0 (lines input))).
  assert (∀ e, e ∈ es → (1 ≤ en_no e ≤ u32_max)%Z ∧ en_name e ≠ [] ∧ entry_ok e) as Hes.
  { intros e He. destruct (entries_sound _ _ _ He) as (? & ? & ? & _). done. }
  split.
  - intros l Hl. apply list_elem_of_omap in Hl as (k & _ & Hl).
    destruct (of_key k es) as [|e rest] eqn:Hk; [done|]. cbn [summary] in Hl.
    apply (inj Some) in Hl as <-. cbn [pl_name pl_qty pl_line_nos].
    assert (∀ x, x ∈ e :: rest → x ∈ es) as Hsub.
    { intros x. rewrite <- Hk. unfold of_key. rewrite !list_elem_of_In, filter_In. tauto. }
    destruct (Hes e) as (_ & Hn & Hq); [by apply Hsub; left|].
    assert (0 ≤ foldr Z.add 0 (en_qty <$> rest))%Z as Hsum.
    { apply sum_pos, Forall_fmap, Forall_forall. intros x Hx. cbn.
      destruct (Hes x) as (_ & _ & []); [by apply Hsub; right|done]. }
    unfold entry_ok in Hq. split; [done|]. split.
    { cbn [fmap list_fmap foldr]. unfold i64_max in *. lia. }
    split.
    + rewrite length_take, length_fmap. cbn [length]. unfold MAX_LINE_NOS_PER_KEY. lia.
    + apply Forall_take, Forall_fmap, Forall_forall. intros x Hx. cbn.
      by destruct (Hes x) as (? & _); [apply Hsub|].
  - apply (NoDup_omap_key _ (λ l, name_key (pl_name l))); [|apply NoDup_first_seen].
    intros k l Hl. destruct (of_key k es) as [|e rest] eqn:Hk; [done|]. injection Hl as <-.
    by apply of_key_head in Hk as [<- _].
Qed.

(** ** Pasting what was copied *)

(** The line EVE copies for an item. *)
Definition render_line (l : Str * Z) : Str := l.1 ++ 9%N :: show (Z.to_N l.2).
Definition render (ls : list (Str * Z)) : Str := ls ≫= λ l, render_line l ++ [10%N].

(** A name that survives: no tab, line feed or no-break space in it, no white
    space around it, and something left of it once folded to a key. *)
Record printable (l : Str * Z) : Prop := mkPrintable {
  printable_name : l.1 ≠ [];
  printable_trimmed : trimmed l.1;
  printable_chars : Forall (λ c, c ≠ 9 ∧ c ≠ 10 ∧ c ≠ nbsp)%N l.1;
  printable_key : name_key l.1 ≠ [];
  printable_qty : (0 < l.2 ≤ i64_max)%Z
}.

Lemma show_char n c : c ∈ show n → (48 ≤ c ≤ 57)%N.
Proof.
  pose proof (proj1 (all_digits_Forall _) (show_all_digits n)) as Hf.
  rewrite Forall_forall in Hf. apply Hf.
Qed.

Lemma digit_not_space c : (48 ≤ c ≤ 57)%N → is_whitespace c = false.
Proof.
  intros Hc. unfold is_whitespace.
  repeat match goal with
  | |- context [(?a =? ?b)%N] => destruct (N.eqb_spec a b); [lia|]
  | |- context [(?a <=? ?b)%N] => destruct (N.leb_spec a b); try lia
  end; done.
Qed.

Lemma snoc_of {A} (s : list A) : s ≠ [] → ∃ r c, s = r ++ [c].
Proof. intros Hs. destruct (exists_last Hs) as (r & c & ->). eauto. Qed.

Lemma show_trimmed n : trimmed (show n).
Proof.
  split; intros c r Hc; apply digit_not_space, (show_char n); rewrite Hc; set_solver.
Qed.

Lemma render_line_trimmed l : printable l → trimmed (render_line l).
Proof.
  intros [Hn [Ht _] _ _ _]. unfold render_line. split; intros c r Hc.
  - destruct l.1 as [|d name]; [done|]. injection Hc as -> _. by eapply Ht.
  - destruct (snoc_of (show (Z.to_N l.2)) (show_not_nil _)) as (ds & d & Hd).
    rewrite Hd, app_comm_cons, app_assoc in Hc. apply app_inj_tail in Hc as [_ <-].
    apply digit_not_space, (show_char (Z.to_N l.2)). rewrite Hd. set_solver.
Qed.

Lemma replace_char_id from to s : from ∉ s → replace_char from to s = s.
Proof.
  intros Hs. unfold replace_char. rewrite <- (list_fmap_id s) at 2.
  apply list_fmap_ext. intros i c Hc. apply list_elem_of_lookup_2 in Hc.
  destruct (N.eqb_spec c from); [congruence|done].
Qed.

Lemma remove_char_id d s : d ∉ s → remove_char d s = s.
Proof.
  unfold remove_char. induction s as [|c s IH]; [done|]. intros [Hne Hd]%not_elem_of_cons. cbn.
  destruct (N.eqb_spec c d); [congruence|]. cbn. by rewrite IH.
Qed.

Lemma parse_qty_show q : (0 < q ≤ i64_max)%Z → parse_qty (show (Z.to_N q)) = Some q.
Proof.
  intros Hq. unfold parse_qty. rewrite remove_char_id by (intros H%show_char; lia).
  rewrite parse_i64_digits; rewrite ?show_value, ?Z2N.id by lia; [|apply show_not_nil|apply show_all_digits|lia].
  cbn. by destruct (Z.ltb_spec 0 q); [|lia].
Qed.

Lemma render_line_outcome idx l :
  printable l → line_outcome idx (render_line l) = Some (inr (mkEntry (line_no_of idx) l.1 l.2)).
Proof.
  intros Hp. pose proof (render_line_trimmed _ Hp) as Ht. destruct Hp as [Hn Htn Hc Hk Hq].
  rewrite Forall_forall in Hc. unfold line_outcome.
  rewrite replace_char_id, trim_id by
    (done || (unfold render_line, nbsp; rewrite elem_of_app, elem_of_cons;
              intros [H|[H|H%show_char]]; [by apply Hc in H as (_ & _ & ?)|done|lia])).
  rewrite bool_decide_eq_false_2 by (unfold render_line; by destruct l.1).
  unfold parse_line. rewrite bool_decide_eq_true_2 by (unfold render_line; set_solver).
  unfold parse_tab_line, render_line. rewrite split_app, split_none
    by ((intros H; by apply Hc in H as (? & _)) || (intros H%show_char; lia)).
  cbn [fmap list_fmap]. rewrite !trim_id by (done || apply show_trimmed).
  rewrite bool_decide_eq_false_2, parse_qty_show by done. cbn.
  by rewrite bool_decide_eq_false_2.
Qed.

Lemma of_key_unique es e :
  NoDup (en_key <$> es) → e ∈ es → of_key (en_key e) es = [e].
Proof.
  induction es as [|e' es IH]; [set_solver|]. cbn. rewrite NoDup_cons. intros [Hn Hnd] Hin.
  unfold of_key in *. cbn. apply elem_of_cons in Hin as [->|Hin].
  - rewrite bool_decide_eq_true_2 by done. f_equal. apply of_key_nil, Hn.
  - rewrite bool_decide_eq_false_2; [by apply IH|]. intros He. apply Hn. rewrite He. set_solver.
Qed.

Lemma first_seen_NoDup ks : NoDup ks → first_seen ks = ks.
Proof.
  induction ks as [|k ks IH] using rev_ind; [done|]. intros Hnd.
  apply NoDup_app in Hnd as (Hnd & Hk & _). rewrite first_seen_snoc, (IH Hnd).
  rewrite bool_decide_eq_false_2; [done|]. intros Hin. apply (Hk k Hin). set_solver.
Qed.

Lemma summaries_unique es es' :
  NoDup (en_key <$> es) → Forall entry_ok es → es' ⊆ es →
  omap (λ k, summary (of_key k es)) (en_key <$> es') =
  (λ e, mkParsedLine [en_no e] (en_name e) (en_qty e)) <$> es'.
Proof.
  intros Hnd Hok. induction es' as [|e es' IH]; intros Hsub; [done|]. cbn.
  rewrite (of_key_unique es e) by (done || set_solver). cbn.
  rewrite Forall_forall in Hok. destruct (Hok e) as [_ Hm]; [set_solver|].
  rewrite Z.add_0_r, Z.min_r, IH by (done || set_solver). done.
Qed.

Definition rendered_entries (idx : nat) (ls : list (Str * Z)) : list Entry :=
  imap (λ i l, mkEntry (line_no_of (idx + i)) l.1 l.2) ls.

Lemma rendered_entries_cons idx l ls :
  rendered_entries idx (l :: ls) = mkEntry (line_no_of idx) l.1 l.2 :: rendered_entries (S idx) ls.
Proof.
  unfold rendered_entries. cbn. rewrite Nat.add_0_r. f_equal. apply imap_ext. intros. cbn.
  by rewrite Nat.add_succ_r.
Qed.

Lemma outcomes_render idx ls :
  Forall printable ls → outcomes idx (render_line <$> ls) = inr <$> rendered_entries idx ls.
Proof.
  intros Hp. revert idx. induction Hp as [|l ls Hl _ IH]; intros idx; [done|].
  rewrite fmap_cons, outcomes_cons, rendered_entries_cons, render_line_outcome, IH by done. done.
Qed.

Lemma entries_inr es : entries (inr <$> es) = es ∧ rejected (inr <$> es) = [].
Proof.
  unfold entries, rejected. induction es as [|e es [IH1 IH2]]; [done|].
  cbn. by rewrite <- IH1 at 2.
Qed.

Lemma rendered_keys idx ls : en_key <$> rendered_entries idx ls = (λ l, name_key l.1) <$> ls.
Proof. unfold rendered_entries. rewrite fmap_imap. revert idx. induction ls as [|l ls IH]; intros idx; [done|]. cbn. f_equal. rewrite <- (IH (S idx)). apply imap_ext. intros. cbn. done. Qed.

Lemma rendered_ok idx ls : Forall printable ls → Forall entry_ok (rendered_entries idx ls).
Proof.
  intros Hp. revert idx. induction Hp as [|l ls [] _ IH]; intros idx; [constructor|].
  rewrite rendered_entries_cons. by constructor.
Qed.

Lemma lines_render ls : Forall printable ls → lines (render ls) = render_line <$> ls.
Proof.
  intros Hp. unfold render. rewrite <- (lines_unlines (render_line <$> ls)).
  - f_equal. clear. by induction ls; cbn; [|f_equal].
  - apply Forall_fmap. eapply Forall_impl; [exact Hp|]. intros l [Hn Ht Hc _ _]. cbn.
    rewrite Forall_forall in Hc. unfold render_line. split.
    + rewrite elem_of_app, elem_of_cons. intros [H|[H|H%show_char]];
        [by apply Hc in H as (_ & ? & _)|done|lia].
    + destruct (snoc_of (show (Z.to_N l.2)) (show_not_nil _)) as (ds & d & Hd).
      exists (l.1 ++ 9%N :: ds), d. rewrite Hd, <- app_assoc. split; [done|].
      assert (48 ≤ d ≤ 57)%N by (apply (show_char (Z.to_N l.2)); rewrite Hd; set_solver). lia.
Qed.

(** C35 Copy and paste: a list of distinct items with printable names and
    quantities, rendered one per line, parses back to exactly that list,
    each line numbered by its position, without errors. *)
Theorem parse_multibuy_render ls :
  Forall printable ls → NoDup ((λ l, name_key l.1) <$> ls) →
  parse_multibuy (render ls) =
  mkParsedMultibuy (imap (λ i l, mkParsedLine [line_no_of i] l.1 l.2) ls) [].
Proof.
  intros Hp Hnd. rewrite parse_multibuy_run. unfold reference.
  rewrite lines_render, outcomes_render by done.
  destruct (entries_inr (rendered_entries 0 ls)) as [-> ->].
  rewrite first_seen_NoDup by by rewrite rendered_keys.
  rewrite summaries_unique by (rewrite ?rendered_keys; done || by apply rendered_ok).
  f_equal. unfold rendered_entries. by rewrite fmap_imap.
Qed.
End Multibuy.

(** ** Witnesses and examples *)

Section Examples.
#[local] Existing Instance fixture_runtime.

Definition pasted : list (Str * Z) :=
  [ (str "Damage Control II", 3%Z); (str "Tritanium", 1000%Z) ].

Lemma parse_multibuy_render_witness :
  parse_multibuy (render pasted) =
  mkParsedMultibuy [mkParsedLine [1%Z] (str "Damage Control II") 3;
                    mkParsedLine [2%Z] (str "Tritanium") 1000] [].
Proof.
  apply (parse_multibuy_render pasted).
  - repeat constructor; try done; apply trimmed_check; reflexivity.
  - vm_compute. repeat constructor; set_solver.
Defined.

(** The quantity is the leftmost of the trailing numeric columns. *)
Example whitespace_fallback_full_columns :
  pm_lines (parse_multibuy (str "Expanded Cargohold II 5 25.00 3000000.00")) =
  [mkParsedLine [1%Z] (str "Expanded Cargohold II") 5].
Proof. vm_compute. reflexivity. Qed.

(** A name that ends in a word the float parser knows is taken for a number. *)
Example infinity_is_numeric :
  parse_multibuy (str "Rapid Infinity 5") =
  mkParsedMultibuy []
    [mkLineError 1 (str "Rapid Infinity 5")
       "quantity must be a positive integer (got 'Infinity')"].
Proof. vm_compute. reflexivity. Qed.
End Examples.
