(* ===== verification/Market.v ===== *)
(** * Market prices and the type cache

    [crates/market]: order books folded into one price row per market and
    type, the cached and refreshed reads of those rows, and the resolution of
    item names through a cache table.  ESI's answers are arguments, as the
    fields of [MarketApi]; the semaphore only orders the calls. *)

From Stdlib Require Import ZArith Lia.
From stdpp Require Import base tactics decidable option list gmap strings pretty.
From S2P Require Import Prelude Effect Money Unicode Domain Host Schema Fixtures Errors Multibuy.

Local Open Scope string_scope.
Local Open Scope list_scope.

(** ** ESI *)

(** The fields of [nea_esi]'s market orders the code reads. *)
Record EsiOrder := mkEsiOrder {
  o_order_id : Z;
  o_type_id : Z;
  o_location_id : Z;
  o_is_buy_order : bool;
  o_volume_remain : Z;
  o_price : Decimal
}.

Class MarketApi := {
  (** [market_orders(region_id, type_id, None)]. *)
  market_orders : Z → Z → result Anyhow (list EsiOrder);
  (** [structure_orders(structure_id)]. *)
  structure_orders : Z → result Anyhow (list EsiOrder);
  (** [resolve_ids(names)], its [inventory_types]: id and name. *)
  resolve_ids : list Str → result Anyhow (list (Z * Str))
}.

(** ** Aggregation *)

Record PriceAggregate := mkPriceAggregate {
  pa_best_sell : option Decimal;
  pa_best_buy : option Decimal;
  pa_sell_volume : Z;
  pa_buy_volume : Z;
  pa_computed_at : Timestamp
}.

(** The accumulator of both order-book folds. *)
Record Acc := mkAcc {
  acc_best_sell : option Decimal;
  acc_best_buy : option Decimal;
  acc_sell_volume : Z;
  acc_buy_volume : Z
}.
Definition Acc_empty : Acc := mkAcc None None 0 0.

(** [Ord::max] and [Ord::min]: of equals, max is the second and min the first. *)
Definition Decimal_max (a b : Decimal) : Decimal := if Decimal_ltb b a then a else b.
Definition Decimal_min (a b : Decimal) : Decimal := if Decimal_ltb b a then b else a.

Definition add_order (acc : Acc) (o : EsiOrder) : Acc :=
  if o_is_buy_order o then
    mkAcc (acc_best_sell acc)
      (Some match acc_best_buy acc with
            | Some c => Decimal_max c (o_price o)
            | None => o_price o
            end)
      (acc_sell_volume acc) (sat_add_i64 (acc_buy_volume acc) (o_volume_remain o))
  else
    mkAcc
      (Some match acc_best_sell acc with
            | Some c => Decimal_min c (o_price o)
            | None => o_price o
            end)
      (acc_best_buy acc) (sat_add_i64 (acc_sell_volume acc) (o_volume_remain o))
      (acc_buy_volume acc).

Definition into_aggregate (computed_at : Timestamp) (a : Acc) : PriceAggregate :=
  mkPriceAggregate (acc_best_sell a) (acc_best_buy a) (acc_sell_volume a) (acc_buy_volume a)
    computed_at.

(** Orders at one location, folded. *)
Definition aggregate_at (location : Z) (orders : list EsiOrder) : Acc :=
  foldl add_order Acc_empty (List.filter (λ o, o_location_id o == location) orders).

(** Orders by type: an order id seen before, or a type not asked for, is
    skipped. *)
Definition bucket_order (wanted : list Z) (st : list Z * gmap Z Acc) (o : EsiOrder)
    : list Z * gmap Z Acc :=
  let '(seen, by_type) := st in
  if bool_decide (o_order_id o ∈ seen) then st
  else
    let seen' := o_order_id o :: seen in
    if negb (bool_decide (o_type_id o ∈ wanted)) then (seen', by_type)
    else (seen', <[o_type_id o := add_order (default Acc_empty (by_type !! o_type_id o)) o]> by_type).

Definition bucket_orders (wanted : list Z) (orders : list EsiOrder) : gmap Z Acc :=
  (foldl (bucket_order wanted) ([], ∅) orders).2.

(** [x.try_into::<i32>()]. *)
Definition try_i32 (z : Z) : option Z :=
  if bool_decide (- 2 ^ 31 ≤ z < 2 ^ 31)%Z then Some z else None.

Section Market.
Context `{RT : Runtime} {MA : MarketApi}.

(** Microseconds, the resolution of a timestamp. *)
Definition seconds (n : Z) : Z := (n * 1000000)%Z.

Definition price_column (o : option Decimal) : Stmt (option Z) :=
  match o with
  | None => mret None
  | Some d => z ← expect NumericOverflow (numeric_cast 20 2 d); mret (Some z)
  end.

Definition upsert_price_row (market_id : Uuid) (type_id : Z) (agg : PriceAggregate) : Stmt unit :=
  best_sell ← price_column (pa_best_sell agg);
  best_buy ← price_column (pa_best_buy agg);
  _ ← foreign_key (λ db, row_exists (markets db) market_id) "market_prices_market_id_fkey";
  execute (λ db, db <| market_prices ::=
    <[(market_id, type_id) := mkMarketPriceRow best_sell best_buy (pa_sell_volume agg)
                                (pa_buy_volume agg) (pa_computed_at agg)]> |>).

(** A [numeric(20,2)] column read back. *)
Definition decimal_of_cents (z : Z) : Decimal := mkDecimal z 2.

Definition price_of_row (r : MarketPriceRow) : PriceAggregate :=
  mkPriceAggregate (decimal_of_cents <$> mp_best_sell r) (decimal_of_cents <$> mp_best_buy r)
    (mp_sell_volume r) (mp_buy_volume r) (mp_computed_at r).

(** The rows of a market computed at or after the cutoff, by type. *)
Definition fresh_rows (db : Db) (market_id : Uuid) (type_ids : list Z) (cutoff : Timestamp)
    : gmap Z PriceAggregate :=
  list_to_map (omap (λ t,
      r ← market_prices db !! (market_id, t);
      if (cutoff <=? mp_computed_at r)%Z then Some (t, price_of_row r) else None) type_ids).

Definition cutoff_of (db : Db) (ttl_secs : Z) : Timestamp :=
  (db_utc_now db - seconds (Z.max 0 ttl_secs))%Z.

Definition refresh_one (market : Market) (type_id : Z) : M Db Anyhow PriceAggregate :=
  region_id ← expect "refresh_one called on market without region_id" (Market_region_id market);
  region_id_i32 ← expect ("region_id " +:+ pretty region_id +:+ " does not fit in i32")
    (try_i32 region_id);
  type_id_i32 ← expect ("type_id " +:+ pretty type_id +:+ " does not fit in i32")
    (try_i32 type_id);
  orders ← map_err (λ e, "ESI market_orders: " +:+ e)
    (of_result (market_orders region_id_i32 type_id_i32));
  now ← query db_utc_now;
  let agg := into_aggregate now (aggregate_at (Market_esi_location_id market) orders) in
  _ ← sql (upsert_price_row (Market_id market) type_id agg);
  mret agg.

(** One completed fetch of the fan-out: a failed one is logged and left out. *)
Definition refresh_into (market : Market) (out : gmap Z PriceAggregate) (type_id : Z)
    : M Db Anyhow (gmap Z PriceAggregate) :=
  res ← attempt (refresh_one market type_id);
  mret match res with Ok agg => <[type_id := agg]> out | Err _ => out end.

Definition get_or_refresh_prices (market : Market) (type_ids : list Z) (ttl_secs : Z)
    : M Db Anyhow (gmap Z PriceAggregate) :=
  if bool_decide (type_ids = []) then mret ∅ else
  out ← query (λ db, fresh_rows db (Market_id market) type_ids (cutoff_of db ttl_secs));
  let stale := List.filter (λ t, is_none (out !! t)) type_ids in
  fold_each (refresh_into market) stale out.

Record CitadelRefreshOutcome := mkCitadelRefreshOutcome {
  cro_aggregates : gmap Z PriceAggregate;
  cro_total_orders : nat
}.

Definition upsert_citadel_row (market_id : Uuid) (computed_at : Timestamp) (by_type : gmap Z Acc)
    (aggregates : gmap Z PriceAggregate) (type_id : Z) : M Db Anyhow (gmap Z PriceAggregate) :=
  let agg := into_aggregate computed_at (default Acc_empty (by_type !! type_id)) in
  _ ← sql (upsert_price_row market_id type_id agg);
  mret (<[type_id := agg]> aggregates).

Definition refresh_many_for_citadel (market_id : Uuid) (structure_id : Z) (type_ids : list Z)
    : M Db Anyhow CitadelRefreshOutcome :=
  orders ← of_result (structure_orders structure_id);
  let by_type := bucket_orders type_ids orders in
  computed_at ← query db_utc_now;
  aggregates ← fold_each (upsert_citadel_row market_id computed_at by_type) type_ids ∅;
  _ ← execute (λ db, db <| markets ::= update_where (λ k _, k == market_id)
        (λ m, m <| m_last_orders_synced_at := Some computed_at |>) |>);
  mret (mkCitadelRefreshOutcome aggregates (length orders)).

(** ** Names to types *)

Record ResolvedType := mkResolvedType {
  rt_type_id : Z;
  rt_type_name : Str
}.

(** The distinct keys asked for, each with the first spelling. *)
Definition request_name (acc : list (Str * Str)) (n : Str) : list (Str * Str) :=
  let key := name_key n in
  if bool_decide (key = []) || bool_decide (key ∈ acc.*1) then acc
  else acc ++ [(key, replace_char nbsp 32 (trim n))].
Definition requested_names (names : list Str) : list (Str * Str) :=
  foldl request_name [] names.

Definition cached_type (db : Db) (key : Str) : option ResolvedType :=
  r ← type_cache db !! key; Some (mkResolvedType (wrap_i32 (tc_type_id r)) (tc_type_name r)).

Definition upsert_type_cache (rows : list (Str * (Z * Str))) (db : Db) : Db :=
  db <| type_cache ::= λ t, foldl (λ t '(k, (id, name)),
          <[k := mkTypeCacheRow name id name (db_now db)]> t) t rows |>.

Definition resolve_type_ids (names : list Str) : M Db Anyhow (gmap Str ResolvedType * list Str) :=
  let requested := requested_names names in
  if bool_decide (requested = []) then mret (∅, []) else
  resolved ← query (λ db,
    list_to_map (omap (λ kn, (pair kn.1) <$> cached_type db kn.1) requested));
  let missing := List.filter (λ kn, is_none ((resolved : gmap Str ResolvedType) !! kn.1)) requested in
  if bool_decide (missing = []) then mret (resolved, []) else
  types ← of_result (resolve_ids missing.*2);
  let echoed : gmap Str (Z * Str) :=
    foldl (λ m '(id, name), <[name_key name := (id, name)]> m) ∅ types in
  let to_upsert := omap (λ kn, pair kn.1 <$> echoed !! kn.1) missing in
  let unresolved := (List.filter (λ kn, is_none (echoed !! kn.1)) missing).*2 in
  _ ← when (negb (bool_decide (to_upsert = []))) (execute (upsert_type_cache to_upsert));
  mret (foldl (λ m '(k, (id, name)), <[k := mkResolvedType (wrap_i32 id) name]> m) resolved
          to_upsert, unresolved).

(** ** Order books *)

(** The first of every order id. *)
Definition distinct_orders (orders : list EsiOrder) : list EsiOrder :=
  (foldl (λ '(seen, kept) o, if bool_decide (o_order_id o ∈ seen) then (seen, kept)
                             else (o_order_id o :: seen, kept ++ [o])) ([], []) orders).2.

Definition of_type (t : Z) (orders : list EsiOrder) : list EsiOrder :=
  List.filter (λ o, o_type_id o == t) orders.

Definition book (orders : list EsiOrder) : Acc := foldl add_order Acc_empty orders.

Lemma elem_of_filter_list {A} (P : A → bool) x l :
  x ∈ List.filter P l ↔ x ∈ l ∧ P x = true.
Proof. rewrite !list_elem_of_In. apply filter_In. Qed.

Lemma book_snoc orders o : book (orders ++ [o]) = add_order (book orders) o.
Proof. unfold book. by rewrite foldl_app. Qed.

Definition non_buys (orders : list EsiOrder) := List.filter (λ o, negb (o_is_buy_order o)) orders.
Definition buys (orders : list EsiOrder) := List.filter o_is_buy_order orders.

(** [best] is a price of the orders and no price beats it. *)
Definition is_best (beats : Decimal → Decimal → bool) (orders : list EsiOrder)
    (best : option Decimal) : Prop :=
  match best with
  | None => orders = []
  | Some p => (∃ o, o ∈ orders ∧ o_price o = p) ∧
              ∀ o, o ∈ orders → beats (o_price o) p = false
  end.

Lemma Decimal_ltb_spec a b :
  Decimal_ltb a b = true ↔ (mantissa a * pow10 (scale b) < mantissa b * pow10 (scale a))%Z.
Proof. unfold Decimal_ltb. apply Z.ltb_lt. Qed.

Lemma Decimal_leb_spec a b :
  Decimal_ltb a b = false ↔ (mantissa b * pow10 (scale a) ≤ mantissa a * pow10 (scale b))%Z.
Proof. unfold Decimal_ltb. apply Z.ltb_ge. Qed.

Lemma Decimal_le_trans a b c :
  Decimal_ltb b a = false → Decimal_ltb c b = false → Decimal_ltb c a = false.
Proof.
  rewrite !Decimal_leb_spec. intros H1 H2.
  pose proof (pow10_pos (scale a)). pose proof (pow10_pos (scale b)). pose proof (pow10_pos (scale c)).
  apply (Z.mul_le_mono_pos_r _ _ (pow10 (scale b))); [done|].
  transitivity (mantissa b * pow10 (scale a) * pow10 (scale c))%Z; nia.
Qed.

Lemma Decimal_ltb_irrefl a : Decimal_ltb a a = false.
Proof. apply Decimal_leb_spec. done. Qed.

Lemma Decimal_ltb_asym a b : Decimal_ltb a b = true → Decimal_ltb b a = false.
Proof. rewrite Decimal_ltb_spec, Decimal_leb_spec. lia. Qed.

Lemma is_best_snoc beats orders best o p :
  (∀ a, beats a a = false) →
  (∀ a b c, beats b a = false → beats c b = false → beats c a = false) →
  is_best beats orders best →
  match best with
  | None => p = o_price o
  | Some c => (p = c ∧ beats (o_price o) c = false) ∨ (p = o_price o ∧ beats c (o_price o) = false)
  end →
  is_best beats (orders ++ [o]) (Some p).
Proof.
  intros Hirr Htr Hb Hp. destruct best as [c|]; cbn in Hb |- *.
  - destruct Hb as [(o' & Hin & Ho') Hmin]. destruct Hp as [[-> Hlt]|[-> Hlt]].
    + split; [exists o'; set_solver|]. intros x [Hx|Hx]%elem_of_app; [by apply Hmin|].
      by apply list_elem_of_singleton in Hx as ->.
    + split; [exists o; set_solver|]. intros x [Hx|Hx]%elem_of_app; [by eauto|].
      by apply list_elem_of_singleton in Hx as ->.
  - subst. cbn. split; [exists o; set_solver|]. intros x Hx.
    by apply list_elem_of_singleton in Hx as ->.
Qed.

Definition volume (orders : list EsiOrder) : Z := foldr Z.add 0%Z (o_volume_remain <$> orders).

Lemma volume_snoc orders o : volume (orders ++ [o]) = (volume orders + o_volume_remain o)%Z.
Proof. unfold volume. rewrite fmap_app. apply sum_snoc. Qed.

Lemma volume_nonneg orders :
  Forall (λ o, 0 ≤ o_volume_remain o)%Z orders → (0 ≤ volume orders)%Z.
Proof. unfold volume. induction 1; cbn; lia. Qed.

(** What an accumulator says of the orders it has seen. *)
Record book_ok (orders : list EsiOrder) (a : Acc) : Prop := mkBookOk {
  book_sell : is_best Decimal_ltb (non_buys orders) (acc_best_sell a);
  book_buy : is_best (λ x y, Decimal_ltb y x) (buys orders) (acc_best_buy a);
  book_sell_volume : acc_sell_volume a = Z.min i64_max (volume (non_buys orders));
  book_buy_volume : acc_buy_volume a = Z.min i64_max (volume (buys orders))
}.

Lemma sat_add_min m v :
  (0 ≤ m)%Z → (0 ≤ v)%Z → sat_add_i64 (Z.min i64_max m) v = Z.min i64_max (m + v).
Proof. unfold sat_add_i64, i64_min, i64_max. lia. Qed.

Lemma filter_Forall {A} (P : A → Prop) (f : A → bool) l : Forall P l → Forall P (List.filter f l).
Proof. rewrite !Forall_forall. intros H x [Hx _]%elem_of_filter_list. eauto. Qed.

Lemma Decimal_min_best orders best o :
  is_best Decimal_ltb orders best →
  is_best Decimal_ltb (orders ++ [o])
    (Some match best with Some c => Decimal_min c (o_price o) | None => o_price o end).
Proof.
  intros Hb. eapply is_best_snoc; [apply Decimal_ltb_irrefl|apply Decimal_le_trans|exact Hb|].
  destruct best as [c|]; [|done]. unfold Decimal_min. destruct (Decimal_ltb _ c) eqn:H; [|by left].
  right. split; [done|by apply Decimal_ltb_asym].
Qed.

Lemma Decimal_max_best orders best o :
  is_best (λ x y, Decimal_ltb y x) orders best →
  is_best (λ x y, Decimal_ltb y x) (orders ++ [o])
    (Some match best with Some c => Decimal_max c (o_price o) | None => o_price o end).
Proof.
  intros Hb. eapply is_best_snoc; [apply Decimal_ltb_irrefl| |exact Hb|].
  - intros a b c H1 H2. by eapply Decimal_le_trans.
  - destruct best as [c|]; [|done]. unfold Decimal_max.
    destruct (Decimal_ltb (o_price o) c) eqn:H; [left|right]; split; try done.
    by apply Decimal_ltb_asym.
Qed.

Lemma book_correct orders :
  Forall (λ o, 0 ≤ o_volume_remain o)%Z orders → book_ok orders (book orders).
Proof.
  induction orders as [|o orders IH] using rev_ind; intros Hv; [by split|].
  apply Forall_app in Hv as [Hv [Ho _]%Forall_cons]. destruct (IH Hv) as [Hs Hb Hsv Hbv].
  pose proof (volume_nonneg _ (filter_Forall _ (λ o, negb (o_is_buy_order o)) _ Hv)) as Hns.
  pose proof (volume_nonneg _ (filter_Forall _ o_is_buy_order _ Hv)) as Hnb.
  rewrite book_snoc. unfold non_buys, buys, add_order in *. split; unfold non_buys, buys;
    rewrite !List.filter_app; cbn [List.filter]; destruct (o_is_buy_order o); cbn [negb acc_best_sell acc_best_buy
      acc_sell_volume acc_buy_volume]; rewrite ?app_nil_r, ?volume_snoc; try done.
  - by apply Decimal_min_best.
  - by apply Decimal_max_best.
  - by rewrite Hsv, sat_add_min.
  - by rewrite Hbv, sat_add_min.
Qed.

(** ** Buckets *)

Lemma distinct_orders_fold orders :
  foldl (λ '(seen, kept) o, if bool_decide (o_order_id o ∈ seen) then (seen, kept)
                            else (o_order_id o :: seen, kept ++ [o])) ([], []) orders =
  ((foldl (bucket_order []) ([], ∅) orders).1, distinct_orders orders).
Proof.
  unfold distinct_orders. induction orders as [|o orders IH] using rev_ind; [done|].
  rewrite !foldl_app, IH. cbn. destruct (foldl (bucket_order []) _ orders) as [seen m]. cbn.
  by case_bool_decide.
Qed.

Lemma bucket_seen wanted wanted' orders :
  (foldl (bucket_order wanted) ([], ∅) orders).1 = (foldl (bucket_order wanted') ([], ∅) orders).1.
Proof.
  induction orders as [|o orders IH] using rev_ind; [done|]. rewrite !foldl_app. cbn.
  destruct (foldl (bucket_order wanted) _ orders) as [s m],
    (foldl (bucket_order wanted') _ orders) as [s' m']. cbn in *. subst s'.
  case_bool_decide; [done|]. by destruct (negb _), (negb _).
Qed.

Lemma bucket_orders_lookup wanted orders t :
  bucket_orders wanted orders !! t =
  match of_type t (distinct_orders orders) with
  | [] => None
  | os => if bool_decide (t ∈ wanted) then Some (book os) else None
  end.
Proof.
  unfold bucket_orders. induction orders as [|o orders IH] using rev_ind; [done|].
  pose proof (distinct_orders_fold orders) as Hd. pose proof (bucket_seen wanted [] orders) as Hse.
  assert (distinct_orders (orders ++ [o]) =
    if bool_decide (o_order_id o ∈ (foldl (bucket_order wanted) ([], ∅) orders).1)
    then distinct_orders orders else distinct_orders orders ++ [o]) as ->.
  { unfold distinct_orders at 1. rewrite foldl_app, Hd. cbn. rewrite <- Hse. by destruct (bool_decide (o_order_id o ∈ _)). }
  rewrite foldl_app. cbn. destruct (foldl (bucket_order wanted) _ orders) as [seen m].
  cbn in *. clear Hd Hse. destruct (bool_decide (o_order_id o ∈ seen)) eqn:Hin; [exact IH|].
  unfold of_type in *. rewrite List.filter_app. cbn [List.filter].
  destruct (decide (o_type_id o ∈ wanted)) as [Hw|Hw].
  - rewrite (bool_decide_eq_true_2 (o_type_id o ∈ wanted)) by done. cbn [negb snd].
    destruct (decide (o_type_id o = t)) as [<-|Hne].
    + rewrite (bool_decide_eq_true_2 (o_type_id o = _)), lookup_insert_eq, IH by done.
      destruct (List.filter _ (distinct_orders orders)) as [|o' os]; cbn [app].
      * by rewrite bool_decide_eq_true_2.
      * rewrite !(bool_decide_eq_true_2 (o_type_id o ∈ wanted)) by done. cbn.
        by rewrite foldl_app.
    + rewrite (bool_decide_eq_false_2 (o_type_id o = t)), app_nil_r by done.
      by rewrite lookup_insert_ne.
  - rewrite (bool_decide_eq_false_2 (o_type_id o ∈ wanted)) by done. cbn [negb snd].
    rewrite IH. destruct (decide (o_type_id o = t)) as [<-|Hne].
    + rewrite !(bool_decide_eq_false_2 (o_type_id o ∈ wanted)) by done.
      destruct (List.filter _ _), (_ ++ _); done.
    + by rewrite (bool_decide_eq_false_2 (o_type_id o = t)), app_nil_r by done.
Qed.

(** ** The stored rows *)

(** The row holds the aggregate, its prices rounded to the cent. *)
Record row_of (agg : PriceAggregate) (row : MarketPriceRow) : Prop := mkRowOf {
  row_sell : mp_best_sell row = pa_best_sell agg ≫= numeric_cast 20 2;
  row_buy : mp_best_buy row = pa_best_buy agg ≫= numeric_cast 20 2;
  row_sell_some : is_none (mp_best_sell row) = is_none (pa_best_sell agg);
  row_buy_some : is_none (mp_best_buy row) = is_none (pa_best_buy agg);
  row_sell_volume : mp_sell_volume row = pa_sell_volume agg;
  row_buy_volume : mp_buy_volume row = pa_buy_volume agg;
  row_computed_at : mp_computed_at row = pa_computed_at agg
}.

Lemma price_column_Ok o db r db' :
  price_column o db = Ok (r, db') →
  db' = db ∧ r = (o ≫= numeric_cast 20 2) ∧ is_none r = is_none o.
Proof.
  unfold price_column. destruct o as [d|]; intros Hrun; inv_sql; [|done].
  cbn. match goal with H : numeric_cast _ _ _ = Some _ |- _ => by rewrite H end.
Qed.

Lemma upsert_price_row_Ok market_id type_id agg db u db' :
  upsert_price_row market_id type_id agg db = Ok (u, db') →
  ∃ row, row_of agg row ∧
    db' = db <| market_prices ::= <[(market_id, type_id) := row]> |>.
Proof.
  unfold upsert_price_row. intros Hrun. inv_sql.
  repeat match goal with H : price_column _ _ = _ |- _ =>
    apply price_column_Ok in H as (? & ? & ?) end. subst.
  eexists. split; [|reflexivity]. by split.
Qed.

(** What a loop of upserts for [ts] has done so far. *)
Definition rows_written (market_id : Uuid) (agg_of : Z → PriceAggregate) (db db' : Db)
    (ts : list Z) : Prop :=
  (∀ t, t ∈ ts → ∃ row, row_of (agg_of t) row ∧ market_prices db' !! (market_id, t) = Some row) ∧
  (∀ k, (∀ t, t ∈ ts → k ≠ (market_id, t)) → market_prices db' !! k = market_prices db !! k) ∧
  ∃ f, db' = db <| market_prices ::= f |>.

Lemma upsert_citadel_rows market_id now by_type ts0 ts aggs db aggs' db' db0 :
  let agg_of t := into_aggregate now (default Acc_empty (by_type !! t)) in
  fold_each (upsert_citadel_row market_id now by_type) ts aggs db = Ok (aggs', db') →
  rows_written market_id agg_of db0 db ts0 →
  (∀ t, t ∈ ts0 → aggs !! t = Some (agg_of t)) →
  rows_written market_id agg_of db0 db' (ts0 ++ ts) ∧
  ∀ t, t ∈ ts0 ++ ts → aggs' !! t = Some (agg_of t).
Proof.
  intros agg_of. revert ts0 aggs db. induction ts as [|t ts IH]; intros ts0 aggs db Hrun Hw Ha.
  - cbn in Hrun. inv_M. by rewrite app_nil_r.
  - cbn [fold_each] in Hrun. apply bind_Ok in Hrun as (aggs1 & db1 & H1 & Hrun).
    unfold upsert_citadel_row in H1. inv_sql.
    match goal with H : upsert_price_row _ _ _ _ = _ |- _ =>
      apply upsert_price_row_Ok in H as (row & Hrow & ->) end.
    rewrite cons_middle, app_assoc. eapply IH; [exact Hrun| |].
    + destruct Hw as (Hr & Hf & f & ->). split; [|split].
      * intros t' Ht'. set_simpl. destruct (decide (t' = t)) as [->|Hne].
        -- exists row. by rewrite lookup_insert_eq.
        -- rewrite lookup_insert_ne by congruence. apply Hr. set_solver.
      * intros k Hk. set_simpl. rewrite lookup_insert_ne by (apply not_eq_sym, Hk; set_solver).
        apply Hf. intros t' Ht'. apply Hk. set_solver.
      * by exists (λ m, <[(market_id, t) := row]> (f m)).
    + intros t' Ht'. destruct (decide (t' = t)) as [->|Hne]; [by rewrite lookup_insert_eq|].
      rewrite lookup_insert_ne by done. apply Ha. set_solver.
Qed.

(** C36 A citadel refresh stores the order book: every type asked for gets a
    row computed now, with the lowest sell and the highest buy price of its
    distinct orders (no price when there is none) and the saturated sum of
    their volumes, an order repeated across pages counting once; every other
    row is left alone. *)
Theorem refresh_many_for_citadel_spec market_id structure_id ts db out db' :
  refresh_many_for_citadel market_id structure_id ts db = Ok (out, db') →
  (∀ orders, structure_orders structure_id = Ok orders →
     Forall (λ o, 0 ≤ o_volume_remain o)%Z orders) →
  ∃ orders, structure_orders structure_id = Ok orders ∧
    cro_total_orders out = length orders ∧
    (∀ t, t ∈ ts →
       let os := of_type t (distinct_orders orders) in
       let agg := into_aggregate (db_utc_now db) (book os) in
       book_ok os (book os) ∧ cro_aggregates out !! t = Some agg ∧
       ∃ row, row_of agg row ∧ market_prices db' !! (market_id, t) = Some row) ∧
    (∀ k, (∀ t, t ∈ ts → k ≠ (market_id, t)) → market_prices db' !! k = market_prices db !! k).
Proof.
  unfold refresh_many_for_citadel. intros Hrun Hv. inv_sql.
  match goal with H : structure_orders _ = Ok ?os |- _ => rename os into orders; rename H into Ho end.
  match goal with H : fold_each _ _ _ _ = _ |- _ => eapply (upsert_citadel_rows _ _ _ []) in H
    as ((Hr & Hf & _) & Ha) end; [| |set_solver]; cycle 1.
  { split; [set_solver|]. split; [done|]. exists id. by destruct db. }
  exists orders. split; [done|]. split; [done|]. cbn [cro_aggregates]. set_simpl.
  assert (∀ t, t ∈ ts → default Acc_empty (bucket_orders ts orders !! t) =
    book (of_type t (distinct_orders orders))) as Hb.
  { intros t Ht. rewrite bucket_orders_lookup. destruct (of_type _ _) as [|o os]; [done|].
    by rewrite bool_decide_eq_true_2. }
  split; [|exact Hf]. intros t Ht. cbn zeta. rewrite <- (Hb t Ht). split; [|split; [by apply Ha|by apply Hr]].
  rewrite (Hb t Ht). apply book_correct. apply filter_Forall. specialize (Hv _ Ho).
  clear -Hv. unfold distinct_orders.
  assert (∀ l, Forall (λ o, 0 ≤ o_volume_remain o)%Z l → Forall (λ o, 0 ≤ o_volume_remain o)%Z
    (foldl (λ '(seen, kept) o, if bool_decide (o_order_id o ∈ seen) then (seen, kept)
      else (o_order_id o :: seen, kept ++ [o])) ([], []) l).2) as Hl; [|by apply Hl].
  intros l Hl. induction l as [|o l IH] using rev_ind; [constructor|].
  apply Forall_app in Hl as [Hl [Ho _]%Forall_cons]. specialize (IH Hl). rewrite foldl_app.
  destruct (foldl _ _ l) as [seen kept]. cbn in *. case_bool_decide; [done|]. cbn.
  by apply Forall_app_2, Forall_singleton.
Qed.

(** ** Name resolution *)

Lemma requested_names_snoc names n :
  requested_names (names ++ [n]) = request_name (requested_names names) n.
Proof. unfold requested_names. by rewrite foldl_app. Qed.

Lemma requested_names_keys names k :
  k ∈ (requested_names names).*1 ↔ k ≠ [] ∧ ∃ n, n ∈ names ∧ name_key n = k.
Proof.
  induction names as [|n names IH] using rev_ind; [set_solver|].
  rewrite requested_names_snoc. unfold request_name.
  destruct (bool_decide (name_key n = [])) eqn:He; bool_simpl; cbn [orb].
  - rewrite IH. set_solver.
  - destruct (bool_decide (name_key n ∈ _)) eqn:Hin; bool_simpl.
    + rewrite IH in *. set_solver.
    + rewrite fmap_app, elem_of_app, IH. cbn. set_solver.
Qed.

Lemma requested_names_NoDup names : NoDup (requested_names names).*1.
Proof.
  induction names as [|n names IH] using rev_ind; [constructor|].
  rewrite requested_names_snoc. unfold request_name.
  destruct (_ || _) eqn:He; [done|]. bool_simpl. rewrite fmap_app. apply NoDup_app.
  split; [done|]. split; [cbn; set_solver|apply NoDup_singleton].
Qed.

Lemma elem_of_omap_pair {A} (f : Str → option A) (kns : list (Str * Str)) k x :
  (k, x) ∈ omap (λ kn, pair kn.1 <$> f kn.1) kns ↔ k ∈ kns.*1 ∧ f k = Some x.
Proof.
  rewrite list_elem_of_omap, list_elem_of_fmap. split.
  - intros ([k' n] & Hin & (y & Hf & [= <- <-])%fmap_Some). cbn in *.
    split; [by exists (k, n)|done].
  - intros [([k' n] & -> & Hin) Hf]. exists (k', n). cbn in *. by rewrite Hf.
Qed.

Lemma list_to_map_omap {A} (f : Str → option A) (kns : list (Str * Str)) k x :
  (list_to_map (omap (λ kn, pair kn.1 <$> f kn.1) kns) : gmap Str A) !! k = Some x ↔
  k ∈ kns.*1 ∧ f k = Some x.
Proof.
  rewrite <- elem_of_list_to_map', elem_of_omap_pair; [done|].
  intros x'. rewrite !elem_of_omap_pair. intros [_ H1] [_ H2]. congruence.
Qed.

Lemma foldl_insert_lookup {A B} (g : A → B) (f : Str → option A) (rows : list (Str * A)) (m : gmap Str B) k :
  (∀ k v, (k, v) ∈ rows → f k = Some v) →
  foldl (λ m '(k, v), <[k := g v]> m) m rows !! k =
  if bool_decide (k ∈ rows.*1) then g <$> f k else m !! k.
Proof.
  induction rows as [|[k' v] rows IH] using rev_ind; intros Hf; [done|].
  rewrite foldl_app, fmap_app. cbn. assert (f k' = Some v) as Hv by (apply Hf; set_solver).
  specialize (IH ltac:(intros; apply Hf; set_solver)). destruct (decide (k = k')) as [->|Hne].
  - rewrite lookup_insert_eq, bool_decide_eq_true_2, Hv by set_solver. done.
  - rewrite lookup_insert_ne, IH by done. destruct (decide (k ∈ rows.*1)).
    + by rewrite !bool_decide_eq_true_2 by set_solver.
    + by rewrite !bool_decide_eq_false_2 by set_solver.
Qed.

Lemma keys_of_omap {A} (f : Str → option A) (kns : list (Str * Str)) k :
  k ∈ (omap (λ kn, pair kn.1 <$> f kn.1) kns).*1 ↔ k ∈ kns.*1 ∧ is_Some (f k).
Proof.
  rewrite list_elem_of_fmap. split.
  - intros ([k' x] & -> & Hin). apply elem_of_omap_pair in Hin as [? ?]. eauto.
  - intros [Hk [x Hx]]. exists (k, x). split; [done|]. by apply elem_of_omap_pair.
Qed.

(** The keys of the names not answered by the map. *)
Lemma missing_keys {A} (m : gmap Str A) (kns : list (Str * Str)) k :
  k ∈ (List.filter (λ kn, is_none (m !! kn.1)) kns).*1 ↔ k ∈ kns.*1 ∧ m !! k = None.
Proof.
  rewrite !list_elem_of_fmap. setoid_rewrite elem_of_filter_list. split.
  - intros ([k' n] & -> & Hin & Hn). bool_simpl. split; [by exists (k', n)|done].
  - intros [([k' n] & -> & Hin) Hn]. exists (k', n). split; [done|]. split; [done|].
    by apply is_none_true.
Qed.

(** The first of the names asked for whose key is [k]; blank names have none. *)
Definition first_spelling (names : list Str) (k n : Str) : Prop :=
  k ≠ [] ∧ ∃ before after, names = before ++ n :: after ∧ name_key n = k ∧
    ∀ m, m ∈ before → name_key m ≠ k.

(** A name as it is sent to ESI and reported. *)
Definition cleaned (n : Str) : Str := replace_char nbsp 32 (trim n).

Lemma first_spelling_snoc names m k n :
  first_spelling (names ++ [m]) k n ↔
  first_spelling names k n ∨ k ≠ [] ∧ n = m ∧ name_key m = k ∧ ∀ x, x ∈ names → name_key x ≠ k.
Proof.
  split.
  - intros (Hk & before & after & Heq & Hn & Hb). destruct after as [|a after _] using rev_ind.
    + apply app_inj_tail in Heq as [-> ->]. by right.
    + rewrite app_comm_cons, app_assoc in Heq. apply app_inj_tail in Heq as [-> _].
      left. split; [done|]. by exists before, after.
  - intros [(Hk & before & after & -> & Hn & Hb)|(Hk & -> & Hm & Hb)].
    + split; [done|]. exists before, (after ++ [m]). by rewrite <- app_assoc.
    + split; [done|]. by exists names, [].
Qed.

Lemma first_spelling_exists (names : list Str) (k : Str) :
  (∃ n, first_spelling names k n) ↔ k ≠ [] ∧ ∃ n, n ∈ names ∧ name_key n = k.
Proof.
  induction names as [|m names IH] using rev_ind.
  { split; [intros (n & _ & [|? ?] & after & Heq & _); by simplify_list_eq|set_solver]. }
  setoid_rewrite first_spelling_snoc. split.
  - intros (n & [Hn|(Hk & -> & Hm & _)]); [|set_solver].
    destruct (proj1 IH (ex_intro _ _ Hn)). set_solver.
  - intros [Hk (n & Hn & Hkey)]. destruct (decide (Exists (λ x, name_key x = k) names)) as [He|He].
    + apply Exists_exists in He as (x & Hx & Hxk).
      destruct (proj2 IH (conj Hk (ex_intro _ x (conj Hx Hxk)))) as [n0 Hn0]. eauto.
    + assert (∀ x, x ∈ names → name_key x ≠ k) as Hnone
        by (intros x Hx Hxk; apply He, Exists_exists; eauto).
      apply elem_of_app in Hn as [Hn|Hn%list_elem_of_singleton]; [by destruct (Hnone _ Hn)|]. subst n. eauto 7.
Qed.

Lemma elem_of_requested names k s :
  (k, s) ∈ requested_names names ↔ ∃ n, first_spelling names k n ∧ s = cleaned n.
Proof.
  induction names as [|m names IH] using rev_ind.
  { split; [set_solver|]. intros (n & (_ & [|? ?] & after & Heq & _) & _); by simplify_list_eq. }
  setoid_rewrite first_spelling_snoc. rewrite requested_names_snoc. unfold request_name.
  pose proof (requested_names_keys names (name_key m)) as Hkeys.
  destruct (bool_decide (name_key m = [])) eqn:He; bool_simpl; cbn [orb].
  - rewrite IH. split; [naive_solver|]. intros (n & [?|(Hk & _ & Hm & _)] & ?); [by eauto|congruence].
  - destruct (bool_decide (name_key m ∈ _)) eqn:Hin; bool_simpl.
    + rewrite IH. apply Hkeys in Hin as [_ (x & Hx & Hxm)]. split; [naive_solver|].
      intros (n & [?|(_ & _ & Hm & Hno)] & ?); [by eauto|]. destruct (Hno x Hx). congruence.
    + rewrite elem_of_app, IH, list_elem_of_singleton. split.
      * intros [(n & Hn & ->)|[= -> ->]]; [by eauto|]. exists m. split; [right|done].
        split_and!; try done. intros x Hx Hxk. apply Hin, Hkeys. eauto.
      * intros (n & [Hn|(_ & -> & <- & _)] & ->); [left; eauto|by right].
Qed.

(** The last of ESI's answers whose name has the key [k]. *)
Definition answer_for (types : list (Z * Str)) (k : Str) (id : Z) (name : Str) : Prop :=
  ∃ before after, types = before ++ (id, name) :: after ∧ name_key name = k ∧
    ∀ x, x ∈ after → name_key x.2 ≠ k.

Definition echo (types : list (Z * Str)) : gmap Str (Z * Str) :=
  foldl (λ m '(id, name), <[name_key name := (id, name)]> m) ∅ types.

Lemma lookup_echo types k id name : echo types !! k = Some (id, name) ↔ answer_for types k id name.
Proof.
  induction types as [|[i n] types IH] using rev_ind.
  { split; [done|]. intros ([|? ?] & after & Heq & _); by simplify_list_eq. }
  unfold echo in *. rewrite foldl_app. cbn. destruct (decide (name_key n = k)) as [<-|Hne].
  - rewrite lookup_insert_eq. split.
    + intros [= -> ->]. exists types, []. split; [done|]. split; [done|set_solver].
    + intros (before & after & Heq & Hk & Hafter). destruct after as [|x after _] using rev_ind.
      { apply app_inj_tail in Heq as [_ [= -> ->]]. done. }
      rewrite app_comm_cons, app_assoc in Heq. apply app_inj_tail in Heq as [_ <-].
      by destruct (Hafter (i, n)); [set_solver|].
  - rewrite lookup_insert_ne by done. rewrite IH. split.
    + intros (before & after & -> & Hk & Hafter). exists before, (after ++ [(i, n)]).
      rewrite <- app_assoc. split; [done|]. split; [done|]. set_solver.
    + intros (before & after & Heq & Hk & Hafter). destruct after as [|x after _] using rev_ind.
      { apply app_inj_tail in Heq as [_ [= -> ->]]. done. }
      rewrite app_comm_cons, app_assoc in Heq. apply app_inj_tail in Heq as [-> _].
      exists before, after. split; [done|]. split; [done|]. set_solver.
Qed.

(** A name that is not in the cache. *)
Definition uncached (names : list Str) (db : Db) (k n : Str) : Prop :=
  first_spelling names k n ∧ cached_type db k = None.

(** What a resolution answers, ESI having answered [types]. *)
Record resolution (names : list Str) (types : list (Z * Str)) (db db' : Db)
    (resolved : gmap Str ResolvedType) (unresolved : list Str) : Prop := mkResolution {
  res_asked : types = [] ∧ (∀ k n, ¬ uncached names db k n) ∨
    ∃ ns, resolve_ids ns = Ok types ∧ ∀ s, s ∈ ns ↔ ∃ k n, uncached names db k n ∧ s = cleaned n;
  res_answers k rt : resolved !! k = Some rt ↔ ∃ n, first_spelling names k n ∧
    (cached_type db k = Some rt ∨ cached_type db k = None ∧
     ∃ id name, answer_for types k id name ∧ rt = mkResolvedType (wrap_i32 id) name);
  res_unresolved s : s ∈ unresolved ↔ ∃ k n, uncached names db k n ∧ s = cleaned n ∧
    ∀ id name, ¬ answer_for types k id name;
  res_cache k : cached_type db' k =
    match resolved !! k with Some rt => Some rt | None => cached_type db k end;
  res_frame : ∃ f, db' = db <| type_cache ::= f |>
}.

(** Nothing is asked of ESI when every name is cached. *)
Lemma resolution_cached (names : list Str) (db : Db) (cached : gmap Str ResolvedType) :
  (∀ k rt, cached !! k = Some rt ↔ (∃ n, first_spelling names k n) ∧ cached_type db k = Some rt) →
  (∀ k n, ¬ uncached names db k n) → resolution names [] db db cached [].
Proof.
  intros Hc Hnone. split; [by left|..].
  - intros k rt. rewrite Hc. split.
    + intros [[n Hn] Hk]. eauto.
    + intros (n & Hn & [Hk|[Hk _]]); [by eauto|]. by destruct (Hnone k n).
  - intros x. split; [set_solver|]. intros (k & n & Hu & _). by destruct (Hnone k n).
  - intros k. destruct (cached !! k) as [rt|] eqn:Hk; [|done]. by apply Hc in Hk as [_ ?].
  - exists id. by destruct db.
Qed.

Lemma elem_of_missing {A} (m : gmap Str A) (names : list Str) (k s : Str) :
  (k, s) ∈ List.filter (λ kn, is_none (m !! kn.1)) (requested_names names) ↔
  (∃ n, first_spelling names k n ∧ s = cleaned n) ∧ m !! k = None.
Proof. by rewrite elem_of_filter_list, elem_of_requested, is_none_true. Qed.

Lemma elem_of_snd {A B} (l : list (A * B)) y : y ∈ l.*2 ↔ ∃ x, (x, y) ∈ l.
Proof. rewrite list_elem_of_fmap. split; [intros ([x ?] & -> & ?); eauto|intros [x ?]; by exists (x, y)]. Qed.

Section Resolved.
Context (names : list Str) (db : Db) (cached : gmap Str ResolvedType) (types : list (Z * Str)).
Context (Hc : ∀ k rt, cached !! k = Some rt ↔
  (∃ n, first_spelling names k n) ∧ cached_type db k = Some rt).

Let missing : list (Str * Str) := List.filter (λ kn, is_none (cached !! kn.1)) (requested_names names).
Let rows : list (Str * (Z * Str)) := omap (λ kn, pair kn.1 <$> echo types !! kn.1) missing.
Let resolved : gmap Str ResolvedType :=
  foldl (λ m '(k, (id, name)), <[k := mkResolvedType (wrap_i32 id) name]> m) cached rows.

Lemma missing_uncached k s : (k, s) ∈ missing ↔ ∃ n, uncached names db k n ∧ s = cleaned n.
Proof.
  unfold missing, uncached. rewrite elem_of_missing. split.
  - intros [(n & Hn & ->) Hk]. exists n. split; [|done]. split; [done|].
    destruct (cached_type db k) as [rt|] eqn:Hrt; [|done]. assert (cached !! k = Some rt) by (apply Hc; eauto).
    congruence.
  - intros (n & [Hn Hk] & ->). split; [eauto|]. apply eq_None_not_Some. intros [rt [_ Hrt]%Hc]. congruence.
Qed.

Lemma rows_keys k : k ∈ rows.*1 ↔ (∃ n, uncached names db k n) ∧ is_Some (echo types !! k).
Proof.
  etransitivity; [apply (keys_of_omap (λ k, echo types !! k))|]. f_equiv. rewrite list_elem_of_fmap. split.
  - intros ([k' s] & -> & (n & Hn & _)%missing_uncached). eauto.
  - intros [n Hn]. exists (k, cleaned n). split; [done|]. apply missing_uncached. eauto.
Qed.

Lemma resolved_lookup k : resolved !! k =
  if bool_decide (k ∈ rows.*1)
  then (λ '(id, name), mkResolvedType (wrap_i32 id) name) <$> echo types !! k else cached !! k.
Proof.
  unfold resolved. rewrite <- (foldl_insert_lookup (λ '(id, name), mkResolvedType (wrap_i32 id) name)
    (λ k, echo types !! k)) by (by intros ? ? [_ ?]%(elem_of_omap_pair (λ k, echo types !! k))).
  f_equal. apply foldl_step_ext. by intros ? [? [? ?]].
Qed.

Lemma upserted_lookup k : type_cache (upsert_type_cache rows db) !! k =
  if bool_decide (k ∈ rows.*1)
  then (λ '(id, name), mkTypeCacheRow name id name (db_now db)) <$> echo types !! k
  else type_cache db !! k.
Proof.
  unfold upsert_type_cache. set_simpl.
  rewrite <- (foldl_insert_lookup (λ '(id, name), mkTypeCacheRow name id name (db_now db))
    (λ k, echo types !! k)) by (by intros ? ? [_ ?]%(elem_of_omap_pair (λ k, echo types !! k))).
  f_equal. apply foldl_step_ext. by intros ? [? [? ?]].
Qed.

Lemma resolution_asked :
  resolve_ids missing.*2 = Ok types →
  resolution names types db (upsert_type_cache rows db) resolved
    (List.filter (λ kn, is_none (echo types !! kn.1)) missing).*2.
Proof.
  intros Hesi. split.
  - right. exists missing.*2. split; [done|]. intros s. rewrite elem_of_snd.
    by setoid_rewrite missing_uncached.
  - intros k rt. rewrite resolved_lookup. destruct (bool_decide (k ∈ rows.*1)) eqn:Hk; bool_simpl.
    + apply rows_keys in Hk as [(n & Hn & Hnone) [[id name] Hecho]]. rewrite Hecho. cbn. split.
      * intros [= <-]. exists n. split; [done|]. right. split; [done|]. exists id, name.
        split; [by apply lookup_echo|done].
      * intros (n' & _ & [?|(_ & id' & name' & Ha%lookup_echo & ->)]); [congruence|]. congruence.
    + rewrite Hc. split.
      * intros [[n Hn] Hrt]. eauto.
      * intros (n & Hn & [?|(Hnone & id & name & Ha%lookup_echo & _)]); [by eauto|].
        destruct Hk. apply rows_keys. split; [by exists n|by eexists].
  - intros s. rewrite elem_of_snd. setoid_rewrite elem_of_filter_list. setoid_rewrite missing_uncached.
    setoid_rewrite is_none_true. split.
    + intros (k & (n & Hn & ->) & Hnone). exists k, n. split_and!; try done.
      intros id name Ha%lookup_echo. cbn in Hnone. congruence.
    + intros (k & n & Hn & -> & Hno). exists k. split; [eauto|]. apply eq_None_not_Some.
      intros [[id name] Ha%lookup_echo]. by destruct (Hno id name).
  - intros k. unfold cached_type at 1. rewrite upserted_lookup, resolved_lookup.
    destruct (bool_decide (k ∈ rows.*1)) eqn:Hk; bool_simpl.
    + apply rows_keys in Hk as [_ [[id name] ->]]. done.
    + destruct (cached !! k) as [rt|] eqn:Hrt; [|done]. by apply Hc in Hrt as [_ ?].
  - unfold upsert_type_cache. by eexists.
Qed.
End Resolved.

Lemma resolve_type_ids_run names db resolved unresolved db' :
  resolve_type_ids names db = Ok ((resolved, unresolved), db') →
  ∃ types, resolution names types db db' resolved unresolved.
Proof.
  unfold resolve_type_ids. intros Hrun.
  assert (∀ k, k ∈ (requested_names names).*1 ↔ ∃ n, first_spelling names k n) as Hreq
    by (intros k; rewrite requested_names_keys; symmetry; apply first_spelling_exists).
  destruct (bool_decide (requested_names names = [])) eqn:Hr0.
  { inv_M. apply bool_decide_eq_true in Hr0. exists []. rewrite Hr0 in Hreq. simplify_eq. apply resolution_cached.
    - intros k rt. rewrite lookup_empty, <- Hreq. set_solver.
    - intros k n [Hn _]. assert (k ∈ ([] : list (Str * Str)).*1) by (apply Hreq; eauto). set_solver. }
  inv_sql. set (cached := list_to_map _ : gmap Str ResolvedType) in *.
  assert (∀ k rt, cached !! k = Some rt ↔ (∃ n, first_spelling names k n) ∧ cached_type db k = Some rt) as Hc
    by (intros k rt; rewrite <- Hreq; apply list_to_map_omap).
  destruct (bool_decide (List.filter _ _ = [])) eqn:Hm0.
  { inv_M. apply bool_decide_eq_true in Hm0. exists []. simplify_eq. apply resolution_cached; [done|]. intros k n Hn.
    assert ((k, cleaned n) ∈ List.filter (λ kn, is_none (cached !! kn.1)) (requested_names names)) as Hin
      by (apply (missing_uncached _ _ _ Hc); eauto).
    rewrite Hm0 in Hin. set_solver. }
  inv_sql. match goal with H : resolve_ids _ = Ok ?t |- _ => rename t into types, H into Hesi end.
  exists types. pose proof (resolution_asked names db cached types Hc Hesi) as Hres.
  match goal with H : when _ _ _ = _ |- _ => apply when_Ok in H; rename H into Hup end.
  match goal with H : (resolved, unresolved) = _ |- _ => injection H as -> -> end.
  fold (echo types) in Hup |- *.
  match goal with |- resolution _ _ _ ?d _ _ => rename d into db' end.
  match type of Hres with resolution _ _ _ (upsert_type_cache ?rows _) _ _ =>
    assert (db' = upsert_type_cache rows db) as ->; [|exact Hres]; set (rs := rows) in * end.
  destruct (negb (bool_decide (rs = []))) eqn:Hr; [by inv_sql|].
  apply negb_false_iff, bool_decide_eq_true in Hr. rewrite Hr, Hup. by destruct db.
Qed.

(** C37 Name resolution answers every name and every answer is right.  ESI is asked
    for the names that are not cached, as first spelled, and for nothing else.  A
    name's key is answered with the cached type, or with the type of
    the last of ESI's answers that names it; the names reported unresolved are
    exactly those that are neither cached nor answered by ESI, so every
    non-blank name is resolved or reported.  What is resolved is in the cache
    afterwards and nothing else of it changes. *)
Theorem resolve_type_ids_spec names db resolved unresolved db' :
  resolve_type_ids names db = Ok ((resolved, unresolved), db') →
  ∃ types,
    (types = [] ∧ (∀ k n, ¬ uncached names db k n) ∨
     ∃ ns, resolve_ids ns = Ok types ∧ ∀ s, s ∈ ns ↔ ∃ k n, uncached names db k n ∧ s = cleaned n) ∧
    (∀ k rt, resolved !! k = Some rt ↔ ∃ n, first_spelling names k n ∧
       (cached_type db k = Some rt ∨ cached_type db k = None ∧
        ∃ id name, answer_for types k id name ∧ rt = mkResolvedType (wrap_i32 id) name)) ∧
    (∀ s, s ∈ unresolved ↔ ∃ k n, uncached names db k n ∧ s = cleaned n ∧
       ∀ id name, ¬ answer_for types k id name) ∧
    (∀ n, n ∈ names → name_key n ≠ [] →
       is_Some (resolved !! name_key n) ∨
       ∃ m, first_spelling names (name_key n) m ∧ cleaned m ∈ unresolved) ∧
    (∀ k, cached_type db' k = match resolved !! k with Some rt => Some rt | None => cached_type db k end) ∧
    ∃ f, db' = db <| type_cache ::= f |>.
Proof.
  intros [types [Ha Hb Hc Hd He]]%resolve_type_ids_run. exists types. split_and!; try done.
  intros n Hn Hk. destruct (proj2 (first_spelling_exists names (name_key n))) as [m Hm]; [eauto|].
  destruct (cached_type db (name_key n)) as [rt|] eqn:Hct.
  - left. exists rt. apply Hb. eauto.
  - destruct (echo types !! name_key n) as [[id name]|] eqn:He'.
    + left. exists (mkResolvedType (wrap_i32 id) name). apply Hb. exists m. split; [done|]. right.
      split; [done|]. exists id, name. split; [by apply lookup_echo|done].
    + right. exists m. split; [done|]. apply Hc. exists (name_key n), m. split; [done|]. split; [done|].
      intros id name Hx%lookup_echo. congruence.
Qed.
End Market.

(** ** Witnesses *)

Section Witnesses.
#[local] Existing Instance fixture_runtime.

(** One structure with three orders, the first of them on two pages. *)
Definition fixture_orders : list EsiOrder :=
  [ mkEsiOrder 1 34 1000 false 50 (mkDecimal 525 2); mkEsiOrder 2 34 1000 false 20 (mkDecimal 5 0);
    mkEsiOrder 1 34 1000 false 50 (mkDecimal 525 2); mkEsiOrder 3 35 1000 true 7 (mkDecimal 9 0) ].

Definition fixture_market : MarketApi := {|
  market_orders _ _ := Ok fixture_orders;
  structure_orders _ := Ok fixture_orders;
  resolve_ids names := Ok ((λ n, (34%Z, n)) <$> names)
|}.
#[local] Existing Instance fixture_market.

Lemma refresh_many_for_citadel_spec_witness :
  ∃ out db', refresh_many_for_citadel 50 1000 [34%Z] base_db = Ok (out, db') ∧
    ∃ row, market_prices db' !! (50%N, 34%Z) = Some row ∧ mp_best_sell row = Some 500%Z ∧
      mp_sell_volume row = 70%Z.
Proof.
  run_concrete (refresh_many_for_citadel 50 1000 [34%Z] base_db) out db' Hrun.
  exists out, db'. split; [exact Hrun|].
  destruct (refresh_many_for_citadel_spec 50 1000 [34%Z] base_db out db' Hrun)
    as (orders & Ho & _ & Hr & _).
  { intros orders [= <-]. repeat constructor; cbn; lia. }
  injection Ho as <-. destruct (Hr 34%Z ltac:(left)) as (_ & _ & row & Hrow & Hl).
  exists row. split; [exact Hl|]. rewrite (row_sell _ _ Hrow), (row_sell_volume _ _ Hrow).
  split; vm_compute; reflexivity.
Defined.

Lemma resolve_type_ids_spec_witness :
  ∃ resolved db', resolve_type_ids [str "Tritanium"; str " TRITANIUM"] base_db =
      Ok ((resolved, []), db') ∧ is_Some (resolved !! name_key (str "tritanium")).
Proof.
  run_concrete (resolve_type_ids [str "Tritanium"; str " TRITANIUM"] base_db) out db' Hrun.
  destruct out as [resolved unresolved].
  assert (unresolved = []) as ->.
  { transitivity (from_option (λ o, o.1.2) [] (match resolve_type_ids
      [str "Tritanium"; str " TRITANIUM"] base_db with Ok o => Some o | Err _ => None end)).
    - by rewrite Hrun.
    - vm_compute. reflexivity. }
  exists resolved, db'. split; [exact Hrun|].
  destruct (resolve_type_ids_spec _ _ _ _ _ Hrun) as (types & _ & _ & _ & Hall & _).
  destruct (Hall (str "Tritanium")) as [Hr|(m & _ & Hm)];
    [left|vm_compute; discriminate|exact Hr|by apply not_elem_of_nil in Hm].
Defined.
End Witnesses.
