(* ===== verification/Config.v ===== *)
(** * Configuration

    [crates/api/src/config.rs] and [crates/config/src/lib.rs]: the sections of
    the service's configuration with their defaults.  How they are read from a
    file and the environment is the figment crate's; [AppConfig] is the part
    the list handlers decide by. *)

From Stdlib Require Import ZArith.
From stdpp Require Import base strings.
From S2P Require Import Prelude.

Local Open Scope string_scope.
Local Open Scope Z_scope.

Record AbuseLimits := mkAbuseLimits {
  groups_per_user : Z;
  lists_per_group : Z;
  items_per_list : Z;
  characters_per_user : Z
}.
Definition AbuseLimits_default : AbuseLimits := mkAbuseLimits 10 200 500 12.

Record PollIntervals := mkPollIntervals {
  market_prices_secs : Z;
  contracts_secs : Z;
  wallet_transactions_secs : Z;
  citadel_discovery_secs : Z;
  citadel_details_secs : Z;
  citadel_orders_secs : Z;
  structure_access_backoff_secs : Z
}.
Definition PollIntervals_default : PollIntervals :=
  mkPollIntervals 300 300 3600 3600 86400 600 86400.

(** ** The other sections *)

Record MetricsConfig := mkMetricsConfig { metrics_bind : string }.
Definition MetricsConfig_default : MetricsConfig := mkMetricsConfig "127.0.0.1:9090".

Record RateLimitConfig := mkRateLimitConfig {
  rl_disabled : bool;
  per_ip_burst : Z;
  per_ip_period_secs : Z;
  auth_burst : Z;
  auth_period_secs : Z
}.
Definition RateLimitConfig_default : RateLimitConfig := mkRateLimitConfig false 30 1 5 10.

Record TurnstileConfig := mkTurnstileConfig {
  turnstile_disabled : bool;
  turnstile_site_key : string;
  turnstile_secret_key : string
}.
Definition TurnstileConfig_default : TurnstileConfig := mkTurnstileConfig false "" "".

Record ServerConfig := mkServerConfig {
  server_bind : string;
  cookie_secure : bool
}.

Record EveSsoCommonCfg := mkEveSsoCommonCfg {
  client_id : string;
  client_secret : string
}.

(** [login_scopes] defaults to [publicData], [upgrade_scopes] to none. *)
Record EveSsoConfig := mkEveSsoConfig {
  eve_common : EveSsoCommonCfg;
  callback_url : string;
  login_scopes : list string;
  upgrade_scopes : list string
}.
Definition default_login_scopes : list string := ["publicData"].

Record EsiCommonCfg := mkEsiCommonCfg { user_agent : string }.
Record EsiConfig := mkEsiConfig {
  esi_common : EsiCommonCfg;
  esi_poll_intervals_secs : PollIntervals
}.

Class AppConfig := {
  limits : AbuseLimits;
  poll_intervals_secs : PollIntervals
}.

Definition fixture_config : AppConfig := {|
  limits := AbuseLimits_default;
  poll_intervals_secs := PollIntervals_default
|}.
