(* ===== verification/Extract.v ===== *)
(** * Extractors

    [crates/api/src/extract.rs]: who the caller is and how the path names the
    group, list or claim; each extractor is a read of the request transaction
    that fails with the rejection's status and text. *)

From Stdlib Require Import ZArith.
From stdpp Require Import base tactics decidable option list gmap strings.
From S2P Require Import Prelude Effect Domain Host Schema Errors.

Local Open Scope string_scope.

Record CurrentGroup := mkCurrentGroup {
  cg_user_id : Uuid;
  cg_group_id : Uuid;
  cg_role : GroupRole
}.

Record CurrentClaim := mkCurrentClaim {
  cc_user_id : Uuid;
  cc_group_id : Uuid;
  cc_list_id : Uuid;
  cc_claim_id : Uuid;
  cc_hauler_user_id : Uuid;
  cc_role : GroupRole;
  cc_status : ClaimStatus;
  cc_list_status : ListStatus
}.

Record CurrentList := mkCurrentList {
  cur_user_id : Uuid;
  cur_group_id : Uuid;
  cur_list_id : Uuid;
  cur_role : GroupRole;
  cur_created_by_user_id : Uuid;
  cur_status : ListStatus
}.

Definition archived_msg : string := "list is archived; no changes can be made".

(** [CurrentClaim::require_list_mutable], with its Conflict response. *)
Definition require_list_mutable (c : CurrentClaim) : result ApiError unit :=
  if cc_list_status c == List_Archived then Err (Conflict archived_msg) else Ok tt.

(** [CurrentList::require_open]. *)
Definition require_open (c : CurrentList) : result ApiError unit :=
  if cur_status c != List_Open then
    Err (Conflict ("list is " +:+ ListStatus_to_string (cur_status c)
                   +:+ "; this action requires an open list"))
  else Ok tt.

(** [CurrentList::require_mutable]. *)
Definition require_mutable (c : CurrentList) : result ApiError unit :=
  if cur_status c == List_Archived then Err (Conflict archived_msg) else Ok tt.

(** [CurrentList::require_can_manage]. *)
Definition require_can_manage (c : CurrentList) : result ApiError unit :=
  if (cur_user_id c != cur_created_by_user_id c) && (cur_role c != Owner) then
    Err (Forbidden "only the list creator or a group owner can change list status")
  else Ok tt.

Section Extract.
Context `{RT : Runtime}.

(** [CurrentUser]: the session's user id. *)
Definition current_user (session : option Uuid) : Handler Uuid :=
  expect Unauthorized session.

(** [path.x_id.or(path.id)]. *)
Definition path_id (specific id : option Uuid) (missing : string) : Handler Uuid :=
  expect (BadRequest missing) (match specific with Some i => Some i | None => id end).

(** The member's role, the LEFT JOIN or lookup on [group_memberships]. *)
Definition member_role (db : Db) (user_id group_id : Uuid) : option GroupRole :=
  gm_role <$> group_memberships db !! (user_id, group_id).

Definition is_member (db : Db) (group_id user_id : Uuid) : bool :=
  row_exists (group_memberships db) (user_id, group_id).

Definition extract_group (session path_group_id id : option Uuid) : Handler CurrentGroup :=
  user_id ← current_user session;
  group_id ← path_id path_group_id id "missing group id in route";
  role ← query (λ db, member_role db user_id group_id);
  role ← expect (Forbidden "you are not a member of this group") role;
  mret (mkCurrentGroup user_id group_id role).

Definition extract_claim (session path_claim_id id : option Uuid) : Handler CurrentClaim :=
  user_id ← current_user session;
  claim_id ← path_id path_claim_id id "missing claim id in route";
  row ← query (λ db,
    c ← claims db !! claim_id;
    l ← lists db !! cl_list_id c;
    Some (c, l, member_role db user_id (l_group_id l)));
  '(c, l, role_opt) ← expect (NotFound "claim not found") row;
  role ← expect (Forbidden "you are not a member of this claim's group") role_opt;
  mret (mkCurrentClaim user_id (l_group_id l) (cl_list_id c) claim_id
          (cl_hauler_user_id c) role (cl_status c) (l_status l)).

Definition extract_list (session path_list_id id : option Uuid) : Handler CurrentList :=
  user_id ← current_user session;
  list_id ← path_id path_list_id id "missing list id in route";
  row ← query (λ db,
    l ← lists db !! list_id;
    Some (l, member_role db user_id (l_group_id l)));
  '(l, role) ← expect (NotFound "list not found") row;
  role ← expect (Forbidden "you are not a member of this list's group") role;
  mret (mkCurrentList user_id (l_group_id l) list_id role
          (l_created_by_user_id l) (l_status l)).

(** What an extracted list or claim says about the database it was read from. *)
Definition list_extracted (db : Db) (cur : CurrentList) : Prop :=
  ∃ l, lists db !! cur_list_id cur = Some l ∧
    cur_group_id cur = l_group_id l ∧
    cur_created_by_user_id cur = l_created_by_user_id l ∧
    cur_status cur = l_status l ∧
    member_role db (cur_user_id cur) (l_group_id l) = Some (cur_role cur).

Definition claim_extracted (db : Db) (cur : CurrentClaim) : Prop :=
  ∃ c l, claims db !! cc_claim_id cur = Some c ∧
    lists db !! cc_list_id cur = Some l ∧
    cc_list_id cur = cl_list_id c ∧
    cc_hauler_user_id cur = cl_hauler_user_id c ∧
    cc_status cur = cl_status c ∧
    cc_list_status cur = l_status l ∧
    cc_group_id cur = l_group_id l ∧
    member_role db (cc_user_id cur) (l_group_id l) = Some (cc_role cur).

Lemma extract_list_Ok session p i db cur db' :
  extract_list session p i db = Ok (cur, db') →
  db' = db ∧ list_extracted db cur ∧ session = Some (cur_user_id cur).
Proof.
  unfold extract_list, current_user, path_id. intros Hrun. inv_sql.
  all: repeat case_match; simplify_option_eq; inv_sql.
  all: split; [done|]; split; [|done]; eexists; cbn; eauto.
Qed.

Lemma extract_claim_Ok session p i db cur db' :
  extract_claim session p i db = Ok (cur, db') →
  db' = db ∧ claim_extracted db cur ∧ session = Some (cc_user_id cur).
Proof.
  unfold extract_claim, current_user, path_id. intros Hrun. inv_sql.
  all: repeat case_match; simplify_option_eq; inv_sql.
  all: split; [done|]; split; [|done]; eexists _, _; cbn; eauto 10.
Qed.

Lemma extract_group_Ok session p i db cur db' :
  extract_group session p i db = Ok (cur, db') →
  db' = db ∧ member_role db (cg_user_id cur) (cg_group_id cur) = Some (cg_role cur) ∧
  session = Some (cg_user_id cur).
Proof.
  unfold extract_group, current_user, path_id. intros Hrun. inv_sql.
  cbn in *. by simplify_eq.
Qed.

(** A list request is admitted exactly for a logged-in member of the list's
    group: every success reads the row of the path's list and the caller's
    role in its group; a missing list is 404 and a non-member 403. *)
Theorem extract_list_spec user list_id db :
  extract_list (Some user) (Some list_id) None db =
  match lists db !! list_id with
  | None => Err (NotFound "list not found")
  | Some l =>
      match member_role db user (l_group_id l) with
      | None => Err (Forbidden "you are not a member of this list's group")
      | Some role => Ok (mkCurrentList user (l_group_id l) list_id role
                           (l_created_by_user_id l) (l_status l), db)
      end
  end.
Proof.
  unfold extract_list, current_user, path_id, query, reads, expect, mret, M_ret, throw.
  unfold mbind, M_bind. destruct (lists db !! list_id) as [l|]; [|done]. cbn.
  destruct (member_role db user (l_group_id l)); done.
Qed.
End Extract.
