(* ===== verification/Webhooks.v ===== *)
(** * Webhook enqueueing

    [crates/api/src/webhooks.rs: fire_webhook]; the worker's
    [handle_contract_terminal] inserts the same row. *)

From Stdlib Require Import ZArith.
From stdpp Require Import base tactics decidable option list gmap strings.
From S2P Require Import Prelude Effect Domain Host Schema Fixtures Errors.

Local Open Scope string_scope.

Section Webhooks.
Context `{RT : Runtime}.

(** [INSERT INTO pending_webhooks (group_id, payload)]. *)
Definition insert_pending_webhook (group_id : Uuid) (payload : Value) : Stmt unit :=
  id ← new_uuid;
  _ ← unique (λ db, negb (row_exists (pending_webhooks db) id)) "pending_webhooks_pkey";
  _ ← foreign_key (λ db, row_exists (groups db) group_id) "pending_webhooks_group_id_fkey";
  execute (λ db, db <| pending_webhooks ::=
    <[id := mkPendingWebhookRow group_id payload (db_now db) 0 (db_now db)]> |>).

(** A payload that does not serialize is logged and dropped. *)
Definition fire_webhook (group_id : Uuid) (event : WebhookEvent) : Stmt unit :=
  match to_value event with
  | Some payload => insert_pending_webhook group_id payload
  | None => mret tt
  end.

(** Everything but the queue and the UUID counter is left alone. *)
Definition queue_only (db db' : Db) : Prop :=
  ∃ q n, db' = db <| pending_webhooks := q |> <| db_draws := n |>.

Lemma queue_only_refl db : queue_only db db.
Proof. exists (pending_webhooks db), (db_draws db). by destruct db. Qed.

Lemma queue_only_trans db1 db2 db3 :
  queue_only db1 db2 → queue_only db2 db3 → queue_only db1 db3.
Proof. intros (q & n & ->) (q' & n' & ->). exists q', n'. by destruct db1. Qed.

Lemma insert_pending_webhook_Ok group_id payload db u db' :
  insert_pending_webhook group_id payload db = Ok (u, db') → queue_only db db'.
Proof.
  unfold insert_pending_webhook. intros Hrun. inv_sql.
  eexists _, _. destruct db. reflexivity.
Qed.

Lemma fire_webhook_Ok group_id event db u db' :
  fire_webhook group_id event db = Ok (u, db') → queue_only db db'.
Proof.
  unfold fire_webhook. case_match.
  - apply insert_pending_webhook_Ok.
  - intros Hrun. inv_sql. apply queue_only_refl.
Qed.

(** An event is queued as one row for the group, ready at once and with no
    attempts made, whose payload is the event's JSON; nothing else of the
    queue changes. *)
Theorem fire_webhook_queues group_id event payload db db' :
  to_value event = Some payload →
  fire_webhook group_id event db = Ok (tt, db') →
  ∃ id, pending_webhooks db !! id = None ∧
    pending_webhooks db' = <[id := mkPendingWebhookRow group_id payload (db_now db) 0 (db_now db)]>
                             (pending_webhooks db) ∧
    row_exists (groups db) group_id = true.
Proof.
  intros Hv. unfold fire_webhook. rewrite Hv. unfold insert_pending_webhook.
  intros Hrun. inv_sql. set_simpl. rewrite negb_true_iff, row_exists_false in *. eauto.
Qed.
End Webhooks.

(** ** Witness *)

Section Witness.
#[local] Existing Instance fixture_runtime.

Lemma fire_webhook_queues_witness :
  ∃ id db', fire_webhook 10 (ListDelivered "Home" "Bob") base_db = Ok (tt, db') ∧
    pw_attempts <$> pending_webhooks db' !! id = Some 0%Z.
Proof.
  run_concrete (fire_webhook 10 (ListDelivered "Home" "Bob") base_db) u db' Hrun. destruct u.
  destruct (@fire_webhook_queues fixture_runtime 10 (ListDelivered "Home" "Bob")
    (ListDelivered "Home" "Bob") _ _ eq_refl Hrun)
    as (id & _ & Hq & _).
  exists id, db'. split; [done|]. rewrite Hq, lookup_insert_eq. reflexivity.
Defined.
End Witness.
