(* ===== verification/Detail.v ===== *)
(** * The list detail

    [crates/api/src/lists/detail.rs: load_list_detail] with the row
    conversions, and [accessible_market_ids] of [lists/pricing.rs].  Every
    list handler ends by building this view from the request transaction; it
    only reads, but it can fail and then the request rolls back. *)

From Stdlib Require Import ZArith.
From stdpp Require Import base tactics decidable option list gmap strings sorting.
From S2P Require Import Prelude Effect Domain Host Schema Fixtures Errors Extract.

Local Open Scope string_scope.

(** ORDER BY with an optional key, NULLS LAST. *)
Definition le_nulls_last {A} (le : A → A → bool) (a b : option A) : bool :=
  match a, b with
  | Some x, Some y => le x y
  | _, None => true
  | None, Some _ => false
  end.

(** A stable sort by a boolean order. *)
Definition sort_by {A} (le : A → A → bool) (l : list A) : list A :=
  merge_sort (λ x y, Is_true (le x y)) l.

Section Detail.
Context `{RT : Runtime}.

Definition structure_markets_scope : string := "esi-markets.structure_markets.v1".

(** [accessible_market_ids]: hubs always; a citadel when some member of the
    group has market access to it with the scope. *)
Definition market_accessible (db : Db) (group_id market_id : Uuid) (m : MarketRow) : bool :=
  (m_kind m == NpcHub) ||
  sel_exists (λ cid c,
    is_member db group_id (ch_user_id c) &&
    match character_structure_access db !! (cid, market_id) with
    | Some a => csa_market_status a == Access_Ok
    | None => false
    end &&
    bool_decide (structure_markets_scope ∈ ch_scopes c)) (characters db).

Definition accessible_market_ids (db : Db) (group_id : Uuid) (market_ids : list Uuid)
    : list Uuid :=
  (select_where (λ id m, bool_decide (id ∈ market_ids) &&
                         market_accessible db group_id id m) (markets db)).*1.

(** ** Row conversions *)

Definition into_list (id : Uuid) (r : ListRow) : List_ :=
  mkList id (l_group_id r) (l_created_by_user_id r) (l_destination_label r) (l_notes r)
    (l_status r) (l_total_estimate_isk r) (l_tip_pct r) (l_created_at r) (l_updated_at r)
    (l_payer_corp_id r) (l_payer_division r).

Definition into_item (requested_by_user_id id : Uuid) (r : ListItemRow) : ListItem :=
  mkListItem id (li_list_id r) (wrap_i32 (li_type_id r)) (li_type_name r)
    (li_qty_requested r) (li_qty_fulfilled r) (li_est_unit_price_isk r)
    (li_est_priced_market_id r) (li_status r) (li_source_line_no r) requested_by_user_id.

Definition into_market (id : Uuid) (r : MarketRow) : Market :=
  mkMarket id (m_kind r) (m_esi_location_id r) (m_region_id r) (m_name r)
    (m_short_label r) (m_is_hub r) (m_is_public r).

Definition into_live (list_item_id market_id : Uuid) (mp : option MarketPriceRow)
    : LiveItemPrice :=
  mkLiveItemPrice list_item_id market_id (mp ≫= mp_best_sell) (mp ≫= mp_best_buy)
    (default 0%Z (mp_sell_volume <$> mp)) (default 0%Z (mp_buy_volume <$> mp))
    (mp_computed_at <$> mp).

Definition into_claim (id : Uuid) (r : ClaimRow) (hauler : UserRow) (item_ids : list Uuid)
    : Claim :=
  mkClaim id (cl_list_id r) (cl_hauler_user_id r) (u_display_name hauler) (cl_status r)
    (cl_note r) item_ids (cl_created_at r) (cl_released_at r).

Definition into_fulfillment (id : Uuid) (r : FulfillmentRow) (ch : option CharacterRow)
    (m : option MarketRow) : Fulfillment :=
  mkFulfillment id (f_list_item_id r) (f_claim_id r) (f_hauler_user_id r)
    (f_hauler_character_id r) (ch_character_name <$> ch) (f_source r) (f_qty r)
    (f_unit_price_isk r) (f_bought_at_market_id r) (m ≫= m_short_label)
    (f_bought_at_note r) (f_bought_at r) (f_reversed_at r).

Definition into_contract_summary (c : ContractRow) : ContractSummary :=
  mkContractSummary (ct_esi_contract_id c) (ct_status c) (ct_price_isk c)
    (ct_expected_total_isk c) (ct_settlement_delta_isk c) (ct_date_completed c).

Definition into_reimbursement (id : Uuid) (r : ReimbursementRow)
    (requester_name hauler_name : string) (contract : option ContractRow) : Reimbursement :=
  mkReimbursement id (r_list_id r) (r_requester_user_id r) requester_name
    (r_hauler_user_id r) hauler_name (r_subtotal_isk r) (r_tip_isk r) (r_total_isk r)
    (r_status r) (r_settled_at r) (r_settled_by_user_id r) (r_contract_id r)
    (into_contract_summary <$> contract) (r_created_at r) (r_updated_at r)
    (r_requester_principal_id r) (r_hauler_principal_id r) (r_is_corp_funded r)
    (r_verified_by_wallet r) (r_wallet_settlement_delta_isk r).

(** ** The queries *)

Definition item_rows (db : Db) (list_id : Uuid) : list (Uuid * ListItemRow) :=
  sort_by (λ a b,
      match li_source_line_no a.2, li_source_line_no b.2 with
      | Some x, Some y => (x <? y)%Z || ((x =? y)%Z && (li_created_at a.2 <=? li_created_at b.2)%Z)
      | None, None => (li_created_at a.2 <=? li_created_at b.2)%Z
      | Some _, None => true
      | None, Some _ => false
      end)
    (select_where (λ _ li, li_list_id li == list_id) (list_items db)).

(** [ListItem.requested_by_user_id] is not optional: a NULL does not decode. *)
Fixpoint decode_items (rows : list (Uuid * ListItemRow)) : result DbError (list ListItem) :=
  match rows with
  | [] => Ok []
  | (id, r) :: rest =>
      match li_requested_by_user_id r with
      | None => Err (ColumnDecode "requested_by_user_id")
      | Some u => items ← decode_items rest; Ok (into_item u id r :: items)
      end
  end.

Definition market_rows (db : Db) (list_id : Uuid) : list (Uuid * MarketRow * bool) :=
  sort_by (λ a b,
      let '((_, ma), pa) := a in let '((_, mb), pb) := b in
      if eqb pa pb then le_nulls_last collate_leb (m_short_label ma) (m_short_label mb)
      else pa)
    (omap (λ '((lid, mid), lm), m ← markets db !! mid; Some ((mid, m), lm_is_primary lm))
      (select_where (λ k _, k.1 == list_id) (list_markets db))).

Definition primary_market (rows : list (Uuid * MarketRow * bool)) : option Uuid :=
  '((id, _), _) ← List.find (λ r, r.2) rows; Some id.

Definition live_rows (db : Db) (list_id : Uuid) (accessible : list Uuid)
    : list LiveItemPrice :=
  '(iid, li) ← select_where (λ _ li, li_list_id li == list_id) (list_items db);
  '((_, mid), _) ← select_where (λ k _, (k.1 == list_id) && row_exists (markets db) k.2)
                     (list_markets db);
  let mp := if bool_decide (mid ∈ accessible)
            then market_prices db !! (mid, li_type_id li) else None in
  [into_live iid mid mp].

Definition claim_rows (db : Db) (list_id : Uuid) : list Claim :=
  omap (λ '(cid, c),
      u ← users db !! cl_hauler_user_id c;
      Some (into_claim cid c u
        (select_where (λ k ci, (k.1 == cid) && ci_active ci) (claim_items db)).*1.*2))
    (sort_by (λ a b, (cl_created_at a.2 <=? cl_created_at b.2)%Z)
      (select_where (λ _ c, cl_list_id c == list_id) (claims db))).

(** The item belongs to the list. *)
Definition on_list (db : Db) (list_id item_id : Uuid) : bool :=
  match list_items db !! item_id with
  | Some li => li_list_id li == list_id
  | None => false
  end.

Definition fulfillment_rows (db : Db) (list_id : Uuid) : list Fulfillment :=
  (λ '(fid, f), into_fulfillment fid f
      (f_hauler_character_id f ≫= λ c, characters db !! c)
      (f_bought_at_market_id f ≫= λ m, markets db !! m)) <$>
  sort_by (λ a b, (f_bought_at a.2 <=? f_bought_at b.2)%Z)
    (select_where (λ _ f, on_list db list_id (f_list_item_id f) && is_none (f_reversed_at f))
      (fulfillments db)).

(** [COALESCE(ru.display_name, corp_p.name, 'Corp')]. *)
Definition requester_display_name (db : Db) (r : ReimbursementRow) : string :=
  match r_requester_user_id r ≫= λ u, users db !! u with
  | Some u => u_display_name u
  | None =>
      match p ← principals db !! r_requester_principal_id r;
            if p_kind p == Principal_Corp then c ← p_corp_id p; corps db !! c else None with
      | Some c => co_name c
      | None => "Corp"
      end
  end.

Definition reimbursement_rows (db : Db) (list_id : Uuid) : list Reimbursement :=
  omap (λ '(rid, r),
      hu ← users db !! r_hauler_user_id r;
      Some (into_reimbursement rid r (requester_display_name db r) (u_display_name hu)
              (r_contract_id r ≫= λ c, contracts db !! c)))
    (sort_by (λ a b, (r_created_at a.2 <=? r_created_at b.2)%Z)
      (select_where (λ _ r, r_list_id r == list_id) (reimbursements db))).

Definition last_hauler_character (db : Db) (list_id viewer : Uuid) : option Uuid :=
  let mine := sort_by (λ a b, (f_bought_at b.2 <=? f_bought_at a.2)%Z)
    (select_where (λ _ f, on_list db list_id (f_list_item_id f) &&
        (f_hauler_user_id f == viewer) && is_none (f_reversed_at f) &&
        negb (is_none (f_hauler_character_id f))) (fulfillments db)) in
  match head mine ≫= λ '(_, f), f_hauler_character_id f with
  | Some c => Some c
  | None =>
      fst <$> head (sort_by (λ a b, (ch_created_at a.2 <=? ch_created_at b.2)%Z)
        (select_where (λ _ c, ch_user_id c == viewer) (characters db)))
  end.

Definition load_list_detail (list_id viewer_user_id : Uuid) (viewer_role : GroupRole)
    : Handler ListDetail :=
  list_row ← query (λ db, lists db !! list_id);
  list_row ← expect not_found list_row;
  items ← query (λ db, decode_items (item_rows db list_id));
  items ← sql (of_result items);
  rows ← query (λ db, market_rows db list_id);
  primary ← expect (internal "list has no primary market") (primary_market rows);
  let mkts := (λ '((id, m), _), into_market id m) <$> rows in
  accessible ← query (λ db,
    accessible_market_ids db (l_group_id list_row) (Market_id <$> mkts));
  live ← query (λ db, live_rows db list_id accessible);
  cls ← query (λ db, claim_rows db list_id);
  fs ← query (λ db, fulfillment_rows db list_id);
  rs ← query (λ db, reimbursement_rows db list_id);
  last ← query (λ db, last_hauler_character db list_id viewer_user_id);
  mret (mkListDetail (into_list list_id list_row) items mkts primary live cls fs rs last
          viewer_user_id viewer_role).

(** ** Lemmas *)

Lemma load_list_detail_Ok list_id viewer role db d db' :
  load_list_detail list_id viewer role db = Ok (d, db') → db' = db.
Proof. unfold load_list_detail. intros Hrun. inv_sql. done. Qed.

Lemma decode_items_Ok rows items :
  decode_items rows = Ok items →
  items = omap (λ '(id, r), (λ u, into_item u id r) <$> li_requested_by_user_id r) rows ∧
  Forall (λ kv, is_Some (li_requested_by_user_id kv.2)) rows.
Proof.
  revert items. induction rows as [|[id r] rest IH]; intros items; cbn; [naive_solver|].
  destruct (li_requested_by_user_id r) as [u|] eqn:Hu; [|done].
  unfold mbind, result_bind. destruct (decode_items rest) as [rest'|]; [|done].
  intros [= <-]. destruct (IH _ eq_refl) as [-> HF]. cbn. split; [done|].
  constructor; [cbn; eauto|done].
Qed.

Lemma elem_of_sort_by {A} (le : A → A → bool) l x : x ∈ sort_by le l ↔ x ∈ l.
Proof. unfold sort_by. by rewrite merge_sort_Permutation. Qed.

(** ** The view, column by column *)

Record shows_list (id : Uuid) (l : ListRow) (x : List_) : Prop := mkShowsList {
  shl_id : List_id x = id;
  shl_group : List_group_id x = l_group_id l;
  shl_creator : List_created_by_user_id x = l_created_by_user_id l;
  shl_label : List_destination_label x = l_destination_label l;
  shl_notes : List_notes x = l_notes l;
  shl_status : List_status x = l_status l;
  shl_total : List_total_estimate_isk x = l_total_estimate_isk l;
  shl_tip : List_tip_pct x = l_tip_pct l;
  shl_times : (List_created_at x, List_updated_at x) = (l_created_at l, l_updated_at l);
  shl_payer : (List_payer_corp_id x, List_payer_division x) = (l_payer_corp_id l, l_payer_division l)
}.

(** The type id is cast to 32 bits. *)
Record shows_item (id : Uuid) (li : ListItemRow) (x : ListItem) : Prop := mkShowsItem {
  shi_id : ListItem_id x = id;
  shi_list : ListItem_list_id x = li_list_id li;
  shi_type : ListItem_type_id x = wrap_i32 (li_type_id li);
  shi_name : ListItem_type_name x = li_type_name li;
  shi_requested : ListItem_qty_requested x = li_qty_requested li;
  shi_fulfilled : ListItem_qty_fulfilled x = li_qty_fulfilled li;
  shi_price : ListItem_est_unit_price_isk x = li_est_unit_price_isk li;
  shi_market : ListItem_est_priced_market_id x = li_est_priced_market_id li;
  shi_status : ListItem_status x = li_status li;
  shi_line : ListItem_source_line_no x = li_source_line_no li;
  shi_requester : Some (ListItem_requested_by_user_id x) = li_requested_by_user_id li
}.

Record shows_purchase (db : Db) (id : Uuid) (f : FulfillmentRow) (x : Fulfillment) : Prop := mkShowsPurchase {
  shf_id : Fulfillment_id x = id;
  shf_item : Fulfillment_list_item_id x = f_list_item_id f;
  shf_claim : Fulfillment_claim_id x = f_claim_id f;
  shf_hauler : Fulfillment_hauler_user_id x = f_hauler_user_id f;
  shf_character : Fulfillment_hauler_character_id x = f_hauler_character_id f;
  shf_character_name : Fulfillment_hauler_character_name x =
    ch_character_name <$> (f_hauler_character_id f ≫= (characters db !!.));
  shf_source : Fulfillment_source x = f_source f;
  shf_qty : Fulfillment_qty x = f_qty f;
  shf_price : Fulfillment_unit_price_isk x = f_unit_price_isk f;
  shf_market : Fulfillment_bought_at_market_id x = f_bought_at_market_id f;
  shf_label : Fulfillment_bought_at_market_short_label x =
    (f_bought_at_market_id f ≫= (markets db !!.)) ≫= m_short_label;
  shf_note : Fulfillment_bought_at_note x = f_bought_at_note f;
  shf_times : (Fulfillment_bought_at x, Fulfillment_reversed_at x) = (f_bought_at f, f_reversed_at f)
}.

Record shows_contract (c : ContractRow) (x : ContractSummary) : Prop := mkShowsContract {
  shc_id : ContractSummary_esi_contract_id x = ct_esi_contract_id c;
  shc_status : ContractSummary_status x = ct_status c;
  shc_price : ContractSummary_price_isk x = ct_price_isk c;
  shc_expected : ContractSummary_expected_total_isk x = ct_expected_total_isk c;
  shc_delta : ContractSummary_settlement_delta_isk x = ct_settlement_delta_isk c;
  shc_completed : ContractSummary_date_completed x = ct_date_completed c
}.

(** The requester's name, that of the paying corporation when no user is, or
    the word. *)
Definition names_requester (db : Db) (r : ReimbursementRow) (name : string) : Prop :=
  match r_requester_user_id r ≫= (users db !!.) with
  | Some u => name = u_display_name u
  | None => (∃ p c corp, principals db !! r_requester_principal_id r = Some p ∧
               p_kind p = Principal_Corp ∧ p_corp_id p = Some c ∧ corps db !! c = Some corp ∧
               name = co_name corp) ∨
      name = "Corp" ∧ ∀ p c, principals db !! r_requester_principal_id r = Some p →
        p_kind p = Principal_Corp → p_corp_id p = Some c → corps db !! c = None
  end.

Record shows_debt (db : Db) (id : Uuid) (r : ReimbursementRow) (x : Reimbursement) : Prop := mkShowsDebt {
  shr_id : Reimbursement_id x = id;
  shr_list : Reimbursement_list_id x = r_list_id r;
  shr_requester : Reimbursement_requester_user_id x = r_requester_user_id r;
  shr_requester_name : names_requester db r (Reimbursement_requester_display_name x);
  shr_hauler : Reimbursement_hauler_user_id x = r_hauler_user_id r;
  shr_hauler_name : u_display_name <$> users db !! r_hauler_user_id r =
    Some (Reimbursement_hauler_display_name x);
  shr_amounts : (Reimbursement_subtotal_isk x, Reimbursement_tip_isk x, Reimbursement_total_isk x) =
    (r_subtotal_isk r, r_tip_isk r, r_total_isk r);
  shr_status : Reimbursement_status x = r_status r;
  shr_settled : (Reimbursement_settled_at x, Reimbursement_settled_by_user_id x) =
    (r_settled_at r, r_settled_by_user_id r);
  shr_contract_id : Reimbursement_contract_id x = r_contract_id r;
  shr_contract : match r_contract_id r ≫= (contracts db !!.) with
    | Some c => ∃ s, Reimbursement_contract x = Some s ∧ shows_contract c s
    | None => Reimbursement_contract x = None
    end;
  shr_times : (Reimbursement_created_at x, Reimbursement_updated_at x) = (r_created_at r, r_updated_at r);
  shr_principals : (Reimbursement_requester_principal_id x, Reimbursement_hauler_principal_id x) =
    (r_requester_principal_id r, r_hauler_principal_id r);
  shr_corp : Reimbursement_is_corp_funded x = r_is_corp_funded r;
  shr_wallet : (Reimbursement_verified_by_wallet x, Reimbursement_wallet_settlement_delta_isk x) =
    (r_verified_by_wallet r, r_wallet_settlement_delta_isk r)
}.

(** The entries of the view are the rows of the selection, each shown. *)
Definition view_of {R X} (rows : Uuid → R → Prop) (shows : Uuid → R → X → Prop) (xs : list X) : Prop :=
  (∀ x, x ∈ xs → ∃ id r, rows id r ∧ shows id r x) ∧
  (∀ id r, rows id r → ∃ x, x ∈ xs ∧ shows id r x).

Lemma requester_name_shown db r : names_requester db r (requester_display_name db r).
Proof.
  unfold names_requester, requester_display_name. destruct (r_requester_user_id r ≫= _); [done|].
  destruct (principals db !! r_requester_principal_id r) as [p|]; cbn; [|right; split; [done|by intros]].
  destruct (p_kind p == Principal_Corp) eqn:Hk; bool_simpl.
  - destruct (p_corp_id p) as [c|] eqn:Hc; cbn; [|right; split; [done|intros; simplify_eq]].
    destruct (corps db !! c) as [corp|] eqn:Hcorp; [left; eauto 9|].
    right. split; [done|]. intros p' c' [= <-] _ Hc'. simplify_eq. congruence.
  - right. split; [done|]. intros p' c' [= <-]. congruence.
Qed.

Lemma debt_shown db id r hu :
  users db !! r_hauler_user_id r = Some hu →
  shows_debt db id r (into_reimbursement id r (requester_display_name db r) (u_display_name hu)
    (r_contract_id r ≫= λ c, contracts db !! c)).
Proof.
  intros Hu. split; try done; cbn.
  - apply requester_name_shown.
  - by rewrite Hu.
  - destruct (r_contract_id r ≫= _) as [c|]; cbn; [|done]. eexists. by split.
Qed.

Lemma shown_items db list_id items :
  decode_items (item_rows db list_id) = Ok items →
  view_of (λ id li, list_items db !! id = Some li ∧ li_list_id li = list_id) shows_item items.
Proof.
  intros [-> Hall]%decode_items_Ok. split.
  - intros x. rewrite list_elem_of_omap. intros ([id li] & Hin & Hx).
    apply elem_of_sort_by, elem_of_select_where in Hin as [Hl Hid]. bool_simpl.
    destruct (li_requested_by_user_id li) as [u|] eqn:Hu; [|done]. cbn in Hx. injection Hx as <-.
    exists id, li. by split.
  - intros id li [Hl Hid].
    assert ((id, li) ∈ item_rows db list_id) as Hin.
    { apply elem_of_sort_by, elem_of_select_where. split; [done|by apply bool_decide_eq_true]. }
    rewrite Forall_forall in Hall. destruct (Hall _ Hin) as [u Hu]. cbn in Hu.
    exists (into_item u id li). split; [|by split].
    apply list_elem_of_omap. exists (id, li). by rewrite Hu.
Qed.

Lemma shown_purchases db list_id :
  view_of (λ id f, fulfillments db !! id = Some f ∧ f_reversed_at f = None ∧
      ∃ li, list_items db !! f_list_item_id f = Some li ∧ li_list_id li = list_id)
    (shows_purchase db) (fulfillment_rows db list_id).
Proof.
  assert (∀ item, on_list db list_id item = true ↔
    ∃ li, list_items db !! item = Some li ∧ li_list_id li = list_id) as Hon.
  { intros item. unfold on_list. destruct (list_items db !! item) as [li|]; [|naive_solver].
    rewrite bool_decide_eq_true. naive_solver. }
  unfold fulfillment_rows. split.
  - intros x. rewrite list_elem_of_fmap. intros ([id f] & -> & Hin).
    apply elem_of_sort_by, elem_of_select_where in Hin as [Hf Hlr].
    apply andb_prop in Hlr as [Hl%Hon Hr%is_none_true]. exists id, f. split; [done|by split].
  - intros id f (Hf & Hr & Hl%Hon). exists (into_fulfillment id f
      (f_hauler_character_id f ≫= λ c, characters db !! c) (f_bought_at_market_id f ≫= λ m, markets db !! m)).
    split; [|by split]. apply list_elem_of_fmap. exists (id, f). split; [done|]. apply elem_of_sort_by, elem_of_select_where. cbn. by rewrite Hl, Hr.
Qed.

Lemma shown_debts db list_id :
  view_of (λ id r, reimbursements db !! id = Some r ∧ r_list_id r = list_id ∧
             is_Some (users db !! r_hauler_user_id r))
    (shows_debt db) (reimbursement_rows db list_id).
Proof.
  unfold reimbursement_rows. split.
  - intros x. rewrite list_elem_of_omap. intros ([id r] & Hin & Hx).
    apply elem_of_sort_by, elem_of_select_where in Hin as [Hr Hl]. bool_simpl.
    destruct (users db !! r_hauler_user_id r) as [hu|] eqn:Hu; [|done]. cbn in Hx. injection Hx as <-.
    exists id, r. split; [by split_and!|by apply debt_shown].
  - intros id r (Hr & Hl & [hu Hu]). exists (into_reimbursement id r (requester_display_name db r)
      (u_display_name hu) (r_contract_id r ≫= λ c, contracts db !! c)).
    split; [|by apply debt_shown]. apply list_elem_of_omap. exists (id, r). split.
    + apply elem_of_sort_by, elem_of_select_where. split; [done|by apply bool_decide_eq_true].
    + by rewrite Hu.
Qed.

End Detail.

(** ** Witness *)

Section Witness.
#[local] Existing Instance fixture_runtime.

End Witness.
