(* ===== verification/Pricing.v ===== *)
(** * List estimates

    [crates/api/src/lists/pricing.rs]: prices for the markets of a list, the
    cheapest of them per item, and the recomputation of the stored estimates
    that ends every edit of a list. *)

From Stdlib Require Import ZArith Lia.
From stdpp Require Import base tactics decidable option list gmap strings sorting pretty.
From S2P Require Import Prelude Effect Money Unicode Domain Host Schema Fixtures Errors.
From S2P Require Import Market Config Extract Detail.

Local Open Scope string_scope.
Local Open Scope list_scope.

(** The operators [*] and [+=] of [rust_decimal::Decimal], which panic when the
    result does not fit its 96-bit mantissa. *)
Class RustDecimal := {
  Decimal_mul : Decimal → Decimal → option Decimal;
  Decimal_add : Decimal → Decimal → option Decimal;
  (** [Display], its digits with the trailing zeros of the scale. *)
  Decimal_to_string : Decimal → string
}.

(** Exact arithmetic while the mantissa fits 96 bits. *)
Definition fixture_decimal : RustDecimal :=
  let fit d := if (Z.abs (mantissa d) <? 2 ^ 96)%Z then Some d else None in {|
    Decimal_mul a b := fit (mkDecimal (mantissa a * mantissa b) (scale a + scale b));
    Decimal_add a b := fit (mkDecimal
      (mantissa a * pow10 (N.max (scale a) (scale b) - scale a) +
       mantissa b * pow10 (N.max (scale a) (scale b) - scale b))%Z (N.max (scale a) (scale b)));
    Decimal_to_string d := pretty (mantissa d)
  |}.

Definition Decimal_of_i64 (z : Z) : Decimal := mkDecimal z 0.

Definition RECOMPUTE_RETRY_LIMIT : nat := 3.

(** [sort_unstable] then [dedup], which drops equal neighbours. *)
Fixpoint dedup (l : list Z) : list Z :=
  match l with
  | x :: (y :: _) as rest => if (x =? y)%Z then dedup rest else x :: dedup rest
  | _ => l
  end.
Definition dedup_type_ids (ids : list Z) : list Z := dedup (merge_sort Z.le ids).

(** Nested price map: market, then type. *)
Abbreviation PricesByMarket := (gmap Uuid (gmap Z PriceAggregate)) (only parsing).

Definition best_sell_at (prices : PricesByMarket) (type_id : Z) (m : Market) : option (Decimal * Uuid) :=
  agg ← prices !! Market_id m ≫= lookup type_id;
  sell ← pa_best_sell agg;
  Some (sell, Market_id m).

(** [min_by_key]: the first of the least. *)
Definition cheaper (best : option (Decimal * Uuid)) (c : Decimal * Uuid) : option (Decimal * Uuid) :=
  match best with
  | Some b => if Decimal_ltb c.1 b.1 then Some c else Some b
  | None => Some c
  end.

Definition pick_cheapest (mkts : list Market) (prices : PricesByMarket) (type_id : Z)
    : option Decimal * option Uuid :=
  match foldl cheaper None (omap (best_sell_at prices type_id) mkts) with
  | Some (p, id) => (Some p, Some id)
  | None => (None, None)
  end.

Section Pricing.
Context `{RT : Runtime} {MA : MarketApi} {CFG : AppConfig} {RD : RustDecimal}.

Definition read_cached_prices (market_id : Uuid) (type_ids : list Z) (ttl_secs : Z)
    : M Db Anyhow (gmap Z PriceAggregate) :=
  if bool_decide (type_ids = []) then mret ∅ else
  query (λ db, fresh_rows db market_id type_ids (cutoff_of db ttl_secs)).

Definition read_group_citadel_prices (market : Market) (type_ids : list Z) (ttl_secs : Z)
    (accessible : list Uuid) : M Db Anyhow (gmap Z PriceAggregate) :=
  if negb (Market_is_public market) || bool_decide (type_ids = []) ||
     negb (bool_decide (Market_id market ∈ accessible)) then mret ∅
  else read_cached_prices (Market_id market) type_ids ttl_secs.

Definition u64_max : Z := (2 ^ 64 - 1)%Z.

Definition fetch_market (type_ids : list Z) (npc_ttl citadel_ttl : Z) (accessible : list Uuid)
    (out : PricesByMarket) (m : Market) : M Db Anyhow PricesByMarket :=
  map ← match Market_kind m with
        | NpcHub => get_or_refresh_prices m type_ids npc_ttl
        | PublicStructure => read_group_citadel_prices m type_ids citadel_ttl accessible
        end;
  mret (<[Market_id m := map]> out).

Definition fetch_prices_for_markets (group_id : Uuid) (mkts : list Market) (type_ids : list Z)
    : Handler PricesByMarket :=
  let npc_ttl := wrap_i64 (market_prices_secs poll_intervals_secs) in
  let citadel_ttl := wrap_i64 (Z.min u64_max (citadel_orders_secs poll_intervals_secs * 2)) in
  let citadel_ids := Market_id <$> List.filter (λ m, Market_kind m == PublicStructure) mkts in
  accessible ← query (λ db, if bool_decide (citadel_ids = []) then []
                            else accessible_market_ids db group_id citadel_ids);
  anyhow (fold_each (fetch_market type_ids npc_ttl citadel_ttl accessible) mkts ∅).

(** ** Recomputation *)

(** [total += u * Decimal::from(qty)]; a panic drops the transaction. *)
Definition add_estimate (total : Decimal) (u : Decimal) (qty : Z) : Handler Decimal :=
  line ← expect (internal "Multiplication overflowed") (Decimal_mul u (Decimal_of_i64 qty));
  expect (internal "Addition overflowed") (Decimal_add total line).

Definition set_estimate (e : Uuid * (option Decimal * option Uuid)) : Stmt unit :=
  let '(item_id, (est_unit, est_market)) := e in
  found ← reads (λ db, row_exists (list_items db) item_id);
  when found (
    unit_price ← price_column est_unit;
    _ ← foreign_key (λ db, opt_row_exists (markets db) est_market)
          "list_items_est_priced_market_id_fkey";
    execute (λ db, db <| list_items ::= update_where (λ k _, k == item_id)
      (λ li, li <| li_est_unit_price_isk := unit_price |>
                <| li_est_priced_market_id := est_market |>) |>)).

(** The running total over the rows the UPDATE returned. *)
Definition sum_estimate (total : Decimal) (e : Uuid * (option Decimal * option Uuid))
    : Handler Decimal :=
  qty ← query (λ db, li_qty_requested <$> list_items db !! e.1);
  match qty, e.2.1 with
  | Some q, Some u => add_estimate total u q
  | _, _ => mret total
  end.

Definition Decimal_eqb (a b : Decimal) : bool :=
  (mantissa a * pow10 (scale b) =? mantissa b * pow10 (scale a))%Z.

Definition set_list_total (list_id : Uuid) (total : Decimal) : Stmt unit :=
  cents ← expect NumericOverflow (numeric_cast 24 2 total);
  execute (λ db, db <| lists ::= update_where (λ k _, k == list_id)
    (λ l, l <| l_total_estimate_isk := cents |>
            <| l_updated_at := if Decimal_eqb (decimal_of_cents (l_total_estimate_isk l)) total
                               then l_updated_at l else db_now db |>) |>).

Definition write_estimates (list_id : Uuid) (ests : list (Uuid * (option Decimal * option Uuid)))
    : Handler unit :=
  _ ← sql (for_each set_estimate ests);
  total ← fold_each sum_estimate ests Decimal_ZERO;
  sql (set_list_total list_id total).

(** The markets of a list, joined. *)
Definition list_market_rows (db : Db) (list_id : Uuid) : list Market :=
  omap (λ kv : (Uuid * Uuid) * ListMarketRow,
      m ← markets db !! kv.1.2; Some (into_market kv.1.2 m))
    (select_where (λ k _, k.1 == list_id) (list_markets db)).

Definition list_item_types (db : Db) (list_id : Uuid) : list (Uuid * Z) :=
  (λ kv, (kv.1, li_type_id kv.2)) <$> select_where (λ _ li, li_list_id li == list_id) (list_items db).

Fixpoint recompute_loop (attempts : nat) (list_id : Uuid) (updated_after : Timestamp)
    : Handler unit :=
  match attempts with
  | O => throw (Conflict "list was concurrently modified; please retry")
  | S attempts' =>
      group_id ← query (λ db, l_group_id <$> lists db !! list_id);
      group_id ← expect not_found group_id;
      mkts ← query (λ db, list_market_rows db list_id);
      items ← query (λ db, list_item_types db list_id);
      let type_ids := dedup_type_ids items.*2 in
      prices ← fetch_prices_for_markets group_id mkts type_ids;
      current_updated ← query (λ db, l_updated_at <$> lists db !! list_id);
      current_updated ← expect not_found current_updated;
      if current_updated != updated_after then recompute_loop attempts' list_id current_updated
      else write_estimates list_id ((λ it, (it.1, pick_cheapest mkts prices it.2)) <$> items)
  end.

Definition recompute_estimates (list_id : Uuid) (updated_after : Timestamp) : Handler unit :=
  recompute_loop RECOMPUTE_RETRY_LIMIT list_id updated_after.

(** [UPDATE lists SET updated_at = now() ... RETURNING updated_at]. *)
Definition touch_list (list_id : Uuid) : Stmt Timestamp :=
  _ ← execute (λ db, db <| lists ::= update_where (λ k _, k == list_id)
        (λ l, l <| l_updated_at := db_now db |>) |>);
  fetch_one (λ db, l_updated_at <$> lists db !! list_id).
End Pricing.
