(* ===== verification/Settlement.v ===== *)
(** * Settlement

    [crates/settlement/src/lib.rs]: the contract upsert, the contract-driven
    and the manual settle, auto-close and unbind.  The functions run inside
    the caller's transaction; [verify_contract_against_journal] is in
    [Wallet.v]. *)

From Stdlib Require Import ZArith Lia.
From stdpp Require Import base tactics decidable option list gmap strings.
From S2P Require Import Prelude Effect Money Domain Host Schema Fixtures Errors.

Local Open Scope string_scope.

Record ContractUpsert {RT : Runtime} := mkContractUpsert {
  cu_esi_contract_id : EsiContractId;
  cu_issuer_character_id : EsiCharacterId;
  cu_issuer_user_id : option Uuid;
  cu_assignee_character_id : option EsiCharacterId;
  cu_assignee_user_id : option Uuid;
  cu_issuer_principal_id : option Uuid;
  cu_assignee_principal_id : option Uuid;
  cu_contract_type : ContractType;
  cu_status : ContractStatus;
  cu_price_isk : Decimal;
  cu_reward_isk : Decimal;
  cu_collateral_isk : Decimal;
  cu_date_issued : Timestamp;
  cu_date_expired : option Timestamp;
  cu_date_accepted : option Timestamp;
  cu_date_completed : option Timestamp;
  cu_start_location_id : option EsiLocationId;
  cu_end_location_id : option EsiLocationId;
  cu_raw_json : Value;
  cu_source_corp_id : option Uuid
}.

Arguments mkContractUpsert {RT}.

Record ContractUpsertOutcome := mkContractUpsertOutcome {
  co_contract_id : Uuid;
  co_prior_status : option ContractStatus;
  co_current_status : ContractStatus;
  co_needs_items : bool
}.

(** [ContractUpsertOutcome::status_changed]. *)
Definition status_changed (o : ContractUpsertOutcome) : bool :=
  co_prior_status o != Some (co_current_status o).

Record ContractSettledReimbursement := mkContractSettledReimbursement {
  csr_group_id : Uuid;
  csr_list_destination : string;
  csr_requester_name : string;
  csr_hauler_name : string;
  csr_total_isk : Z
}.

(** [COALESCE(a, b)]. *)
Definition coalesce {A} (a b : option A) : option A :=
  match a with Some x => Some x | None => b end.

Section Settlement.
Context `{RT : Runtime}.

Definition S_ (A : Type) : Type := M Db SettlementError A.

(** ** Upsert *)

(** Assignment to a [numeric(20,2)] column. *)
Definition cast_20_2 (d : Decimal) : Stmt Z := expect NumericOverflow (numeric_cast 20 2 d).

Definition contract_foreign_keys (u : ContractUpsert) : Stmt unit :=
  _ ← foreign_key (λ db, opt_row_exists (users db) (cu_issuer_user_id u))
        "contracts_issuer_user_id_fkey";
  _ ← foreign_key (λ db, opt_row_exists (principals db) (cu_issuer_principal_id u))
        "contracts_issuer_principal_id_fkey";
  _ ← foreign_key (λ db, opt_row_exists (users db) (cu_assignee_user_id u))
        "contracts_assignee_user_id_fkey";
  _ ← foreign_key (λ db, opt_row_exists (principals db) (cu_assignee_principal_id u))
        "contracts_assignee_principal_id_fkey";
  foreign_key (λ db, opt_row_exists (corps db) (cu_source_corp_id u))
    "contracts_source_corp_id_fkey".

Definition find_contract (db : Db) (esi_contract_id : EsiContractId)
    : option (Uuid * ContractRow) :=
  head (select_where (λ _ c, ct_esi_contract_id c == esi_contract_id) (contracts db)).

Definition upsert_row (u : ContractUpsert) (price reward collateral : Z) (now : Timestamp)
    (c : ContractRow) : ContractRow :=
  c <| ct_issuer_character_id := cu_issuer_character_id u |>
    <| ct_issuer_user_id := cu_issuer_user_id u |>
    <| ct_assignee_character_id := cu_assignee_character_id u |>
    <| ct_assignee_user_id := cu_assignee_user_id u |>
    <| ct_contract_type := cu_contract_type u |>
    <| ct_status := cu_status u |>
    <| ct_price_isk := price |>
    <| ct_reward_isk := reward |>
    <| ct_collateral_isk := collateral |>
    <| ct_date_issued := cu_date_issued u |>
    <| ct_date_expired := cu_date_expired u |>
    <| ct_date_accepted := cu_date_accepted u |>
    <| ct_date_completed := cu_date_completed u |>
    <| ct_start_location_id := cu_start_location_id u |>
    <| ct_end_location_id := cu_end_location_id u |>
    <| ct_raw_json := cu_raw_json u |>
    <| ct_issuer_principal_id ::= coalesce (cu_issuer_principal_id u) |>
    <| ct_assignee_principal_id ::= coalesce (cu_assignee_principal_id u) |>
    <| ct_source_corp_id ::= coalesce (cu_source_corp_id u) |>
    <| ct_updated_at := now |>.

Definition insert_row (u : ContractUpsert) (price reward collateral : Z) (now : Timestamp)
    : ContractRow :=
  mkContractRow (cu_esi_contract_id u) (cu_issuer_character_id u) (cu_issuer_user_id u)
    (cu_issuer_principal_id u) (cu_assignee_character_id u) (cu_assignee_user_id u)
    (cu_assignee_principal_id u) (cu_contract_type u) (cu_status u) price reward collateral
    None None (cu_date_issued u) (cu_date_expired u) (cu_date_accepted u)
    (cu_date_completed u) (cu_start_location_id u) (cu_end_location_id u) (cu_raw_json u)
    None None None (cu_source_corp_id u) now now.

Definition upsert_contract (u : ContractUpsert) : S_ ContractUpsertOutcome :=
  prior ← query (λ db, find_contract db (cu_esi_contract_id u));
  price ← sql (cast_20_2 (cu_price_isk u));
  reward ← sql (cast_20_2 (cu_reward_isk u));
  collateral ← sql (cast_20_2 (cu_collateral_isk u));
  match prior with
  | Some (id, c) =>
      _ ← execute (λ db, db <| contracts ::=
            update_where (λ k _, k == id) (upsert_row u price reward collateral (db_now db)) |>);
      _ ← sql (contract_foreign_keys u);
      mret (mkContractUpsertOutcome id (Some (ct_status c)) (cu_status u)
              (is_none (ct_items_synced_at c)))
  | None =>
      id ← sql new_uuid;
      _ ← sql (unique (λ db, negb (row_exists (contracts db) id)) "contracts_pkey");
      _ ← execute (λ db, db <| contracts ::=
            <[id := insert_row u price reward collateral (db_now db)]> |>);
      _ ← sql (contract_foreign_keys u);
      mret (mkContractUpsertOutcome id None (cu_status u) true)
  end.

(** ** The contract's expected total *)

Definition bound_to (contract_id : Uuid) (r : ReimbursementRow) : bool :=
  r_contract_id r == Some contract_id.

(** [SUM(subtotal_isk + tip_isk)] over the bound reimbursements; NULL over none. *)
Definition expected_total (db : Db) (contract_id : Uuid) : option Z :=
  if sel_exists (λ _, bound_to contract_id) (reimbursements db)
  then Some (sum_where (λ _, bound_to contract_id)
               (λ _ r, r_subtotal_isk r + r_tip_isk r)%Z (reimbursements db))
  else None.

Definition fits_opt (p : Z) (z : option Z) : bool :=
  match z with Some z => fits p z | None => true end.

Definition recompute_contract_expected_total (contract_id : Uuid) : S_ unit :=
  total ← query (λ db, expected_total db contract_id);
  present ← query (λ db, row_exists (contracts db) contract_id);
  _ ← sql (ensure (negb present || fits_opt 20 total) NumericOverflow);
  execute (λ db, db <| contracts ::=
    update_where (λ k _, k == contract_id) (λ c, c <| ct_expected_total_isk := total |>) |>).

(** ** Which items a settled reimbursement covers *)

(** [f.list_item_id = item AND f.hauler_user_id = hauler AND f.reversed_at IS NULL]. *)
Definition live_by (db : Db) (item_id hauler : Uuid) : bool :=
  sel_exists (λ _ f, (f_list_item_id f == item_id) && (f_hauler_user_id f == hauler) &&
                     is_none (f_reversed_at f)) (fulfillments db).

(** The user behind a principal joined with [kind = 'user']. *)
Definition user_of_principal (db : Db) (principal_id : Uuid) : option Uuid :=
  p ← principals db !! principal_id;
  if p_kind p == Principal_User then p_user_id p else None.

Definition live_by_principal (db : Db) (item_id hauler_principal : Uuid) : bool :=
  match user_of_principal db hauler_principal with
  | Some h => live_by db item_id h
  | None => false
  end.

(** The WHERE clause of the bulk flip for one bound reimbursement [r]. *)
Definition contract_covers (db : Db) (r : ReimbursementRow) (item_id : Uuid)
    (li : ListItemRow) : bool :=
  (li_list_id li == r_list_id r) &&
  (r_is_corp_funded r ||
     sql_eq (li_requested_by_user_id li) (user_of_principal db (r_requester_principal_id r))) &&
  ((li_status li == Item_Bought) || (li_status li == Item_Delivered)) &&
  live_by_principal db item_id (r_hauler_principal_id r) &&
  negb (sel_exists (λ _ r2,
    (r_list_id r2 == r_list_id r) &&
    (r_hauler_principal_id r2 != r_hauler_principal_id r) &&
    (r_status r2 == Reimb_Pending) &&
    live_by_principal db item_id (r_hauler_principal_id r2)) (reimbursements db)).

(** [UPDATE list_items SET status = 'settled' FROM reimbursements ...]. *)
Definition flip_contract_items (contract_id : Uuid) (db : Db) : Db :=
  db <| list_items ::= update_where
    (λ item_id li, sel_exists (λ _ r, bound_to contract_id r &&
                                      contract_covers db r item_id li) (reimbursements db))
    (λ li, li <| li_status := Item_Settled |>) |>.

Definition all_settled (db : Db) (list_id : Uuid) : bool :=
  negb (sel_exists (λ _ li, (li_list_id li == list_id) && (li_status li != Item_Settled))
          (list_items db)).

(** The returned flag is [rows_affected() > 0]. *)
Definition auto_close_list_if_complete (list_id : Uuid) : S_ bool :=
  fires ← query (λ db,
    match lists db !! list_id with
    | Some l => (l_status l == List_Open) && all_settled db list_id
    | None => false
    end);
  _ ← execute (λ db, if (fires : bool) then
        db <| lists ::= update_where (λ k _, k == list_id)
          (λ l, l <| l_status := List_Closed |> <| l_updated_at := db_now db |>) |>
        else db);
  mret fires.

(** ** Settle via contract *)

Definition settle_bound (contract_id : Uuid) (settled_at now : Timestamp)
    : gmap Uuid ReimbursementRow → gmap Uuid ReimbursementRow :=
  update_where (λ _ r, bound_to contract_id r && (r_status r == Reimb_Pending))
    (λ r, r <| r_status := Reimb_Settled |> <| r_settled_at := Some settled_at |>
            <| r_settled_by_user_id := None |> <| r_updated_at := now |>).

Definition settled_webhook_info (db : Db) (ids : list Uuid)
    : list ContractSettledReimbursement :=
  omap (λ '(_, r),
      l ← lists db !! r_list_id r;
      uh ← users db !! r_hauler_user_id r;
      Some (mkContractSettledReimbursement (l_group_id l)
              (default "(unnamed)" (l_destination_label l))
              (default "Corp" (u_display_name <$> (r_requester_user_id r ≫= λ u, users db !! u)))
              (u_display_name uh) (r_total_isk r)))
    (select_where (λ id _, bool_decide (id ∈ ids)) (reimbursements db)).

(** [price_isk - expected_total_isk], NULL when nothing is expected. *)
Definition settlement_delta (c : ContractRow) : option Z :=
  (λ e, ct_price_isk c - e)%Z <$> ct_expected_total_isk c.

Definition settle_via_contract (contract_id : Uuid) : S_ (list ContractSettledReimbursement) :=
  row ← query (λ db, contracts db !! contract_id);
  c ← expect Settlement_NotFound row;
  utc_now ← query db_utc_now;
  let settled_at := default utc_now (ct_date_completed c) in
  settled_rows ← query (λ db,
    select_where (λ _ r, bound_to contract_id r && (r_status r == Reimb_Pending))
      (reimbursements db));
  _ ← execute (λ db, db <| reimbursements ::= settle_bound contract_id settled_at (db_now db) |>);
  if bool_decide (settled_rows = []) then mret [] else
  _ ← execute (flip_contract_items contract_id);
  _ ← sql (ensure (fits_opt 20 (settlement_delta c)) NumericOverflow);
  _ ← execute (λ db, db <| contracts ::= update_where (λ k _, k == contract_id)
        (λ c, c <| ct_settlement_delta_isk := settlement_delta c |>
                <| ct_updated_at := db_now db |>) |>);
  list_ids ← query (λ db,
    remove_dups ((λ kv, r_list_id kv.2) <$>
      select_where (λ _, bound_to contract_id) (reimbursements db)));
  _ ← for_each (λ lid, _ ← auto_close_list_if_complete lid; mret tt) list_ids;
  query (λ db, settled_webhook_info db settled_rows.*1).

(** ** Flips of the manual settle *)

Definition flip_status (accept_bought : bool) (s : ListItemStatus) : bool :=
  (s == Item_Delivered) || (accept_bought && (s == Item_Bought)).

(** The WHERE clause of [sql_flip_personal!]. *)
Definition flip_personal (db : Db) (list_id requester_user_id hauler_user_id : Uuid)
    (accept_bought : bool) (item_id : Uuid) (li : ListItemRow) : bool :=
  (li_list_id li == list_id) &&
  (li_requested_by_user_id li == Some requester_user_id) &&
  flip_status accept_bought (li_status li) &&
  live_by db item_id hauler_user_id &&
  negb (sel_exists (λ _ r,
    (r_list_id r == list_id) && (r_requester_user_id r == Some requester_user_id) &&
    (r_hauler_user_id r != hauler_user_id) && (r_status r == Reimb_Pending) &&
    live_by db item_id (r_hauler_user_id r)) (reimbursements db)).

(** The WHERE clause of [sql_flip_corp!]. *)
Definition flip_corp (db : Db) (list_id hauler_user_id : Uuid) (accept_bought : bool)
    (item_id : Uuid) (li : ListItemRow) : bool :=
  (li_list_id li == list_id) &&
  flip_status accept_bought (li_status li) &&
  live_by db item_id hauler_user_id &&
  negb (sel_exists (λ _ r2,
    (r_list_id r2 == list_id) && (r_hauler_user_id r2 != hauler_user_id) &&
    (r_status r2 == Reimb_Pending) &&
    live_by db item_id (r_hauler_user_id r2)) (reimbursements db)).

Definition set_settled (P : Uuid → ListItemRow → bool) (db : Db) : Db :=
  db <| list_items ::= update_where P (λ li, li <| li_status := Item_Settled |>) |>.

Definition flip_items_to_settled (list_id requester_user_id hauler_user_id : Uuid)
    (accept_bought : bool) : S_ unit :=
  execute (λ db, set_settled
    (flip_personal db list_id requester_user_id hauler_user_id accept_bought) db).

Definition flip_items_to_settled_corp (list_id hauler_user_id : Uuid)
    (accept_bought : bool) : S_ unit :=
  execute (λ db, set_settled (flip_corp db list_id hauler_user_id accept_bought) db).

(** ** Manual settle *)

(** [li.status NOT IN ('delivered', 'settled')] and bought by the hauler. *)
Definition owes_delivery (db : Db) (list_id : Uuid) (requester : option Uuid)
    (hauler : Uuid) (item_id : Uuid) (li : ListItemRow) : bool :=
  (li_list_id li == list_id) &&
  match requester with Some u => li_requested_by_user_id li == Some u | None => true end &&
  negb ((li_status li == Item_Delivered) || (li_status li == Item_Settled)) &&
  live_by db item_id hauler.

Definition settle_manual (reimbursement_id settled_by_user_id : Uuid) : S_ unit :=
  row ← query (λ db, reimbursements db !! reimbursement_id);
  r ← expect Settlement_NotFound row;
  _ ← ensure (r_status r == Reimb_Pending) (NotPending (r_status r));
  requester ← (if r_is_corp_funded r then mret None
               else u ← expect Settlement_NotFound (r_requester_user_id r); mret (Some u));
  not_delivered ← query (λ db,
    count_where (owes_delivery db (r_list_id r) requester (r_hauler_user_id r))
      (list_items db));
  _ ← ensure (not_delivered <=? 0)%Z (NotDelivered not_delivered);
  _ ← execute (λ db, db <| reimbursements ::= update_where (λ k _, k == reimbursement_id)
        (λ r, r <| r_status := Reimb_Settled |> <| r_settled_at := Some (db_now db) |>
                <| r_settled_by_user_id := Some settled_by_user_id |>
                <| r_updated_at := db_now db |>) |>);
  _ ← match requester with
      | None => flip_items_to_settled_corp (r_list_id r) (r_hauler_user_id r) false
      | Some u => flip_items_to_settled (r_list_id r) u (r_hauler_user_id r) false
      end;
  _ ← auto_close_list_if_complete (r_list_id r);
  mret tt.

(** ** Unbind *)

(** The result is the number of reimbursements detached. *)
Definition unbind_contract (contract_id : Uuid) : S_ Z :=
  let bound_pending r := bound_to contract_id r && (r_status r == Reimb_Pending) in
  unbound ← query (λ db, count_where (λ _, bound_pending) (reimbursements db));
  _ ← execute (λ db, db <| reimbursements ::= update_where (λ _, bound_pending)
        (λ r, r <| r_contract_id := None |> <| r_updated_at := db_now db |>) |>);
  _ ← execute (λ db, db <| contract_match_suggestions ::= update_where
        (λ _ s, (s_contract_id s == contract_id) && (s_state s == Match_Pending))
        (λ s, s <| s_state := Match_Superseded |> <| s_decided_at := Some (db_now db) |>) |>);
  _ ← execute (λ db, db <| contracts ::= update_where (λ k _, k == contract_id)
        (λ c, c <| ct_expected_total_isk := None |> <| ct_updated_at := db_now db |>) |>);
  mret unbound.

(** ** Lemmas *)

Lemma expected_total_None db cid :
  expected_total db cid = None ↔
  ∀ k r, reimbursements db !! k = Some r → r_contract_id r ≠ Some cid.
Proof.
  unfold expected_total. destruct (sel_exists _ _) eqn:He; split; try done.
  - intros Hno. apply sel_exists_true in He as (k & r & Hr & Hb).
    unfold bound_to in Hb. bool_simpl. by destruct (Hno _ _ Hr).
  - intros _ k r Hr Hb. rewrite sel_exists_false in He.
    specialize (He _ _ Hr). unfold bound_to in He. by bool_simpl.
Qed.

Lemma live_by_true db item h :
  live_by db item h = true ↔ ∃ fid f, fulfillments db !! fid = Some f ∧
    f_list_item_id f = item ∧ f_hauler_user_id f = h ∧ f_reversed_at f = None.
Proof.
  unfold live_by. rewrite sel_exists_true. split.
  - intros (fid & f & Hf & HP). bool_simpl. eauto 10.
  - intros (fid & f & Hf & <- & <- & Hr). exists fid, f. rewrite Hr.
    by rewrite !bool_decide_eq_true_2.
Qed.

Lemma all_settled_true db list_id :
  all_settled db list_id = true ↔
  ∀ id li, list_items db !! id = Some li → li_list_id li = list_id → li_status li = Item_Settled.
Proof.
  unfold all_settled. rewrite negb_true_iff, sel_exists_false. split.
  - intros Hall id li Hl <-. specialize (Hall _ _ Hl). cbn in Hall.
    rewrite bool_decide_eq_true_2 in Hall by done. cbn in Hall. by bool_simpl.
  - intros Hall id li Hl. destruct (decide (li_list_id li = list_id)) as [He|He].
    + rewrite (Hall _ _ Hl He). apply andb_false_r.
    + by rewrite bool_decide_eq_false_2.
Qed.

(** The list a successful auto-close writes. *)
Lemma auto_close_Ok list_id db b db' :
  auto_close_list_if_complete list_id db = Ok (b, db') →
  db' = db <| lists := lists db' |> ∧
  (b = true ↔ ∃ l, lists db !! list_id = Some l ∧ l_status l = List_Open ∧
                   all_settled db list_id = true) ∧
  ∀ k, lists db' !! k =
    if b && bool_decide (k = list_id)
    then (λ l, l <| l_status := List_Closed |> <| l_updated_at := db_now db |>) <$> lists db !! k
    else lists db !! k.
Proof.
  unfold auto_close_list_if_complete. intros Hrun. inv_sql.
  match goal with |- context [all_settled ?d _] => set (d0 := d) end.
  destruct (lists d0 !! list_id) as [l|] eqn:Hl.
  - destruct (_ && _) eqn:Hc.
    + split; [by destruct d0|]. split; [bool_simpl; naive_solver|].
      intros k. set_simpl. rewrite lookup_update_where. cbn.
      by destruct (lists _ !! k), (k == list_id).
    + split; [by destruct d0|]. split; [|done]. split; [done|].
      intros (? & [= <-] & Ho & Ha). by rewrite Ha, Ho in Hc.
  - split; [by destruct d0|]. split; [|done]. split; [done|]. by intros (? & ? & _).
Qed.

(** The columns of a list that no settlement writes. *)
Definition list_key (l : ListRow) :=
  (l_group_id l, l_created_by_user_id l, l_destination_label l, l_tip_pct l, l_payer_corp_id l).
Definition lists_kept (t t' : gmap Uuid ListRow) : Prop :=
  ∀ k, list_key <$> t' !! k = list_key <$> t !! k.

Lemma auto_close_kept list_id db b db' :
  auto_close_list_if_complete list_id db = Ok (b, db') → lists_kept (lists db) (lists db').
Proof.
  intros (_ & _ & Hk)%auto_close_Ok k. rewrite Hk.
  destruct (b && _); [|done]. by destruct (lists db !! k).
Qed.

(** An empty selection makes its update the identity. *)
Lemma settle_bound_nil cid at_ now t :
  select_where (λ _ r, bound_to cid r && (r_status r == Reimb_Pending)) t = [] →
  settle_bound cid at_ now t = t.
Proof.
  intros Hn. apply select_where_nil in Hn. rewrite sel_exists_false in Hn.
  apply update_where_id. intros k r Hk HP. by rewrite (Hn _ _ Hk) in HP.
Qed.

Lemma settle_bound_none_pending cid at_ now t :
  select_where (λ _ r, bound_to cid r && (r_status r == Reimb_Pending))
    (settle_bound cid at_ now t) = [].
Proof.
  apply select_where_nil, sel_exists_false. intros k r Hk.
  apply lookup_update_where_Some in Hk as (r0 & Hr0 & ->).
  destruct (bound_to cid r0 && (r_status r0 == Reimb_Pending)) eqn:Hc; [|done].
  set_simpl. cbn. by rewrite andb_false_r.
Qed.

Lemma settle_via_contract_run cid db infos db' :
  settle_via_contract cid db = Ok (infos, db') →
  ∃ c, contracts db !! cid = Some c ∧
  let at_ := default (db_utc_now db) (ct_date_completed c) in
  let db1 := db <| reimbursements ::= settle_bound cid at_ (db_now db) |> in
  (select_where (λ _ r, bound_to cid r && (r_status r == Reimb_Pending)) (reimbursements db) = [] ∧
   infos = [] ∧ db' = db1) ∨
  (∃ ls, lists_kept (lists db) ls ∧ fits_opt 20 (settlement_delta c) = true ∧
   db' = flip_contract_items cid db1
     <| contracts ::= update_where (λ k _, k == cid)
          (λ c, c <| ct_settlement_delta_isk := settlement_delta c |>
                  <| ct_updated_at := db_now db |>) |>
     <| lists := ls |>).
Proof.
  unfold settle_via_contract. intros Hrun. inv_sql.
  match goal with H : contracts ?d !! cid = Some ?c |- _ => exists c; set (d0 := d) in * end.
  split; [done|]. cbn. case_bool_decide as Hn; inv_sql; [by left|right].
  match goal with H : for_each _ _ ?d = Ok (_, ?d') |- _ =>
    assert (d' = d <| lists := lists d' |> ∧ lists_kept (lists d) (lists d')) as [Hd Hk] end.
  { match goal with H : for_each _ _ ?d = Ok (_, ?d') |- _ =>
      refine (for_each_inv (λ x, x = d <| lists := lists x |> ∧ lists_kept (lists d) (lists x))
        _ _ _ _ _ _ H _) end.
    - intros lid s1 u s2 _ Hb [Hs Hk]. inv_sql.
      match goal with H : auto_close_list_if_complete _ _ = _ |- _ =>
        pose proof (auto_close_kept _ _ _ _ H) as Hk2;
        apply auto_close_Ok in H as (Hs2 & _ & _) end.
      split; [rewrite Hs2, Hs; reflexivity|]. intros k. by rewrite Hk2, Hk.
    - split; [by destruct d0|done]. }
  rewrite Hd. eexists. split; [exact Hk|]. split; [done|]. reflexivity.
Qed.

(** The tables contract settlement writes, pointwise. *)
Lemma settle_via_contract_tables cid db infos db' :
  settle_via_contract cid db = Ok (infos, db') →
  ∃ c, contracts db !! cid = Some c ∧
    reimbursements db' = settle_bound cid (default (db_utc_now db) (ct_date_completed c))
      (db_now db) (reimbursements db) ∧
    db' = db <| reimbursements := reimbursements db' |> <| list_items := list_items db' |>
             <| contracts := contracts db' |> <| lists := lists db' |> ∧
    (∀ k, ct_expected_total_isk <$> contracts db' !! k =
          ct_expected_total_isk <$> contracts db !! k).
Proof.
  intros Hrun. apply settle_via_contract_run in Hrun as (c & Hc & Hrun). cbn in Hrun.
  exists c. split; [done|]. unfold flip_contract_items in Hrun.
  destruct Hrun as [(_ & _ & ->)|(ls & _ & _ & ->)]; set_simpl.
  - split_and!; try done; by destruct db.
  - split_and!; try done. intros k. rewrite lookup_update_where.
    destruct (contracts db !! k); cbn; [|done]. by destruct (k == cid).
Qed.

(** ** Properties *)

(** C14 Settling via a contract settles exactly the contract's pending
    reimbursements, at the contract's completion time (the process clock when
    it has none) and with no settling user, leaves every amount alone, and
    records price minus expected total on the contract when anything was
    settled. *)
Theorem settle_via_contract_settles cid db infos db' :
  settle_via_contract cid db = Ok (infos, db') →
  ∃ c, contracts db !! cid = Some c ∧
  (∀ k r, reimbursements db !! k = Some r →
     reimbursements db' !! k = Some (
       if bound_to cid r && (r_status r == Reimb_Pending)
       then r <| r_status := Reimb_Settled |>
              <| r_settled_at := Some (default (db_utc_now db) (ct_date_completed c)) |>
              <| r_settled_by_user_id := None |> <| r_updated_at := db_now db |>
       else r)) ∧
  (∀ k, reimbursements db !! k = None → reimbursements db' !! k = None) ∧
  ((∃ k r, reimbursements db !! k = Some r ∧ r_contract_id r = Some cid ∧
           r_status r = Reimb_Pending) →
   contracts db' !! cid = Some (c
     <| ct_settlement_delta_isk := (λ e, ct_price_isk c - e)%Z <$> ct_expected_total_isk c |>
     <| ct_updated_at := db_now db |>)).
Proof.
  intros Hrun. apply settle_via_contract_run in Hrun as (c & Hc & Hrun).
  exists c. split; [done|]. cbn in Hrun.
  assert (reimbursements db' = settle_bound cid (default (db_utc_now db) (ct_date_completed c))
            (db_now db) (reimbursements db)) as ->.
  { destruct Hrun as [(_ & _ & ->)|(ls & _ & _ & ->)]; reflexivity. }
  unfold settle_bound. split; [|split].
  - intros k r Hr. by rewrite lookup_update_where, Hr.
  - intros k Hk. by rewrite lookup_update_where, Hk.
  - intros (k & r & Hr & Hb & Hp). destruct Hrun as [(Hn & _ & _)|(ls & _ & _ & ->)].
    + apply select_where_nil in Hn. rewrite sel_exists_false in Hn.
      specialize (Hn _ _ Hr). unfold bound_to in Hn.
      by rewrite Hb, Hp, !bool_decide_eq_true_2 in Hn.
    + unfold flip_contract_items. set_simpl. rewrite lookup_update_where, Hc. cbn.
      by rewrite bool_decide_eq_true_2.
Qed.

(** Contract settlement is idempotent: running it again on its own result
    succeeds, reports nothing to notify, and leaves the database unchanged. *)
Theorem settle_via_contract_idempotent cid db infos db' :
  settle_via_contract cid db = Ok (infos, db') → settle_via_contract cid db' = Ok ([], db').
Proof.
  intros Hrun. apply settle_via_contract_run in Hrun as (c & Hc & Hrun). cbn in Hrun.
  assert (reimbursements db' = settle_bound cid (default (db_utc_now db) (ct_date_completed c))
            (db_now db) (reimbursements db)) as Hr.
  { destruct Hrun as [(_ & _ & ->)|(ls & _ & _ & ->)]; reflexivity. }
  assert (∃ c', contracts db' !! cid = Some c') as [c' Hc'].
  { destruct Hrun as [(_ & _ & ->)|(ls & _ & _ & ->)]; unfold flip_contract_items; set_simpl; [eauto|].
    rewrite lookup_update_where, Hc. cbn. eauto. }
  unfold settle_via_contract, query, reads, execute, modify, expect, mret, M_ret, throw.
  unfold mbind, M_bind. rewrite Hc', Hr, settle_bound_none_pending. cbn.
  do 2 f_equal.
  assert (settle_bound cid (default (db_utc_now db') (ct_date_completed c')) (db_now db')
            (reimbursements db') = reimbursements db') as He.
  { apply settle_bound_nil. rewrite Hr. apply settle_bound_none_pending. }
  transitivity (db' <| reimbursements := reimbursements db' |>); [|by destruct db'].
  by rewrite <- He.
Qed.

(** C15 Contract settlement never settles an item early: an item it changes was
    bought or delivered, was bought in part by the hauler of a reimbursement
    bound to this contract that is no longer pending, and no other hauler with
    a still pending reimbursement on the list has bought any of it. *)
Theorem settle_via_contract_items_safe cid db infos db' item li li' :
  settle_via_contract cid db = Ok (infos, db') →
  list_items db !! item = Some li → list_items db' !! item = Some li' → li' ≠ li →
  li' = li <| li_status := Item_Settled |> ∧
  (li_status li = Item_Bought ∨ li_status li = Item_Delivered) ∧
  ∃ k r h, reimbursements db' !! k = Some r ∧ r_contract_id r = Some cid ∧
    r_status r ≠ Reimb_Pending ∧ r_list_id r = li_list_id li ∧
    (r_is_corp_funded r = true ∨
     ∃ u, li_requested_by_user_id li = Some u ∧
          user_of_principal db (r_requester_principal_id r) = Some u) ∧
    user_of_principal db (r_hauler_principal_id r) = Some h ∧ live_by db item h = true ∧
    ∀ k2 r2 h2, reimbursements db' !! k2 = Some r2 → r_list_id r2 = li_list_id li →
      r_status r2 = Reimb_Pending → r_hauler_principal_id r2 ≠ r_hauler_principal_id r →
      user_of_principal db (r_hauler_principal_id r2) = Some h2 → live_by db item h2 = false.
Proof.
  intros Hrun Hli Hli' Hne. apply settle_via_contract_run in Hrun as (c & Hc & Hrun).
  cbn in Hrun. destruct Hrun as [(_ & _ & ->)|(ls & _ & _ & ->)];
    [set_simpl; congruence|].
  unfold flip_contract_items in Hli'. set_simpl.
  apply lookup_update_where_Some in Hli' as (li0 & Hli0 & ->).
  rewrite Hli in Hli0. simplify_eq. destruct (sel_exists _ _) eqn:He; [|done].
  apply sel_exists_true in He as (k & r & Hr & Hcov). apply andb_true_iff in Hcov as [Hb Hcov].
  unfold contract_covers in Hcov. repeat (apply andb_true_iff in Hcov as [Hcov ?]).
  split; [done|]. split.
  { match goal with H : _ || _ = true |- _ => apply orb_true_iff in H as [H|H] end; bool_simpl;
      [left|right]; done. }
  assert (r_contract_id r = Some cid ∧ r_status r ≠ Reimb_Pending) as [Hbr Hsr].
  { pose proof Hr as Hset. apply lookup_update_where_Some in Hset as (r0 & Hr0 & ->).
    unfold bound_to in *. destruct (_ && _) eqn:Hp; set_simpl; bool_simpl; [done|].
    split; [done|]. intros Hs. by rewrite Hb, Hs, !bool_decide_eq_true_2 in Hp. }
  clear Hb. unfold live_by_principal in *.
  destruct (user_of_principal _ (r_hauler_principal_id r)) as [h|] eqn:Hh; [|done].
  exists k, r, h. bool_simpl. split_and!; try done.
  - match goal with H : r_is_corp_funded r || _ = true |- _ =>
      apply orb_true_iff in H as [H|(u & ? & ?)%sql_eq_true] end; [by left|right]. eauto.
  - intros k2 r2 h2 Hr2 Hl2 Hp2 Hne2 Hh2.
    match goal with H : sel_exists _ _ = false |- _ => rewrite sel_exists_false in H;
      specialize (H _ _ Hr2) end.
    match goal with H : context [live_by ?d item] |- _ =>
      change (user_of_principal d) with (user_of_principal db) in H; rewrite Hh2 in H;
      change (live_by d) with (live_by db) in H; rename H into Hno end.
    rewrite Hl2, Hp2, !bool_decide_eq_true_2, bool_decide_eq_false_2 in Hno by done. done.
Qed.

(** The requester whose items a reimbursement covers: all of them when it is
    corp-funded; [None] outside for a personal row without a requester. *)
Definition manual_scope (r : ReimbursementRow) : option (option Uuid) :=
  if r_is_corp_funded r then Some None else Some <$> r_requester_user_id r.

(** Which branch the manual settle takes. *)
Lemma settle_manual_branches rid by_user db :
  match reimbursements db !! rid with
  | None => settle_manual rid by_user db = Err Settlement_NotFound
  | Some r =>
      if r_status r != Reimb_Pending
      then settle_manual rid by_user db = Err (NotPending (r_status r))
      else match manual_scope r with
      | None => settle_manual rid by_user db = Err Settlement_NotFound
      | Some scope =>
          let n := count_where (owes_delivery db (r_list_id r) scope (r_hauler_user_id r))
                     (list_items db) in
          if (0 <? n)%Z then settle_manual rid by_user db = Err (NotDelivered n)
          else is_ok (settle_manual rid by_user db) = true
      end
  end.
Proof.
  unfold settle_manual, manual_scope, query, reads, execute, modify, expect, ensure.
  unfold mret, M_ret, throw, mbind, M_bind.
  destruct (reimbursements db !! rid) as [r|] eqn:Hr; cbn; [|done].
  destruct (r_status r == Reimb_Pending) eqn:Hs; cbn; [|done].
  destruct (r_is_corp_funded r) eqn:Hc; cbn.
  - rewrite Z.ltb_antisym. by destruct (_ <=? 0)%Z.
  - destruct (r_requester_user_id r) as [u|]; cbn; [|done].
    rewrite Z.ltb_antisym. by destruct (_ <=? 0)%Z.
Qed.

(** An item the hauler still has to hand over: on the list, asked for by the
    requester unless the corporation pays for all of it, neither delivered nor
    settled, and bought by the hauler in a purchase that stands. *)
Record still_owed db (r : ReimbursementRow) (item : Uuid) : Prop := mkStillOwed {
  so_item : ∃ li, list_items db !! item = Some li ∧ li_list_id li = r_list_id r ∧
    (r_is_corp_funded r = false → li_requested_by_user_id li = r_requester_user_id r) ∧
    (li_status li = Item_Open ∨ li_status li = Item_Claimed ∨ li_status li = Item_Bought);
  so_bought : ∃ fid f, fulfillments db !! fid = Some f ∧ f_list_item_id f = item ∧
    f_hauler_user_id f = r_hauler_user_id r ∧ f_reversed_at f = None
}.

Lemma still_owed_iff db r scope item :
  manual_scope r = Some scope →
  (∃ li, list_items db !! item = Some li ∧
     owes_delivery db (r_list_id r) scope (r_hauler_user_id r) item li = true) ↔ still_owed db r item.
Proof.
  intros Hs. unfold owes_delivery.
  assert (∀ li, match scope with Some u => li_requested_by_user_id li == Some u | None => true end = true ↔
    (r_is_corp_funded r = false → li_requested_by_user_id li = r_requester_user_id r)) as Hscope.
  { intros li. unfold manual_scope in Hs. destruct (r_is_corp_funded r); [by simplify_eq|].
    destruct (r_requester_user_id r); simplify_eq/=. rewrite bool_decide_eq_true. naive_solver. }
  assert (∀ st, negb ((st == Item_Delivered) || (st == Item_Settled)) = true ↔
    st = Item_Open ∨ st = Item_Claimed ∨ st = Item_Bought) as Hst.
  { intros []; cbn; naive_solver. }
  split.
  - intros (li & Hl & [[[Hlid Hsc]%andb_prop Hnot]%andb_prop Hlive]%andb_prop). split.
    + exists li. split; [done|]. split; [by apply bool_decide_eq_true in Hlid|].
      split; [by apply Hscope|by apply Hst].
    + by apply live_by_true.
  - intros [(li & Hl & Hlid & Hsc & Hnot) Hlive]. exists li. split; [done|].
    apply Hscope in Hsc as ->. apply Hst in Hnot as ->. apply live_by_true in Hlive as ->.
    by rewrite bool_decide_eq_true_2.
Qed.

(** C16 The manual settle is refused exactly as documented: an unknown
    reimbursement, or a pending personal one without a requester, is NotFound;
    one that is not pending is NotPending with its status; one whose hauler
    still owes items (on the list, the requester's unless corp-funded, neither
    delivered nor settled, bought by the hauler and not reversed) is
    NotDelivered with the number of those items; any other is settled. *)
Theorem settle_manual_decision rid by_user db :
  match reimbursements db !! rid with
  | None => settle_manual rid by_user db = Err Settlement_NotFound
  | Some r =>
      match r_status r with
      | Reimb_Pending =>
          if negb (r_is_corp_funded r) && is_none (r_requester_user_id r)
          then settle_manual rid by_user db = Err Settlement_NotFound
          else ∃ owed : gset Uuid, (∀ item, item ∈ owed ↔ still_owed db r item) ∧
            match size owed with
            | O => ∃ db', settle_manual rid by_user db = Ok (tt, db')
            | n => settle_manual rid by_user db = Err (NotDelivered (Z.of_nat n))
            end
      | st => settle_manual rid by_user db = Err (NotPending st)
      end
  end.
Proof.
  pose proof (settle_manual_branches rid by_user db) as Hb.
  destruct (reimbursements db !! rid) as [r|] eqn:Hr; [|done].
  destruct (r_status r) eqn:Hs; [|exact Hb..]. cbn in Hb.
  destruct (manual_scope r) as [scope|] eqn:Hsc.
  2:{ unfold manual_scope in Hsc. destruct (r_is_corp_funded r), (r_requester_user_id r); done. }
  assert (negb (r_is_corp_funded r) && is_none (r_requester_user_id r) = false) as ->.
  { unfold manual_scope in Hsc. by destruct (r_is_corp_funded r), (r_requester_user_id r). }
  rewrite (bool_decide_eq_true_2 (Reimb_Pending = Reimb_Pending)), count_where_size in Hb by done. cbn in Hb.
  exists (dom (rows_where (owes_delivery db (r_list_id r) scope (r_hauler_user_id r)) (list_items db))). split.
  { intros item. rewrite <- (still_owed_iff db r scope item Hsc), elem_of_dom. unfold is_Some.
    by setoid_rewrite lookup_rows_where. }
  destruct (size _) as [|n]; cbn in Hb; [|done].
  apply is_ok_run in Hb as [[[] db'] ?]. by exists db'.
Qed.

Definition manual_flip (db : Db) (r : ReimbursementRow) (scope : option Uuid)
    : Uuid → ListItemRow → bool :=
  match scope with
  | None => flip_corp db (r_list_id r) (r_hauler_user_id r) false
  | Some u => flip_personal db (r_list_id r) u (r_hauler_user_id r) false
  end.

Definition settle_one (rid by_user : Uuid) (now : Timestamp)
    : gmap Uuid ReimbursementRow → gmap Uuid ReimbursementRow :=
  update_where (λ k _, k == rid)
    (λ r, r <| r_status := Reimb_Settled |> <| r_settled_at := Some now |>
            <| r_settled_by_user_id := Some by_user |> <| r_updated_at := now |>).

Lemma flip_status_strict s : flip_status false s = (s == Item_Delivered).
Proof. apply orb_false_r. Qed.

Lemma settle_manual_run rid by_user db u db' :
  settle_manual rid by_user db = Ok (u, db') →
  ∃ r scope ls, reimbursements db !! rid = Some r ∧ r_status r = Reimb_Pending ∧
    manual_scope r = Some scope ∧
    sel_exists (owes_delivery db (r_list_id r) scope (r_hauler_user_id r)) (list_items db) = false ∧
    lists_kept (lists db) ls ∧
    let db1 := db <| reimbursements ::= settle_one rid by_user (db_now db) |> in
    db' = set_settled (manual_flip db1 r scope) db1 <| lists := ls |>.
Proof.
  unfold settle_manual. intros Hrun. inv_sql.
  match goal with H : reimbursements ?d !! rid = Some ?row |- _ =>
    rename row into r, H into Hr; set (d0 := d) in * end.
  match goal with H : (if r_is_corp_funded _ then _ else _) _ = Ok (?sc, ?d) |- _ =>
    rename sc into scope, H into Hsc; assert (d = d0 ∧ manual_scope r = Some scope) as [-> Hs] end.
  { unfold manual_scope. destruct (r_is_corp_funded r); inv_sql; [done|].
    match goal with H : r_requester_user_id _ = Some _ |- _ => by rewrite H end. }
  match goal with H : auto_close_list_if_complete _ _ = _ |- _ =>
    pose proof (auto_close_kept _ _ _ _ H) as Hkept; apply auto_close_Ok in H as (Hclose & _ & _) end.
  bool_simpl. match type of Hclose with ?d = _ => exists r, scope, (lists d) end.
  split_and!; try done.
  - apply count_where_zero. by apply Z.leb_le.
  - intros k. rewrite Hkept. destruct scope;
      unfold flip_items_to_settled, flip_items_to_settled_corp in *; inv_sql; reflexivity.
  - cbn. rewrite Hclose. destruct scope;
      unfold flip_items_to_settled, flip_items_to_settled_corp in *; inv_sql; reflexivity.
Qed.

(** C17 A successful manual settle marks that one reimbursement settled by the
    caller and no other, flips only delivered items, and leaves no item of its
    scope that the hauler bought short of settled unless another hauler's
    pending reimbursement still covers it. *)
Theorem settle_manual_effect rid by_user db db' :
  settle_manual rid by_user db = Ok (tt, db') →
  ∃ r scope, reimbursements db !! rid = Some r ∧ manual_scope r = Some scope ∧
    reimbursements db' = settle_one rid by_user (db_now db) (reimbursements db) ∧
    (∀ item li, list_items db !! item = Some li →
       ∃ li', list_items db' !! item = Some li' ∧
         (li' = li ∨ li_status li = Item_Delivered ∧ li' = li <| li_status := Item_Settled |>)) ∧
    ∀ item li', list_items db' !! item = Some li' → li_list_id li' = r_list_id r →
      match scope with Some u => li_requested_by_user_id li' = Some u | None => True end →
      live_by db item (r_hauler_user_id r) = true →
      li_status li' = Item_Settled ∨
      ∃ k2 r2, reimbursements db' !! k2 = Some r2 ∧ r_list_id r2 = r_list_id r ∧
        r_hauler_user_id r2 ≠ r_hauler_user_id r ∧ r_status r2 = Reimb_Pending ∧
        live_by db item (r_hauler_user_id r2) = true.
Proof.
  intros Hrun. apply settle_manual_run in Hrun as (r & scope & ls & Hr & Hp & Hs & Howe & _ & ->).
  set (db1 := db <| reimbursements ::= _ |>) in *.
  exists r, scope. split; [done|]. split; [done|]. split; [reflexivity|].
  unfold set_settled. set_simpl. change (list_items db1) with (list_items db).
  assert (∀ item li, manual_flip db1 r scope item li = true → li_status li = Item_Delivered)
    as Hdel.
  { intros item li Hf. unfold manual_flip, flip_personal, flip_corp in Hf.
    destruct scope; rewrite flip_status_strict in Hf; by bool_simpl. }
  split.
  - intros item li Hli. rewrite lookup_update_where, Hli. cbn. eexists. split; [done|].
    destruct (manual_flip db1 r scope item li) eqn:Hf; [right|by left]. eauto.
  - intros item li' Hli' Hl Hreq Hlive.
    apply lookup_update_where_Some in Hli' as (li & Hli & ->).
    destruct (manual_flip db1 r scope item li) eqn:Hf; [by left|].
    rewrite sel_exists_false in Howe. specialize (Howe _ _ Hli). unfold owes_delivery in Howe.
    rewrite Hl, Hlive, bool_decide_eq_true_2 in Howe by done.
    destruct (decide (li_status li = Item_Settled)) as [|Hns]; [by left|right].
    assert (li_status li = Item_Delivered) as Hd.
    { rewrite (bool_decide_eq_false_2 (li_status li = Item_Settled)), orb_false_r in Howe by done.
      rewrite andb_true_r in Howe. destruct scope as [u|];
        rewrite ?Hreq, ?(bool_decide_eq_true_2 (Some u = Some u)) in Howe by done;
        cbn in Howe; by bool_simpl. }
    assert (sel_exists (λ _ r2, (r_list_id r2 == r_list_id r) &&
        (r_hauler_user_id r2 != r_hauler_user_id r) && (r_status r2 == Reimb_Pending) &&
        live_by db1 item (r_hauler_user_id r2)) (reimbursements db1) = true) as Hex.
    { unfold manual_flip, flip_personal, flip_corp in Hf.
      destruct scope as [u|]; cbv beta iota in Hf;
        change (live_by db1 item (r_hauler_user_id r))
          with (live_by db item (r_hauler_user_id r)) in Hf;
        rewrite flip_status_strict, Hl, Hd, Hlive, ?Hreq, !bool_decide_eq_true_2 in Hf by done;
        cbn in Hf; apply negb_false_iff in Hf; [|done].
      apply sel_exists_true in Hf as (k2 & r2 & Hr2 & Hc). apply sel_exists_true.
      exists k2, r2. split; [done|]. bool_simpl.
      bool_solve. }
    apply sel_exists_true in Hex as (k2 & r2 & Hr2 & Hc). bool_simpl.
    exists k2, r2. split_and!; done.
Qed.

(** Auto-close fires exactly when the list exists, is open and every item
    on it is settled (a list with no items included); it always succeeds, and
    changes only that list's status and modification time. *)
Theorem auto_close_iff list_id db :
  ∃ b db', auto_close_list_if_complete list_id db = Ok (b, db') ∧
  (b = true ↔ ∃ l, lists db !! list_id = Some l ∧ l_status l = List_Open ∧
     ∀ id li, list_items db !! id = Some li → li_list_id li = list_id →
       li_status li = Item_Settled) ∧
  db' = db <| lists := lists db' |> ∧
  ∀ k, lists db' !! k =
    if b && bool_decide (k = list_id)
    then (λ l, l <| l_status := List_Closed |> <| l_updated_at := db_now db |>) <$> lists db !! k
    else lists db !! k.
Proof.
  destruct (auto_close_list_if_complete list_id db) as [[b db']|e] eqn:Hrun; [|done].
  exists b, db'. apply auto_close_Ok in Hrun as (Hdb & Hb & Hk).
  split; [done|]. split; [|done]. rewrite Hb. by setoid_rewrite all_settled_true.
Qed.

(** After a recompute the contract expects the sum of subtotal and tip over
    the reimbursements bound to it, whatever their status, and NULL exactly
    when none is bound; no other column or row changes. *)
Theorem recompute_expected_total_spec cid db db' c :
  recompute_contract_expected_total cid db = Ok (tt, db') → contracts db !! cid = Some c →
  contracts db' !! cid = Some (c <| ct_expected_total_isk := expected_total db cid |>) ∧
  (∀ k, k ≠ cid → contracts db' !! k = contracts db !! k) ∧
  db' = db <| contracts := contracts db' |> ∧
  (expected_total db cid = None ↔
     ∀ k r, reimbursements db !! k = Some r → r_contract_id r ≠ Some cid) ∧
  (∀ t, expected_total db cid = Some t →
     t = sum_where (λ _ r, r_contract_id r == Some cid)
           (λ _ r, r_subtotal_isk r + r_tip_isk r)%Z (reimbursements db)).
Proof.
  unfold recompute_contract_expected_total. intros Hrun Hc. inv_sql. set_simpl.
  split; [|split; [|split; [|split]]].
  - rewrite lookup_update_where, Hc. cbn. by rewrite bool_decide_eq_true_2.
  - intros k Hk. rewrite lookup_update_where, bool_decide_eq_false_2 by done.
    by destruct (contracts _ !! k).
  - by match goal with |- ?d <| _ ::= _ |> = _ => destruct d end.
  - apply expected_total_None.
  - unfold expected_total. case_match; naive_solver.
Qed.

(** Unbinding a failed contract returns its pending reimbursements to the
    unbound pending state and reports how many, keeps every reimbursement that
    is no longer pending bound, supersedes the contract's open suggestions and
    clears its expected total. *)
Theorem unbind_contract_spec cid db n db' :
  unbind_contract cid db = Ok (n, db') →
  n = count_where (λ _ r, bound_to cid r && (r_status r == Reimb_Pending)) (reimbursements db) ∧
  (∀ k r, reimbursements db !! k = Some r →
     reimbursements db' !! k = Some (
       if bound_to cid r && (r_status r == Reimb_Pending)
       then r <| r_contract_id := None |> <| r_updated_at := db_now db |> else r)) ∧
  (∀ k s, contract_match_suggestions db !! k = Some s →
     contract_match_suggestions db' !! k = Some (
       if (s_contract_id s == cid) && (s_state s == Match_Pending)
       then s <| s_state := Match_Superseded |> <| s_decided_at := Some (db_now db) |> else s)) ∧
  (∀ c, contracts db !! cid = Some c → contracts db' !! cid =
     Some (c <| ct_expected_total_isk := None |> <| ct_updated_at := db_now db |>)).
Proof.
  unfold unbind_contract. intros Hrun. inv_sql. set_simpl. split_and!; try done.
  - intros k r Hr. by rewrite lookup_update_where, Hr.
  - intros k s Hs. by rewrite lookup_update_where, Hs.
  - intros c Hc. rewrite lookup_update_where, Hc. cbn. by rewrite bool_decide_eq_true_2.
Qed.

(** [contracts.esi_contract_id] is UNIQUE. *)
Definition esi_contract_id_unique (db : Db) : Prop :=
  ∀ k1 k2 c1 c2, contracts db !! k1 = Some c1 → contracts db !! k2 = Some c2 →
    ct_esi_contract_id c1 = ct_esi_contract_id c2 → k1 = k2.

Lemma find_contract_Some db esi k c :
  find_contract db esi = Some (k, c) → contracts db !! k = Some c ∧ ct_esi_contract_id c = esi.
Proof.
  unfold find_contract. destruct (select_where _ _) as [|[k' c'] rest] eqn:Hs; [done|].
  cbn. intros [= -> ->].
  assert ((k, c) ∈ select_where (λ _ c, ct_esi_contract_id c == esi) (contracts db)) as Hin
    by (rewrite Hs; left).
  apply elem_of_select_where in Hin as [? ?]. by bool_simpl.
Qed.

Lemma find_contract_None db esi :
  find_contract db esi = None ↔
  ∀ k c, contracts db !! k = Some c → ct_esi_contract_id c ≠ esi.
Proof.
  unfold find_contract. rewrite head_None, select_where_nil, sel_exists_false.
  split; intros Hall k c Hc; specialize (Hall k c Hc); bool_solve; by bool_simpl.
Qed.

Lemma find_contract_unique db esi k c :
  esi_contract_id_unique db → contracts db !! k = Some c → ct_esi_contract_id c = esi →
  find_contract db esi = Some (k, c).
Proof.
  intros Hu Hc He. destruct (find_contract db esi) as [[k' c']|] eqn:Hf.
  - apply find_contract_Some in Hf as [Hc' He'].
    assert (k' = k) as -> by (eapply Hu; eauto; congruence). congruence.
  - by destruct (proj1 (find_contract_None _ _) Hf _ _ Hc).
Qed.

Lemma contract_foreign_keys_Ok u db r db' :
  contract_foreign_keys u db = Ok (r, db') → db' = db.
Proof. unfold contract_foreign_keys. intros Hrun. inv_sql. done. Qed.

(** The columns that are the payload's, each under its own name; prices are
    rounded to the columns' two decimals. *)
Record carries (u : ContractUpsert) (c : ContractRow) : Prop := mkCarries {
  ca_esi : ct_esi_contract_id c = cu_esi_contract_id u;
  ca_issuer : ct_issuer_character_id c = cu_issuer_character_id u;
  ca_issuer_user : ct_issuer_user_id c = cu_issuer_user_id u;
  ca_assignee : ct_assignee_character_id c = cu_assignee_character_id u;
  ca_assignee_user : ct_assignee_user_id c = cu_assignee_user_id u;
  ca_type : ct_contract_type c = cu_contract_type u;
  ca_status : ct_status c = cu_status u;
  ca_price : numeric_cast 20 2 (cu_price_isk u) = Some (ct_price_isk c);
  ca_reward : numeric_cast 20 2 (cu_reward_isk u) = Some (ct_reward_isk c);
  ca_collateral : numeric_cast 20 2 (cu_collateral_isk u) = Some (ct_collateral_isk c);
  ca_issued : ct_date_issued c = cu_date_issued u;
  ca_expired : ct_date_expired c = cu_date_expired u;
  ca_accepted : ct_date_accepted c = cu_date_accepted u;
  ca_completed : ct_date_completed c = cu_date_completed u;
  ca_start : ct_start_location_id c = cu_start_location_id u;
  ca_end : ct_end_location_id c = cu_end_location_id u;
  ca_raw : ct_raw_json c = cu_raw_json u
}.

(** C18 Upserting a contract stores the payload under the row of its ESI id: every
    column of the payload as it is given (prices, reward and collateral rounded
    to two decimals), at the time of the transaction.  The outcome reports the
    row's previous status and whether its items are still to fetch.  A known
    row keeps a principal or source corp the payload does not resolve, its
    settlement columns, item-sync mark, wallet audit and first sighting; a new
    one has what the payload resolves, and those columns empty.  No other
    contract changes. *)
Theorem upsert_contract_spec u db o db' :
  esi_contract_id_unique db →
  upsert_contract u db = Ok (o, db') →
  esi_contract_id_unique db' ∧
  ∃ c', contracts db' !! co_contract_id o = Some c' ∧
    carries u c' ∧ ct_updated_at c' = db_now db ∧ co_current_status o = cu_status u ∧
    co_needs_items o = is_none (ct_items_synced_at c') ∧
    (∀ k, k ≠ co_contract_id o → contracts db' !! k = contracts db !! k) ∧
    match contracts db !! co_contract_id o with
    | Some c => co_prior_status o = Some (ct_status c) ∧
        ct_esi_contract_id c = cu_esi_contract_id u ∧
        ct_issuer_principal_id c' = coalesce (cu_issuer_principal_id u) (ct_issuer_principal_id c) ∧
        ct_assignee_principal_id c' =
          coalesce (cu_assignee_principal_id u) (ct_assignee_principal_id c) ∧
        ct_source_corp_id c' = coalesce (cu_source_corp_id u) (ct_source_corp_id c) ∧
        ct_expected_total_isk c' = ct_expected_total_isk c ∧
        ct_settlement_delta_isk c' = ct_settlement_delta_isk c ∧
        ct_items_synced_at c' = ct_items_synced_at c ∧
        ct_wallet_verified_at c' = ct_wallet_verified_at c ∧
        ct_wallet_payout_aggregate_isk c' = ct_wallet_payout_aggregate_isk c ∧
        ct_first_seen_at c' = ct_first_seen_at c
    | None => co_prior_status o = None ∧
        ct_issuer_principal_id c' = cu_issuer_principal_id u ∧
        ct_assignee_principal_id c' = cu_assignee_principal_id u ∧
        ct_source_corp_id c' = cu_source_corp_id u ∧
        ct_expected_total_isk c' = None ∧ ct_settlement_delta_isk c' = None ∧
        ct_items_synced_at c' = None ∧ ct_wallet_verified_at c' = None ∧
        ct_wallet_payout_aggregate_isk c' = None ∧ ct_first_seen_at c' = db_now db
    end.
Proof.
  intros Hu Hrun. unfold upsert_contract, cast_20_2 in Hrun. inv_sql.
  destruct (find_contract _ _) as [[k c]|] eqn:Hf; inv_sql;
    match goal with H : contract_foreign_keys _ _ = _ |- _ =>
      apply contract_foreign_keys_Ok in H end; subst; cbn [co_contract_id].
  - apply find_contract_Some in Hf as [Hc He]. set_simpl. split.
    + intros k1 k2 c1 c2 Hx1 Hx2 Heq. set_simpl.
      apply lookup_update_where_Some in Hx1 as (d1 & Hx1 & ->).
      apply lookup_update_where_Some in Hx2 as (d2 & Hx2 & ->).
      eapply Hu; [exact Hx1|exact Hx2|]. by do 2 case_match.
    + rewrite lookup_update_where, Hc. cbn. rewrite bool_decide_eq_true_2 by done.
      eexists. split; [done|]. split_and!; try done.
      intros j Hj. rewrite lookup_update_where, bool_decide_eq_false_2 by done.
      by destruct (contracts _ !! j).
  - rewrite find_contract_None in Hf. rewrite negb_true_iff, row_exists_false in *.
    set_simpl. split.
    + intros k1 k2 c1 c2 Hx1 Hx2 Heq. set_simpl.
      apply lookup_insert_Some in Hx1 as [[<- <-]|[_ Hl1]];
        apply lookup_insert_Some in Hx2 as [[<- <-]|[_ Hl2]]; try done.
      * by destruct (Hf _ _ Hl2).
      * by destruct (Hf _ _ Hl1).
      * by eapply Hu.
    + rewrite lookup_insert_eq. eexists. split; [done|]. split_and!; try done.
      * intros j Hj. by rewrite lookup_insert_ne.
      * match goal with H : contracts _ !! _ = None |- _ => by rewrite H end.
Qed.

End Settlement.

(** ** Witnesses *)

Section Witnesses.
#[local] Existing Instance fixture_runtime.

Lemma settle_via_contract_settles_witness :
  ∃ infos db', settle_via_contract 80 bound_db = Ok (infos, db') ∧
    r_status <$> reimbursements db' !! 60%N = Some Reimb_Settled.
Proof.
  run_concrete (settle_via_contract 80 bound_db) infos db' Hrun.
  exists infos, db'. split; [done|].
  destruct (settle_via_contract_settles _ _ _ _ Hrun) as (c & Hc & Hr & _).
  rewrite (Hr 60%N _ eq_refl). reflexivity.
Defined.

Lemma settle_via_contract_idempotent_witness :
  ∃ infos db', settle_via_contract 80 bound_db = Ok (infos, db') ∧
    settle_via_contract 80 db' = Ok ([], db').
Proof.
  run_concrete (settle_via_contract 80 bound_db) infos db' Hrun.
  exists infos, db'. split; [done|]. exact (settle_via_contract_idempotent _ _ _ _ Hrun).
Defined.

Lemma settle_via_contract_items_safe_witness :
  ∃ infos db' li li', settle_via_contract 80 bound_db = Ok (infos, db') ∧
    list_items bound_db !! 30%N = Some li ∧ list_items db' !! 30%N = Some li' ∧ li' ≠ li ∧
    (li_status li = Item_Bought ∨ li_status li = Item_Delivered).
Proof.
  run_concrete (settle_via_contract 80 bound_db) infos db' Hrun.
  assert (list_items db' !! 30%N =
          Some (fixture_item 10 1 Item_Settled <| li_qty_fulfilled := 10%Z |>)) as Hli'.
  { apply (run_reads (λ _ db, list_items db !! 30%N) _ _ _ _ Hrun). vm_compute. reflexivity. }
  exists infos, db', (fixture_item 10 1 Item_Delivered <| li_qty_fulfilled := 10%Z |>), 
    (fixture_item 10 1 Item_Settled <| li_qty_fulfilled := 10%Z |>).
  split; [done|]. split; [reflexivity|]. split; [done|]. split; [done|].
  destruct (settle_via_contract_items_safe 80 bound_db infos db' 30
    (fixture_item 10 1 Item_Delivered <| li_qty_fulfilled := 10%Z |>) _ Hrun eq_refl Hli')
    as (_ & Hs & _); [done|exact Hs].
Defined.

Lemma settle_manual_effect_witness :
  ∃ db', settle_manual 60 1 bound_db = Ok (tt, db') ∧
    reimbursements db' = settle_one 60 1 100 (reimbursements bound_db).
Proof.
  run_concrete (settle_manual 60 1 bound_db) u db' Hrun. destruct u.
  exists db'. split; [done|].
  destruct (settle_manual_effect _ _ _ _ Hrun) as (r & scope & _ & _ & Hr & _). exact Hr.
Defined.

Lemma recompute_expected_total_spec_witness :
  ∃ db', recompute_contract_expected_total 80 bound_db = Ok (tt, db') ∧
    ct_expected_total_isk <$> contracts db' !! 80%N = Some (Some 110000%Z).
Proof.
  run_concrete (recompute_contract_expected_total 80 bound_db) u db' Hrun. destruct u.
  exists db'. split; [done|].
  destruct (recompute_expected_total_spec 80 bound_db db' (fixture_contract Finished) Hrun eq_refl)
    as (Hc & _). rewrite Hc. reflexivity.
Defined.

Lemma unbind_contract_spec_witness :
  ∃ db', unbind_contract 80 bound_db = Ok (1%Z, db') ∧
    r_contract_id <$> reimbursements db' !! 60%N = Some None.
Proof.
  run_concrete (unbind_contract 80 bound_db) n db' Hrun.
  pose proof (unbind_contract_spec _ _ _ _ Hrun) as (Hn & Hr & _).
  exists db'. rewrite (Hr 60%N _ eq_refl). split; [|reflexivity].
  assert (n = 1%Z) as -> by (rewrite Hn; reflexivity). done.
Defined.

(** A payload for the bound contract whose assignee no longer resolves. *)
Definition fixture_upsert : ContractUpsert :=
  mkContractUpsert 9000%Z 501%Z (Some 2%N) (Some 502%Z) None (Some 102%N) None ItemExchange Finished
    (mkDecimal 120000 2) (mkDecimal 0 0) (mkDecimal 0 0) 50 None None (Some 90%Z) None None
    (ListDelivered "" "") None.

Lemma upsert_contract_spec_witness :
  ∃ o db' c', upsert_contract fixture_upsert bound_db = Ok (o, db') ∧
    contracts db' !! co_contract_id o = Some c' ∧ ct_status c' = Finished.
Proof.
  run_concrete (upsert_contract fixture_upsert bound_db) o db' Hrun.
  destruct (upsert_contract_spec fixture_upsert bound_db o db') as (_ & c' & Hc' & Hs%ca_status & _);
    [|done|].
  - intros k1 k2 c1 c2 H1 H2 _.
    change (contracts bound_db) with ({[ 80%N := fixture_contract Finished ]} : gmap Uuid _) in *.
    apply lookup_singleton_Some in H1 as [<- _].
    by apply lookup_singleton_Some in H2 as [<- _].
  - exists o, db', c'. done.
Defined.

End Witnesses.
