(* ===== verification/Wallet.v ===== *)
(** * Wallet verification

    [crates/settlement/src/lib.rs: verify_contract_against_journal]: the audit
    of a contract's payout against the corporation's wallet journal. *)

From Stdlib Require Import ZArith Lia.
From stdpp Require Import base tactics decidable option list gmap strings pretty.
From S2P Require Import Prelude Effect Money Domain Host Schema Fixtures Errors Settlement.

Local Open Scope string_scope.
Local Open Scope list_scope.

(** The one expression of [rust_decimal] arithmetic the audit evaluates, on
    amounts in cents: [(payout * total / sum).round_dp(2)]; [None] is the panic
    of an operator whose result does not fit. *)
Class ShareArith := payout_share : Z → Z → Z → option Z.

(** The library's results are exact to 28 digits and then rounded to a cent. *)
Class ShareLaws `{SA : ShareArith} : Prop := {
  payout_share_close payout total sum share :
    (0 < sum)%Z → payout_share payout total sum = Some share →
    (Z.abs (share * sum - payout * total) ≤ sum)%Z
}.

Inductive VerifyError :=
| Ve_Settlement (e : SettlementError)
| Ve_Panic.
#[export] Instance FromSql_VerifyError : FromSql VerifyError := λ e, Ve_Settlement (Settlement_Db e).

Section Wallet.
Context `{RT : Runtime} {SA : ShareArith}.

Definition W_ (A : Type) : Type := M Db VerifyError A.

(** [reimbursements JOIN lists WHERE r.contract_id = $1 AND l.payer_corp_id IS
    NOT NULL LIMIT 1]. *)
Definition payer_of (db : Db) (contract_id : Uuid) : option (Uuid * option Z) :=
  head (omap (λ '(_, r), l ← lists db !! r_list_id r;
                         c ← l_payer_corp_id l; Some (c, l_payer_division l))
          (select_where (λ _, bound_to contract_id) (reimbursements db))).

(** The rows both queries sum, before they are scoped to a wallet. *)
Definition pays_contract (esi_contract_id : Z) (j : JournalRow) : bool :=
  (wj_context_id j == Some esi_contract_id) && (wj_context_id_type j == Some "contract_id") &&
  (wj_ref_type j == "contract_price").

Definition in_wallet (payer : option (Uuid * Z)) (source_corp_id : option Uuid) (j : JournalRow) : bool :=
  match payer with
  | Some (corp_id, division) => (wj_corp_id j == corp_id) && (wj_division j == division)
  | None => match source_corp_id with Some c => wj_corp_id j == c | None => true end
  end.

(** [SELECT SUM(ABS(amount))], NULL over no rows. *)
Definition payout_sum (db : Db) (esi_contract_id : Z) (payer : option (Uuid * Z))
    (source_corp_id : option Uuid) : option Z :=
  let counted _ j := pays_contract esi_contract_id j && in_wallet payer source_corp_id j in
  if sel_exists counted (corp_wallet_journal db)
  then Some (sum_where counted (λ _ j, Z.abs (wj_amount j)) (corp_wallet_journal db))
  else None.

Definition audited (contract_id : Uuid) (r : ReimbursementRow) : bool :=
  bound_to contract_id r && ((r_status r == Reimb_Pending) || (r_status r == Reimb_Settled)).

Definition total_reimb_sum (reimbs : list (Uuid * ReimbursementRow)) : Z :=
  foldr (λ kr acc, r_total_isk kr.2 + acc)%Z 0%Z reimbs.

(** One turn of the loop: the share of a reimbursement and its delta. *)
Definition delta_of (payout sum : Z) (kr : Uuid * ReimbursementRow) : W_ (Uuid * Z) :=
  share ← (if (0 <? sum)%Z then expect Ve_Panic (payout_share payout (r_total_isk kr.2) sum)
           else mret 0%Z);
  mret (kr.1, share - r_total_isk kr.2)%Z.

Fixpoint deltas_of (payout sum : Z) (reimbs : list (Uuid * ReimbursementRow)) : W_ (list (Uuid * Z)) :=
  match reimbs with
  | [] => mret []
  | kr :: rest =>
      d ← delta_of payout sum kr;
      ds ← deltas_of payout sum rest;
      mret (d :: ds)
  end.

(** [UPDATE reimbursements ... FROM UNNEST($1, $2) AS v(id, delta)]. *)
Definition stamp (now : Timestamp) (ds : gmap Uuid Z) (id : Uuid) (r : ReimbursementRow)
    : ReimbursementRow :=
  match ds !! id with
  | Some d => r <| r_verified_by_wallet := true |> <| r_wallet_settlement_delta_isk := Some d |>
                <| r_updated_at := now |>
  | None => r
  end.

(** The contract row the audit writes. *)
Definition verified_contract (now : Timestamp) (payout : Z) (c : ContractRow) : ContractRow := c
  <| ct_wallet_verified_at := Some now |> <| ct_wallet_payout_aggregate_isk := Some payout |>
  <| ct_updated_at := now |>.

Definition verify_contract_against_journal (contract_id : Uuid) : W_ unit :=
  row ← query (λ db, contracts db !! contract_id);
  match row with
  | None => mret tt
  | Some c =>
      payer ← query (λ db, payer_of db contract_id);
      payer ← match payer with
              | Some (corp_id, division) =>
                  d ← sql (not_null "payer_division" division); mret (Some (corp_id, d))
              | None => mret None
              end;
      payout ← query (λ db, payout_sum db (ct_esi_contract_id c) payer (ct_source_corp_id c));
      match payout with
      | None => mret tt
      | Some payout =>
          if negb (0 <? payout)%Z then mret tt else
          _ ← sql (ensure (fits 20 payout) NumericOverflow);
          _ ← execute (λ db, db <| contracts ::= update_where (λ k _, k == contract_id)
                (verified_contract (db_now db) payout) |>);
          reimbs ← query (λ db, select_where (λ _, audited contract_id) (reimbursements db));
          if bool_decide (reimbs = []) then mret tt else
          ds ← deltas_of payout (total_reimb_sum reimbs) reimbs;
          _ ← sql (ensure (forallb (λ d, fits 20 d.2) ds) NumericOverflow);
          execute (λ db, db <| reimbursements ::= update_each (stamp (db_now db) (list_to_map ds)) |>)
      end
  end.

(** The worker's use of it, in a transaction of its own; a failure is logged. *)
Fixpoint verify_all (contract_ids : list Uuid) (db : Db) : Db :=
  match contract_ids with
  | [] => db
  | cid :: rest =>
      verify_all rest (match verify_contract_against_journal cid db with
                       | Ok (_, db') => db' | Err _ => db end)
  end.

(** ** What the audit touches *)

(** A debt but for its audit columns. *)
Definition unaudited (r : ReimbursementRow) : ReimbursementRow :=
  r <| r_verified_by_wallet := false |> <| r_wallet_settlement_delta_isk := None |> <| r_updated_at := 0%Z |>.
Definition same_debt (r r' : ReimbursementRow) : Prop := unaudited r = unaudited r'.

#[export] Instance same_debt_equiv : Equivalence same_debt.
Proof.
  split; [intros r; exact eq_refl|intros r1 r2 H; exact (eq_sym H)|].
  intros r1 r2 r3 H12 H23. exact (eq_trans H12 H23).
Qed.

Lemma same_debt_status r r' : same_debt r r' → r_status r' = r_status r.
Proof. intros He. exact (eq_sym (f_equal r_status He)). Qed.

Lemma stamp_same now ds id r : same_debt r (stamp now ds id r).
Proof. unfold stamp. destruct (ds !! id); by destruct r. Qed.

Lemma deltas_of_run payout sum reimbs db ds db' :
  deltas_of payout sum reimbs db = Ok (ds, db') →
  db' = db ∧ ds.*1 = reimbs.*1 ∧
  Forall2 (λ kr d, ∃ share, d = (kr.1, share - r_total_isk kr.2)%Z ∧
    if (0 <? sum)%Z then payout_share payout (r_total_isk kr.2) sum = Some share else share = 0%Z)
    reimbs ds.
Proof.
  revert ds db. induction reimbs as [|kr rest IH]; intros ds db Hrun.
  - cbn in Hrun. inv_M. by split_and!; constructor.
  - cbn [deltas_of] in Hrun. unfold delta_of in Hrun. destruct (0 <? sum)%Z eqn:Hs; inv_M;
      match goal with H : deltas_of _ _ _ _ = _ |- _ => apply IH in H as (-> & Hk & Hf) end;
      (split; [done|]; split; [cbn; by f_equal|]; constructor; [eauto|exact Hf]).
Qed.

Lemma update_each_id {K V} `{Countable K} (g : K → V → V) (t : gmap K V) :
  (∀ k v, g k v = v) → update_each g t = t.
Proof. intros Hg. apply map_eq. intros k. rewrite lookup_update_each. destruct (t !! k); cbn; by rewrite ?Hg. Qed.

(** The wallet the payer pays from, when a bound reimbursement is on a list with
    a paying corporation. *)
Definition pays_from (cid : Uuid) (db : Db) (wallet : option (Uuid * Z)) : Prop :=
  match wallet with
  | Some (corp, division) => ∃ rid r l,
      reimbursements db !! rid = Some r ∧ r_contract_id r = Some cid ∧
      lists db !! r_list_id r = Some l ∧ l_payer_corp_id l = Some corp ∧ l_payer_division l = Some division
  | None => ∀ rid r l,
      reimbursements db !! rid = Some r → r_contract_id r = Some cid →
      lists db !! r_list_id r = Some l → l_payer_corp_id l = None
  end.

Lemma payer_of_Some cid db corp division :
  payer_of db cid = Some (corp, Some division) → pays_from cid db (Some (corp, division)).
Proof.
  unfold payer_of. intros Hh%head_Some_elem_of.
  apply list_elem_of_omap in Hh as ([rid r] & [Hr Hb]%elem_of_select_where & Hl).
  apply bind_Some in Hl as (l & Hl & Hc). apply bind_Some in Hc as (c & Hc & [= -> Hd]).
  exists rid, r, l. by apply bool_decide_eq_true in Hb.
Qed.

Lemma payer_of_None cid db : payer_of db cid = None → pays_from cid db None.
Proof.
  unfold payer_of. intros Hh%head_None rid r l Hr Hb Hl.
  destruct (l_payer_corp_id l) as [c|] eqn:Hc; [|done]. exfalso.
  assert ((c, l_payer_division l) ∈ []) as []%not_elem_of_nil. rewrite <- Hh.
  apply list_elem_of_omap. exists (rid, r). split; [|by rewrite Hl; cbn; rewrite Hc].
  apply elem_of_select_where. split; [done|]. by apply bool_decide_eq_true.
Qed.

(** A journal line that pays the contract: its price, from the payer's wallet,
    or else from the corporation the contract was found through, if any. *)
Record pays (c : ContractRow) (wallet : option (Uuid * Z)) (j : JournalRow) : Prop := mkPays {
  pays_for : wj_context_id j = Some (ct_esi_contract_id c) ∧ wj_context_id_type j = Some "contract_id" ∧
    wj_ref_type j = "contract_price";
  pays_by : match wallet, ct_source_corp_id c with
            | Some (corp, division), _ => wj_corp_id j = corp ∧ wj_division j = division
            | None, Some corp => wj_corp_id j = corp
            | None, None => True
            end
}.

Lemma payout_sum_pays db c wallet payout :
  payout_sum db (ct_esi_contract_id c) wallet (ct_source_corp_id c) = Some payout →
  ∃ lines, (∀ k j, lines !! k = Some j ↔ corp_wallet_journal db !! k = Some j ∧ pays c wallet j) ∧
    payout = sum_of (λ _ j, Z.abs (wj_amount j)) lines.
Proof.
  unfold payout_sum. destruct (sel_exists _ _); [|done]. intros [= <-].
  eexists. split; [|apply sum_where_rows]. intros k j. rewrite lookup_rows_where.
  apply and_iff_compat_l. unfold pays_contract, in_wallet.
  rewrite !andb_true_iff, !bool_decide_eq_true. split.
  - intros [[[??]?] Hw]. split; [done|]. destruct wallet as [[??]|]; [|destruct (ct_source_corp_id c); [|done]].
    + by apply andb_true_iff in Hw as [?%bool_decide_eq_true ?%bool_decide_eq_true].
    + by apply bool_decide_eq_true in Hw.
  - intros [(?&?&?) Hw]. split; [done|]. destruct wallet as [[??]|]; [|destruct (ct_source_corp_id c); [|done]].
    + destruct Hw. apply andb_true_iff. by rewrite !bool_decide_eq_true.
    + by apply bool_decide_eq_true.
Qed.

(** Either nothing happens, or [payout] was found and recorded. *)
Lemma verify_run cid db u db' :
  verify_contract_against_journal cid db = Ok (u, db') →
  db' = db ∨
  ∃ c payout ds, contracts db !! cid = Some c ∧ (0 < payout)%Z ∧
    (∃ wallet, pays_from cid db wallet ∧
       payout_sum db (ct_esi_contract_id c) wallet (ct_source_corp_id c) = Some payout) ∧
    let reimbs := select_where (λ _, audited cid) (reimbursements db) in
    deltas_of payout (total_reimb_sum reimbs) reimbs
      (db <| contracts := <[cid := verified_contract (db_now db) payout c]> (contracts db) |>) =
      Ok (ds, db <| contracts := <[cid := verified_contract (db_now db) payout c]> (contracts db) |>) ∧
    db' = db <| contracts := <[cid := verified_contract (db_now db) payout c]> (contracts db) |>
             <| reimbursements := update_each (stamp (db_now db) (list_to_map ds)) (reimbursements db) |>.
Proof.
  unfold verify_contract_against_journal. intros Hrun. inv_sql.
  destruct (contracts db !! cid) as [c|] eqn:Hc; [|inv_sql; by left]. inv_sql.
  match goal with H : match payer_of db cid with _ => _ end _ = Ok (?p, ?d) |- _ =>
    assert (d = db ∧ pays_from cid db p) as [-> Hw]; [|clear H] end.
  { destruct (payer_of db cid) as [[corp [division|]]|] eqn:Hpay; inv_sql; try done.
    - split; [done|]. simplify_eq. by apply payer_of_Some.
    - split; [done|]. by apply payer_of_None. }
  destruct (payout_sum db _ _ _) as [payout|] eqn:Hsum; [|inv_sql; by left].
  destruct (0 <? payout)%Z eqn:Hp; cbn [negb] in Hrun; [|inv_sql; by left]. inv_sql. set_simpl.
  assert (db <| contracts ::= update_where (λ k _, k == cid) (verified_contract (db_now db) payout) |> =
    db <| contracts := <[cid := verified_contract (db_now db) payout c]> (contracts db) |>) as E.
  { unfold set. cbn. f_equal. by apply update_where_key. }
  rewrite E in *. set_simpl.
  right. exists c, payout. apply Z.ltb_lt in Hp.
  case_bool_decide as Hempty; inv_sql.
  - exists []. rewrite Hempty. split_and!; try done; [by eexists|]. cbn.
    rewrite update_each_id by (intros k r; done). by destruct db.
  - match goal with H : deltas_of _ _ _ ?d = Ok (?ds, ?d') |- _ =>
      pose proof H as Hd; apply deltas_of_run in H as (-> & _ & _); exists ds end.
    split_and!; try done. by eexists.
Qed.

(** ** The shares add up *)

Lemma sum_where_list {K V} `{Countable K} (P : K → V → bool) (f : K → V → Z) (t : gmap K V) :
  sum_where P f t = foldr (λ kv acc, f kv.1 kv.2 + acc)%Z 0%Z (select_where P t).
Proof.
  unfold sum_where, sum_of, select_where. rewrite map_fold_foldr.
  induction (map_to_list t) as [|[k v] l IH]; [done|]. cbn. destruct (P k v); cbn; rewrite IH; lia.
Qed.

Lemma sum_of_update_each {K V} `{Countable K} (f : K → V → Z) (g : K → V → V) (t : gmap K V) :
  sum_of f (update_each g t) = sum_of (λ k v, f k (g k v)) t.
Proof.
  apply sum_of_sub.
  - intros k v' Hk. rewrite lookup_update_each in Hk. destruct (t !! k) as [v|]; [|done].
    injection Hk as <-. eauto.
  - intros k v Hk Hn. rewrite lookup_update_each, Hk in Hn. done.
Qed.

Lemma shares_close {A} (g h : A → Z) (payout S : Z) (l : list A) :
  (∀ x, x ∈ l → Z.abs (g x * S - payout * h x) ≤ S)%Z →
  (Z.abs (foldr (λ x acc, g x + acc) 0 l * S - payout * foldr (λ x acc, h x + acc) 0 l)
     ≤ Z.of_nat (length l) * S)%Z.
Proof.
  induction l as [|x l IH]; intros Hl; [cbn; lia|].
  pose proof (Hl x ltac:(left)). specialize (IH ltac:(intros; apply Hl; by right)).
  cbn [foldr length]. rewrite Nat2Z.inj_succ. lia.
Qed.

(** What a reimbursement's wallet settlement came to. *)
Definition wallet_share (r : ReimbursementRow) : Z :=
  (r_total_isk r + default 0 (r_wallet_settlement_delta_isk r))%Z.

Lemma sum_stamped_shares cid now dm reimbs :
  sum_where (λ _, audited cid) (λ _, wallet_share) (update_each (stamp now dm) reimbs) =
  foldr (λ kr acc, wallet_share (stamp now dm kr.1 kr.2) + acc)%Z 0%Z
    (select_where (λ _, audited cid) reimbs).
Proof.
  rewrite <- (sum_where_list (λ _, audited cid) (λ k r, wallet_share (stamp now dm k r))).
  unfold sum_where. rewrite sum_of_update_each. apply sum_of_ext. intros k r _.
  replace (audited cid (stamp now dm k r)) with (audited cid r); [done|].
  unfold audited, bound_to, stamp. destruct (dm !! k); by destruct r.
Qed.

(** C19 Wallet verification is audit only and loses no money: it records a
    positive payout on the contract, the sum of the journal lines that pay its
    price from the payer's wallet, marks exactly the contract's pending and
    settled reimbursements, changes nothing of any debt but the audit columns,
    and, if these debts come to more than nothing, the shares it assigns add up
    to the payout within one cent per reimbursement; without a payout it changes
    nothing. *)
Theorem verify_spec {SL : ShareLaws} cid db u db' :
  verify_contract_against_journal cid db = Ok (u, db') →
  db' = db ∨
  ∃ c payout, contracts db !! cid = Some c ∧ (0 < payout)%Z ∧
    (∃ wallet lines, pays_from cid db wallet ∧
       (∀ k j, lines !! k = Some j ↔ corp_wallet_journal db !! k = Some j ∧ pays c wallet j) ∧
       payout = sum_of (λ _ j, Z.abs (wj_amount j)) lines) ∧
    db' = db <| contracts := <[cid := verified_contract (db_now db) payout c]> (contracts db) |>
             <| reimbursements := reimbursements db' |> ∧
    (∀ rid r, reimbursements db !! rid = Some r → ∃ r', reimbursements db' !! rid = Some r' ∧
       same_debt r r' ∧
       if audited cid r then r_verified_by_wallet r' = true ∧ is_Some (r_wallet_settlement_delta_isk r')
       else r' = r) ∧
    ((0 < sum_where (λ _, audited cid) (λ _, r_total_isk) (reimbursements db))%Z →
     (Z.abs (sum_where (λ _, audited cid) (λ _, wallet_share) (reimbursements db') - payout)
        ≤ Z.of_nat (length (select_where (λ _, audited cid) (reimbursements db))))%Z).
Proof.
  intros Hrun. apply verify_run in Hrun as [->|(c & payout & ds & Hc & Hp & (w & Hw & Hpay) & Hds & ->)]; [by left|].
  right. exists c, payout. split; [done|]. split; [done|]. split.
  { apply payout_sum_pays in Hpay as (lines & ? & ?). by exists w, lines. }
  split; [done|].
  set (reimbs := select_where _ _) in *. set (now := db_now db).
  set (dm := list_to_map ds : gmap Uuid Z) in *.
  apply deltas_of_run in Hds as (_ & Hk & Hf).
  assert (NoDup ds.*1) as Hnd by (rewrite Hk; apply NoDup_select_where).
  assert (∀ kr, kr ∈ reimbs → ∃ share, dm !! kr.1 = Some (share - r_total_isk kr.2)%Z ∧
    if (0 <? total_reimb_sum reimbs)%Z
    then payout_share payout (r_total_isk kr.2) (total_reimb_sum reimbs) = Some share
    else share = 0%Z) as Hmap.
  { intros kr Hin. apply list_elem_of_lookup in Hin as [i Hi].
    destruct (Forall2_lookup_l _ _ _ _ _ Hf Hi) as (d & Hd & share & -> & Hs). exists share.
    split; [|done]. apply elem_of_list_to_map_1; [done|]. by eapply list_elem_of_lookup_2. }
  assert (∀ rid r, reimbursements db !! rid = Some r → audited cid r = false →
    dm !! rid = None) as Hnot.
  { intros rid r Hr Ha. apply not_elem_of_list_to_map_1. rewrite Hk. intros Hin.
    apply list_elem_of_fmap in Hin as ([k v] & -> & Hin). apply elem_of_select_where in Hin as [Hv Hav].
    cbn in Hr. congruence. }
  split.
  - intros rid r Hr. set_simpl. rewrite lookup_update_each, Hr. eexists. split; [done|].
    split; [apply stamp_same|]. destruct (audited cid r) eqn:Ha.
    + destruct (Hmap (rid, r)) as (share & Hl & _); [by apply elem_of_select_where|]. cbn in Hl.
      unfold stamp. rewrite Hl. split; [done|by eexists].
    + unfold stamp. by rewrite (Hnot _ _ Hr Ha).
  - set_simpl. rewrite sum_where_list. fold reimbs. intros Hsum.
    change (0 < total_reimb_sum reimbs)%Z in Hsum. set (S := total_reimb_sum reimbs) in *.
    rewrite sum_stamped_shares. fold reimbs.
    pose proof (shares_close (λ kr, wallet_share (stamp now dm kr.1 kr.2))
      (λ kr : Uuid * ReimbursementRow, r_total_isk kr.2) payout S reimbs) as Hclose.
    change (foldr (λ kr acc, r_total_isk kr.2 + acc)%Z 0%Z reimbs) with S in Hclose.
    assert (∀ a n : Z, Z.abs (a * S - payout * S) ≤ n * S → Z.abs (a - payout) ≤ n)%Z as Hcancel
      by (intros; nia).
    apply Hcancel, Hclose. intros kr Hin. destruct (Hmap kr Hin) as (share & Hl & Hs).
    apply Z.ltb_lt in Hsum as Hb. rewrite Hb in Hs.
    assert (wallet_share (stamp now dm kr.1 kr.2) = share) as ->.
    { unfold stamp. rewrite Hl. unfold wallet_share, set. cbn. lia. }
    by apply payout_share_close.
Qed.
End Wallet.

(** ** Witness *)
Section Witnesses.
#[local] Existing Instance fixture_runtime.

(** Exact arithmetic, rounded half to even. *)
Definition fixture_shares : ShareArith := λ payout total sum,
  let q := (payout * total / sum)%Z in
  Some (if (2 * ((payout * total) mod sum) <=? sum)%Z then q else (q + 1)%Z).

#[local] Existing Instance fixture_shares.

Lemma fixture_share_laws : ShareLaws.
Proof.
  split. intros payout total sum share Hs [= <-].
  pose proof (Z.div_mod (payout * total) sum ltac:(lia)) as Hd.
  pose proof (Z.mod_pos_bound (payout * total) sum Hs) as Hm.
  destruct (_ <=? _)%Z eqn:E; [apply Z.leb_le in E|apply Z.leb_gt in E]; nia.
Qed.

(** The corporation's journal shows the contract's price. *)
Definition audit_db : Db :=
  bound_db <| corp_wallet_journal := {[ 95%N := mkJournalRow 70 1 7 60 "contract_price" (-109999) 5
                (Some 502%Z) None (Some 9000%Z) (Some "contract_id") None (ListDelivered "" "") 61 ]} |>.

Definition delta_at (db : Db) (rid : Uuid) : option (option Z) :=
  r_wallet_settlement_delta_isk <$> reimbursements db !! rid.

Lemma verify_spec_witness :
  ∃ db', verify_contract_against_journal 80 audit_db = Ok (tt, db') ∧
    delta_at db' 60 = Some (Some (-1)%Z).
Proof.
  run_concrete (verify_contract_against_journal 80 audit_db) u db' Hrun. destruct u.
  assert (match verify_contract_against_journal 80 audit_db with
          | Ok (_, d) => delta_at d 60 | Err _ => None end = Some (Some (-1)%Z)) as Hd
    by (vm_compute; reflexivity).
  rewrite Hrun in Hd. exists db'.
  destruct (@verify_spec _ _ fixture_share_laws 80 audit_db tt db' Hrun) as [He|_].
  - rewrite He in Hd. assert (delta_at audit_db 60 = Some None) as Hn by (vm_compute; reflexivity).
    rewrite Hn in Hd. discriminate Hd.
  - exact (conj Hrun Hd).
Defined.
End Witnesses.
