(* ===== verification/Fulfillment.v ===== *)
(** * Shared helpers of the fulfillment handlers

    [crates/api/src/fulfillment.rs]: the list lock, the guards, and the two
    recomputations of an item's status from its fulfillments and claims. *)

From Stdlib Require Import ZArith Lia.
From stdpp Require Import base tactics decidable option list gmap strings pretty.
From S2P Require Import Prelude Effect Money Domain Host Schema Fixtures Errors.

Local Open Scope string_scope.

Inductive DeliveredDemotion := Forbid | Allow.
Global Instance DeliveredDemotion_eq_dec : EqDecision DeliveredDemotion.
Proof. solve_decision. Defined.

Definition validate_tip_pct (v : Decimal) : result ApiError unit :=
  if Decimal_ltb v Decimal_ZERO || Decimal_ltb Decimal_ONE v then
    Err (BadRequest "tip_pct must be between 0 and 1")
  else Ok tt.

Definition ensure_claim_writable (user_id hauler_user_id : Uuid) (role : GroupRole)
    (status : ClaimStatus) : result ApiError unit :=
  if (user_id != hauler_user_id) && (role != Owner) then Err forbidden
  else if status != Claim_Active then
    Err (Conflict ("claim is " +:+ ClaimStatus_to_string status +:+ ", not active"))
  else Ok tt.

Definition is_claim_conflict (e : DbError) : bool :=
  constraint_of e == Some "claim_items_one_active".

(** The status an item has by its fulfillments and claims alone. *)
Definition base_status (qty_requested qty_fulfilled : Z) (has_active_claim : bool)
    : ListItemStatus :=
  if (qty_requested <=? qty_fulfilled)%Z then Item_Bought
  else if has_active_claim then Item_Claimed
  else Item_Open.

Section Fulfillment.
Context `{RT : Runtime}.

Definition lock_list (list_id : Uuid) : Handler unit :=
  found ← query (λ db, lists db !! list_id);
  _ ← expect not_found found;
  mret tt.

(** [COALESCE(SUM(qty), 0)] over the item's fulfillments not reversed. *)
Definition live_of (item_id : Uuid) (f : FulfillmentRow) : bool :=
  (f_list_item_id f == item_id) && is_none (f_reversed_at f).

Definition live_qty (fs : gmap Uuid FulfillmentRow) (item_id : Uuid) : Z :=
  sum_where (λ _, live_of item_id) (λ _ f, f_qty f) fs.

Definition has_active_claim (cis : gmap (Uuid * Uuid) ClaimItemRow) (item_id : Uuid) : bool :=
  sel_exists (λ k ci, (k.2 == item_id) && ci_active ci) cis.

(** [::bigint] of an out-of-range sum is an error, and [qty_fulfilled] is
    checked to be non-negative. *)
Definition check_qty_fulfilled (q : Z) : Stmt unit :=
  _ ← ensure (in_i64 q) NumericOverflow;
  check (0 <=? q)%Z "list_items_qty_fulfilled_check".

Definition recompute_item_status (item_id : Uuid) (demotion : DeliveredDemotion)
    : Handler ListItemStatus :=
  current_status ← sql (fetch_one (λ db, li_status <$> list_items db !! item_id));
  if current_status == Item_Settled then mret current_status
  else if (current_status == Item_Delivered) && (demotion == Forbid) then mret current_status
  else
    '(qty_requested, qty_fulfilled, active) ← sql (fetch_one (λ db,
       li ← list_items db !! item_id;
       Some (li_qty_requested li, live_qty (fulfillments db) item_id,
             has_active_claim (claim_items db) item_id)));
    _ ← sql (check_qty_fulfilled qty_fulfilled);
    let base := base_status qty_requested qty_fulfilled active in
    let new_status :=
      if (current_status == Item_Delivered) && (base == Item_Bought) then Item_Delivered
      else base in
    _ ← execute (λ db, db <| list_items ::= update_where (λ k _, k == item_id)
          (λ li, li <| li_status := new_status |> <| li_qty_fulfilled := qty_fulfilled |>) |>);
    mret new_status.

(** The CASE of the bulk form: delivered and settled are kept. *)
Definition bulk_row (db : Db) (item_id : Uuid) (li : ListItemRow) : ListItemRow :=
  let q := live_qty (fulfillments db) item_id in
  li <| li_qty_fulfilled := q |>
     <| li_status :=
          if (li_status li == Item_Delivered) || (li_status li == Item_Settled)
          then li_status li
          else base_status (li_qty_requested li) q (has_active_claim (claim_items db) item_id) |>.

Definition recompute_item_statuses_bulk (item_ids : list Uuid) : Handler unit :=
  if bool_decide (item_ids = []) then mret tt else
  bad ← query (λ db, sel_exists (λ id _, bool_decide (id ∈ item_ids) &&
        negb (in_i64 (live_qty (fulfillments db) id) &&
              (0 <=? live_qty (fulfillments db) id)%Z)) (list_items db));
  _ ← sql (ensure (negb bad) NumericOverflow);
  execute (λ db, db <| list_items ::=
    update_each (λ id li, if bool_decide (id ∈ item_ids) then bulk_row db id li else li) |>).

(** ** Lemmas *)

Lemma lock_list_Ok list_id db u db' :
  lock_list list_id db = Ok (u, db') → db' = db ∧ is_Some (lists db !! list_id).
Proof. unfold lock_list. intros Hrun. inv_sql. eauto. Qed.

Lemma check_qty_fulfilled_Ok q db u db' :
  check_qty_fulfilled q db = Ok (u, db') →
  db' = db ∧ (0 ≤ q ≤ i64_max)%Z.
Proof.
  unfold check_qty_fulfilled, check. intros Hrun. inv_M.
  match goal with H : in_i64 _ = true |- _ => apply in_i64_spec in H end.
  match goal with H : (0 <=? _)%Z = true |- _ => apply Z.leb_le in H end.
  split; [done|lia].
Qed.

(** The item row a recompute writes. *)
Definition recomputed (fs : gmap Uuid FulfillmentRow) (cis : gmap (Uuid * Uuid) ClaimItemRow)
    (demotion : DeliveredDemotion) (item_id : Uuid) (li : ListItemRow) : ListItemRow :=
  if li_status li == Item_Settled then li
  else if (li_status li == Item_Delivered) && (demotion == Forbid) then li
  else
    let q := live_qty fs item_id in
    let base := base_status (li_qty_requested li) q (has_active_claim cis item_id) in
    li <| li_status := if (li_status li == Item_Delivered) && (base == Item_Bought)
                       then Item_Delivered else base |>
       <| li_qty_fulfilled := q |>.

Lemma recompute_item_status_Ok item_id demotion db s db' :
  recompute_item_status item_id demotion db = Ok (s, db') →
  ∃ li, list_items db !! item_id = Some li ∧
    let li' := recomputed (fulfillments db) (claim_items db) demotion item_id li in
    s = li_status li' ∧
    db' = db <| list_items ::= <[item_id := li']> |> ∧
    (li' = li ∨ (0 ≤ live_qty (fulfillments db) item_id ≤ i64_max)%Z).
Proof.
  unfold recompute_item_status. intros Hrun. inv_sql.
  match goal with H : li_status <$> _ = Some _ |- _ =>
    apply fmap_Some in H as (li & Hli & ->) end.
  exists li. split; [done|]. unfold recomputed.
  assert (db <| list_items ::= <[item_id := li]> |> = db) as Hid.
  { transitivity (db <| list_items := list_items db |>); [|by destruct db].
    unfold set. by rewrite insert_id. }
  destruct (li_status li == Item_Settled); [inv_sql; rewrite Hid; auto|].
  destruct (_ && (demotion == Forbid)); [inv_sql; rewrite Hid; auto|].
  inv_sql. match goal with H : _ ≫= _ = Some _ |- _ => rewrite Hli in H; cbn in H end.
  simplify_eq. inv_sql.
  match goal with H : check_qty_fulfilled _ _ = _ |- _ =>
    apply check_qty_fulfilled_Ok in H as [-> Hq] end.
  split; [done|]. split; [|by right]. unfold set. by rewrite (update_where_key _ _ _ _ Hli).
Qed.

End Fulfillment.
