(* ===== verification/Claims.v ===== *)
(** * Claims

    [crates/api/src/fulfillment/claims.rs]: a hauler claims open items of a
    list, adds to the claim, removes from it, or releases it.  The trigger
    [sync_claim_items_active] of the schema is part of the status update. *)

From Stdlib Require Import ZArith Lia.
From stdpp Require Import base tactics decidable option list gmap strings pretty.
From S2P Require Import Prelude Effect Money Domain Host Schema Fixtures Errors.
From S2P Require Import Extract Webhooks Detail Fulfillment.

Local Open Scope string_scope.

Record CreateClaimBody := mkCreateClaimBody {
  ccb_item_ids : list Uuid;
  ccb_note : option string
}.

Section Claims.
Context `{RT : Runtime}.

(** ** Statements *)

Definition insert_claim (list_id hauler_user_id : Uuid) (note : option string) : Stmt Uuid :=
  id ← new_uuid;
  _ ← unique (λ db, negb (row_exists (claims db) id)) "claims_pkey";
  _ ← execute (λ db, db <| claims ::=
        <[id := mkClaimRow list_id hauler_user_id Claim_Active note (db_now db) None]> |>);
  _ ← foreign_key (λ db, row_exists (lists db) list_id) "claims_list_id_fkey";
  _ ← foreign_key (λ db, row_exists (users db) hauler_user_id) "claims_hauler_user_id_fkey";
  mret id.

(** One row of the INSERT ... SELECT, with the two unique indexes. *)
Definition insert_claim_item (claim_id item_id : Uuid) : Stmt unit :=
  _ ← unique (λ db, negb (row_exists (claim_items db) (claim_id, item_id))) "claim_items_pkey";
  _ ← unique (λ db, negb (has_active_claim (claim_items db) item_id)) "claim_items_one_active";
  execute (λ db, db <| claim_items ::=
    <[(claim_id, item_id) := mkClaimItemRow true (db_now db)]> |>).

Definition insert_claim_item_rows (claim_id : Uuid) (item_ids : list Uuid) : Stmt unit :=
  _ ← for_each (insert_claim_item claim_id) item_ids;
  _ ← foreign_key (λ db, row_exists (claims db) claim_id) "claim_items_claim_id_fkey";
  foreign_key (λ db, forallb (λ i, row_exists (list_items db) i) item_ids)
    "claim_items_list_item_id_fkey".

(** The trigger [sync_claim_items_active] for one updated claim. *)
Definition sync_claim_items_active (claim_id : Uuid) (old new : ClaimStatus)
    (cis : gmap (Uuid * Uuid) ClaimItemRow) : gmap (Uuid * Uuid) ClaimItemRow :=
  let set_active b := update_where (λ k _, k.1 == claim_id) (λ ci, ci <| ci_active := b |>) cis in
  if (new != Claim_Active) && (old == Claim_Active) then set_active false
  else if (new == Claim_Active) && (old != Claim_Active) then set_active true
  else cis.

(** [UPDATE claims SET status = ... WHERE id = $1 AND guard], trigger included. *)
Definition update_claim_status (claim_id : Uuid) (guard : ClaimRow → bool)
    (upd : ClaimRow → ClaimRow) (db : Db) : Db :=
  match claims db !! claim_id with
  | Some c =>
      if guard c then
        db <| claims ::= <[claim_id := upd c]> |>
           <| claim_items ::= sync_claim_items_active claim_id (cl_status c) (cl_status (upd c)) |>
      else db
  | None => db
  end.

(** ** Helpers *)

Definition validate_claimable_items (list_id : Uuid) (item_ids : list Uuid) : Handler unit :=
  rows ← query (λ db, select_where (λ id li, bool_decide (id ∈ item_ids) &&
                                             (li_list_id li == list_id)) (list_items db));
  (* the status column is decoded into a String *)
  _ ← sql (ensure (enum_as_text || bool_decide (rows = [])) (ColumnDecode "status"));
  _ ← ensure (length rows =? length item_ids)%nat
        (BadRequest "one or more item_ids do not belong to this list");
  match List.find (λ r, ListItemStatus_to_string (li_status r.2) != "open") rows with
  | Some (_, bad) => throw (Conflict ("cannot claim item with status '" +:+
                       ListItemStatus_to_string (li_status bad) +:+
                       "'; only open items may be claimed"))
  | None => mret tt
  end.

Definition insert_claim_items (claim_id : Uuid) (item_ids : list Uuid) : Handler unit :=
  if bool_decide (item_ids = []) then mret tt else
  _ ← map_err (λ e, if is_claim_conflict e
                    then Conflict "one or more items are already claimed"
                    else internal (DbError_to_string e))
        (insert_claim_item_rows claim_id item_ids);
  recompute_item_statuses_bulk item_ids.

(** ** Handlers *)

Definition create_claim (cur : CurrentList) (body : CreateClaimBody) : Handler ListDetail :=
  _ ← map_err (λ _, Conflict ("list is " +:+ ListStatus_to_string (cur_status cur) +:+
                              "; claims can only be created on open lists"))
        (of_result (require_open cur));
  _ ← ensure (negb (bool_decide (ccb_item_ids body = [])))
        (BadRequest "item_ids must not be empty");
  _ ← lock_list (cur_list_id cur);
  _ ← validate_claimable_items (cur_list_id cur) (ccb_item_ids body);
  claim_id ← sql (insert_claim (cur_list_id cur) (cur_user_id cur) (ccb_note body));
  _ ← insert_claim_items claim_id (ccb_item_ids body);
  hauler ← sql (fetch_one (λ db, users db !! cur_user_id cur));
  l ← sql (fetch_one (λ db, lists db !! cur_list_id cur));
  _ ← sql (fire_webhook (l_group_id l)
        (ListClaimed (default "(unnamed)" (l_destination_label l)) (u_display_name hauler)
           (Z.of_nat (length (ccb_item_ids body)))));
  load_list_detail (cur_list_id cur) (cur_user_id cur) (cur_role cur).

(** What the three handlers on an existing claim check first. *)
Definition claim_guards (cur : CurrentClaim) : Handler unit :=
  _ ← map_err (λ _, Conflict archived_msg) (of_result (require_list_mutable cur));
  of_result (ensure_claim_writable (cc_user_id cur) (cc_hauler_user_id cur) (cc_role cur)
               (cc_status cur)).

Definition add_claim_items (cur : CurrentClaim) (item_ids : list Uuid) : Handler ListDetail :=
  _ ← claim_guards cur;
  _ ← ensure (negb (bool_decide (item_ids = []))) (BadRequest "item_ids must not be empty");
  _ ← lock_list (cc_list_id cur);
  _ ← validate_claimable_items (cc_list_id cur) item_ids;
  _ ← insert_claim_items (cc_claim_id cur) item_ids;
  load_list_detail (cc_list_id cur) (cc_user_id cur) (cc_role cur).

Definition remove_claim_item (cur : CurrentClaim) (item_id : Uuid) : Handler ListDetail :=
  _ ← claim_guards cur;
  _ ← lock_list (cc_list_id cur);
  present ← query (λ db, row_exists (claim_items db) (cc_claim_id cur, item_id));
  _ ← execute (λ db, db <| claim_items ::= delete (cc_claim_id cur, item_id) |>);
  _ ← ensure present not_found;
  _ ← recompute_item_status item_id Forbid;
  load_list_detail (cc_list_id cur) (cc_user_id cur) (cc_role cur).

Definition release_claim (cur : CurrentClaim) : Handler ListDetail :=
  _ ← claim_guards cur;
  _ ← lock_list (cc_list_id cur);
  item_ids ← query (λ db,
    (select_where (λ k _, k.1 == cc_claim_id cur) (claim_items db)).*1.*2);
  _ ← execute (λ db, update_claim_status (cc_claim_id cur) (λ _, true)
        (λ c, c <| cl_status := Claim_Released |> <| cl_released_at := Some (db_now db) |>) db);
  _ ← recompute_item_statuses_bulk item_ids;
  load_list_detail (cc_list_id cur) (cc_user_id cur) (cc_role cur).

End Claims.
