(* ===== verification/Reimbursements.v ===== *)
(** * Reimbursements

    [crates/api/src/fulfillment/reimbursements.rs] and [tips.rs]: the upsert
    every fulfillment change ends with, the settle endpoint, and the tip. *)

From Stdlib Require Import ZArith Lia.
From stdpp Require Import base tactics decidable option list gmap strings pretty.
From S2P Require Import Prelude Effect Money Domain Host Schema Fixtures Errors.
From S2P Require Import Extract Webhooks Detail Settlement Fulfillment.

Local Open Scope string_scope.

Section Reimbursements.
Context `{RT : Runtime}.

(** ** Principals behind a list *)

(** [principals_user_unique] and [principals_corp_unique] make these the only
    such rows. *)
Definition principal_of_user (db : Db) (user_id : Uuid) : option Uuid :=
  fst <$> head (select_where (λ _ p, (p_kind p == Principal_User) &&
                                     (p_user_id p == Some user_id)) (principals db)).

Definition principal_of_corp (db : Db) (corp_id : Uuid) : option Uuid :=
  fst <$> head (select_where (λ _ p, (p_kind p == Principal_Corp) &&
                                     (p_corp_id p == Some corp_id)) (principals db)).

(** The requester principal of a list: the paying corp, else the item's user. *)
Definition requester_principal (db : Db) (list_id requester_user_id : Uuid) : option Uuid :=
  l ← lists db !! list_id;
  match l_payer_corp_id l with
  | Some corp => principal_of_corp db corp
  | None => principal_of_user db requester_user_id
  end.

(** ** Upsert *)

Definition in_cycle (list_id rp hp : Uuid) (r : ReimbursementRow) : bool :=
  (r_list_id r == list_id) && (r_requester_principal_id r == rp) &&
  (r_hauler_principal_id r == hp).

(** The items a reimbursement pays for: the requester's, or all of a corp's list. *)
Definition payable_item (db : Db) (list_id : Uuid) (requester : option Uuid) (item_id : Uuid)
    : bool :=
  match list_items db !! item_id with
  | Some li =>
      (li_list_id li == list_id) &&
      match requester with Some u => li_requested_by_user_id li == Some u | None => true end
  | None => false
  end.

(** [SUM(f.qty * f.unit_price_isk)] of the hauler's live fulfillments. *)
Definition subtotal_of (db : Db) (list_id : Uuid) (requester : option Uuid) (hauler : Uuid)
    : Z :=
  sum_where (λ _ f, payable_item db list_id requester (f_list_item_id f) &&
                    (f_hauler_user_id f == hauler) && is_none (f_reversed_at f))
    (λ _ f, f_qty f * f_unit_price_isk f)%Z (fulfillments db).

(** The part of [meta], [requester_p] and [hauler_p] the INSERT joins; no row
    of any of them is an INSERT of nothing. *)
Definition upsert_context (db : Db) (list_id requester hauler : Uuid)
    : option (ListRow * Uuid * Uuid) :=
  l ← lists db !! list_id;
  rp ← requester_principal db list_id requester;
  hp ← principal_of_user db hauler;
  Some (l, rp, hp).

Definition upsert_reimbursement (list_id requester_user_id hauler_user_id : Uuid)
    : Handler unit :=
  ctx ← query (λ db, upsert_context db list_id requester_user_id hauler_user_id);
  match ctx with
  | None => mret tt
  | Some (l, rp, hp) =>
      let corp := negb (is_none (l_payer_corp_id l)) in
      let req := if corp then None else Some requester_user_id in
      subtotal ← query (λ db, subtotal_of db list_id req hauler_user_id);
      let tip := tip_of subtotal (pct_of_column (l_tip_pct l)) in
      let total := total_of subtotal (pct_of_column (l_tip_pct l)) in
      _ ← sql (ensure (fits 24 subtotal && fits 24 tip && fits 24 total) NumericOverflow);
      id ← sql new_uuid;
      existing ← query (λ db, head (select_where
        (λ _ r, (r_status r != Reimb_Cancelled) && in_cycle list_id rp hp r)
        (reimbursements db)));
      match existing with
      | Some (rid, r) =>
          when (r_status r == Reimb_Pending)
            (execute (λ db, db <| reimbursements ::= update_where (λ k _, k == rid)
               (λ r, r <| r_subtotal_isk := subtotal |> <| r_tip_isk := tip |>
                       <| r_total_isk := total |> <| r_updated_at := db_now db |>) |>))
      | None =>
          _ ← sql (unique (λ db, negb (row_exists (reimbursements db) id)) "reimbursements_pkey");
          _ ← execute (λ db, db <| reimbursements ::=
                <[id := mkReimbursementRow list_id req rp hauler_user_id hp subtotal tip total
                          Reimb_Pending None None None corp false None (db_now db) (db_now db)]> |>);
          _ ← sql (foreign_key (λ db, opt_row_exists (users db) req)
                     "reimbursements_requester_user_id_fkey");
          sql (foreign_key (λ db, row_exists (users db) hauler_user_id)
                 "reimbursements_hauler_user_id_fkey")
      end
  end.

(** The status a fulfillment change is checked against: any row of the cycle. *)
Definition cycle_status (db : Db) (list_id requester hauler : Uuid)
    : option ReimbursementStatus :=
  rp ← requester_principal db list_id requester;
  hp ← principal_of_user db hauler;
  (λ kv, r_status kv.2) <$>
    head (select_where (λ _, in_cycle list_id rp hp) (reimbursements db)).

(** ** Settle *)

Definition settle_error (e : SettlementError) : ApiError :=
  match e with
  | Settlement_NotFound => not_found
  | NotPending s => Conflict ("reimbursement is already " +:+ ReimbursementStatus_to_string s)
  | NotDelivered n => Conflict (pretty n +:+
      " item(s) must be fully bought and delivered before settling")
  | Settlement_Db e => internal (DbError_to_string e)
  end.

Definition settle_reimbursement (reimb_id user_id : Uuid) : Handler ListDetail :=
  pre ← query (λ db, r_list_id <$> reimbursements db !! reimb_id);
  list_id ← expect not_found pre;
  _ ← lock_list list_id;
  row ← query (λ db, reimbursements db !! reimb_id);
  r ← expect not_found row;
  _ ← ensure (r_status r == Reimb_Pending)
        (Conflict ("reimbursement is already " +:+ ReimbursementStatus_to_string (r_status r)));
  _ ← ensure (is_none (r_contract_id r))
        (Conflict ("this reimbursement is bound to a contract; " +:+
                   "unlink it before settling manually"));
  role ← query (λ db, l ← lists db !! list_id; member_role db user_id (l_group_id l));
  role ← expect forbidden role;
  _ ← ensure ((r_requester_user_id r == Some user_id) || (role == Owner)) forbidden;
  _ ← map_err settle_error (settle_manual reimb_id user_id);
  l ← sql (fetch_one (λ db, lists db !! list_id));
  req_name ← match r_requester_user_id r with
             | Some uid => sql (fetch_one (λ db, u_display_name <$> users db !! uid))
             | None => mret "Corp"
             end;
  '(hauler_name, total) ← sql (fetch_one (λ db,
     r ← reimbursements db !! reimb_id;
     hu ← users db !! r_hauler_user_id r;
     Some (u_display_name hu, r_total_isk r)));
  _ ← sql (fire_webhook (l_group_id l)
        (ReimbursementSettled (default "(unnamed)" (l_destination_label l)) req_name hauler_name
           (decimal_to_string total)));
  load_list_detail list_id user_id role.

(** ** Tips *)

Definition cast_tip (v : Decimal) : Stmt Z := expect NumericOverflow (numeric_cast 5 4 v).

Definition list_has_live_fulfillment (db : Db) (list_id : Uuid) : bool :=
  sel_exists (λ _ f, on_list db list_id (f_list_item_id f) && is_none (f_reversed_at f))
    (fulfillments db).

Definition retip (list_id : Uuid) (tip_pct : Decimal) (db : Db) : Db :=
  db <| reimbursements ::= update_where
          (λ _ r, (r_list_id r == list_id) && (r_status r == Reimb_Pending))
          (λ r, r <| r_tip_isk := tip_of (r_subtotal_isk r) tip_pct |>
                  <| r_total_isk := total_of (r_subtotal_isk r) tip_pct |>
                  <| r_updated_at := db_now db |>) |>.

Definition set_list_tip (cur : CurrentList) (tip_pct : Decimal) : Handler ListDetail :=
  _ ← of_result (require_mutable cur);
  _ ← of_result (validate_tip_pct tip_pct);
  let is_creator := cur_user_id cur == cur_created_by_user_id cur in
  _ ← ensure (is_creator || (cur_role cur == Owner)) forbidden;
  _ ← lock_list (cur_list_id cur);
  _ ← when (is_creator && (cur_role cur != Owner))
        (has ← query (λ db, list_has_live_fulfillment db (cur_list_id cur));
         ensure (negb has) forbidden);
  pct ← sql (cast_tip tip_pct);
  _ ← execute (λ db, db <| lists ::= update_where (λ k _, k == cur_list_id cur)
        (λ l, l <| l_tip_pct := pct |>) |>);
  overflow ← query (λ db, sel_exists
    (λ _ r, (r_list_id r == cur_list_id cur) && (r_status r == Reimb_Pending) &&
            negb (fits 24 (tip_of (r_subtotal_isk r) tip_pct) &&
                  fits 24 (total_of (r_subtotal_isk r) tip_pct))) (reimbursements db));
  _ ← sql (ensure (negb overflow) NumericOverflow);
  _ ← execute (retip (cur_list_id cur) tip_pct);
  load_list_detail (cur_list_id cur) (cur_user_id cur) (cur_role cur).

(** [GroupRow::into_group]. *)
Definition into_group (id : Uuid) (g : GroupRow) : Group :=
  mkGroup id (g_name g) (g_invite_code g) (g_created_by_user_id g) (g_created_at g)
    (g_default_tip_pct g).

Definition set_group_default_tip (cur : CurrentGroup) (tip_pct : Decimal) : Handler Group :=
  _ ← ensure (cg_role cur == Owner) forbidden;
  _ ← of_result (validate_tip_pct tip_pct);
  pct ← sql (cast_tip tip_pct);
  _ ← execute (λ db, db <| groups ::= update_where (λ k _, k == cg_group_id cur)
        (λ g, g <| g_default_tip_pct := pct |>) |>);
  row ← query (λ db, groups db !! cg_group_id cur);
  g ← expect not_found row;
  mret (into_group (cg_group_id cur) g).

End Reimbursements.
