(* ===== verification/Fulfillments.v ===== *)
(** * Fulfillments

    [crates/api/src/fulfillment/fulfillments.rs]: recording a purchase,
    reversing one, and marking an item delivered. *)

From Stdlib Require Import ZArith Lia.
From stdpp Require Import base tactics decidable option list gmap strings pretty.
From S2P Require Import Prelude Effect Text Money Domain Host Schema Fixtures Errors.
From S2P Require Import Extract Webhooks Detail Settlement Fulfillment Claims Reimbursements.

Local Open Scope string_scope.

Record RecordFulfillmentBody := mkRecordFulfillmentBody {
  rfb_qty : Z;
  rfb_unit_price_isk : Decimal;
  rfb_bought_at_market_id : option Uuid;
  rfb_bought_at_note : option string;
  rfb_hauler_character_id : option Uuid;
  rfb_claim_id : option Uuid
}.

(** The guards on the body alone. *)
Definition validate_fulfillment_body (b : RecordFulfillmentBody) : result ApiError unit :=
  if (rfb_qty b <=? 0)%Z then Err (BadRequest "qty must be positive")
  else if (10000000 <? rfb_qty b)%Z then Err (BadRequest "qty must be at most 10,000,000")
  else if Decimal_ltb (rfb_unit_price_isk b) Decimal_ZERO
  then Err (BadRequest "unit_price_isk must be >= 0")
  else if is_none (rfb_bought_at_market_id b) then
    match rfb_bought_at_note b with
    | None => Err (BadRequest "bought_at_note is required when no market is specified")
    | Some n => if is_blank n then Err (BadRequest "bought_at_note must not be blank") else Ok tt
    end
  else Ok tt.

Section Fulfillments.
Context `{RT : Runtime}.

(** The claim active on an item, with its hauler. *)
Definition active_claim_of (db : Db) (item_id : Uuid) : option (Uuid * Uuid) :=
  head (omap (λ '((cid, _), _), c ← claims db !! cid; Some (cid, cl_hauler_user_id c))
    (select_where (λ k ci, (k.2 == item_id) && ci_active ci) (claim_items db))).

Definition market_exists (db : Db) (market_id : option Uuid) : bool :=
  opt_row_exists (markets db) market_id.

Definition char_owned (db : Db) (character_id : option Uuid) (user_id : Uuid) : bool :=
  match character_id with
  | None => true
  | Some c => match characters db !! c with
              | Some ch => ch_user_id ch == user_id
              | None => false
              end
  end.

Definition insert_fulfillment (item_id : Uuid) (claim_id : option Uuid) (user_id : Uuid)
    (b : RecordFulfillmentBody) : Stmt unit :=
  price ← expect NumericOverflow (numeric_cast 20 2 (rfb_unit_price_isk b));
  id ← new_uuid;
  _ ← check (0 <? rfb_qty b)%Z "fulfillments_qty_check";
  _ ← check (0 <=? price)%Z "fulfillments_unit_price_isk_check";
  _ ← check (negb (is_none (rfb_bought_at_market_id b)) ||
             match rfb_bought_at_note b with Some n => negb (btrim_empty n) | None => false end)
        "fulfillments_check";
  _ ← unique (λ db, negb (row_exists (fulfillments db) id)) "fulfillments_pkey";
  _ ← execute (λ db, db <| fulfillments ::=
        <[id := mkFulfillmentRow item_id claim_id user_id (rfb_hauler_character_id b)
                  Source_Manual (rfb_qty b) price (rfb_bought_at_market_id b)
                  (rfb_bought_at_note b) (db_now db) None]> |>);
  _ ← foreign_key (λ db, row_exists (list_items db) item_id) "fulfillments_list_item_id_fkey";
  _ ← foreign_key (λ db, opt_row_exists (claims db) claim_id) "fulfillments_claim_id_fkey";
  _ ← foreign_key (λ db, row_exists (users db) user_id) "fulfillments_hauler_user_id_fkey";
  _ ← foreign_key (λ db, opt_row_exists (characters db) (rfb_hauler_character_id b))
        "fulfillments_hauler_character_id_fkey";
  foreign_key (λ db, opt_row_exists (markets db) (rfb_bought_at_market_id b))
    "fulfillments_bought_at_market_id_fkey".

(** No item of the claim is short of bought. *)
Definition claim_done (db : Db) (claim_id : Uuid) : bool :=
  negb (sel_exists (λ k _, (k.1 == claim_id) &&
    match list_items db !! k.2 with
    | Some li => negb (bool_decide (li_status li ∈ [Item_Bought; Item_Delivered; Item_Settled]))
    | None => false
    end) (claim_items db)).

Definition complete_claim_if_done (claim_id : Uuid) : Handler unit :=
  all_done ← query (λ db, claim_done db claim_id);
  when all_done (execute (update_claim_status claim_id (λ c, cl_status c == Claim_Active)
    (λ c, c <| cl_status := Claim_Completed |>))).

(** After a purchase that finished the item. *)
Definition advance_claim (active : option (Uuid * Uuid)) (new_status : ListItemStatus)
    : Handler unit :=
  match active with
  | Some (claim_id, _) =>
      when ((new_status == Item_Bought) || (new_status == Item_Settled))
        (complete_claim_if_done claim_id)
  | None => mret tt
  end.

Definition check_cycle (existing : option ReimbursementStatus) : result ApiError unit :=
  match existing with
  | Some rs =>
      if rs != Reimb_Pending
      then Err (Conflict ("reimbursement for this requester is already " +:+
                          ReimbursementStatus_to_string rs +:+
                          "; cannot record additional fulfillments"))
      else Ok tt
  | None => Ok tt
  end.

Definition check_active_claim (active : option (Uuid * Uuid)) (user_id : Uuid)
    (role : GroupRole) (explicit : option Uuid) : result ApiError unit :=
  match active with
  | None => Ok tt
  | Some (active_claim_id, active_hauler) =>
      if (user_id != active_hauler) && (role != Owner) then Err forbidden
      else match explicit with
           | Some c => if c != active_claim_id
                       then Err (BadRequest "claim_id does not match the active claim for this item")
                       else Ok tt
           | None => Ok tt
           end
  end.

(** The item row the handler reads for update, of the path's list. *)
Definition item_on_list (db : Db) (list_id item_id : Uuid) : option ListItemRow :=
  li ← list_items db !! item_id;
  if li_list_id li == list_id then Some li else None.

Definition record_fulfillment (cur : CurrentList) (item_id : Uuid)
    (body : RecordFulfillmentBody) : Handler ListDetail :=
  _ ← of_result (require_mutable cur);
  _ ← of_result (validate_fulfillment_body body);
  _ ← lock_list (cur_list_id cur);
  item_row ← query (λ db, item_on_list db (cur_list_id cur) item_id);
  li ← expect not_found item_row;
  requested_by ← sql (not_null "requested_by_user_id" (li_requested_by_user_id li));
  _ ← ensure (wrap_i64 (rfb_qty body + li_qty_fulfilled li) <=? li_qty_requested li)%Z
        (Conflict ("fulfillment qty " +:+ pretty (rfb_qty body) +:+ " would exceed requested " +:+
                   pretty (li_qty_requested li) +:+ " (already fulfilled: " +:+
                   pretty (li_qty_fulfilled li) +:+ ")"));
  existing ← query (λ db, cycle_status db (cur_list_id cur) requested_by (cur_user_id cur));
  _ ← of_result (check_cycle existing);
  market_ok ← query (λ db, market_exists db (rfb_bought_at_market_id body));
  _ ← ensure market_ok (BadRequest "bought_at_market_id does not exist");
  char_ok ← query (λ db, char_owned db (rfb_hauler_character_id body) (cur_user_id cur));
  _ ← ensure char_ok (BadRequest "hauler_character_id does not belong to you");
  active ← query (λ db, active_claim_of db item_id);
  _ ← of_result (check_active_claim active (cur_user_id cur) (cur_role cur) (rfb_claim_id body));
  _ ← sql (insert_fulfillment item_id (fst <$> active) (cur_user_id cur) body);
  new_status ← recompute_item_status item_id Forbid;
  _ ← advance_claim active new_status;
  _ ← upsert_reimbursement (cur_list_id cur) requested_by (cur_user_id cur);
  load_list_detail (cur_list_id cur) (cur_user_id cur) (cur_role cur).

Definition reverse_fulfillment (fulfillment_id user_id : Uuid) : Handler ListDetail :=
  row ← query (λ db,
    f ← fulfillments db !! fulfillment_id;
    li ← list_items db !! f_list_item_id f;
    Some (f, li));
  '(f, li) ← expect not_found row;
  requested_by ← sql (not_null "requested_by_user_id" (li_requested_by_user_id li));
  let list_id := li_list_id li in
  _ ← lock_list list_id;
  '(reversed_at, l) ← sql (fetch_one (λ db,
    f ← fulfillments db !! fulfillment_id;
    li ← list_items db !! f_list_item_id f;
    l ← lists db !! li_list_id li;
    Some (f_reversed_at f, l)));
  _ ← ensure (l_status l != List_Archived) (Conflict archived_msg);
  _ ← ensure (is_none reversed_at) (BadRequest "fulfillment is already reversed");
  role ← query (λ db, member_role db user_id (l_group_id l));
  role ← expect forbidden role;
  _ ← ensure ((user_id == f_hauler_user_id f) || (role == Owner)) forbidden;
  reimb_status ← query (λ db, cycle_status db list_id requested_by (f_hauler_user_id f));
  _ ← ensure (match reimb_status with Some rs => rs == Reimb_Pending | None => true end)
        (Conflict "cannot reverse a fulfillment whose reimbursement is already settled");
  hit ← query (λ db, f ← fulfillments db !! fulfillment_id;
                     if is_none (f_reversed_at f) then Some (f_list_item_id f) else None);
  _ ← execute (λ db, db <| fulfillments ::= update_where
        (λ k f, (k == fulfillment_id) && is_none (f_reversed_at f))
        (λ f, f <| f_reversed_at := Some (db_now db) |>) |>);
  item_id ← expect (BadRequest "fulfillment is already reversed") hit;
  _ ← recompute_item_status item_id Allow;
  _ ← upsert_reimbursement list_id requested_by (f_hauler_user_id f);
  load_list_detail list_id user_id role.

(** The hauler of the item's latest live fulfillment. *)
Definition last_hauler (db : Db) (item_id : Uuid) : option Uuid :=
  (λ kv, f_hauler_user_id kv.2) <$>
    head (sort_by (λ a b, (f_bought_at b.2 <=? f_bought_at a.2)%Z)
      (select_where (λ _, live_of item_id) (fulfillments db))).

Definition all_delivered (db : Db) (list_id : Uuid) : bool :=
  negb (sel_exists (λ _ li, (li_list_id li == list_id) &&
    negb ((li_status li == Item_Delivered) || (li_status li == Item_Settled))) (list_items db)).

Definition mark_delivered (cur : CurrentList) (item_id : Uuid) : Handler ListDetail :=
  _ ← of_result (require_mutable cur);
  _ ← lock_list (cur_list_id cur);
  row ← query (λ db, li ← item_on_list db (cur_list_id cur) item_id;
                     Some (li_status li, last_hauler db item_id));
  '(status, hauler) ← expect not_found row;
  _ ← ensure (status == Item_Bought)
        (BadRequest ("item must be in 'bought' status to mark delivered (currently: " +:+
                     ListItemStatus_to_string status +:+ ")"));
  _ ← ensure ((cur_user_id cur == default uuid_nil hauler) || (cur_role cur == Owner)) forbidden;
  _ ← execute (λ db, db <| list_items ::= update_where (λ k _, k == item_id)
        (λ li, li <| li_status := Item_Delivered |>) |>);
  all_done ← query (λ db, all_delivered db (cur_list_id cur));
  hauler_name ← sql (fetch_one (λ db, u_display_name <$> users db !! cur_user_id cur));
  l ← sql (fetch_one (λ db, lists db !! cur_list_id cur));
  _ ← when all_done (sql (fire_webhook (l_group_id l)
        (ListDelivered (default "(unnamed)" (l_destination_label l)) hauler_name)));
  load_list_detail (cur_list_id cur) (cur_user_id cur) (cur_role cur).

End Fulfillments.
