(* ===== verification/Contracts.v ===== *)
(** * Contract linking

    [crates/api/src/contracts.rs]: the hauler's confirm, reject, manual-link
    and unlink of a contract to a reimbursement, and the two listings. *)

From Stdlib Require Import ZArith Lia.
From stdpp Require Import base tactics decidable option list gmap strings pretty.
From S2P Require Import Prelude Effect Money Domain Host Schema Fixtures Errors.
From S2P Require Import Extract Webhooks Detail Settlement.

Local Open Scope string_scope.

Record LinkLockRow := mkLinkLockRow {
  ll_suggestion_state : option ContractMatchState;
  ll_contract_id : Uuid;
  ll_contract_type : ContractType;
  ll_contract_status : ContractStatus;
  ll_issuer_user_id : option Uuid;
  ll_issuer_principal_id : option Uuid;
  ll_assignee_user_id : option Uuid;
  ll_assignee_principal_id : option Uuid;
  ll_reimbursement_id : Uuid;
  ll_reimbursement_status : ReimbursementStatus;
  ll_reimbursement_contract_id : option Uuid;
  ll_hauler_user_id : Uuid;
  ll_hauler_principal_id : Uuid;
  ll_requester_user_id : option Uuid;
  ll_requester_principal_id : Uuid;
  ll_group_id : Uuid
}.

Record SuggestionDecision := mkSuggestionDecision {
  sd_suggestion_id : Uuid;
  sd_state : string;
  sd_settled : bool
}.

Record SuggestionDto := mkSuggestionDto {
  dto_id : Uuid;
  dto_contract_id : Uuid;
  dto_esi_contract_id : Z;
  dto_contract_status : ContractStatus;
  dto_contract_price_isk : Z;
  dto_contract_expected_total_isk : option Z;
  dto_reimbursement_id : Uuid;
  dto_list_id : Uuid;
  dto_list_destination_label : option string;
  dto_requester_display_name : string;
  dto_hauler_display_name : string;
  dto_reimbursement_total_isk : Z;
  dto_score : Z;
  dto_exact_match : bool;
  dto_state : ContractMatchState;
  dto_created_at : Timestamp;
  dto_decided_at : option Timestamp
}.

Record BoundContractDto := mkBoundContractDto {
  bc_contract_id : Uuid;
  bc_esi_contract_id : Z;
  bc_status : ContractStatus;
  bc_price_isk : Z;
  bc_expected_total_isk : option Z;
  bc_settlement_delta_isk : option Z;
  bc_date_completed : option Timestamp;
  bc_bound_reimbursement_count : Z
}.

Definition map_confirmed_dup (e : DbError) : ApiError :=
  if constraint_of e == Some "one_confirmed_suggestion_per_reimbursement"
  then Conflict "reimbursement already confirmed against another contract"
  else internal (DbError_to_string e).

Section Contracts.
Context `{RT : Runtime}.

(** ** Validation *)

Definition link_lock_row (state : option ContractMatchState) (contract_id reimbursement_id : Uuid)
    (c : ContractRow) (r : ReimbursementRow) (group_id : Uuid) : LinkLockRow :=
  mkLinkLockRow state contract_id (ct_contract_type c) (ct_status c) (ct_issuer_user_id c)
    (ct_issuer_principal_id c) (ct_assignee_user_id c) (ct_assignee_principal_id c)
    reimbursement_id (r_status r) (r_contract_id r) (r_hauler_user_id r)
    (r_hauler_principal_id r) (r_requester_user_id r) (r_requester_principal_id r) group_id.

Definition validate_link (ctx : LinkLockRow) (user_id : Uuid) : Handler unit :=
  _ ← ensure (ll_contract_type ctx == ItemExchange) (Conflict "contract is not item_exchange");
  _ ← ensure ((ll_reimbursement_status ctx == Reimb_Pending) &&
              is_none (ll_reimbursement_contract_id ctx))
        (Conflict "reimbursement is no longer eligible");
  _ ← ensure (ll_hauler_user_id ctx == user_id) forbidden;
  _ ← ensure (is_none (ll_issuer_user_id ctx) || (ll_issuer_user_id ctx == Some user_id)) forbidden;
  _ ← ensure (ll_issuer_principal_id ctx == Some (ll_hauler_principal_id ctx))
        (Conflict "contract issuer does not match the reimbursement's hauler");
  _ ← ensure (match ll_assignee_principal_id ctx with
              | Some a => a == ll_requester_principal_id ctx
              | None => true
              end)
        (Conflict "contract assignee does not match the reimbursement's requester");
  member ← query (λ db, is_member db (ll_group_id ctx) user_id);
  ensure member forbidden.

(** ** Binding *)

Definition finalize_link (ctx : LinkLockRow)
    : Handler (bool * list ContractSettledReimbursement) :=
  _ ← execute (λ db, db <| reimbursements ::= update_where (λ k _, k == ll_reimbursement_id ctx)
        (λ r, r <| r_contract_id := Some (ll_contract_id ctx) |>
                <| r_updated_at := db_now db |>) |>);
  _ ← map_err (settlement_internal "recompute_contract_expected_total")
        (recompute_contract_expected_total (ll_contract_id ctx));
  let already_finished := is_terminal_success (ll_contract_status ctx) in
  infos ← (if already_finished
           then map_err (settlement_internal "settle_via_contract")
                  (settle_via_contract (ll_contract_id ctx))
           else mret []);
  mret (already_finished, infos).

(** [one_confirmed_suggestion_per_reimbursement]: no other suggestion of the
    reimbursement is confirmed. *)
Definition no_other_confirmed (db : Db) (suggestion_id reimbursement_id : Uuid) : bool :=
  negb (sel_exists (λ k s, (k != suggestion_id) && (s_reimbursement_id s == reimbursement_id) &&
                           (s_state s == Match_Confirmed)) (contract_match_suggestions db)).

Definition confirm_suggestion_row (suggestion_id reimbursement_id user_id : Uuid) : Stmt unit :=
  _ ← unique (λ db, no_other_confirmed db suggestion_id reimbursement_id)
        "one_confirmed_suggestion_per_reimbursement";
  execute (λ db, db <| contract_match_suggestions ::= update_where (λ k _, k == suggestion_id)
    (λ s, s <| s_state := Match_Confirmed |> <| s_decided_at := Some (db_now db) |>
            <| s_decided_by_user_id := Some user_id |>) |>).

Definition confirm_row (db : Db) (suggestion_id : Uuid) : option LinkLockRow :=
  s ← contract_match_suggestions db !! suggestion_id;
  c ← contracts db !! s_contract_id s;
  r ← reimbursements db !! s_reimbursement_id s;
  l ← lists db !! r_list_id r;
  Some (link_lock_row (Some (s_state s)) (s_contract_id s) (s_reimbursement_id s) c r
          (l_group_id l)).

Definition do_confirm (user_id suggestion_id : Uuid)
    : Handler (SuggestionDecision * list ContractSettledReimbursement) :=
  row ← query (λ db, confirm_row db suggestion_id);
  ctx ← expect not_found row;
  _ ← ensure (ll_suggestion_state ctx == Some Match_Pending)
        (Conflict ("suggestion is already " +:+
           default "(unknown)" (ContractMatchState_to_string <$> ll_suggestion_state ctx)));
  _ ← validate_link ctx user_id;
  _ ← map_err map_confirmed_dup
        (confirm_suggestion_row suggestion_id (ll_reimbursement_id ctx) user_id);
  '(settled, infos) ← finalize_link ctx;
  mret (mkSuggestionDecision suggestion_id "confirmed" settled, infos).

(** ** Manual link *)

Definition manual_row (db : Db) (contract_id reimbursement_id : Uuid) : option LinkLockRow :=
  c ← contracts db !! contract_id;
  r ← reimbursements db !! reimbursement_id;
  l ← lists db !! r_list_id r;
  Some (link_lock_row None contract_id reimbursement_id c r (l_group_id l)).

(** [INSERT ... ON CONFLICT (contract_id, reimbursement_id) DO UPDATE]. *)
Definition upsert_confirmed (contract_id reimbursement_id user_id : Uuid) : Stmt unit :=
  id ← new_uuid;
  existing ← query (λ db, fst <$> head (select_where (λ _ s,
    (s_contract_id s == contract_id) && (s_reimbursement_id s == reimbursement_id))
    (contract_match_suggestions db)));
  match existing with
  | Some sid => confirm_suggestion_row sid reimbursement_id user_id
  | None =>
      _ ← unique (λ db, negb (row_exists (contract_match_suggestions db) id))
            "contract_match_suggestions_pkey";
      _ ← unique (λ db, no_other_confirmed db id reimbursement_id)
            "one_confirmed_suggestion_per_reimbursement";
      execute (λ db, db <| contract_match_suggestions ::=
        <[id := mkSuggestionRow contract_id reimbursement_id 10000 false Match_Confirmed
                  (db_now db) (Some (db_now db)) (Some user_id)]> |>)
  end.

Definition do_manual_link (user_id contract_id reimbursement_id : Uuid)
    : Handler (SuggestionDecision * list ContractSettledReimbursement) :=
  row ← query (λ db, manual_row db contract_id reimbursement_id);
  ctx ← expect not_found row;
  _ ← validate_link ctx user_id;
  _ ← map_err map_confirmed_dup
        (upsert_confirmed (ll_contract_id ctx) (ll_reimbursement_id ctx) user_id);
  '(settled, infos) ← finalize_link ctx;
  mret (mkSuggestionDecision (ll_reimbursement_id ctx) "confirmed" settled, infos).

(** ** Reject *)

Definition do_reject (user_id suggestion_id : Uuid) : Handler SuggestionDecision :=
  row ← query (λ db,
    s ← contract_match_suggestions db !! suggestion_id;
    c ← contracts db !! s_contract_id s;
    r ← reimbursements db !! s_reimbursement_id s;
    l ← lists db !! r_list_id r;
    Some (s_state s, ct_issuer_user_id c, r_hauler_user_id r, l_group_id l));
  '(cur_state, issuer_user_id, hauler_user_id, group_id) ← expect not_found row;
  _ ← ensure (cur_state == Match_Pending)
        (Conflict ("suggestion is already " +:+ ContractMatchState_to_string cur_state));
  let allowed := match issuer_user_id with
                 | Some iuid => iuid == user_id
                 | None => hauler_user_id == user_id
                 end in
  _ ← ensure allowed forbidden;
  member ← query (λ db, is_member db group_id user_id);
  _ ← ensure member forbidden;
  _ ← execute (λ db, db <| contract_match_suggestions ::= update_where (λ k _, k == suggestion_id)
        (λ s, s <| s_state := Match_Rejected |> <| s_decided_at := Some (db_now db) |>
                <| s_decided_by_user_id := Some user_id |>) |>);
  mret (mkSuggestionDecision suggestion_id "rejected" false).

(** ** Unlink *)

Definition is_ambassador (db : Db) (corp_id user_id : Uuid) : bool :=
  sel_exists (λ k ca, (k.1 == corp_id) && is_none (ca_disabled_at ca) &&
    match characters db !! k.2 with
    | Some ch => ch_user_id ch == user_id
    | None => false
    end) (corp_ambassadors db).

Definition may_unlink (db : Db) (c : ContractRow) (user_id : Uuid) : bool :=
  match ct_issuer_user_id c with
  | Some iuid => iuid == user_id
  | None =>
      if ct_assignee_user_id c == Some user_id then true
      else match ct_source_corp_id c with
           | Some corp_id => is_ambassador db corp_id user_id
           | None => false
           end
  end.

(** Some bound reimbursement belongs to a group the caller is not in. *)
Definition outside_group (db : Db) (contract_id user_id : Uuid) : bool :=
  sel_exists (λ _ r, bound_to contract_id r &&
    match lists db !! r_list_id r with
    | Some l => negb (is_member db (l_group_id l) user_id)
    | None => false
    end) (reimbursements db).

Definition do_unlink (user_id contract_id : Uuid) : Handler SuggestionDecision :=
  row ← query (λ db, contracts db !! contract_id);
  c ← expect not_found row;
  allowed ← query (λ db, may_unlink db c user_id);
  _ ← ensure allowed forbidden;
  outside ← query (λ db, outside_group db contract_id user_id);
  _ ← ensure (negb outside) forbidden;
  _ ← ensure (negb (is_terminal_success (ct_status c)))
        (Conflict "cannot unlink a finished contract; that would unwind a settlement");
  _ ← execute (λ db, db <| reimbursements ::= update_where
        (λ _ r, bound_to contract_id r && (r_status r == Reimb_Pending))
        (λ r, r <| r_contract_id := None |> <| r_updated_at := db_now db |>) |>);
  _ ← execute (λ db, db <| contract_match_suggestions ::= update_where
        (λ _ s, (s_contract_id s == contract_id) && (s_state s == Match_Confirmed))
        (λ s, s <| s_state := Match_Superseded |> <| s_decided_at := Some (db_now db) |>) |>);
  _ ← map_err (settlement_internal "recompute_contract_expected_total")
        (recompute_contract_expected_total contract_id);
  mret (mkSuggestionDecision contract_id "unlinked" false).

(** ** Endpoints *)

Definition fire_settlement_webhooks (infos : list ContractSettledReimbursement) : Handler unit :=
  for_each (λ info, sql (fire_webhook (csr_group_id info)
    (ReimbursementSettled (csr_list_destination info) (csr_requester_name info)
       (csr_hauler_name info) (decimal_to_string (csr_total_isk info))))) infos.

Definition confirm_suggestion (user_id suggestion_id : Uuid) : Handler SuggestionDecision :=
  '(decision, infos) ← do_confirm user_id suggestion_id;
  _ ← fire_settlement_webhooks infos;
  mret decision.

Definition reject_suggestion (user_id suggestion_id : Uuid) : Handler SuggestionDecision :=
  do_reject user_id suggestion_id.

Definition manual_link (user_id contract_id reimbursement_id : Uuid) : Handler SuggestionDecision :=
  '(decision, infos) ← do_manual_link user_id contract_id reimbursement_id;
  _ ← fire_settlement_webhooks infos;
  mret decision.

Definition unlink_contract (user_id contract_id : Uuid) : Handler SuggestionDecision :=
  do_unlink user_id contract_id.

(** ** Listings *)

Definition state_rank (s : ContractMatchState) : Z :=
  match s with Match_Pending => 0 | Match_Confirmed => 1 | Match_Rejected => 2
             | Match_Superseded => 3 end%Z.

(** [COALESCE(ru.display_name, rc.name)], NULL when neither join matches. *)
Definition suggestion_requester_name (db : Db) (r : ReimbursementRow) : option string :=
  coalesce (u_display_name <$> (r_requester_user_id r ≫= λ u, users db !! u))
    (p ← principals db !! r_requester_principal_id r;
     cid ← p_corp_id p; co_name <$> corps db !! cid).

Definition suggestion_rows (db : Db) (group_id user_id : Uuid)
    : list (Uuid * SuggestionRow) :=
  take 200 (sort_by (λ a b,
      let sa := state_rank (s_state a.2) in let sb := state_rank (s_state b.2) in
      (sa <? sb)%Z || ((sa =? sb)%Z && (s_created_at b.2 <=? s_created_at a.2)%Z))
    (select_where (λ _ s,
       ((s_state s == Match_Pending) || (s_state s == Match_Confirmed)) &&
       row_exists (contracts db) (s_contract_id s) &&
       match reimbursements db !! s_reimbursement_id s with
       | Some r => (r_hauler_user_id r == user_id) && row_exists (users db) user_id &&
           match lists db !! r_list_id r with
           | Some l => l_group_id l == group_id
           | None => false
           end
       | None => false
       end) (contract_match_suggestions db))).

Definition suggestion_dto (db : Db) (id : Uuid) (s : SuggestionRow) : Stmt SuggestionDto :=
  joined ← fetch_one (λ _,
    c ← contracts db !! s_contract_id s;
    r ← reimbursements db !! s_reimbursement_id s;
    l ← lists db !! r_list_id r;
    hu ← users db !! r_hauler_user_id r;
    Some (c, r, l, hu));
  let '(c, r, l, hu) := joined in
  name ← not_null "requester_display_name" (suggestion_requester_name db r);
  mret (mkSuggestionDto id (s_contract_id s) (ct_esi_contract_id c) (ct_status c)
          (ct_price_isk c) (ct_expected_total_isk c) (s_reimbursement_id s) (r_list_id r)
          (l_destination_label l) name (u_display_name hu) (r_total_isk r) (s_score s)
          (s_exact_match s) (s_state s) (s_created_at s) (s_decided_at s)).

Fixpoint suggestion_dtos (db : Db) (rows : list (Uuid * SuggestionRow))
    : Stmt (list SuggestionDto) :=
  match rows with
  | [] => mret []
  | (id, s) :: rest =>
      d ← suggestion_dto db id s;
      ds ← suggestion_dtos db rest;
      mret (d :: ds)
  end.

Definition list_suggestions (cur : CurrentGroup) : Handler (list SuggestionDto) :=
  db ← query id;
  sql (suggestion_dtos db (suggestion_rows db (cg_group_id cur) (cg_user_id cur))).

Definition list_contracts (cur : CurrentGroup) : Handler (list BoundContractDto) :=
  query (λ db,
    let mine cid r := bound_to cid r && (r_hauler_user_id r == cg_user_id cur) &&
      match lists db !! r_list_id r with
      | Some l => l_group_id l == cg_group_id cur
      | None => false
      end in
    (λ '(cid, c), mkBoundContractDto cid (ct_esi_contract_id c) (ct_status c) (ct_price_isk c)
        (ct_expected_total_isk c) (ct_settlement_delta_isk c) (ct_date_completed c)
        (count_where (λ _, mine cid) (reimbursements db))) <$>
    take 200 (sort_by (λ a b, (ct_updated_at b.2 <=? ct_updated_at a.2)%Z)
      (select_where (λ cid _, sel_exists (λ _, mine cid) (reimbursements db)) (contracts db)))).

(** ** Lemmas *)

(** What validation has established about the caller and the two rows. *)
Definition link_valid (db : Db) (ctx : LinkLockRow) (user_id : Uuid) : Prop :=
  ll_contract_type ctx = ItemExchange ∧
  ll_reimbursement_status ctx = Reimb_Pending ∧
  ll_reimbursement_contract_id ctx = None ∧
  ll_hauler_user_id ctx = user_id ∧
  (ll_issuer_user_id ctx = None ∨ ll_issuer_user_id ctx = Some user_id) ∧
  ll_issuer_principal_id ctx = Some (ll_hauler_principal_id ctx) ∧
  (ll_assignee_principal_id ctx = None ∨
   ll_assignee_principal_id ctx = Some (ll_requester_principal_id ctx)) ∧
  is_member db (ll_group_id ctx) user_id = true.

Lemma validate_link_Ok ctx user db u db' :
  validate_link ctx user db = Ok (u, db') → db' = db ∧ link_valid db ctx user.
Proof.
  unfold validate_link, link_valid. intros Hrun. inv_sql. bool_simpl.
  split; [done|]. split_and!; try done.
  - match goal with H : _ || _ = true |- _ => apply orb_true_iff in H as [H|H] end;
      bool_simpl; auto.
  - destruct (ll_assignee_principal_id ctx); [right|by left]. by bool_simpl; f_equal.
Qed.

Lemma recompute_Ok cid db u db' :
  recompute_contract_expected_total cid db = Ok (u, db') →
  db' = db <| contracts ::= update_where (λ k _, k == cid)
                (λ c, c <| ct_expected_total_isk := expected_total db cid |>) |>.
Proof. unfold recompute_contract_expected_total. intros Hrun. by inv_sql. Qed.

(** The state after binding and recomputing, before any settlement. *)
Definition bind_reimbursement (ctx : LinkLockRow) (db : Db) : Db :=
  let db1 := db <| reimbursements ::= update_where (λ k _, k == ll_reimbursement_id ctx)
        (λ r, r <| r_contract_id := Some (ll_contract_id ctx) |>
                <| r_updated_at := db_now db |>) |> in
  db1 <| contracts ::= update_where (λ k _, k == ll_contract_id ctx)
        (λ c, c <| ct_expected_total_isk := expected_total db1 (ll_contract_id ctx) |>) |>.

Lemma finalize_link_Ok ctx db settled infos db' :
  finalize_link ctx db = Ok ((settled, infos), db') →
  settled = is_terminal_success (ll_contract_status ctx) ∧
  if settled then settle_via_contract (ll_contract_id ctx) (bind_reimbursement ctx db) = Ok (infos, db')
  else infos = [] ∧ db' = bind_reimbursement ctx db.
Proof.
  unfold finalize_link. intros Hrun. inv_sql. simplify_eq.
  match goal with H : recompute_contract_expected_total _ _ = _ |- _ =>
    apply recompute_Ok in H end. subst.
  split; [done|]. destruct (is_terminal_success _); inv_sql; done.
Qed.

Definition confirm_row_at (suggestion_id user_id : Uuid) (now : Timestamp)
    : gmap Uuid SuggestionRow → gmap Uuid SuggestionRow :=
  update_where (λ k _, k == suggestion_id)
    (λ s, s <| s_state := Match_Confirmed |> <| s_decided_at := Some now |>
            <| s_decided_by_user_id := Some user_id |>).

Lemma do_confirm_run user sid db d infos db' :
  do_confirm user sid db = Ok ((d, infos), db') →
  ∃ ctx, confirm_row db sid = Some ctx ∧ link_valid db ctx user ∧
    ll_suggestion_state ctx = Some Match_Pending ∧
    no_other_confirmed db sid (ll_reimbursement_id ctx) = true ∧
    d = mkSuggestionDecision sid "confirmed" (is_terminal_success (ll_contract_status ctx)) ∧
    finalize_link ctx (db <| contract_match_suggestions ::=
                         confirm_row_at sid user (db_now db) |>) = Ok ((sd_settled d, infos), db').
Proof.
  unfold do_confirm, confirm_suggestion_row. intros Hrun. inv_sql.
  match goal with x : bool * _ |- _ => destruct x as [settled infos'] end.
  inv_sql. match goal with H : validate_link _ _ _ = _ |- _ =>
    apply validate_link_Ok in H as [-> Hv] end.
  bool_simpl. eexists. split; [done|]. split_and!; try done.
  match goal with H : finalize_link _ _ = _ |- _ =>
    pose proof (finalize_link_Ok _ _ _ _ _ H) as [-> _] end. done.
Qed.

(** The suggestion a manual link leaves confirmed. *)
Lemma upsert_confirmed_run cid rid user db u db' :
  upsert_confirmed cid rid user db = Ok (u, db') →
  ∃ sid s n, no_other_confirmed db sid rid = true ∧
    s_contract_id s = cid ∧ s_reimbursement_id s = rid ∧ s_state s = Match_Confirmed ∧
    (contract_match_suggestions db !! sid = None ∨
     ∃ s0, contract_match_suggestions db !! sid = Some s0 ∧
       s_contract_id s0 = cid ∧ s_reimbursement_id s0 = rid) ∧
    db' = db <| contract_match_suggestions := <[sid := s]> (contract_match_suggestions db) |>
             <| db_draws := n |>.
Proof.
  unfold upsert_confirmed, confirm_suggestion_row. intros Hrun. inv_sql.
  set_simpl. destruct (head _) as [[sid s0]|] eqn:Hh; cbn in Hrun; inv_sql.
  - destruct (select_where _ _) as [|[k v] rest] eqn:Hsel; [done|]. cbn in Hh. simplify_eq.
    assert ((sid, s0) ∈ select_where (λ _ s, (s_contract_id s == cid) &&
        (s_reimbursement_id s == rid)) (contract_match_suggestions db)) as Hin
      by (rewrite Hsel; left).
    apply elem_of_select_where in Hin as [Hs0 Hc]. bool_simpl.
    exists sid, (s0 <| s_state := Match_Confirmed |> <| s_decided_at := Some (db_now db) |>
                    <| s_decided_by_user_id := Some user |>), (N.succ (db_draws db)).
    split_and!; try done; [eauto 6|].
    unfold set. cbn. by rewrite (update_where_key _ _ _ _ Hs0).
  - rewrite negb_true_iff, row_exists_false in *.
    eexists _, (mkSuggestionRow cid rid 10000 false Match_Confirmed (db_now db)
                 (Some (db_now db)) (Some user)), _.
    split_and!; try done; by left.
Qed.

Lemma finalize_link_reimbursement ctx db settled infos db' r :
  finalize_link ctx db = Ok ((settled, infos), db') →
  reimbursements db !! ll_reimbursement_id ctx = Some r → r_status r = Reimb_Pending →
  contract_match_suggestions db' = contract_match_suggestions db ∧
  ∃ r', reimbursements db' !! ll_reimbursement_id ctx = Some r' ∧
    r_contract_id r' = Some (ll_contract_id ctx) ∧
    r_status r' = (if settled then Reimb_Settled else Reimb_Pending) ∧
    r_subtotal_isk r' = r_subtotal_isk r ∧ r_tip_isk r' = r_tip_isk r ∧
    r_total_isk r' = r_total_isk r.
Proof.
  intros Hrun Hr Hp. apply finalize_link_Ok in Hrun as [_ Hrun].
  assert (reimbursements (bind_reimbursement ctx db) !! ll_reimbursement_id ctx =
    Some (r <| r_contract_id := Some (ll_contract_id ctx) |> <| r_updated_at := db_now db |>))
    as Hb.
  { unfold bind_reimbursement. set_simpl. rewrite lookup_update_where, Hr. cbn.
    by rewrite bool_decide_eq_true_2. }
  destruct settled.
  - apply settle_via_contract_tables in Hrun as (c & _ & Hrs & Hdb & _). split.
    { rewrite Hdb. reflexivity. }
    rewrite Hrs. unfold settle_bound. rewrite lookup_update_where, Hb. cbn.
    unfold bound_to. set_simpl. rewrite Hp, !bool_decide_eq_true_2 by done. cbn.
    eexists. split; [done|]. done.
  - destruct Hrun as [-> ->]. split; [reflexivity|]. eexists. split; [exact Hb|]. done.
Qed.

(** A link is requested through a suggestion or directly. *)
Definition link_run (user : Uuid) (target : Uuid + Uuid * Uuid)
    : Handler (SuggestionDecision * list ContractSettledReimbursement) :=
  match target with
  | inl sid => do_confirm user sid
  | inr (cid, rid) => do_manual_link user cid rid
  end.

Definition link_target (db : Db) (target : Uuid + Uuid * Uuid) (cid rid : Uuid) : Prop :=
  match target with
  | inl sid => ∃ s, contract_match_suggestions db !! sid = Some s ∧ s_contract_id s = cid ∧
                    s_reimbursement_id s = rid ∧ s_state s = Match_Pending
  | inr p => p = (cid, rid)
  end.

Lemma link_run_cases user target db d infos db' :
  link_run user target db = Ok ((d, infos), db') →
  ∃ cid rid c r l ctx db1,
    link_target db target cid rid ∧ contracts db !! cid = Some c ∧
    reimbursements db !! rid = Some r ∧ lists db !! r_list_id r = Some l ∧
    (∃ st, ctx = link_lock_row st cid rid c r (l_group_id l)) ∧ link_valid db ctx user ∧
    (∃ sid s n, no_other_confirmed db sid rid = true ∧
       s_contract_id s = cid ∧ s_reimbursement_id s = rid ∧ s_state s = Match_Confirmed ∧
       (contract_match_suggestions db !! sid = None ∨
        ∃ s0, contract_match_suggestions db !! sid = Some s0 ∧
          s_contract_id s0 = cid ∧ s_reimbursement_id s0 = rid) ∧
       db1 = db <| contract_match_suggestions := <[sid := s]> (contract_match_suggestions db) |>
                <| db_draws := n |>) ∧
    finalize_link ctx db1 = Ok ((sd_settled d, infos), db') ∧
    sd_settled d = is_terminal_success (ct_status c).
Proof.
  destruct target as [sid|[cid rid]]; cbn [link_run]; intros Hrun.
  - apply do_confirm_run in Hrun as (ctx & Hctx & Hv & Hst & Hno & -> & Hf).
    unfold confirm_row in Hctx. simplify_option_eq.
    match goal with H : contract_match_suggestions db !! sid = Some ?x |- _ =>
      rename x into s, H into Hs end.
    do 7 eexists. split; [exists s; split_and!; done|]. split_and!; try done; [eauto|].
    exists sid, (s <| s_state := Match_Confirmed |> <| s_decided_at := Some (db_now db) |>
                   <| s_decided_by_user_id := Some user |>), (db_draws db).
    split_and!; try done; [eauto 6|]. unfold confirm_row_at, set. cbn.
    by rewrite (update_where_key _ _ _ _ Hs).
  - unfold do_manual_link in Hrun. inv_sql.
    match goal with x : bool * _ |- _ => destruct x as [settled infos'] end. inv_sql.
    match goal with H : validate_link _ _ _ = _ |- _ =>
      apply validate_link_Ok in H as [-> Hv] end.
    match goal with H : upsert_confirmed _ _ _ _ = _ |- _ =>
      apply upsert_confirmed_run in H as (sid & s & n & Hs) end.
    match goal with H : manual_row _ _ _ = Some _ |- _ =>
      unfold manual_row in H; simplify_option_eq end.
    do 7 eexists. split; [done|]. split_and!; try done; [eauto|by exists sid, s, n|].
    match goal with H : finalize_link _ _ = _ |- _ => by apply finalize_link_Ok in H as [? _] end.
Qed.

(** ** Properties *)

(** C21 Whoever links a contract to a reimbursement, by confirming a suggestion
    or manually, is its hauler and a member of its list's group; the contract
    is an item exchange issued by the hauler's principal (and by the caller,
    when a user issued it) with no assignee or the reimbursement's requester,
    and the reimbursement was pending and unbound. *)
Theorem link_requires_standing user target db d infos db' :
  link_run user target db = Ok ((d, infos), db') →
  ∃ cid rid c r l, link_target db target cid rid ∧
    contracts db !! cid = Some c ∧ reimbursements db !! rid = Some r ∧
    lists db !! r_list_id r = Some l ∧
    ct_contract_type c = ItemExchange ∧ r_status r = Reimb_Pending ∧ r_contract_id r = None ∧
    r_hauler_user_id r = user ∧
    (ct_issuer_user_id c = None ∨ ct_issuer_user_id c = Some user) ∧
    ct_issuer_principal_id c = Some (r_hauler_principal_id r) ∧
    (ct_assignee_principal_id c = None ∨
     ct_assignee_principal_id c = Some (r_requester_principal_id r)) ∧
    is_member db (l_group_id l) user = true.
Proof.
  intros Hrun. apply link_run_cases in Hrun
    as (cid & rid & c & r & l & ctx & db1 & Ht & Hc & Hr & Hl & [st ->] & Hv & _).
  exists cid, rid, c, r, l. by destruct Hv as (? & ? & ? & ? & ? & ? & ? & ?).
Qed.

(** C22 Linking binds the reimbursement to the contract without changing its
    amounts, settles it in the same request exactly when the contract is
    already finished (which is what the response reports), and leaves one
    confirmed suggestion for the pair and none other for the reimbursement. *)
Theorem link_binds user target db d infos db' :
  link_run user target db = Ok ((d, infos), db') →
  ∃ cid rid c r r' sid s, link_target db target cid rid ∧ contracts db !! cid = Some c ∧
    reimbursements db !! rid = Some r ∧ reimbursements db' !! rid = Some r' ∧
    sd_settled d = is_terminal_success (ct_status c) ∧
    r_contract_id r' = Some cid ∧
    r_status r' = (if sd_settled d then Reimb_Settled else Reimb_Pending) ∧
    r_subtotal_isk r' = r_subtotal_isk r ∧ r_tip_isk r' = r_tip_isk r ∧
    r_total_isk r' = r_total_isk r ∧
    contract_match_suggestions db' !! sid = Some s ∧ s_contract_id s = cid ∧
    s_reimbursement_id s = rid ∧ s_state s = Match_Confirmed ∧
    ∀ sid2 s2, contract_match_suggestions db' !! sid2 = Some s2 →
      s_reimbursement_id s2 = rid → s_state s2 = Match_Confirmed → sid2 = sid.
Proof.
  intros Hrun. apply link_run_cases in Hrun
    as (cid & rid & c & r & l & ctx & db1 & Ht & Hc & Hr & Hl & [st ->] & Hv &
        (sid & s & n & Hno & Hsc & Hsr & Hss & _ & ->) & Hf & Hd).
  destruct (finalize_link_reimbursement _ _ _ _ _ r Hf Hr) as [Hcms (r' & Hr' & Hrest)];
    [by destruct Hv as (_ & ? & _)|].
  exists cid, rid, c, r, r', sid, s. split_and!; try done; try apply Hrest.
  - rewrite Hcms. set_simpl. by rewrite lookup_insert_eq.
  - intros sid2 s2 Hs2 Hr2 Hc2. rewrite Hcms in Hs2. set_simpl.
    apply lookup_insert_Some in Hs2 as [[<- _]|[Hne Hs2]]; [done|].
    unfold no_other_confirmed in Hno. apply negb_true_iff in Hno.
    rewrite sel_exists_false in Hno. specialize (Hno _ _ Hs2). cbn in Hno.
    by rewrite Hr2, Hc2, bool_decide_eq_false_2, !bool_decide_eq_true_2 in Hno by congruence.
Qed.

(** Another suggestion confirmed for the reimbursement refuses every link. *)
Lemma link_run_stranded user target db cid rid sid s :
  contract_match_suggestions db !! sid = Some s → s_reimbursement_id s = rid →
  s_state s = Match_Confirmed → s_contract_id s ≠ cid → link_target db target cid rid →
  is_ok (link_run user target db) = false.
Proof.
  intros Hs Hr Hst Hne Ht. destruct (link_run user target db) as [[[d infos] db']|e] eqn:Hrun;
    [exfalso|done].
  apply link_run_cases in Hrun as (cid' & rid' & c & r & l & ctx & db1 & Ht' & _ & _ & _ & _ & _ &
    (sid' & s' & n & Hno & Hsc & Hsr & _ & Hold & _) & _).
  assert (cid' = cid ∧ rid' = rid) as [-> ->].
  { destruct target as [?|[? ?]]; cbn in *; naive_solver. }
  assert (sid ≠ sid') as Hd.
  { intros <-. destruct Hold as [Hn|(s0 & Hs0 & Hc0 & _)]; congruence. }
  unfold no_other_confirmed in Hno. apply negb_true_iff in Hno.
  rewrite sel_exists_false in Hno. specialize (Hno _ _ Hs). cbn in Hno.
  by rewrite Hr, Hst, bool_decide_eq_false_2, !bool_decide_eq_true_2 in Hno by congruence.
Qed.

(** What unlinking does on a database it sees all of: only the issuer (or, for a
    corporation's contract, the assignee or an active ambassador of the source
    corp) who belongs to every group with a bound reimbursement gets through,
    and never for a finished contract; exactly the pending reimbursements are
    freed, and the contract is left without a confirmed suggestion.  The
    service runs it under the row-level policies, where the membership guard is
    void: [Policies.app_unlink_spec]. *)
Theorem do_unlink_spec user cid db d db' :
  do_unlink user cid db = Ok (d, db') →
  ∃ c, contracts db !! cid = Some c ∧ is_terminal_success (ct_status c) = false ∧
    may_unlink db c user = true ∧
    (∀ k r l, reimbursements db !! k = Some r → r_contract_id r = Some cid →
       lists db !! r_list_id r = Some l → is_member db (l_group_id l) user = true) ∧
    (∀ k r, reimbursements db !! k = Some r → reimbursements db' !! k = Some (
       if bound_to cid r && (r_status r == Reimb_Pending)
       then r <| r_contract_id := None |> <| r_updated_at := db_now db |> else r)) ∧
    (∀ k s, contract_match_suggestions db' !! k = Some s →
       s_contract_id s = cid → s_state s ≠ Match_Confirmed) ∧
    (∀ k s, contract_match_suggestions db !! k = Some s → s_contract_id s ≠ cid →
       contract_match_suggestions db' !! k = Some s).
Proof.
  unfold do_unlink. intros Hrun. inv_sql.
  match goal with H : recompute_contract_expected_total _ _ = _ |- _ =>
    apply recompute_Ok in H end. subst. set_simpl. bool_simpl.
  eexists. split; [done|]. split; [done|]. split; [done|]. split; [|split; [|split]].
  - intros k r l Hr Hb Hl.
    match goal with H : outside_group _ _ _ = false |- _ => unfold outside_group in H;
      rewrite sel_exists_false in H; specialize (H _ _ Hr); rename H into Ho end.
    unfold bound_to in Ho. rewrite Hb, Hl, bool_decide_eq_true_2 in Ho by done.
    cbn in Ho. by apply negb_false_iff in Ho.
  - intros k r Hr. by rewrite lookup_update_where, Hr.
  - intros k s Hs Hc. apply lookup_update_where_Some in Hs as (s0 & Hs0 & ->).
    destruct (_ && _) eqn:Hb; [done|]. intros Hst.
    by rewrite Hc, Hst, !bool_decide_eq_true_2 in Hb.
  - intros k s Hs Hc. rewrite lookup_update_where, Hs. cbn.
    by rewrite bool_decide_eq_false_2.
Qed.

(** Rejecting decides exactly one pending suggestion, by the issuer (the
    hauler when no user issued the contract) who is a member of the group, and
    writes nothing else. *)
Theorem do_reject_spec user sid db d db' :
  do_reject user sid db = Ok (d, db') →
  ∃ s c r l, contract_match_suggestions db !! sid = Some s ∧ s_state s = Match_Pending ∧
    contracts db !! s_contract_id s = Some c ∧ reimbursements db !! s_reimbursement_id s = Some r ∧
    lists db !! r_list_id r = Some l ∧ is_member db (l_group_id l) user = true ∧
    default (r_hauler_user_id r) (ct_issuer_user_id c) = user ∧
    db' = db <| contract_match_suggestions := <[sid :=
      s <| s_state := Match_Rejected |> <| s_decided_at := Some (db_now db) |>
        <| s_decided_by_user_id := Some user |>]> (contract_match_suggestions db) |>.
Proof.
  unfold do_reject. intros Hrun. inv_sql.
  repeat match goal with x : _ * _ |- _ => destruct x end.
  inv_sql; match goal with H : mbind _ _ = Some _ |- _ => simplify_option_eq end;
  match goal with H : contract_match_suggestions _ !! sid = Some _ |- _ => rename H into Hs end;
  do 4 eexists; split_and!; try done; try by bool_simpl.
  all: try (match goal with H : context [ct_issuer_user_id ?c] |- _ =>
      destruct (ct_issuer_user_id c); by bool_simpl end).
  all: unfold set; cbn; by rewrite (update_where_key _ _ _ _ Hs).
Qed.

End Contracts.

(** ** Witnesses *)

Section Witnesses.
#[local] Existing Instance fixture_runtime.

(** [bound_db] while its contract is still outstanding, then failed. *)
Definition outstanding_db : Db :=
  bound_db <| contracts := {[ 80%N := fixture_contract Outstanding ]} |>.

(** The same with a replacement contract issued. *)
Definition replaced_db : Db :=
  outstanding_db <| contracts ::= <[81%N := fixture_contract Outstanding]> |>.

Lemma link_requires_standing_witness :
  ∃ d infos db', link_run 2 (inl 90%N) unbound_db = Ok ((d, infos), db') ∧
    is_member unbound_db 10 2 = true.
Proof.
  run_concrete (link_run 2 (inl 90%N) unbound_db) p db' Hrun. destruct p as [d infos].
  exists d, infos, db'. split; [done|].
  destruct (link_requires_standing _ _ _ _ _ _ Hrun) as
    (cid & rid & c & r & l & (s & Hs & <- & <- & _) & _ & Hr & Hl & _ & _ & _ & _ & _ & _ & _ & Hm).
  vm_compute in Hs. injection Hs as <-. vm_compute in Hr. injection Hr as <-.
  vm_compute in Hl. injection Hl as <-. exact Hm.
Defined.

Lemma link_binds_witness :
  ∃ d infos db', link_run 2 (inr (80%N, 60%N)) unbound_db = Ok ((d, infos), db') ∧
    ∃ r', reimbursements db' !! 60%N = Some r' ∧ r_contract_id r' = Some 80%N.
Proof.
  run_concrete (link_run 2 (inr (80%N, 60%N)) unbound_db) p db' Hrun. destruct p as [d infos].
  exists d, infos, db'. split; [done|].
  destruct (link_binds _ _ _ _ _ _ Hrun) as
    (cid & rid & c & r & r' & sid & s & Ht & _ & _ & Hr' & _ & Hb & _).
  injection Ht as <- <-. exists r'. split; [exact Hr'|exact Hb].
Defined.

Lemma do_unlink_spec_witness :
  ∃ d db', do_unlink 2 80 outstanding_db = Ok (d, db') ∧
    r_contract_id <$> reimbursements db' !! 60%N = Some None.
Proof.
  run_concrete (do_unlink 2 80 outstanding_db) d db' Hrun.
  exists d, db'. split; [done|].
  destruct (do_unlink_spec _ _ _ _ _ Hrun) as (c & _ & _ & _ & _ & Hr & _).
  rewrite (Hr 60%N _ eq_refl). reflexivity.
Defined.

Lemma do_reject_spec_witness :
  ∃ d db', do_reject 2 90 unbound_db = Ok (d, db') ∧
    s_state <$> contract_match_suggestions db' !! 90%N = Some Match_Rejected.
Proof.
  run_concrete (do_reject 2 90 unbound_db) d db' Hrun.
  exists d, db'. split; [done|].
  destruct (do_reject_spec _ _ _ _ _ Hrun) as (s & c & r & l & _ & _ & _ & _ & _ & _ & _ & ->).
  set_simpl. by rewrite lookup_insert_eq.
Defined.

End Witnesses.
