(* ===== verification/Poller.v ===== *)
(** * Contract pollers

    [crates/worker/src/jobs/contracts_common.rs], and the transactions of
    [contracts.rs: poll_one_character] and [corp_contracts.rs: poll_one_corp]
    that upsert what ESI returned, with the loop both [run]s end in.  The
    fetched contracts are an argument here; [ContractsJob] and
    [CorpContractsJob] hold the ticks that fetch them. *)

From Stdlib Require Import ZArith Lia.
From stdpp Require Import base tactics decidable option list gmap strings pretty.
From S2P Require Import Prelude Effect Money Domain Principals Host Schema Fixtures Errors.
From S2P Require Import Webhooks Settlement.

Local Open Scope string_scope.

(** The fields of [nea_esi::EsiContract] the pollers read. *)
Class EsiApi `{RT : Runtime} := {
  EsiContract : Type;
  ec_contract_id : EsiContract → Z;
  ec_issuer_id : EsiContract → Z;
  ec_issuer_corporation_id : EsiContract → Z;
  ec_for_corporation : EsiContract → bool;
  ec_assignee_id : EsiContract → option Z;
  ec_contract_type : EsiContract → string;
  ec_status : EsiContract → string;
  ec_price : EsiContract → option Decimal;
  ec_reward : EsiContract → option Decimal;
  ec_collateral : EsiContract → option Decimal;
  ec_date_issued : EsiContract → Timestamp;
  ec_date_expired : EsiContract → Timestamp;
  ec_date_accepted : EsiContract → option Timestamp;
  ec_date_completed : EsiContract → option Timestamp;
  ec_start_location_id : EsiContract → option Z;
  ec_end_location_id : EsiContract → option Z;
  (** [serde_json::to_value(c)]. *)
  ec_to_value : EsiContract → option Value
}.

Record UpsertedContract := mkUpsertedContract {
  uc_contract_id : Uuid;
  uc_esi_contract_id : Z;
  uc_status : ContractStatus;
  uc_status_changed : bool
}.

Definition isk_or_zero (v : option Decimal) : Decimal := default Decimal_ZERO v.

Section Poller.
Context `{RT : Runtime} {API : EsiApi}.

(** ** Terminal transitions *)

Definition enqueue_settled (info : ContractSettledReimbursement) : M Db Anyhow unit :=
  payload ← expect "serialize webhook payload"
    (to_value (ReimbursementSettled (csr_list_destination info) (csr_requester_name info)
                 (csr_hauler_name info) (decimal_to_string (csr_total_isk info))));
  sql (insert_pending_webhook (csr_group_id info) payload).

Definition handle_contract_terminal (u : UpsertedContract) : M Db Anyhow unit :=
  if is_terminal_success (uc_status u) then
    settled ← map_err (λ e, "settle_via_contract: " +:+ SettlementError_to_string e)
                (settle_via_contract (uc_contract_id u));
    for_each enqueue_settled settled
  else if is_terminal_failure (uc_status u) then
    _ ← map_err (λ e, "unbind_contract: " +:+ SettlementError_to_string e)
          (unbind_contract (uc_contract_id u));
    mret tt
  else mret tt.

(** The loop both jobs end with; a failure is logged and the loop goes on. *)
Fixpoint handle_terminals (upserts : list UpsertedContract) (db : Db) : Db :=
  match upserts with
  | [] => db
  | u :: rest =>
      handle_terminals rest
        (if uc_status_changed u then (in_transaction (handle_contract_terminal u) db).2 else db)
  end.

(** ** The principal index *)

(** [iter.collect::<HashMap<_, _>>()]: a later pair replaces an earlier one. *)
Definition collect_map (kvs : list (Uuid * Uuid)) : gmap Uuid Uuid :=
  foldl (λ m kv, <[kv.1 := kv.2]> m) ∅ kvs.

(** The principals of the given users, [HashMap] from user to principal. *)
Definition principals_of_users (db : Db) (user_ids : list Uuid) : gmap Uuid Uuid :=
  collect_map (omap (λ '(pid, p), (λ u, (u, pid)) <$> p_user_id p)
    (select_where (λ _ p, (p_kind p == Principal_User) &&
       match p_user_id p with Some u => bool_decide (u ∈ user_ids) | None => false end)
       (principals db))).

Definition principals_of_corps (db : Db) (corp_ids : list Uuid) : gmap Uuid Uuid :=
  collect_map (omap (λ '(pid, p), (λ c, (c, pid)) <$> p_corp_id p)
    (select_where (λ _ p, (p_kind p == Principal_Corp) &&
       match p_corp_id p with Some c => bool_decide (c ∈ corp_ids) | None => false end)
       (principals db))).

Definition index_user (by_user : gmap Uuid Uuid) (idx : PrincipalIndex)
    (row : Uuid * CharacterRow) : PrincipalIndex :=
  let user_id := ch_user_id row.2 in
  match by_user !! user_id with
  | Some pid => add_user idx (ch_character_id row.2) user_id
                  (mkPrincipal pid Principal_User (Some user_id) None)
  | None => idx
  end.

Definition index_corp (by_corp : gmap Uuid Uuid) (idx : PrincipalIndex)
    (row : Uuid * CorpRow) : PrincipalIndex :=
  match by_corp !! row.1 with
  | Some pid => add_corp idx (co_esi_corporation_id row.2) row.1
                  (mkPrincipal pid Principal_Corp None (Some row.1))
  | None => idx
  end.

Definition build_principal_index (db : Db) (eve_ids : list Z) : PrincipalIndex :=
  let char_rows := select_where (λ _ ch, bool_decide (ch_character_id ch ∈ eve_ids))
                     (characters db) in
  let by_user := principals_of_users db ((λ kv, ch_user_id kv.2) <$> char_rows) in
  let corp_rows := select_where (λ _ co, bool_decide (co_esi_corporation_id co ∈ eve_ids))
                     (corps db) in
  let by_corp := principals_of_corps db corp_rows.*1 in
  foldl (index_corp by_corp) (foldl (index_user by_user) PrincipalIndex_default char_rows)
    corp_rows.

(** The EVE ids of a batch; the index does not depend on their order. *)
Definition all_eve_ids (cs : list EsiContract) : list Z :=
  remove_dups (c ← cs;
    [ec_issuer_id c] ++ option_list (ec_assignee_id c) ++ [ec_issuer_corporation_id c])%list.

(** ** Upserting a batch *)

Definition contract_upsert (c : EsiContract) (contract_type : ContractType)
    (status : ContractStatus) (raw_json : Value) (source_corp_id : option Uuid)
    (idx : PrincipalIndex) (parties : ResolvedParties) : ContractUpsert :=
  mkContractUpsert (ec_contract_id c) (ec_issuer_id c)
    (issuer_principal_id parties ≫= find_user_for_principal idx)
    (ec_assignee_id c)
    (assignee_principal_id parties ≫= find_user_for_principal idx)
    (issuer_principal_id parties) (assignee_principal_id parties)
    contract_type status
    (isk_or_zero (ec_price c)) (isk_or_zero (ec_reward c)) (isk_or_zero (ec_collateral c))
    (ec_date_issued c) (Some (ec_date_expired c)) (ec_date_accepted c) (ec_date_completed c)
    (ec_start_location_id c) (ec_end_location_id c) raw_json source_corp_id.

(** One turn of the loop; [None] is [continue]. *)
Definition upsert_polled (keep : EsiContract → bool) (ctx : string)
    (source_corp_id : option Uuid) (idx : PrincipalIndex) (c : EsiContract)
    : M Db Anyhow (option UpsertedContract) :=
  match ContractType_from_str (ec_contract_type c), ContractStatus_from_str (ec_status c) with
  | Ok ItemExchange, Ok status =>
      if negb (keep c) then mret None else
      let parties := resolve_contract_parties
        (mkEsiContractParties (ec_issuer_id c) (ec_issuer_corporation_id c)
           (ec_for_corporation c) (ec_assignee_id c)) idx in
      if is_none (issuer_principal_id parties) && is_none (assignee_principal_id parties)
      then mret None else
      raw_json ← expect "serialize contract" (ec_to_value c);
      outcome ← map_err (λ e, ctx +:+ pretty (ec_contract_id c) +:+ ": " +:+
                               SettlementError_to_string e)
        (upsert_contract (contract_upsert c ItemExchange status raw_json source_corp_id idx parties));
      mret (Some (mkUpsertedContract (co_contract_id outcome) (ec_contract_id c)
                    (co_current_status outcome) (status_changed outcome)))
  | _, _ => mret None
  end.

Fixpoint upsert_batch (turn : EsiContract → M Db Anyhow (option UpsertedContract))
    (cs : list EsiContract) : M Db Anyhow (list UpsertedContract) :=
  match cs with
  | [] => mret []
  | c :: rest =>
      u ← turn c;
      us ← upsert_batch turn rest;
      mret (option_list u ++ us)%list
  end.

(** [poll_one_character], from the fetched contracts to the commit. *)
Definition poll_character (cs : list EsiContract) : M Db Anyhow (list UpsertedContract) :=
  idx ← query (λ db, build_principal_index db (all_eve_ids cs));
  upsert_batch (upsert_polled (λ _, true) "upsert_contract esi=" None idx) cs.

(** [poll_one_corp], likewise, with its affiliation guard. *)
Definition affiliated (esi_corp_id : Z) (c : EsiContract) : bool :=
  (ec_issuer_corporation_id c == esi_corp_id) || (ec_assignee_id c == Some esi_corp_id).

Definition poll_corp (corp_id : Uuid) (esi_corp_id : Z) (cs : list EsiContract)
    : M Db Anyhow (list UpsertedContract) :=
  idx ← query (λ db, build_principal_index db (all_eve_ids cs));
  upsert_batch (upsert_polled (affiliated esi_corp_id) "corp upsert_contract esi="
                  (Some corp_id) idx) cs.

End Poller.
