(* ===== verification/Matching.v ===== *)
(** * The contract matcher

    [crates/worker/src/jobs/contracts/match.rs]: which pending reimbursements a
    contract may be the repayment of.  The score is IEEE double arithmetic,
    computed with the standard library's [SpecFloat]; [i64] sums wrap as in a
    release build. *)

From Stdlib Require Import ZArith Lia SpecFloat.
From stdpp Require Import base tactics decidable option list gmap strings pretty.
From S2P Require Import Prelude Effect Money Domain Principals Host Schema Fixtures Errors.
From S2P Require Import Settlement Contracts.

Local Open Scope string_scope.
Local Open Scope list_scope.

(** ** The score *)

(** [z as f64], [a / b] and [a < b] of doubles. *)
Definition as_f64 (z : Z) : spec_float := binary_normalize 53 1024 z 0 false.
Definition f64_div : spec_float → spec_float → spec_float := SFdiv 53 1024.

(** The literal [0.5]. *)
Definition SCORE_THRESHOLD : spec_float := f64_div (as_f64 1) (as_f64 2).

(** [Decimal::from_f64_retain(x).unwrap_or(ZERO).round_dp(4)], which rounds half
    to even, in units of 1/10000. *)
Definition round_half_even (a b : Z) : Z :=
  let q := (a / b)%Z in
  match (2 * (a mod b) ?= b)%Z with
  | Lt => q
  | Gt => (q + 1)%Z
  | Eq => if Z.even q then q else (q + 1)%Z
  end.

Definition score_dp4 (x : spec_float) : Z :=
  match x with
  | S754_finite s m e =>
      let v := ((if s then -1 else 1) * Z.pos m * 10000)%Z in
      let den := (2 ^ Z.max 0 (- e))%Z in
      let num := (v * 2 ^ Z.max 0 e)%Z in
      if (10000 * 2 ^ 96 <=? Z.abs num / den)%Z then 0%Z else round_half_even num den
  | _ => 0%Z
  end.

(** [iter.sum::<i64>()]. *)
Definition sum_i64 (m : gmap Z Z) : Z := map_fold (λ _ q acc, wrap_i64 (q + acc)) 0%Z m.

Definition covered_by (c_totals f_totals : gmap Z Z) : gmap Z Z :=
  map_imap (λ t fq, Some (Z.min (default 0%Z (c_totals !! t)) fq)) f_totals.

Definition score_match (c_totals f_totals : gmap Z Z) : option (spec_float * bool) :=
  if bool_decide (f_totals = ∅) then None
  else
    let f_sum := sum_i64 f_totals in
    let covered := sum_i64 (covered_by c_totals f_totals) in
    let surplus := sel_exists (λ t _, is_none (f_totals !! t)) c_totals in
    Some (f64_div (as_f64 covered) (as_f64 f_sum), (covered =? f_sum)%Z && negb surplus).

Section Matching.
Context `{RT : Runtime}.

(** ** Totals by type *)

(** [*totals.entry(t).or_insert(0) += q]. *)
Definition add_total (m : gmap Z Z) (tq : Z * Z) : gmap Z Z :=
  <[tq.1 := wrap_i64 (default 0%Z (m !! tq.1) + tq.2)]> m.

Definition contract_totals (db : Db) (contract_id : Uuid) : gmap Z Z :=
  foldl add_total ∅
    ((λ '(_, it), (cti_type_id it, cti_quantity it)) <$>
       select_where (λ k it, (k.1 == contract_id) && cti_is_included it) (contract_items db)).

(** The purchases of a reimbursement's scope: its hauler's standing ones on the
    list, of the requester's items unless the corporation pays. *)
Definition in_scope (db : Db) (r : ReimbursementRow) (f : FulfillmentRow) (li : ListItemRow) : bool :=
  (li_list_id li == r_list_id r) &&
  (r_is_corp_funded r ||
     sql_eq (li_requested_by_user_id li) (user_of_principal db (r_requester_principal_id r))) &&
  sql_eq (Some (f_hauler_user_id f)) (principals db !! r_hauler_principal_id r ≫= p_user_id) &&
  is_none (f_reversed_at f).

Definition scope_rows (db : Db) (r : ReimbursementRow) : list (Z * Z) :=
  omap (λ '(_, f), li ← list_items db !! f_list_item_id f;
                   if in_scope db r f li then Some (li_type_id li, f_qty f) else None)
    (map_to_list (fulfillments db)).

(** [GROUP BY li.type_id] with [SUM(f.qty)]. *)
Definition scope_totals (db : Db) (r : ReimbursementRow) : gmap Z Z :=
  foldl (λ m tq, <[tq.1 := (default 0 (m !! tq.1) + tq.2)%Z]> m) ∅ (scope_rows db r).

(** [WHERE r.hauler_principal_id = $1 AND r.requester_principal_id = $2 AND
    r.contract_id IS NULL AND r.status = 'pending']. *)
Definition candidate (issuer assignee : Uuid) (r : ReimbursementRow) : bool :=
  (r_hauler_principal_id r == issuer) && (r_requester_principal_id r == assignee) &&
  is_none (r_contract_id r) && (r_status r == Reimb_Pending).

Definition candidates (db : Db) (issuer assignee : Uuid) : list (Uuid * ReimbursementRow) :=
  select_where (λ _ r, candidate issuer assignee r) (reimbursements db).

(** The casts [li.type_id::int] and [SUM(f.qty)::bigint]. *)
Definition i32_max : Z := (2 ^ 31 - 1)%Z.
Definition totals_fit (m : gmap Z Z) : bool :=
  bool_decide (map_Forall (λ t q, (Z.abs t <= i32_max)%Z ∧ in_i64 q = true) m).

(** The entries with [qty > 0]. *)
Definition positive_totals (m : gmap Z Z) : gmap Z Z := base.filter (λ tq, 0 < tq.2)%Z m.

(** ** Suggestions *)

Record Proposal := mkProposal { pr_reimbursement_id : Uuid; pr_score : Z; pr_exact : bool }.

(** One turn of the loop over the candidates. *)
Definition propose (db : Db) (c_totals : gmap Z Z) (c : Uuid * ReimbursementRow) : option Proposal :=
  '(score, exact_match) ← score_match c_totals (positive_totals (scope_totals db c.2));
  if SFltb score SCORE_THRESHOLD then None
  else Some (mkProposal c.1 (score_dp4 score) exact_match).

(** One row of [INSERT ... SELECT ... FROM UNNEST ... ON CONFLICT DO UPDATE]. *)
Definition suggest (contract_id : Uuid) (p : Proposal) : M Db Anyhow unit :=
  _ ← sql (check ((0 <=? pr_score p)%Z && (pr_score p <=? 10000)%Z)
             "contract_match_suggestions_score_check");
  id ← sql new_uuid;
  existing ← query (λ db, fst <$> head (select_where (λ _ s,
    (s_contract_id s == contract_id) && (s_reimbursement_id s == pr_reimbursement_id p))
    (contract_match_suggestions db)));
  match existing with
  | Some sid =>
      execute (λ db, db <| contract_match_suggestions ::=
        update_where (λ k s, (k == sid) && (s_state s == Match_Pending))
          (λ s, s <| s_score := pr_score p |> <| s_exact_match := pr_exact p |>) |>)
  | None =>
      _ ← sql (unique (λ db, negb (row_exists (contract_match_suggestions db) id))
                 "contract_match_suggestions_pkey");
      execute (λ db, db <| contract_match_suggestions ::=
        <[id := mkSuggestionRow contract_id (pr_reimbursement_id p) (pr_score p) (pr_exact p)
                  Match_Pending (db_now db) None None]> |>)
  end.

Definition run_one (contract_id : Uuid) : M Db Anyhow unit :=
  header ← query (λ db, contracts db !! contract_id);
  match header with
  | None => mret tt
  | Some h =>
      _ ← sql (ensure enum_as_text (ColumnDecode "contract_type"));
      if (ct_contract_type h != ItemExchange) || is_none (ct_items_synced_at h) then mret tt else
      match ct_issuer_principal_id h, ct_assignee_principal_id h with
      | Some issuer, Some assignee =>
          c_totals ← query (λ db, contract_totals db contract_id);
          if bool_decide (c_totals = ∅) then mret tt else
          _ ← sql (b ← query (λ db, forallb (λ c, totals_fit (scope_totals db c.2))
                                      (candidates db issuer assignee));
                   ensure b NumericOverflow);
          proposals ← query (λ db, omap (propose db c_totals) (candidates db issuer assignee));
          for_each (suggest contract_id) proposals
      | _, _ => mret tt
      end
  end.

(** A contract whose run fails is logged and the loop goes on. *)
Fixpoint run_for_contracts (contract_ids : list Uuid) (db : Db) : Db :=
  match contract_ids with
  | [] => db
  | cid :: rest => run_for_contracts rest (in_transaction (run_one cid) db).2
  end.
End Matching.

(** ** The score of a candidate *)

Definition all_nonneg (m : gmap Z Z) : Prop := ∀ t q, m !! t = Some q → (0 ≤ q)%Z.
Notation total m := (sum_of (λ _ q, q) m).

Lemma total_nonneg m : all_nonneg m → (0 ≤ total m)%Z.
Proof. intros Hm. apply sum_of_nonneg. exact Hm. Qed.

(** No wrap-around while the exact sum fits. *)
Lemma sum_i64_exact m : all_nonneg m → (total m ≤ i64_max)%Z → sum_i64 m = total m.
Proof.
  unfold sum_i64. apply (map_fold_weak_ind (λ r m, all_nonneg m → (total m ≤ i64_max)%Z → r = total m)).
  - intros _ _. by rewrite sum_of_empty.
  - intros t q m' r Hn IH Hnn Hle. rewrite sum_of_insert in * by done.
    assert (all_nonneg m') as Hnn'.
    { intros t' q' Ht'. apply (Hnn t'). rewrite lookup_insert_ne; [done|]. intros ->. congruence. }
    assert (0 ≤ q)%Z by (apply (Hnn t); apply lookup_insert_eq).
    pose proof (total_nonneg _ Hnn'). rewrite IH by (done || lia).
    apply wrap_i64_id. unfold i64_min, i64_max in *. lia.
Qed.

(** A contract covers a scope when it delivers of every purchased type at least
    the purchased quantity, and covers it exactly when it has no other type;
    more of a purchased type does not matter. *)
Definition covers (c f : gmap Z Z) : Prop := ∀ t q, f !! t = Some q → (q ≤ default 0 (c !! t))%Z.
Definition covers_exactly (c f : gmap Z Z) : Prop := covers c f ∧ ∀ t q, c !! t = Some q → is_Some (f !! t).

(** What the contract delivers of what was bought. *)
Definition delivered (c f : gmap Z Z) : Z := sum_of (λ t fq, Z.min (default 0%Z (c !! t)) fq) f.

Lemma lookup_covered_by c f t :
  covered_by c f !! t = (λ q, Z.min (default 0%Z (c !! t)) q) <$> f !! t.
Proof. unfold covered_by. rewrite map_lookup_imap. by destruct (f !! t). Qed.

Lemma sum_of_eq_all {K V} `{Countable K} (g h : K → V → Z) (t : gmap K V) :
  (∀ k v, t !! k = Some v → g k v ≤ h k v)%Z → sum_of g t = sum_of h t →
  ∀ k v, t !! k = Some v → g k v = h k v.
Proof.
  intros Hle He k v Hk. rewrite (sum_of_delete g _ _ _ Hk), (sum_of_delete h _ _ _ Hk) in He.
  assert (sum_of g (delete k t) ≤ sum_of h (delete k t))%Z.
  { apply sum_of_le. intros k' v' [_ Hk']%lookup_delete_Some. by apply Hle. }
  specialize (Hle k v Hk). lia.
Qed.

Lemma score_match_spec c f :
  all_nonneg c → all_nonneg f → (total f ≤ i64_max)%Z →
  match score_match c f with
  | None => f = ∅
  | Some (score, exact) => f ≠ ∅ ∧
      score = f64_div (as_f64 (delivered c f)) (as_f64 (total f)) ∧
      (exact = true ↔ covers_exactly c f)
  end.
Proof.
  intros Hc Hf Hmax. unfold score_match. case_bool_decide as He; [done|].
  set (part := λ (t fq : Z), Z.min (default 0%Z (c !! t)) fq).
  assert (∀ t q, f !! t = Some q → (0 ≤ part t q ≤ q)%Z) as Hpart.
  { intros t q Hq. unfold part. specialize (Hf _ _ Hq).
    destruct (c !! t) as [x|] eqn:Hx; cbn; [specialize (Hc _ _ Hx)|]; lia. }
  assert (total (covered_by c f) = sum_of part f) as Hcov.
  { apply sum_of_sub; intros t q Ht; rewrite lookup_covered_by in *.
    - destruct (f !! t) as [fq|]; [|done]. injection Ht as <-. eauto.
    - intros Hn. by rewrite Ht in Hn. }
  assert (sum_of part f ≤ total f)%Z as Hle by (apply sum_of_le; intros; by apply Hpart).
  assert (0 ≤ sum_of part f)%Z as Hnn by (apply sum_of_nonneg; intros; by apply Hpart).
  assert (sum_of part f = total f ↔ covers c f) as Hcovers.
  { split.
    - intros Heq t q Hq. pose proof (sum_of_eq_all part (λ _ q, q) f
        ltac:(intros; by apply Hpart) Heq t q Hq) as Hp. unfold part in Hp. cbn in Hp. lia.
    - intros Hcv. apply sum_of_ext. intros t q Hq. specialize (Hcv _ _ Hq). unfold part. lia. }
  rewrite (sum_i64_exact f Hf Hmax), (sum_i64_exact (covered_by c f)), Hcov; [|
    intros t q Ht; rewrite lookup_covered_by in Ht; destruct (f !! t) as [fq|] eqn:Hq; [|done];
    injection Ht as <-; by apply Hpart|lia].
  split; [done|]. split; [done|].
  rewrite andb_true_iff, Z.eqb_eq, Hcovers, negb_true_iff. unfold covers_exactly.
  apply and_iff_compat_l. rewrite sel_exists_false. split.
  - intros Hs t q Ht. specialize (Hs _ _ Ht). by destruct (f !! t).
  - intros Hs t q Ht. by destruct (Hs _ _ Ht) as [? ->].
Qed.

(** ** What a run writes *)

Section Runs.
Context `{RT : Runtime}.

(** The pair a suggestion is for. *)
Definition about (cid rid : Uuid) (s : SuggestionRow) : bool :=
  (s_contract_id s == cid) && (s_reimbursement_id s == rid).

(** No decided suggestion is touched and none is lost; [proposed] says what a
    new or refreshed one is. *)
Record suggests (cid : Uuid) (proposed : SuggestionRow → Prop) (db db' : Db) : Prop := {
  sg_frame : db' = db <| contract_match_suggestions := contract_match_suggestions db' |>
                      <| db_draws := db_draws db' |>;
  sg_kept sid s : contract_match_suggestions db !! sid = Some s →
    ∃ s', contract_match_suggestions db' !! sid = Some s' ∧
      (s' = s ∨ s_state s = Match_Pending ∧ s_contract_id s = cid ∧
         s' = s <| s_score := s_score s' |> <| s_exact_match := s_exact_match s' |>);
  sg_new sid s' : contract_match_suggestions db' !! sid = Some s' →
    contract_match_suggestions db !! sid = Some s' ∨
    s_state s' = Match_Pending ∧ s_contract_id s' = cid ∧ proposed s'
}.

Definition proposes (ps : list Proposal) (s : SuggestionRow) : Prop :=
  ∃ p, p ∈ ps ∧ s_reimbursement_id s = pr_reimbursement_id p ∧ s_score s = pr_score p ∧
    s_exact_match s = pr_exact p ∧ (0 ≤ pr_score p ≤ 10000)%Z.

Lemma suggests_refl cid P db : suggests cid P db db.
Proof. split; [by destruct db| |]; eauto. Qed.

Lemma suggests_trans cid P db1 db2 db3 :
  suggests cid P db1 db2 → suggests cid P db2 db3 → suggests cid P db1 db3.
Proof.
  intros [F1 K1 N1] [F2 K2 N2]. split.
  - rewrite F2, F1. by destruct db1.
  - intros sid s Hs. destruct (K1 _ _ Hs) as (s1 & Hs1 & E1). destruct (K2 _ _ Hs1) as (s2 & Hs2 & E2).
    exists s2. split; [done|]. destruct E1 as [->|(P1 & C1 & E1)]; [done|].
    destruct E2 as [->|(_ & _ & E2)]; [by right|]. right. split; [done|]. split; [done|].
    rewrite E2. unfold set. cbn. rewrite E1. by destruct s.
  - intros sid s3 Hs3. destruct (N2 _ _ Hs3) as [Hs2|]; [by apply N1|by right].
Qed.

Lemma suggests_mono cid (P Q : SuggestionRow → Prop) db db' :
  (∀ s, P s → Q s) → suggests cid P db db' → suggests cid Q db db'.
Proof. intros HPQ [F K N]. split; [done|done|]. intros sid s' Hs. destruct (N _ _ Hs); naive_solver. Qed.

Lemma suggest_run cid p db u db' :
  suggest cid p db = Ok (u, db') →
  suggests cid (proposes [p]) db db' ∧
  ∃ sid s, contract_match_suggestions db' !! sid = Some s ∧ about cid (pr_reimbursement_id p) s = true.
Proof.
  unfold suggest, check. intros Hrun. inv_sql.
  match goal with H : (_ && _)%bool = true |- _ => apply andb_prop in H as [Hlo Hhi] end.
  apply Z.leb_le in Hlo, Hhi. set_simpl.
  destruct (select_where _ (contract_match_suggestions db)) as [|[sid s0] rest] eqn:Hsel;
    cbn [head fmap option_fmap option_map fst] in Hrun; inv_sql.
  - set (id := gen_random_uuid (db_draws db)) in *.
    assert (contract_match_suggestions db !! id = None) as Hfresh.
    { unfold row_exists in *. set_simpl. by destruct (contract_match_suggestions db !! id). }
    split; [split|].
    + by destruct db.
    + intros sid s Hs. exists s. set_simpl. rewrite lookup_insert_ne; [by auto|]. intros ->. congruence.
    + intros sid s' Hs'. set_simpl. apply lookup_insert_Some in Hs' as [[<- <-]|[_ Hs']]; [|by left].
      right. split; [done|]. split; [done|]. exists p. split; [by left|done].
    + eexists id, _. set_simpl. rewrite lookup_insert_eq. split; [done|]. unfold about. cbn.
      by rewrite !bool_decide_eq_true_2.
  - assert ((sid, s0) ∈ select_where (λ _ s, about cid (pr_reimbursement_id p) s)
      (contract_match_suggestions db)) as [Hs0 Hab]%elem_of_select_where.
    { unfold about. rewrite Hsel. left. }
    unfold about in Hab. apply andb_prop in Hab as [Hc%bool_decide_eq_true_1 Hr%bool_decide_eq_true_1].
    split; [split|].
    + by destruct db.
    + intros k s Hs. set_simpl. rewrite lookup_update_where, Hs. eexists. split; [done|].
      destruct (_ && _) eqn:Hp; [|by left].
      apply andb_prop in Hp as [->%bool_decide_eq_true_1 Hp%bool_decide_eq_true_1].
      right. split; [done|]. split; [congruence|]. by destruct s.
    + intros k s' Hs'. set_simpl. apply lookup_update_where_Some in Hs' as (s & Hs & ->).
      destruct (_ && _) eqn:Hp; [|by left]. right.
      apply andb_prop in Hp as [->%bool_decide_eq_true_1 Hp%bool_decide_eq_true_1].
      rewrite Hs in Hs0. injection Hs0 as ->. split; [done|]. split; [done|].
      exists p. split; [by left|done].
    + eexists sid, _. set_simpl. rewrite lookup_update_where, Hs0. split; [done|].
      unfold about. case_match; cbn; by rewrite !bool_decide_eq_true_2.
Qed.

Lemma about_kept cid P db db' rid sid s :
  suggests cid P db db' → contract_match_suggestions db !! sid = Some s → about cid rid s = true →
  ∃ sid' s', contract_match_suggestions db' !! sid' = Some s' ∧ about cid rid s' = true.
Proof.
  intros Hs Hl Ha. destruct (sg_kept _ _ _ _ Hs _ _ Hl) as (s' & Hl' & E). exists sid, s'.
  split; [done|]. destruct E as [->|(_ & _ & ->)]; [done|]. by destruct s.
Qed.

Lemma suggest_all_run cid ps db u db' :
  for_each (suggest cid) ps db = Ok (u, db') →
  suggests cid (proposes ps) db db' ∧
  ∀ p, p ∈ ps → ∃ sid s, contract_match_suggestions db' !! sid = Some s ∧
    about cid (pr_reimbursement_id p) s = true.
Proof.
  revert db u. induction ps as [|p ps IH]; intros db u Hrun.
  - apply for_each_nil in Hrun as ->. split; [apply suggests_refl|set_solver].
  - cbn [for_each] in Hrun. apply bind_Ok in Hrun as (u1 & db1 & Hp & Hrest).
    apply suggest_run in Hp as [Hp (sid & s & Hs & Ha)]. apply IH in Hrest as [Hrest Hall]. split.
    + eapply suggests_trans; eapply suggests_mono; [|exact Hp| |exact Hrest]; cbn.
      * intros s1 (q & Hq%list_elem_of_singleton & Hr). subst. exists p. split; [by left|done].
      * intros s1 (q & Hq & Hr). exists q. split; [by right|done].
    + intros q [->|Hq]%elem_of_cons; [|by apply Hall]. by eapply about_kept.
Qed.

(** What is written as a suggestion for contract [cid]. *)
Definition proposed (db : Db) (cid : Uuid) (s : SuggestionRow) : Prop :=
  ∃ h issuer assignee r score,
    contracts db !! cid = Some h ∧ ct_contract_type h = ItemExchange ∧
    is_Some (ct_items_synced_at h) ∧ ct_issuer_principal_id h = Some issuer ∧
    ct_assignee_principal_id h = Some assignee ∧
    reimbursements db !! s_reimbursement_id s = Some r ∧ candidate issuer assignee r = true ∧
    score_match (contract_totals db cid) (positive_totals (scope_totals db r)) =
      Some (score, s_exact_match s) ∧
    SFltb score SCORE_THRESHOLD = false ∧ s_score s = score_dp4 score ∧ (0 ≤ s_score s ≤ 10000)%Z.

Lemma elem_of_proposals db c issuer assignee p :
  p ∈ omap (propose db c) (candidates db issuer assignee) ↔
  ∃ r score, reimbursements db !! pr_reimbursement_id p = Some r ∧ candidate issuer assignee r = true ∧
    score_match c (positive_totals (scope_totals db r)) = Some (score, pr_exact p) ∧
    SFltb score SCORE_THRESHOLD = false ∧ pr_score p = score_dp4 score.
Proof.
  rewrite list_elem_of_omap. unfold propose. split.
  - intros ([rid r] & Hin & Hp). apply elem_of_select_where in Hin as [Hr Hc]. cbn in Hp.
    destruct (score_match _ _) as [[score exact]|] eqn:Hsc; [|done]. cbn in Hp.
    destruct (SFltb score _) eqn:Hlt; [done|]. injection Hp as <-. cbn. by exists r, score.
  - intros (r & score & Hr & Hc & Hsc & Hlt & Hps). exists (pr_reimbursement_id p, r).
    split; [by apply elem_of_select_where|]. cbn. rewrite Hsc. cbn. rewrite Hlt. destruct p. cbn in *. congruence.
Qed.

Lemma run_one_run cid db u db' :
  run_one cid db = Ok (u, db') →
  suggests cid (proposed db cid) db db' ∧
  ∀ h issuer assignee rid r score exact,
    contracts db !! cid = Some h → ct_contract_type h = ItemExchange → is_Some (ct_items_synced_at h) →
    ct_issuer_principal_id h = Some issuer → ct_assignee_principal_id h = Some assignee →
    contract_totals db cid ≠ ∅ →
    reimbursements db !! rid = Some r → candidate issuer assignee r = true →
    score_match (contract_totals db cid) (positive_totals (scope_totals db r)) = Some (score, exact) →
    SFltb score SCORE_THRESHOLD = false →
    ∃ sid s, contract_match_suggestions db' !! sid = Some s ∧ about cid rid s = true.
Proof.
  unfold run_one. intros Hrun. inv_sql.
  destruct (contracts db !! cid) as [h|] eqn:Hh; [|inv_sql; split; [apply suggests_refl|by intros]].
  inv_sql. destruct (_ || _) eqn:Hskip.
  { inv_sql. split; [apply suggests_refl|]. intros h' issuer assignee rid r score exact [= <-] Ht [at_ Hs].
    rewrite Ht, Hs in Hskip. cbn in Hskip. done. }
  apply orb_false_iff in Hskip as [Ht Hs]. bool_simpl.
  destruct (ct_issuer_principal_id h) as [issuer|] eqn:Hi;
    [|inv_sql; split; [apply suggests_refl|intros; simplify_eq; congruence]].
  destruct (ct_assignee_principal_id h) as [assignee|] eqn:Ha;
    [|inv_sql; split; [apply suggests_refl|intros; simplify_eq; congruence]].
  inv_sql. case_bool_decide as Hempty; [inv_sql; split; [apply suggests_refl|by intros]|].
  inv_sql. apply suggest_all_run in Hrun as [Hrun Hall]. split.
  - eapply suggests_mono; [|exact Hrun]. intros s (p & Hp & Hr & Hsc & Hx & Hb).
    apply elem_of_proposals in Hp as (r & score & Hlr & Hc & Hm & Hlt & Hps).
    exists h, issuer, assignee, r, score. rewrite Hr, Hsc, Hx. split_and!; try done || lia.
  - intros h' i' a' rid r score exact [= <-] _ _ Hi' Ha' _ Hr Hc Hm Hlt. simplify_eq.
    apply (Hall (mkProposal rid (score_dp4 score) exact)). apply elem_of_proposals. by exists r, score.
Qed.

(** Quantities whose sums do not wrap. *)
Definition totals_in_range (db : Db) (cid : Uuid) : Prop :=
  all_nonneg (contract_totals db cid) ∧
  ∀ rid r, reimbursements db !! rid = Some r → (total (positive_totals (scope_totals db r)) ≤ i64_max)%Z.

Lemma positive_totals_nonneg m : all_nonneg (positive_totals m).
Proof. intros t q [_ Hq]%map_lookup_filter_Some. cbn in Hq. lia. Qed.

(** C20 The matcher only proposes: it writes nothing but suggestions, loses none,
    leaves those a user has decided on alone, and every suggestion it writes
    or refreshes is a pending one for a synced item exchange contract and a
    pending, unbound reimbursement between the contract's two parties, scored
    at least one half.  As long as the quantities involved do not overflow, the
    score is the share, of all that was bought, that the contract delivers, and
    the suggestion is marked exact precisely when the contract delivers at
    least the bought quantity of each bought type and no other type; a surplus
    of a bought type is no obstacle.  Each pair that would be written has a
    suggestion afterwards. *)
Theorem run_one_spec cid db u db' :
  totals_in_range db cid → run_one cid db = Ok (u, db') →
  suggests cid (proposed db cid) db db' ∧
  (∀ s, proposed db cid s → ∀ r, reimbursements db !! s_reimbursement_id s = Some r →
     let c := contract_totals db cid in let f := positive_totals (scope_totals db r) in
     f ≠ ∅ ∧ s_score s = score_dp4 (f64_div (as_f64 (delivered c f)) (as_f64 (total f))) ∧
     (s_exact_match s = true ↔ covers_exactly c f)) ∧
  ∀ s, proposed db cid s → contract_totals db cid ≠ ∅ →
    ∃ sid s', contract_match_suggestions db' !! sid = Some s' ∧ about cid (s_reimbursement_id s) s' = true.
Proof.
  intros [Hc Hf] Hrun. apply run_one_run in Hrun as [Hs Hall]. split; [done|]. split.
  - intros s (h & issuer & assignee & r' & score & _ & _ & _ & _ & _ & Hr' & _ & Hm & _ & Hsc & _) r Hr c f.
    rewrite Hr in Hr'. injection Hr' as <-.
    pose proof (score_match_spec _ _ Hc (positive_totals_nonneg (scope_totals db r)) (Hf _ _ Hr)) as Hspec.
    rewrite Hm in Hspec. destruct Hspec as (Hne & -> & Hx). done.
  - intros s (h & issuer & assignee & r & score & Hh & Ht & Hsync & Hi & Ha & Hr & Hcand & Hm & Hlt & _) Hne.
    by eapply Hall.
Qed.
End Runs.

(** ** Witness *)
Section Witnesses.
#[local] Existing Instance fixture_runtime.

(** Bob's contract returns what Alice was bought, and was just synced. *)
Definition match_db : Db :=
  unbound_db <| contract_match_suggestions := ∅ |>
    <| contract_items := {[ (80%N, 1%Z) := mkContractItemRow 34 6 true;
                            (80%N, 2%Z) := mkContractItemRow 34 4 true;
                            (80%N, 3%Z) := mkContractItemRow 35 1 false ]} |>.

Lemma run_one_spec_witness :
  ∃ db' sid s, run_one 80 match_db = Ok (tt, db') ∧
    contract_match_suggestions db' !! sid = Some s ∧ s_exact_match s = true ∧ s_score s = 10000%Z.
Proof.
  run_concrete (run_one 80 match_db) u db' Hrun. destruct u.
  assert (totals_in_range match_db 80) as Hr.
  { split.
    - intros t q. assert (map_Forall (λ _ q, (0 ≤ q)%Z) (contract_totals match_db 80)) as Hf
        by (apply (bool_decide_unpack _); vm_compute; exact I). apply Hf.
    - intros rid r. assert (map_Forall (λ _ r, (total (positive_totals (scope_totals match_db r)) ≤ i64_max)%Z)
        (reimbursements match_db)) as Hf by (apply (bool_decide_unpack _); vm_compute; exact I). apply Hf. }
  destruct (run_one_spec 80 match_db tt db' Hr Hrun) as (Hs & _ & _).
  exists db', 1000%N, (mkSuggestionRow 80 60 10000 true Match_Pending 100 None None).
  split; [exact Hrun|]. split; [|by split].
  apply (run_reads (λ _ db, contract_match_suggestions db !! 1000%N) _ _ _ _ Hrun). vm_compute. reflexivity.
Defined.
End Witnesses.
