(* ===== verification/Lists.v ===== *)
(** * Lists

    [crates/api/src/lists.rs] and [lists/crud.rs]: the input limits, which
    markets a group may name, and the creation, listing, editing and deletion
    of lists.  [market::resolve_type_ids] and the price refresh go through the
    pool in the code, outside the request transaction; here they read and
    write the same database (the type and price caches, which no ledger table
    refers to). *)

From Stdlib Require Import ZArith Lia.
From stdpp Require Import base tactics decidable option list gmap strings pretty sorting.
From S2P Require Import Prelude Effect Money Unicode Domain Host Schema Fixtures Errors.
From S2P Require Import Multibuy Market Config Extract Webhooks Detail Fulfillment Pricing.

Local Open Scope string_scope.
Local Open Scope list_scope.

(** ** Limits *)

Definition MAX_MULTIBUY_BYTES : nat := 64 * 1024.
Definition MAX_PARSED_LINES : nat := 5000.
Definition MAX_DISTINCT_NAMES : nat := 1000.
Definition MAX_MARKET_IDS : nat := 8.

Definition pretty_nat (n : nat) : string := pretty (Z.of_nat n).

Definition validate_multibuy_size (mb : Str) : result ApiError unit :=
  if (MAX_MULTIBUY_BYTES <? byte_len mb)%nat
  then Err (BadRequest ("multibuy too large (" +:+ pretty_nat (byte_len mb) +:+ " bytes); max " +:+
                        pretty_nat MAX_MULTIBUY_BYTES))
  else Ok tt.

Definition validate_market_ids_size (ids : list Uuid) : result ApiError unit :=
  if bool_decide (ids = []) then Err (BadRequest "market_ids must not be empty")
  else if (MAX_MARKET_IDS <? length ids)%nat
  then Err (BadRequest ("too many market_ids (" +:+ pretty_nat (length ids) +:+ "); max " +:+
                        pretty_nat MAX_MARKET_IDS))
  else if length (remove_dups ids) != length ids
  then Err (BadRequest "market_ids contains duplicates")
  else Ok tt.

(** The caps on a parsed list, shared by its three readers. *)
Definition validate_line_count (n : nat) : result ApiError unit :=
  if (MAX_PARSED_LINES <? n)%nat
  then Err (BadRequest ("too many parsed lines (" +:+ pretty_nat n +:+ "); max " +:+
                        pretty_nat MAX_PARSED_LINES))
  else Ok tt.

Definition validate_name_count (n : nat) : result ApiError unit :=
  if (MAX_DISTINCT_NAMES <? n)%nat
  then Err (BadRequest ("too many distinct items (" +:+ pretty_nat n +:+ "); max " +:+
                        pretty_nat MAX_DISTINCT_NAMES))
  else Ok tt.

(** A MultiBuy text that must parse whole. *)
Definition validate_parsed (parsed : ParsedMultibuy) : result ApiError unit :=
  if negb (bool_decide (pm_errors parsed = []))
  then Err (BadRequest (pretty_nat (length (pm_errors parsed)) +:+
                        " multibuy line(s) failed to parse"))
  else if bool_decide (pm_lines parsed = []) then Err (BadRequest "multibuy is empty")
  else validate_line_count (length (pm_lines parsed)).

Definition validate_primary (market_ids : list Uuid) (primary : Uuid) : result ApiError unit :=
  if bool_decide (primary ∈ market_ids) then Ok tt
  else Err (BadRequest "primary_market_id must be in market_ids").

(** One market of the request, for a group that tracks [tracked]. *)
Definition validate_market (tracked : list Uuid) (m : Market) : result ApiError unit :=
  let label := default "(unnamed)" (Market_short_label m) in
  if negb (Market_is_public m) then Err (BadRequest ("market " +:+ label +:+ " is not public"))
  else match Market_kind m with
       | NpcHub =>
           if Market_is_hub m then Ok tt
           else Err (BadRequest ("market " +:+ label +:+ " is marked as NPC hub but is_hub=false"))
       | PublicStructure =>
           if bool_decide (Market_id m ∈ tracked) then Ok tt
           else Err (BadRequest ("citadel '" +:+ label +:+ "' is not tracked by this group"))
       end.

(** ** Bodies and views *)

Record PreviewBody := mkPreviewBody { pb_multibuy : Str; pb_market_ids : list Uuid }.

Record PreviewPrice := mkPreviewPrice {
  pp_best_sell : option Decimal;
  pp_best_buy : option Decimal;
  pp_sell_volume : Z;
  pp_buy_volume : Z;
  pp_computed_at : option Timestamp
}.

Record PreviewLine := mkPreviewLine {
  pvl_line_nos : list Z;
  pvl_name : Str;
  pvl_type_id : option Z;
  pvl_type_name : option Str;
  pvl_qty : Z;
  pvl_prices : gmap Uuid PreviewPrice;
  pvl_error : option string
}.

Record PreviewResponse := mkPreviewResponse {
  pr_lines : list PreviewLine;
  pr_unresolved_names : list Str;
  pr_errors : list LineError
}.

Record CreateBody := mkCreateBody {
  cb_destination_label : option string;
  cb_notes : option string;
  cb_market_ids : list Uuid;
  cb_primary_market_id : Uuid;
  cb_multibuy : Str
}.

Record PatchListBody := mkPatchListBody {
  plb_destination_label : option (option string);
  plb_notes : option (option string);
  plb_status : option ListStatus
}.

Record ReplaceMarketsBody := mkReplaceMarketsBody {
  rmb_market_ids : list Uuid;
  rmb_primary_market_id : Uuid
}.

(** A row of [create]'s [items_to_insert]. *)
Record ItemRow := mkItemRow {
  ir_type_id : Z;
  ir_type_name : Str;
  ir_qty : Z;
  ir_line_no : Z;
  ir_est_unit : option Decimal;
  ir_est_market : option Uuid
}.

(** [*line_nos.first().unwrap_or(&0) as i32]. *)
Definition first_line_no (p : ParsedLine) : Z := wrap_i32 (default 0%Z (head (pl_line_nos p))).

Section Lists.
Context `{RT : Runtime} {MA : MarketApi} {CFG : AppConfig} {RD : RustDecimal}.

(** ** Shared checks *)

Definition load_markets (ids : list Uuid) : Handler (list Market) :=
  rows ← query (λ db, select_where (λ id _, bool_decide (id ∈ ids)) (markets db));
  _ ← ensure (bool_decide (length rows = length ids))
        (BadRequest "one or more market_ids do not exist");
  mret ((λ kv, into_market kv.1 kv.2) <$> rows).

Definition tracked_markets (db : Db) (group_id : Uuid) (ids : list Uuid) : list Uuid :=
  List.filter (λ id, row_exists (group_tracked_markets db) (group_id, id)) ids.

Definition validate_markets_for_group (group_id : Uuid) (mkts : list Market) : Handler unit :=
  let citadel_ids := Market_id <$> List.filter (λ m, Market_kind m == PublicStructure) mkts in
  tracked ← query (λ db, tracked_markets db group_id citadel_ids);
  for_each (λ m, of_result (validate_market tracked m)) mkts.

Definition do_patch_list_status (list_id user_id : Uuid) (new_status : ListStatus)
    : Handler unit :=
  row ← query (λ db, l ← lists db !! list_id;
    Some (l_created_by_user_id l, member_role db user_id (l_group_id l)));
  '(created_by, role) ← expect not_found row;
  role ← expect forbidden role;
  _ ← ensure ((user_id == created_by) || (role == Owner)) forbidden;
  execute (λ db, db <| lists ::= update_where (λ k _, k == list_id)
    (λ l, l <| l_status := new_status |> <| l_updated_at := db_now db |>) |>).

Definition active_lists (db : Db) (group_id : Uuid) : Z :=
  count_where (λ _ l, (l_group_id l == group_id) && (l_status l != List_Archived)) (lists db).

Definition check_lists_quota (group_id : Uuid) (cap : Z) : Handler unit :=
  count ← query (λ db, active_lists db group_id);
  ensure (count <? cap)%Z
    (QuotaExceeded ("this group already has " +:+ pretty count +:+ " active lists (cap " +:+
                    pretty cap +:+ "); archive some before adding more")).

Definition require_lists_quota (group_id : Uuid) : Handler unit :=
  check_lists_quota group_id (lists_per_group limits).

(** ** Preview *)

Definition preview_price (agg : option PriceAggregate) : PreviewPrice :=
  mkPreviewPrice (agg ≫= pa_best_sell) (agg ≫= pa_best_buy)
    (default 0%Z (pa_sell_volume <$> agg)) (default 0%Z (pa_buy_volume <$> agg))
    (pa_computed_at <$> agg).

Definition preview_line (resolved : gmap Str ResolvedType) (mkts : list Market)
    (prices : PricesByMarket) (p : ParsedLine) : PreviewLine :=
  let r := resolved !! name_key (pl_name p) in
  mkPreviewLine (pl_line_nos p) (pl_name p) (rt_type_id <$> r) (rt_type_name <$> r) (pl_qty p)
    (match r with
     | Some r => list_to_map ((λ m, (Market_id m,
         preview_price (prices !! Market_id m ≫= lookup (rt_type_id r)))) <$> mkts)
     | None => ∅
     end)
    (match r with
     | Some _ => None
     | None => Some ("unknown item: " +:+ utf8 (pl_name p))
     end).

(** The type ids of a resolution. *)
Definition resolved_ids (resolved : gmap Str ResolvedType) : list Z :=
  dedup_type_ids ((λ kr, rt_type_id kr.2) <$> map_to_list resolved).

Definition preview (cur : CurrentGroup) (body : PreviewBody) : Handler PreviewResponse :=
  _ ← of_result (validate_multibuy_size (pb_multibuy body));
  _ ← of_result (validate_market_ids_size (pb_market_ids body));
  let parsed := parse_multibuy (pb_multibuy body) in
  _ ← of_result (validate_line_count (length (pm_lines parsed)));
  let distinct_names := pl_name <$> pm_lines parsed in
  _ ← of_result (validate_name_count (length distinct_names));
  mkts ← load_markets (pb_market_ids body);
  _ ← validate_markets_for_group (cg_group_id cur) mkts;
  '(resolved, unresolved) ← anyhow (resolve_type_ids distinct_names);
  prices ← fetch_prices_for_markets (cg_group_id cur) mkts (resolved_ids resolved);
  mret (mkPreviewResponse (preview_line resolved mkts prices <$> pm_lines parsed) unresolved
          (pm_errors parsed)).

(** ** Statements *)

Definition insert_list (group_id user_id : Uuid) (destination_label notes : option string)
    (total : Decimal) : Stmt Uuid :=
  cents ← expect NumericOverflow (numeric_cast 24 2 total);
  tip ← reads (λ db, g_default_tip_pct <$> groups db !! group_id);
  tip ← expect (NotNullViolation "tip_pct") tip;
  id ← new_uuid;
  _ ← check ((0 <=? tip) && (tip <=? 10000))%Z "lists_tip_pct_check";
  _ ← unique (λ db, negb (row_exists (lists db) id)) "lists_pkey";
  _ ← foreign_key (λ db, row_exists (groups db) group_id) "lists_group_id_fkey";
  _ ← foreign_key (λ db, row_exists (users db) user_id) "lists_created_by_user_id_fkey";
  _ ← execute (λ db, db <| lists ::=
        <[id := mkListRow group_id user_id destination_label notes List_Open cents tip None None
                  (db_now db) (db_now db)]> |>);
  mret id.

Definition insert_list_market (list_id primary : Uuid) (m : Market) : Stmt unit :=
  let is_primary := Market_id m == primary in
  _ ← unique (λ db, negb (row_exists (list_markets db) (list_id, Market_id m))) "list_markets_pkey";
  _ ← unique (λ db, negb (is_primary &&
        sel_exists (λ k lm, (k.1 == list_id) && lm_is_primary lm) (list_markets db)))
        "list_markets_one_primary";
  _ ← foreign_key (λ db, row_exists (lists db) list_id) "list_markets_list_id_fkey";
  _ ← foreign_key (λ db, row_exists (markets db) (Market_id m)) "list_markets_market_id_fkey";
  execute (λ db, db <| list_markets ::=
    <[(list_id, Market_id m) := mkListMarketRow is_primary (db_now db)]> |>).

Definition insert_list_item (list_id user_id : Uuid) (it : ItemRow) : Stmt unit :=
  unit_price ← price_column (ir_est_unit it);
  id ← new_uuid;
  _ ← check (0 <? ir_qty it)%Z "list_items_qty_requested_check";
  _ ← unique (λ db, negb (row_exists (list_items db) id)) "list_items_pkey";
  _ ← foreign_key (λ db, row_exists (lists db) list_id) "list_items_list_id_fkey";
  _ ← foreign_key (λ db, opt_row_exists (markets db) (ir_est_market it))
        "list_items_est_priced_market_id_fkey";
  _ ← foreign_key (λ db, row_exists (users db) user_id) "list_items_requested_by_user_id_fkey";
  execute (λ db, db <| list_items ::=
    <[id := mkListItemRow list_id (ir_type_id it) (utf8 (ir_type_name it)) (ir_qty it) 0
              unit_price (ir_est_market it) (Some user_id) Item_Open (Some (ir_line_no it))
              (db_now db)]> |>).

(** ** Creation *)

(** One turn of the loop over the parsed lines. *)
Definition price_line (resolved : gmap Str ResolvedType) (mkts : list Market)
    (prices : PricesByMarket) (acc : list ItemRow * Decimal) (p : ParsedLine)
    : Handler (list ItemRow * Decimal) :=
  let '(items, total) := acc in
  r ← expect (internal ("resolved missing for " +:+ utf8 (pl_name p)))
        (resolved !! name_key (pl_name p));
  let '(est_unit, est_market) := pick_cheapest mkts prices (rt_type_id r) in
  total ← match est_unit with Some u => add_estimate total u (pl_qty p) | None => mret total end;
  mret (items ++ [mkItemRow (rt_type_id r) (rt_type_name r) (pl_qty p) (first_line_no p)
                    est_unit est_market], total).

(** [unresolved.join(", ")]. *)
Definition unknown_items (unresolved : list Str) : ApiError :=
  BadRequest ("unknown item(s): " +:+ utf8 (join (str ", ") unresolved)).

Definition check_items_cap (n : Z) : result ApiError unit :=
  if (items_per_list limits <? n)%Z
  then Err (QuotaExceeded ("list has " +:+ pretty n +:+ " items; per-list cap is " +:+
                           pretty (items_per_list limits)))
  else Ok tt.

Definition create (cur : CurrentGroup) (body : CreateBody) : Handler ListDetail :=
  _ ← of_result (validate_multibuy_size (cb_multibuy body));
  _ ← of_result (validate_market_ids_size (cb_market_ids body));
  _ ← of_result (validate_primary (cb_market_ids body) (cb_primary_market_id body));
  let parsed := parse_multibuy (cb_multibuy body) in
  _ ← of_result (validate_parsed parsed);
  let distinct_names := pl_name <$> pm_lines parsed in
  _ ← of_result (validate_name_count (length distinct_names));
  _ ← of_result (check_items_cap (Z.of_nat (length (pm_lines parsed))));
  _ ← require_lists_quota (cg_group_id cur);
  mkts ← load_markets (cb_market_ids body);
  _ ← validate_markets_for_group (cg_group_id cur) mkts;
  '(resolved, unresolved) ← anyhow (resolve_type_ids distinct_names);
  _ ← ensure (bool_decide (unresolved = [])) (unknown_items unresolved);
  prices ← fetch_prices_for_markets (cg_group_id cur) mkts (resolved_ids resolved);
  '(items_to_insert, total) ← fold_each (price_line resolved mkts prices) (pm_lines parsed)
                                ([], Decimal_ZERO);
  list_id ← sql (insert_list (cg_group_id cur) (cg_user_id cur) (cb_destination_label body)
                   (cb_notes body) total);
  _ ← sql (for_each (insert_list_market list_id (cb_primary_market_id body)) mkts);
  _ ← sql (for_each (insert_list_item list_id (cg_user_id cur)) items_to_insert);
  creator_name ← sql (fetch_one (λ db, u_display_name <$> users db !! cg_user_id cur));
  _ ← sql (fire_webhook (cg_group_id cur)
             (ListCreated (default "(unnamed)" (cb_destination_label body))
                (Z.of_nat (length items_to_insert)) (Decimal_to_string total) creator_name));
  load_list_detail list_id (cg_user_id cur) (cg_role cur).

(** ** Listing *)

Definition into_summary (db : Db) (id : Uuid) (l : ListRow) : ListSummary :=
  mkListSummary id (l_destination_label l) (l_status l)
    (count_where (λ _ li, li_list_id li == id) (list_items db))
    (l_total_estimate_isk l)
    (head (omap (λ kv : (Uuid * Uuid) * ListMarketRow, markets db !! kv.1.2)
       (select_where (λ k lm, (k.1 == id) && lm_is_primary lm) (list_markets db))) ≫= m_short_label)
    (l_created_at l).

Definition list_for_group (cur : CurrentGroup) (include_archived : bool)
    : Handler (list ListSummary) :=
  query (λ db, (λ kv, into_summary db kv.1 kv.2) <$>
    sort_by (λ a b, (l_created_at b.2 <=? l_created_at a.2)%Z)
      (select_where (λ _ l, (l_group_id l == cg_group_id cur) &&
                            (include_archived || (l_status l != List_Archived))) (lists db))).

Definition detail (cur : CurrentList) : Handler ListDetail :=
  load_list_detail (cur_list_id cur) (cur_user_id cur) (cur_role cur).

(** ** Editing *)

Definition apply_patch (body : PatchListBody) (now : Timestamp) (l : ListRow) : ListRow :=
  let l := l <| l_updated_at := now |> in
  let l := match plb_destination_label body with
           | Some label => l <| l_destination_label := label |> | None => l end in
  let l := match plb_notes body with Some notes => l <| l_notes := notes |> | None => l end in
  match plb_status body with Some status => l <| l_status := status |> | None => l end.

Definition patch_list (cur : CurrentList) (body : PatchListBody) : Handler ListDetail :=
  _ ← ensure (negb (is_none (plb_destination_label body) && is_none (plb_notes body) &&
                    is_none (plb_status body))) (BadRequest "nothing to update");
  _ ← when (is_none (plb_status body)) (of_result (require_mutable cur));
  _ ← when (negb (is_none (plb_status body))) (of_result (require_can_manage cur));
  _ ← execute (λ db, db <| lists ::= update_where
        (λ k l, (k == cur_list_id cur) && (l_group_id l == cur_group_id cur))
        (apply_patch body (db_now db)) |>);
  load_list_detail (cur_list_id cur) (cur_user_id cur) (cur_role cur).

Definition replace_markets (cur : CurrentList) (body : ReplaceMarketsBody) : Handler ListDetail :=
  _ ← of_result (require_mutable cur);
  _ ← of_result (validate_market_ids_size (rmb_market_ids body));
  _ ← of_result (validate_primary (rmb_market_ids body) (rmb_primary_market_id body));
  mkts ← load_markets (rmb_market_ids body);
  _ ← validate_markets_for_group (cur_group_id cur) mkts;
  _ ← lock_list (cur_list_id cur);
  _ ← execute (λ db, db <| list_markets ::= delete_where (λ k _, k.1 == cur_list_id cur) |>);
  _ ← sql (for_each (insert_list_market (cur_list_id cur) (rmb_primary_market_id body)) mkts);
  updated_after ← sql (touch_list (cur_list_id cur));
  _ ← recompute_estimates (cur_list_id cur) updated_after;
  load_list_detail (cur_list_id cur) (cur_user_id cur) (cur_role cur).

(** ** Deletion *)

(** The list a row hangs off is going. *)
Definition item_doomed (doomed : Uuid → bool) (db : Db) (id : Uuid) : bool :=
  match list_items db !! id with Some li => doomed (li_list_id li) | None => false end.
Definition claim_doomed (doomed : Uuid → bool) (db : Db) (id : Uuid) : bool :=
  match claims db !! id with Some c => doomed (cl_list_id c) | None => false end.
Definition reimb_doomed (doomed : Uuid → bool) (db : Db) (id : Uuid) : bool :=
  match reimbursements db !! id with Some r => doomed (r_list_id r) | None => false end.

(** [fulfillments.claim_id] is ON DELETE SET NULL. *)
Definition unclaim (gone : Uuid → bool) (f : FulfillmentRow) : FulfillmentRow :=
  match f_claim_id f with
  | Some c => if gone c then f <| f_claim_id := None |> else f
  | None => f
  end.

(** The foreign keys ON DELETE CASCADE below [lists]. *)
Definition cascade_lists (doomed : Uuid → bool) (db : Db) : Db :=
  db <| lists ::= delete_where (λ k _, doomed k) |>
     <| list_markets ::= delete_where (λ k _, doomed k.1) |>
     <| list_items ::= delete_where (λ _ li, doomed (li_list_id li)) |>
     <| claims ::= delete_where (λ _ c, doomed (cl_list_id c)) |>
     <| claim_items ::= delete_where
          (λ k _, claim_doomed doomed db k.1 || item_doomed doomed db k.2) |>
     <| fulfillments ::= λ t, update_each (λ _, unclaim (claim_doomed doomed db))
          (delete_where (λ _ f, item_doomed doomed db (f_list_item_id f)) t) |>
     <| reimbursements ::= delete_where (λ _ r, doomed (r_list_id r)) |>
     <| contract_match_suggestions ::=
          delete_where (λ _ s, reimb_doomed doomed db (s_reimbursement_id s)) |>.

Definition delete_list (cur : CurrentList) : Handler unit :=
  _ ← ensure ((cur_created_by_user_id cur == cur_user_id cur) || (cur_role cur == Owner)) forbidden;
  hit ← query (λ db, match lists db !! cur_list_id cur with
                     | Some l => l_group_id l == cur_group_id cur | None => false end);
  _ ← when hit (execute (cascade_lists (λ id, id == cur_list_id cur)));
  ensure hit not_found.
End Lists.
