(* ===== verification/Items.v ===== *)
(** * List items

    [crates/api/src/lists/items.rs]: adding items to an open list, editing one
    and deleting one. *)

From Stdlib Require Import ZArith Lia.
From stdpp Require Import base tactics decidable option list gmap strings pretty.
From S2P Require Import Prelude Effect Money Unicode Domain Host Schema Fixtures Errors.
From S2P Require Import Multibuy Market Config Extract Detail Fulfillment Pricing Lists.

Local Open Scope string_scope.
Local Open Scope list_scope.

Record AddItemsBody := mkAddItemsBody {
  aib_multibuy : option Str;
  aib_type_name : option Str;
  aib_qty : option Z
}.

Record PatchItemBody := mkPatchItemBody {
  pib_qty_requested : option Z;
  pib_type_name : option Str
}.

(** A line to add: name, quantity and line number. *)
Abbreviation NewLine := (Str * Z * Z)%type (only parsing).

(** The refusal to touch an item somebody has claimed or bought. *)
Definition require_item_open (verb : string) (status : ListItemStatus) : result ApiError unit :=
  if status != Item_Open
  then Err (Conflict ("cannot " +:+ verb +:+ " item with status '" +:+
                      ListItemStatus_to_string status +:+
                      "'; release the claim or reverse fulfillments first"))
  else Ok tt.

Section Items.
Context `{RT : Runtime} {MA : MarketApi} {CFG : AppConfig} {RD : RustDecimal}.

(** The lines a body asks for. *)
Definition new_lines_of (body : AddItemsBody) : result ApiError (list NewLine) :=
  match aib_multibuy body, aib_type_name body, aib_qty body with
  | Some mb, _, _ =>
      _ ← validate_multibuy_size mb;
      let parsed := parse_multibuy mb in
      _ ← validate_parsed parsed;
      Ok ((λ l, (pl_name l, pl_qty l, first_line_no l)) <$> pm_lines parsed)
  | None, Some name, Some qty =>
      if (qty <=? 0)%Z then Err (BadRequest "qty must be positive") else Ok [(name, qty, 0%Z)]
  | _, _, _ => Err (BadRequest "provide either {multibuy} or {type_name, qty}")
  end.

Definition resolved_row (resolved : gmap Str ResolvedType) (acc : list ItemRow) (l : NewLine)
    : Handler (list ItemRow) :=
  let '((name, qty), line_no) := l in
  r ← expect (internal ("resolved missing for " +:+ utf8 name)) (resolved !! name_key name);
  mret (acc ++ [mkItemRow (rt_type_id r) (rt_type_name r) qty line_no None None]).

Definition items_on_list (db : Db) (list_id : Uuid) : Z :=
  count_where (λ _ li, li_list_id li == list_id) (list_items db).

Definition add_items (cur : CurrentList) (body : AddItemsBody) : Handler ListDetail :=
  _ ← ensure (cur_status cur == List_Open)
        (Conflict ("list is " +:+ ListStatus_to_string (cur_status cur) +:+
                   "; items can only be added to open lists"));
  new_lines ← of_result (new_lines_of body);
  let names := (λ l : NewLine, l.1.1) <$> new_lines in
  _ ← of_result (validate_name_count (length names));
  '(resolved, unresolved) ← anyhow (resolve_type_ids names);
  _ ← ensure (bool_decide (unresolved = [])) (unknown_items unresolved);
  _ ← lock_list (cur_list_id cur);
  cur_count ← query (λ db, items_on_list db (cur_list_id cur));
  _ ← ensure (wrap_i64 (cur_count + Z.of_nat (length new_lines)) <=? items_per_list limits)%Z
        (QuotaExceeded ("adding " +:+ pretty_nat (length new_lines) +:+
                        " items would push the list past its per-list cap (" +:+
                        pretty cur_count +:+ " of " +:+ pretty (items_per_list limits) +:+ ")"));
  rows ← fold_each (resolved_row resolved) new_lines [];
  _ ← sql (for_each (insert_list_item (cur_list_id cur) (cur_user_id cur)) rows);
  updated_after ← sql (touch_list (cur_list_id cur));
  _ ← recompute_estimates (cur_list_id cur) updated_after;
  load_list_detail (cur_list_id cur) (cur_user_id cur) (cur_role cur).

(** The type a new name stands for. *)
Definition resolve_one (name : Str) : Handler ResolvedType :=
  '(resolved, unresolved) ← anyhow (resolve_type_ids [name]);
  _ ← ensure (bool_decide (unresolved = [])) (BadRequest ("unknown item: " +:+ utf8 name));
  expect (internal ("resolved missing for " +:+ utf8 name)) (resolved !! name_key name).

Definition resolve_opt (name : option Str) : Handler (option ResolvedType) :=
  match name with
  | Some name => rt ← resolve_one name; mret (Some rt)
  | None => mret None
  end.

(** [SELECT status FROM list_items ... FOR UPDATE] under the list's row lock. *)
Definition lock_item (list_id item_id : Uuid) : Handler ListItemStatus :=
  _ ← lock_list list_id;
  row ← query (λ db, li ← list_items db !! item_id;
                     if li_list_id li == list_id then Some (li_status li) else None);
  expect not_found row.

Definition update_item (list_id item_id : Uuid) (g : ListItemRow → ListItemRow) : Handler unit :=
  execute (λ db, db <| list_items ::=
    update_where (λ k li, (k == item_id) && (li_list_id li == list_id)) g |>).

Definition patch_item (cur : CurrentList) (item_id : Uuid) (body : PatchItemBody)
    : Handler ListDetail :=
  _ ← of_result (require_mutable cur);
  _ ← ensure (negb (is_none (pib_qty_requested body) && is_none (pib_type_name body)))
        (BadRequest "nothing to update");
  resolved_type ← resolve_opt (pib_type_name body);
  _ ← ensure (match pib_qty_requested body with Some qty => 0 <? qty | None => true end)%Z
        (BadRequest "qty_requested must be positive");
  item_status ← lock_item (cur_list_id cur) item_id;
  _ ← of_result (require_item_open "edit" item_status);
  _ ← match pib_qty_requested body with
      | Some qty => update_item (cur_list_id cur) item_id (λ li, li <| li_qty_requested := qty |>)
      | None => mret tt
      end;
  _ ← match resolved_type with
      | Some rt => update_item (cur_list_id cur) item_id
          (λ li, li <| li_type_id := rt_type_id rt |> <| li_type_name := utf8 (rt_type_name rt) |>)
      | None => mret tt
      end;
  updated_after ← sql (touch_list (cur_list_id cur));
  _ ← recompute_estimates (cur_list_id cur) updated_after;
  load_list_detail (cur_list_id cur) (cur_user_id cur) (cur_role cur).

(** The foreign keys below [list_items], all ON DELETE CASCADE. *)
Definition cascade_item (item_id : Uuid) (db : Db) : Db :=
  db <| list_items ::= delete item_id |>
     <| claim_items ::= delete_where (λ k _, k.2 == item_id) |>
     <| fulfillments ::= delete_where (λ _ f, f_list_item_id f == item_id) |>.

Definition delete_item (cur : CurrentList) (item_id : Uuid) : Handler ListDetail :=
  _ ← of_result (require_mutable cur);
  item_status ← lock_item (cur_list_id cur) item_id;
  _ ← of_result (require_item_open "delete" item_status);
  _ ← execute (cascade_item item_id);
  updated_after ← sql (touch_list (cur_list_id cur));
  _ ← recompute_estimates (cur_list_id cur) updated_after;
  load_list_detail (cur_list_id cur) (cur_user_id cur) (cur_role cur).
End Items.
