(* ===== verification/Groups.v ===== *)
(** * Groups and invites

    [crates/api/src/groups.rs]: creating and deleting a group, joining by
    invite code, leaving, and rotating the code, with the quota on groups per
    user. *)

From Stdlib Require Import ZArith Lia.
From stdpp Require Import base tactics decidable option list gmap strings pretty.
From S2P Require Import Prelude Effect Unicode Domain Host Schema Fixtures Errors Within.
From S2P Require Import Config Extract Detail Lists.

Local Open Scope string_scope.

(** [Alphanumeric.sample_string(&mut thread_rng(), INVITE_CODE_LEN)], as the
    sequence of its results. *)
Class InviteCodes := sample_string : N → string.

Definition MAX_INVITE_GEN_ATTEMPTS : nat := 8.
Definition INVITE_CODE_UNIQUE : string := "groups_invite_code_key".

Definition is_invite_collision (e : DbError) : bool :=
  match constraint_of e with Some c => c == INVITE_CODE_UNIQUE | None => false end.

Definition invite_exhausted : ApiError :=
  internal "could not generate a unique invite code after 8 tries".

Record GroupSummary := mkGroupSummary {
  gs_group : Group;
  gs_role : GroupRole;
  gs_member_count : Z
}.

Record GroupDetail := mkGroupDetail {
  gd_group : Group;
  gd_role : GroupRole;
  gd_members : list GroupMember
}.

Section Groups.
Context `{RT : Runtime} {CFG : AppConfig} {IC : InviteCodes}.

Definition into_group (id : Uuid) (r : GroupRow) : Group :=
  mkGroup id (g_name r) (g_invite_code r) (g_created_by_user_id r) (g_created_at r)
    (g_default_tip_pct r).

Definition into_member (user_id : Uuid) (display_name : string) (m : MembershipRow) : GroupMember :=
  mkGroupMember user_id display_name (gm_role m) (gm_joined_at m).

Definition random_invite_code {E} : M Db E string := λ db,
  Ok (sample_string (db_draws db), db <| db_draws ::= N.succ |>).

Definition groups_of (db : Db) (user_id : Uuid) : Z :=
  count_where (λ k _, k.1 == user_id) (group_memberships db).

Definition check_group_quota (user_id : Uuid) (cap : Z) : Handler unit :=
  count ← query (λ db, groups_of db user_id);
  ensure (count <? cap)%Z
    (QuotaExceeded ("you are already a member of " +:+ pretty count +:+ " groups (limit " +:+
                    pretty cap +:+ ")")).

Definition require_group_quota (user_id : Uuid) : Handler unit :=
  check_group_quota user_id (groups_per_user limits).

Definition lock_user_for_quota (user_id : Uuid) : Handler unit :=
  found ← query (λ db, row_exists (users db) user_id);
  ensure found Unauthorized.

(** A statement of the request's transaction whose error the handler looks at.
    PostgreSQL refuses every statement after a failed one until the
    transaction is rolled back. *)
Definition in_request_tx {E A} (failed : bool) (s : Stmt A) : M Db E (result DbError A) :=
  if failed then mret (Err InFailedTransaction) else attempt s.

(** [for _ in 0..MAX_INVITE_GEN_ATTEMPTS], around the statement that stores the code. *)
Fixpoint with_invite_code (attempts : nat) (failed : bool) (store : string → Stmt Group)
    : Handler (option Group) :=
  match attempts with
  | O => mret None
  | S attempts' =>
      code ← random_invite_code;
      r ← in_request_tx failed (store code);
      match r with
      | Ok row => mret (Some row)
      | Err e =>
          if is_invite_collision e then with_invite_code attempts' true store
          else throw (internal (DbError_to_string e))
      end
  end.

Definition code_free (db : Db) (except : option Uuid) (code : string) : bool :=
  negb (sel_exists (λ id g, (Some id != except) && (g_invite_code g == code)) (groups db)).

Definition insert_group (name : string) (user_id : Uuid) (code : string) : Stmt Group :=
  id ← new_uuid;
  _ ← unique (λ db, negb (row_exists (groups db) id)) "groups_pkey";
  _ ← unique (λ db, code_free db None code) INVITE_CODE_UNIQUE;
  _ ← foreign_key (λ db, row_exists (users db) user_id) "groups_created_by_user_id_fkey";
  now ← reads db_now;
  let row := mkGroupRow name code user_id 0 now in
  _ ← execute (λ db, db <| groups ::= <[id := row]> |>);
  mret (into_group id row).

Definition insert_membership (user_id group_id : Uuid) (role : GroupRole) : Stmt unit :=
  _ ← unique (λ db, negb (row_exists (group_memberships db) (user_id, group_id)))
        "group_memberships_pkey";
  _ ← foreign_key (λ db, row_exists (users db) user_id) "group_memberships_user_id_fkey";
  _ ← foreign_key (λ db, row_exists (groups db) group_id) "group_memberships_group_id_fkey";
  execute (λ db, db <| group_memberships ::=
    <[(user_id, group_id) := mkMembershipRow role (db_now db)]> |>).

Definition valid_group_name (name : Str) : bool :=
  negb (bool_decide (name = []) || (80 <? byte_len name)%nat).

Definition create_group (user_id : Uuid) (body_name : Str) : Handler Group :=
  let name := trim body_name in
  _ ← ensure (valid_group_name name) (BadRequest "name must be 1–80 characters");
  _ ← lock_user_for_quota user_id;
  _ ← require_group_quota user_id;
  group_row ← with_invite_code MAX_INVITE_GEN_ATTEMPTS false (insert_group (utf8 name) user_id);
  group ← expect invite_exhausted group_row;
  _ ← sql (insert_membership user_id (Group_id group) Owner);
  mret group.

Definition list_groups (user_id : Uuid) : Handler (list GroupSummary) :=
  query (λ db, omap (λ kv : (Uuid * Uuid) * MembershipRow,
      g ← groups db !! kv.1.2;
      Some (mkGroupSummary (into_group kv.1.2 g) (gm_role kv.2)
              (count_where (λ k _, k.2 == kv.1.2) (group_memberships db))))
    (sort_by (λ a b, le_nulls_last Z.leb (g_created_at <$> groups db !! a.1.2)
                       (g_created_at <$> groups db !! b.1.2))
      (select_where (λ k _, k.1 == user_id) (group_memberships db)))).

Definition group_members (db : Db) (group_id : Uuid) : list GroupMember :=
  omap (λ kv : (Uuid * Uuid) * MembershipRow,
      u ← users db !! kv.1.1; Some (into_member kv.1.1 (u_display_name u) kv.2))
    (sort_by (λ a b, (gm_joined_at a.2 <=? gm_joined_at b.2)%Z)
      (select_where (λ k _, k.2 == group_id) (group_memberships db))).

Definition group_detail (cur : CurrentGroup) : Handler GroupDetail :=
  row ← query (λ db, groups db !! cg_group_id cur);
  row ← expect not_found row;
  members ← query (λ db, group_members db (cg_group_id cur));
  mret (mkGroupDetail (into_group (cg_group_id cur) row) (cg_role cur) members).

(** The other owners among the locked memberships. *)
Definition other_owners (db : Db) (group_id user_id : Uuid) : nat :=
  length (select_where (λ k m, (k.2 == group_id) && (k.1 != user_id) && (gm_role m == Owner))
            (group_memberships db)).

Definition leave (cur : CurrentGroup) : Handler unit :=
  row ← query (λ db, group_memberships db !! (cg_user_id cur, cg_group_id cur));
  m ← expect (Forbidden "you are not a member of this group") row;
  others ← query (λ db, other_owners db (cg_group_id cur) (cg_user_id cur));
  _ ← ensure (negb ((gm_role m == Owner) && (others =? 0)%nat))
        (BadRequest "you are the last owner; delete the group instead");
  execute (λ db, db <| group_memberships ::= delete (cg_user_id cur, cg_group_id cur) |>).

Definition list_of_group (db : Db) (group_id list_id : Uuid) : bool :=
  match lists db !! list_id with Some l => l_group_id l == group_id | None => false end.

(** The foreign keys below [groups]: the lists and what hangs off them, and the
    ambassadors contributed through the group, which stay. *)
Definition cascade_group (group_id : Uuid) (db : Db) : Db :=
  cascade_lists (list_of_group db group_id) db
    <| groups ::= delete group_id |>
    <| group_memberships ::= delete_where (λ k _, k.2 == group_id) |>
    <| group_discord_webhooks ::= delete group_id |>
    <| group_tracked_markets ::= delete_where (λ k _, k.1 == group_id) |>
    <| group_corps ::= delete_where (λ k _, k.1 == group_id) |>
    <| corp_ambassadors ::= update_where
         (λ _ a, ca_contributed_via_group_id a == Some group_id)
         (λ a, a <| ca_contributed_via_group_id := None |>) |>
    <| pending_webhooks ::= delete_where (λ _ w, pw_group_id w == group_id) |>.

Definition delete_group (cur : CurrentGroup) : Handler unit :=
  _ ← ensure (cg_role cur == Owner) (Forbidden "owner role required");
  found ← query (λ db, row_exists (groups db) (cg_group_id cur));
  _ ← execute (cascade_group (cg_group_id cur));
  ensure found (NotFound "group not found").

Definition store_invite_code (group_id : Uuid) (code : string) : Stmt Group :=
  row ← fetch_one (λ db, groups db !! group_id);
  _ ← unique (λ db, code_free db (Some group_id) code) INVITE_CODE_UNIQUE;
  let row := row <| g_invite_code := code |> in
  _ ← execute (λ db, db <| groups ::= <[group_id := row]> |>);
  mret (into_group group_id row).

Definition rotate_invite (cur : CurrentGroup) : Handler Group :=
  _ ← ensure (cg_role cur == Owner) (Forbidden "owner role required");
  group_row ← with_invite_code MAX_INVITE_GEN_ATTEMPTS false (store_invite_code (cg_group_id cur));
  expect invite_exhausted group_row.

(** [INSERT ... ON CONFLICT DO NOTHING] of the invited member. *)
Definition join_group (user_id : Uuid) (code : string) : Handler Group :=
  _ ← lock_user_for_quota user_id;
  _ ← require_group_quota user_id;
  g ← query (λ db, head (select_where (λ _ g, g_invite_code g == code) (groups db)));
  '(group_id, row) ← expect (NotFound "invite is invalid or expired") g;
  member ← query (λ db, row_exists (group_memberships db) (user_id, group_id));
  _ ← when (negb member) (sql (insert_membership user_id group_id Member));
  mret (into_group group_id row).
End Groups.
