(* ===== verification/Corps.v ===== *)
(** * Corporations

    [crates/api/src/corps.rs]: linking a corporation to a group, its
    ambassadors, its wallet journal, and the corporation that pays for a
    list. *)

From Stdlib Require Import ZArith Lia.
From stdpp Require Import base tactics decidable option list gmap strings.
From S2P Require Import Prelude Effect Domain Host Schema Fixtures Errors.
From S2P Require Import Extract Detail.

Local Open Scope string_scope.
Local Open Scope list_scope.

(** ESI as an ambassador's authenticated client reaches it: the client for a
    character row, the character's corporation, and a corporation's name and
    ticker. *)
Class CorpEsi := {
  CorpClient : Type;
  authed_client_for : Uuid → result Anyhow CorpClient;
  character_affiliation : CorpClient → list Z → result Anyhow (list (Z * Z));
  get_corporation : CorpClient → Z → result Anyhow (string * string)
}.

(** ** Views *)

Record AmbassadorDto := mkAmbassadorDto {
  am_character_id : Uuid;
  am_character_name : string;
  am_granted_scopes : list string;
  am_last_used_at : option Timestamp;
  am_last_auth_error_at : option Timestamp;
  am_disabled_at : option Timestamp
}.

Record WalletDivisionDto := mkWalletDivisionDto {
  wdd_division : Z;
  wdd_name : option string;
  wdd_balance_isk : option Z;
  wdd_last_synced_at : option Timestamp
}.

Record CorpDto := mkCorpDto {
  cd_id : Uuid;
  cd_esi_corporation_id : Z;
  cd_name : string;
  cd_ticker : string;
  cd_last_synced_at : option Timestamp;
  cd_last_auth_error_at : option Timestamp;
  cd_disabled_at : option Timestamp;
  cd_linked_at : Timestamp;
  cd_linked_by_user_id : Uuid;
  cd_is_ambassador : bool;
  cd_ambassadors : list AmbassadorDto;
  cd_wallet_divisions : list WalletDivisionDto
}.

Record PatchListPayerBody := mkPatchListPayerBody {
  ppb_payer_corp_id : option Uuid;
  ppb_payer_division : option Z
}.

Record JournalQuery := mkJournalQuery {
  jq_limit : Z;
  jq_before : option Timestamp;
  jq_division : option Z
}.

Section Corps.
Context `{RT : Runtime} {CE : CorpEsi}.

Record JournalEntryDto := mkJournalEntryDto {
  je_id : Uuid;
  je_division : Z;
  je_esi_journal_ref_id : Z;
  je_date : Timestamp;
  je_ref_type : string;
  je_amount : Z;
  je_balance : Z;
  je_first_party_id : option Z;
  je_second_party_id : option Z;
  je_context_id : option Z;
  je_context_id_type : option string;
  je_reason : option string;
  je_raw_json : option Value
}.

(** ** Helpers *)

Definition active_link (gc : GroupCorpRow) : bool := is_none (gc_unlinked_at gc).

Definition corp_in_group (db : Db) (group_id corp_id : Uuid) : bool :=
  match group_corps db !! (group_id, corp_id) with
  | Some gc => active_link gc
  | None => false
  end.

Definition require_corp_in_group (group_id corp_id : Uuid) : Handler unit :=
  exists_ ← query (λ db, corp_in_group db group_id corp_id);
  ensure exists_ not_found.

(** The ambassadors of a corporation: the active ones first, the least
    recently used first. *)
Definition nulls_first_leb (a b : option Timestamp) : bool :=
  match a, b with
  | None, _ => true
  | Some _, None => false
  | Some x, Some y => (x <=? y)%Z
  end.

Definition ambassador_rows (db : Db) (corp_id : Uuid) : list ((Uuid * Uuid) * AmbassadorRow) :=
  sort_by (λ a b,
      if bool_decide (ca_disabled_at a.2 = ca_disabled_at b.2)
      then nulls_first_leb (ca_last_used_at a.2) (ca_last_used_at b.2)
      else nulls_first_leb (ca_disabled_at a.2) (ca_disabled_at b.2))
    (select_where (λ k _, (k.1 == corp_id) && row_exists (characters db) k.2) (corp_ambassadors db)).

Definition ambassador_dto (db : Db) (kv : (Uuid * Uuid) * AmbassadorRow) : option AmbassadorDto :=
  let '((_, cid), a) := kv in
  ch ← characters db !! cid;
  Some (mkAmbassadorDto cid (ch_character_name ch) (ca_granted_scopes a) (ca_last_used_at a)
          (ca_last_auth_error_at a) (ca_disabled_at a)).

(** The user owns a character that is an active ambassador. *)
Definition is_ambassador (db : Db) (corp_id user_id : Uuid) : bool :=
  sel_exists (λ k a, (k.1 == corp_id) && is_none (ca_disabled_at a) &&
    match characters db !! k.2 with Some ch => ch_user_id ch == user_id | None => false end)
    (corp_ambassadors db).

(** Balances are for owners and ambassadors. *)
Definition division_dtos (db : Db) (corp_id : Uuid) (visible : bool) : list WalletDivisionDto :=
  (λ kv : (Uuid * Z) * DivisionRow, mkWalletDivisionDto kv.1.2 (wd_name kv.2)
      (if visible then Some (wd_balance_isk kv.2) else None) (wd_last_synced_at kv.2)) <$>
  sort_by (λ a b, (a.1.2 <=? b.1.2)%Z)
    (select_where (λ k _, k.1 == corp_id) (corp_wallet_divisions db)).

Definition corp_dto (db : Db) (caller : Uuid) (role : GroupRole)
    (kv : (Uuid * Uuid) * GroupCorpRow) : option CorpDto :=
  let '((_, corp_id), gc) := kv in
  co ← corps db !! corp_id;
  let amb := is_ambassador db corp_id caller in
  Some (mkCorpDto corp_id (co_esi_corporation_id co) (co_name co) (co_ticker co)
          (co_last_synced_at co) (co_last_auth_error_at co) (co_disabled_at co) (gc_linked_at gc)
          (gc_linked_by_user_id gc) amb (omap (ambassador_dto db) (ambassador_rows db corp_id))
          (division_dtos db corp_id ((role == Owner) || amb))).

Definition list_corps_inner (db : Db) (group_id caller : Uuid) (role : GroupRole) : list CorpDto :=
  omap (corp_dto db caller role)
    (sort_by (λ a b, (gc_linked_at a.2 <=? gc_linked_at b.2)%Z)
      (select_where (λ k gc, (k.1 == group_id) && active_link gc) (group_corps db))).

(** ** Handlers *)

Definition list_corps (cur : CurrentGroup) : Handler (list CorpDto * GroupRole) :=
  corps ← query (λ db, list_corps_inner db (cg_group_id cur) (cg_user_id cur) (cg_role cur));
  mret (corps, cg_role cur).

Definition require_owner (role : GroupRole) : Handler unit := ensure (role == Owner) forbidden.

(** The caller's character with this EVE id, and its scopes. *)
Definition own_character (user_id : Uuid) (character_id : Z) : Handler (Uuid * list string) :=
  row ← query (λ db, head (select_where (λ _ c, (ch_character_id c == character_id) &&
                                                (ch_user_id c == user_id)) (characters db)));
  '(id, c) ← expect (BadRequest "character not found or not yours") row;
  mret (id, ch_scopes c).

(** [INSERT INTO corps ... ON CONFLICT (esi_corporation_id) DO UPDATE]. *)
Definition upsert_corp (esi_corp_id : Z) (name ticker : string) : Stmt Uuid :=
  existing ← reads (λ db, head (select_where (λ _ c, co_esi_corporation_id c == esi_corp_id) (corps db)));
  id ← new_uuid;
  match existing with
  | Some (corp_id, _) =>
      _ ← execute (λ db, db <| corps ::= update_where (λ k _, k == corp_id)
            (λ c, c <| co_name := name |> <| co_ticker := ticker |> <| co_disabled_at := None |>
                    <| co_last_synced_at := Some (db_now db) |>) |>);
      mret corp_id
  | None =>
      _ ← unique (λ db, negb (row_exists (corps db) id)) "corps_pkey";
      _ ← execute (λ db, db <| corps ::= <[id := mkCorpRow esi_corp_id name ticker None None None
            None None None None (db_now db)]> |>);
      mret id
  end.

(** [INSERT INTO principals (kind, corp_id) ... ON CONFLICT DO NOTHING]. *)
Definition insert_corp_principal (corp_id : Uuid) : Stmt unit :=
  id ← new_uuid;
  taken ← reads (λ db, row_exists (principals db) id ||
    sel_exists (λ _ p, (p_kind p == Principal_Corp) && (p_corp_id p == Some corp_id)) (principals db));
  _ ← foreign_key (λ db, row_exists (corps db) corp_id) "principals_corp_id_fkey";
  when (negb taken) (execute (λ db, db <| principals ::=
    <[id := mkPrincipalRow Principal_Corp None (Some corp_id)]> |>)).

Definition upsert_group_corp (group_id corp_id user_id : Uuid) : Stmt unit :=
  _ ← foreign_key (λ db, row_exists (groups db) group_id) "group_corps_group_id_fkey";
  _ ← foreign_key (λ db, row_exists (corps db) corp_id) "group_corps_corp_id_fkey";
  _ ← foreign_key (λ db, row_exists (users db) user_id) "group_corps_linked_by_user_id_fkey";
  execute (λ db, db <| group_corps ::= <[(group_id, corp_id) :=
    match group_corps db !! (group_id, corp_id) with
    | Some gc => mkGroupCorpRow (if is_none (gc_unlinked_at gc) then gc_linked_at gc else db_now db)
                   user_id None
    | None => mkGroupCorpRow (db_now db) user_id None
    end]> |>).

(** The group a new or renewed ambassador is contributed through: [Some] from
    [add_ambassador], left alone by [link_corp]. *)
Definition upsert_ambassador (corp_id character_id : Uuid) (scopes : list string)
    (via : option Uuid) : Stmt unit :=
  _ ← foreign_key (λ db, row_exists (corps db) corp_id) "corp_ambassadors_corp_id_fkey";
  _ ← foreign_key (λ db, row_exists (characters db) character_id) "corp_ambassadors_character_id_fkey";
  execute (λ db, db <| corp_ambassadors ::= <[(corp_id, character_id) :=
    match corp_ambassadors db !! (corp_id, character_id) with
    | Some a => mkAmbassadorRow scopes (ca_last_used_at a) None None
                  (match via with Some g => Some g | None => ca_contributed_via_group_id a end)
    | None => mkAmbassadorRow scopes None None None via
    end]> |>).

Definition link_corp (cur : CurrentGroup) (character_id : Z) : Handler CorpDto :=
  _ ← require_owner (cg_role cur);
  '(char_uuid, granted_scopes) ← own_character (cg_user_id cur) character_id;
  client ← map_err internal (of_result (authed_client_for char_uuid));
  affiliations ← map_err internal (of_result (character_affiliation client [character_id]));
  esi_corp_id ← expect (internal "affiliation not found")
    (snd <$> List.find (λ a, a.1 =? character_id)%Z affiliations);
  '(name, ticker) ← map_err internal (of_result (get_corporation client esi_corp_id));
  corp_id ← sql (upsert_corp esi_corp_id name ticker);
  _ ← sql (insert_corp_principal corp_id);
  _ ← sql (upsert_group_corp (cg_group_id cur) corp_id (cg_user_id cur));
  _ ← sql (upsert_ambassador corp_id char_uuid granted_scopes None);
  corps ← query (λ db, list_corps_inner db (cg_group_id cur) (cg_user_id cur) (cg_role cur));
  expect (internal "corp not found after link") (List.find (λ c, cd_id c == corp_id) corps).

Definition add_ambassador (cur : CurrentGroup) (corp_id : Uuid) (character_id : Z) : Handler unit :=
  _ ← require_owner (cg_role cur);
  _ ← require_corp_in_group (cg_group_id cur) corp_id;
  '(char_uuid, granted_scopes) ← own_character (cg_user_id cur) character_id;
  sql (upsert_ambassador corp_id char_uuid granted_scopes (Some (cg_group_id cur))).

Definition disable_ambassadors (P : (Uuid * Uuid) → AmbassadorRow → bool) (db : Db) : Db :=
  db <| corp_ambassadors ::= update_where (λ k a, P k a && is_none (ca_disabled_at a))
    (λ a, a <| ca_disabled_at := Some (db_now db) |>) |>.

Definition remove_ambassador (cur : CurrentGroup) (corp_id character_id : Uuid) : Handler unit :=
  _ ← require_owner (cg_role cur);
  _ ← require_corp_in_group (cg_group_id cur) corp_id;
  execute (disable_ambassadors (λ k _, k == (corp_id, character_id))).

(** Some group still links the corporation. *)
Definition linked_somewhere (db : Db) (corp_id : Uuid) : bool :=
  sel_exists (λ k gc, (k.2 == corp_id) && active_link gc) (group_corps db).

(** The statements of [unlink_corp]. *)
Definition unlink_link (group_id corp_id : Uuid) : Handler unit :=
  execute (λ db, db <| group_corps ::= update_where
    (λ k gc, (k == (group_id, corp_id)) && active_link gc)
    (λ gc, gc <| gc_unlinked_at := Some (db_now db) |>) |>).
Definition disable_contributed (group_id corp_id : Uuid) : Handler unit :=
  execute (disable_ambassadors (λ k a, (k.1 == corp_id) &&
    (ca_contributed_via_group_id a == Some group_id))).
Definition disable_corp (corp_id : Uuid) : Handler unit :=
  execute (λ db, db <| corps ::= update_where (λ k _, k == corp_id)
    (λ c, c <| co_disabled_at := Some (db_now db) |>) |>).

Definition unlink_corp (cur : CurrentGroup) (corp_id : Uuid) : Handler unit :=
  _ ← require_owner (cg_role cur);
  _ ← require_corp_in_group (cg_group_id cur) corp_id;
  _ ← unlink_link (cg_group_id cur) corp_id;
  _ ← disable_contributed (cg_group_id cur) corp_id;
  linked ← query (λ db, linked_somewhere db corp_id);
  when (negb linked) (disable_corp corp_id).

(** ** The wallet journal *)

Definition journal_limit (limit : Z) : nat := Z.to_nat (Z.min 500 (Z.max 1 limit)).

Definition journal_entry (full_visibility : bool) (kv : Uuid * JournalRow) : JournalEntryDto :=
  let '(id, r) := kv in
  mkJournalEntryDto id (wj_division r) (wj_esi_journal_ref_id r) (wj_date r) (wj_ref_type r)
    (wj_amount r) (wj_balance r) (wj_first_party_id r) (wj_second_party_id r) (wj_context_id r)
    (wj_context_id_type r) (wj_reason r) (if full_visibility then Some (wj_raw_json r) else None).

Definition journal_rows (db : Db) (corp_id : Uuid) (q : JournalQuery) : list (Uuid * JournalRow) :=
  take (journal_limit (jq_limit q))
    (sort_by (λ a b, (wj_date b.2 <=? wj_date a.2)%Z)
      (select_where (λ _ r, (wj_corp_id r == corp_id) &&
          match jq_before q with Some t => (wj_date r <? t)%Z | None => true end &&
          match jq_division q with Some d => wj_division r == d | None => true end)
        (corp_wallet_journal db))).

Definition list_journal (cur : CurrentGroup) (corp_id : Uuid) (q : JournalQuery)
    : Handler (list JournalEntryDto) :=
  _ ← require_corp_in_group (cg_group_id cur) corp_id;
  amb ← query (λ db, is_ambassador db corp_id (cg_user_id cur));
  owner ← query (λ db, member_role db (cg_user_id cur) (cg_group_id cur) == Some Owner);
  let full_visibility := amb || owner in
  _ ← ensure full_visibility forbidden;
  query (λ db, journal_entry full_visibility <$> journal_rows db corp_id q).

(** ** The payer of a list *)

Definition payer_body_ok (body : PatchListPayerBody) : bool :=
  eqb (is_none (ppb_payer_corp_id body)) (is_none (ppb_payer_division body)).

(** The group of the list, when the user owns it. *)
Definition owned_list_group (db : Db) (user_id list_id : Uuid) : option Uuid :=
  l ← lists db !! list_id;
  if member_role db user_id (l_group_id l) == Some Owner then Some (l_group_id l) else None.

Definition patch_list_payer (user_id list_id : Uuid) (body : PatchListPayerBody)
    : Handler ListDetail :=
  _ ← ensure (payer_body_ok body)
        (BadRequest "payer_corp_id and payer_division must both be set or both be null");
  row ← query (λ db, owned_list_group db user_id list_id);
  group_id ← expect forbidden row;
  has_reimbs ← query (λ db, sel_exists (λ _ r, r_list_id r == list_id) (reimbursements db));
  _ ← ensure (negb has_reimbs)
        (Conflict "payer cannot be changed after reimbursements have been generated");
  _ ← match ppb_payer_corp_id body with
      | Some corp_id => require_corp_in_group group_id corp_id
      | None => mret tt
      end;
  _ ← sql (foreign_key (λ db, opt_row_exists (corps db) (ppb_payer_corp_id body))
             "lists_payer_corp_id_fkey");
  _ ← execute (λ db, db <| lists ::= update_where (λ k _, k == list_id)
        (λ l, l <| l_payer_corp_id := ppb_payer_corp_id body |>
                <| l_payer_division := ppb_payer_division body |>) |>);
  load_list_detail list_id user_id Owner.
End Corps.
