(* ===== verification/Invariant.v ===== *)
(** * The ledger invariant

    What every reachable database satisfies about items, claims, purchases and
    debts, as the handlers of the other files maintain it, with the lemmas
    that carry each part from one state to the next. *)

From Stdlib Require Import ZArith Lia.
From stdpp Require Import base tactics decidable option list gmap strings.
From S2P Require Import Prelude Effect Money Domain Host Schema.
From S2P Require Import Settlement Wallet Fulfillment Claims Reimbursements.

Section Invariant.
Context `{RT : Runtime}.
Implicit Types (db : Db) (li : ListItemRow) (f : FulfillmentRow) (r : ReimbursementRow).

(** ** Items *)

(** Headroom under which [body.qty + qty_fulfilled] cannot wrap around. *)
Definition max_requested : Z := (i64_max - 10000000)%Z.

(** Delivered and settled items are fully bought; the status of any other is
    what its purchases and claims say. *)
Definition status_ok li (active : bool) : Prop :=
  match li_status li with
  | Item_Delivered | Item_Settled => (li_qty_requested li ≤ li_qty_fulfilled li)%Z
  | s => s = base_status (li_qty_requested li) (li_qty_fulfilled li) active
  end.

Record item_ok (fs : gmap Uuid FulfillmentRow) (cis : gmap (Uuid * Uuid) ClaimItemRow)
    (id : Uuid) li : Prop := mkItemOk {
  item_requested : (0 < li_qty_requested li ≤ max_requested)%Z;
  item_live : li_qty_fulfilled li = live_qty fs id;
  item_fulfilled : (0 ≤ li_qty_fulfilled li ≤ li_qty_requested li)%Z;
  item_status : status_ok li (has_active_claim cis id)
}.

Definition items_ok db : Prop :=
  ∀ id li, list_items db !! id = Some li → item_ok (fulfillments db) (claim_items db) id li.

(** ** Claims *)

Record claims_ok (cls : gmap Uuid ClaimRow) (cis : gmap (Uuid * Uuid) ClaimItemRow) : Prop :=
  mkClaimsOk {
  claim_synced k ci : cis !! k = Some ci →
    ∃ c, cls !! k.1 = Some c ∧ ci_active ci = (cl_status c == Claim_Active);
  claim_unique k1 k2 ci1 ci2 : cis !! k1 = Some ci1 → cis !! k2 = Some ci2 →
    ci_active ci1 = true → ci_active ci2 = true → k1.2 = k2.2 → k1 = k2
}.

(** A claim's items exist and are on the claim's list. *)
Definition targets_ok (cls : gmap Uuid ClaimRow) (cis : gmap (Uuid * Uuid) ClaimItemRow)
    (items : gmap Uuid ListItemRow) : Prop :=
  ∀ k, is_Some (cis !! k) → ∃ c li, cls !! k.1 = Some c ∧ items !! k.2 = Some li ∧
    li_list_id li = cl_list_id c.

(** Claims that keep their list and only lose items. *)
Record claims_shrink (cls : gmap Uuid ClaimRow) (cis : gmap (Uuid * Uuid) ClaimItemRow)
    (cls' : gmap Uuid ClaimRow) (cis' : gmap (Uuid * Uuid) ClaimItemRow) : Prop :=
  mkClaimsShrink {
  cs_keys k : is_Some (cis' !! k) → is_Some (cis !! k);
  cs_lists cid c : cls !! cid = Some c → ∃ c', cls' !! cid = Some c' ∧ cl_list_id c' = cl_list_id c
}.

(** ** References and static columns *)

(** The unique indexes of [principals]. *)
Definition names_user (u : Uuid) (p : PrincipalRow) : bool :=
  (p_kind p == Principal_User) && (p_user_id p == Some u).
Definition names_corp (c : Uuid) (p : PrincipalRow) : bool :=
  (p_kind p == Principal_Corp) && (p_corp_id p == Some c).

Record principals_ok (ps : gmap Uuid PrincipalRow) : Prop := mkPrincipalsOk {
  user_unique u k1 k2 p1 p2 : ps !! k1 = Some p1 → ps !! k2 = Some p2 →
    names_user u p1 = true → names_user u p2 = true → k1 = k2;
  corp_unique c k1 k2 p1 p2 : ps !! k1 = Some p1 → ps !! k2 = Some p2 →
    names_corp c p1 = true → names_corp c p2 = true → k1 = k2
}.

Record refs_ok db : Prop := mkRefsOk {
  refs_user u : is_Some (users db !! u) → is_Some (principal_of_user db u);
  refs_payer lid l corp : lists db !! lid = Some l → l_payer_corp_id l = Some corp →
    is_Some (principal_of_corp db corp);
  refs_item id li : list_items db !! id = Some li → is_Some (lists db !! li_list_id li);
  refs_requester id li u : list_items db !! id = Some li → li_requested_by_user_id li = Some u →
    is_Some (users db !! u);
  refs_tip lid l : lists db !! lid = Some l → (0 ≤ l_tip_pct l)%Z;
  refs_linked k : is_Some (group_corps db !! k) → is_Some (principal_of_corp db k.2);
  refs_principals : principals_ok (principals db)
}.

Record fulfillment_ok db f : Prop := mkFulfillmentOk {
  ff_qty : (0 < f_qty f)%Z;
  ff_price : (0 ≤ f_unit_price_isk f)%Z;
  ff_item : ∃ li, list_items db !! f_list_item_id f = Some li ∧
                  is_Some (li_requested_by_user_id li);
  ff_hauler : is_Some (users db !! f_hauler_user_id f)
}.

Definition fulfillments_ok db : Prop :=
  ∀ fid f, fulfillments db !! fid = Some f → fulfillment_ok db f.

(** ** Debts *)

(** The reimbursement's scope includes the purchase. *)
Definition pays db r f : bool :=
  payable_item db (r_list_id r) (r_requester_user_id r) (f_list_item_id f) &&
  (f_hauler_user_id f == r_hauler_user_id r).

(** The requester columns follow the list's payer. *)
Definition requester_ok db r : Prop :=
  ∃ l, lists db !! r_list_id r = Some l ∧
    match l_payer_corp_id l with
    | Some corp => r_is_corp_funded r = true ∧ r_requester_user_id r = None ∧
        principal_of_corp db corp = Some (r_requester_principal_id r)
    | None => r_is_corp_funded r = false ∧ ∃ u, r_requester_user_id r = Some u ∧
        principal_of_user db u = Some (r_requester_principal_id r)
    end.

Record amounts_ok r : Prop := mkAmountsOk {
  amounts_total : r_total_isk r = (r_subtotal_isk r + r_tip_isk r)%Z;
  amounts_subtotal : (0 ≤ r_subtotal_isk r)%Z;
  amounts_tip : (0 ≤ r_tip_isk r)%Z
}.

Definition current_subtotal db r : Z :=
  subtotal_of db (r_list_id r) (r_requester_user_id r) (r_hauler_user_id r).

Record reimb_ok db r : Prop := mkReimbOk {
  reimb_amounts : amounts_ok r;
  reimb_requester : requester_ok db r;
  reimb_hauler : principal_of_user db (r_hauler_user_id r) = Some (r_hauler_principal_id r);
  reimb_current : r_status r ≠ Reimb_Cancelled → r_subtotal_isk r = current_subtotal db r
}.

Definition reimbs_ok db : Prop :=
  ∀ rid r, reimbursements db !! rid = Some r → reimb_ok db r.

(** At most one live debt per list, requester and hauler. *)
Definition cycles_ok db : Prop :=
  ∀ id1 id2 r1 r2, reimbursements db !! id1 = Some r1 → reimbursements db !! id2 = Some r2 →
    r_status r1 ≠ Reimb_Cancelled → r_status r2 ≠ Reimb_Cancelled →
    in_cycle (r_list_id r1) (r_requester_principal_id r1) (r_hauler_principal_id r1) r2 = true →
    id1 = id2.

(** Every purchase that stands is in the scope of a debt. *)
Definition covered db : Prop :=
  ∀ fid f, fulfillments db !! fid = Some f → f_reversed_at f = None →
    ∃ rid r, reimbursements db !! rid = Some r ∧ r_status r ≠ Reimb_Cancelled ∧
      pays db r f = true.

(** No debt for a purchase on a settled item is still pending. *)
Definition settled_paid db : Prop :=
  ∀ fid f li, fulfillments db !! fid = Some f → f_reversed_at f = None →
    list_items db !! f_list_item_id f = Some li → li_status li = Item_Settled →
    ∀ rid r, reimbursements db !! rid = Some r → pays db r f = true → r_status r ≠ Reimb_Pending.

(** No code path cancels a debt. *)
Definition none_cancelled db : Prop :=
  ∀ rid r, reimbursements db !! rid = Some r → r_status r ≠ Reimb_Cancelled.

(** ** Links *)

Definition one_confirmed db : Prop :=
  ∀ k1 k2 s1 s2, contract_match_suggestions db !! k1 = Some s1 →
    contract_match_suggestions db !! k2 = Some s2 →
    s_state s1 = Match_Confirmed → s_state s2 = Match_Confirmed →
    s_reimbursement_id s1 = s_reimbursement_id s2 → k1 = k2.

Record Inv db : Prop := mkInv {
  inv_items : items_ok db;
  inv_claims : claims_ok (claims db) (claim_items db);
  inv_targets : targets_ok (claims db) (claim_items db) (list_items db);
  inv_refs : refs_ok db;
  inv_fulfillments : fulfillments_ok db;
  inv_reimbs : reimbs_ok db;
  inv_cycles : cycles_ok db;
  inv_covered : covered db;
  inv_paid : settled_paid db;
  inv_confirmed : one_confirmed db;
  inv_live : none_cancelled db
}.

(** ** Frames *)

(** The tables the invariant is about. *)
Record same_ledger db db' : Prop := mkSameLedger {
  sl_users : users db' = users db;
  sl_principals : principals db' = principals db;
  sl_group_corps : group_corps db' = group_corps db;
  sl_lists : lists db' = lists db;
  sl_items : list_items db' = list_items db;
  sl_claims : claims db' = claims db;
  sl_claim_items : claim_items db' = claim_items db;
  sl_fulfillments : fulfillments db' = fulfillments db;
  sl_reimbs : reimbursements db' = reimbursements db;
  sl_suggestions : contract_match_suggestions db' = contract_match_suggestions db
}.

#[export] Instance same_ledger_equiv : Equivalence same_ledger.
Proof.
  split.
  - intros db. by split.
  - intros db db' []. split; congruence.
  - intros db1 db2 db3 [] []. split; congruence.
Qed.

#[export] Instance Inv_proper : Proper (same_ledger ==> iff) Inv.
Proof.
  assert (∀ db db', same_ledger db db' → Inv db → Inv db') as Himp.
  { intros [] [] []. cbn in *. subst. intros [H1 H2 H0 H3 H4 H5 H6 H7 H8 H9 H10]. split.
    - exact H1.
    - exact H2.
    - exact H0.
    - destruct H3 as [A B C D E F G].
      split; [exact A|exact B|exact C|exact D|exact E|exact F|exact G].
    - intros fid f Hf. destruct (H4 fid f Hf) as [A B C D]. by split.
    - intros rid r Hr. destruct (H5 rid r Hr) as [A B C D]. by split.
    - exact H6.
    - exact H7.
    - exact H8.
    - exact H9.
    - exact H10. }
  intros db db' Hs. split; apply Himp; [done|by symmetry].
Qed.

(** ** Finality

    What is settled stays as it is: the debt (its audit columns apart, which
    follow the wallet), the item (its price estimate
    apart, which follows the market), and the purchases of the item. *)
Definition same_item li li' : Prop :=
  li' = li <| li_est_unit_price_isk := li_est_unit_price_isk li' |>
           <| li_est_priced_market_id := li_est_priced_market_id li' |>.

#[export] Instance same_item_preorder : PreOrder same_item.
Proof.
  split; [by intros []|]. intros [] [] []. unfold same_item, set. cbn. congruence.
Qed.

Lemma same_item_status li li' : same_item li li' → li_status li' = li_status li.
Proof. by intros ->. Qed.

Record frozen db db' : Prop := mkFrozen {
  fz_reimbs rid r : reimbursements db !! rid = Some r → r_status r = Reimb_Settled →
    ∃ r', reimbursements db' !! rid = Some r' ∧ same_debt r r';
  fz_items id li : list_items db !! id = Some li → li_status li = Item_Settled →
    ∃ li', list_items db' !! id = Some li' ∧ same_item li li';
  fz_purchases fid f li : fulfillments db !! fid = Some f →
    list_items db !! f_list_item_id f = Some li → li_status li = Item_Settled →
    fulfillments db' !! fid = Some f
}.

Lemma same_reimbs_frozen db db' rid r :
  reimbursements db' = reimbursements db → reimbursements db !! rid = Some r →
  ∃ r', reimbursements db' !! rid = Some r' ∧ same_debt r r'.
Proof. intros -> Hr. by exists r. Qed.

#[export] Instance frozen_proper : Proper (same_ledger ==> same_ledger ==> iff) frozen.
Proof.
  assert (∀ d1 d2, same_ledger d1 d2 → ∀ e1 e2, same_ledger e1 e2 → frozen d1 e1 → frozen d2 e2)
    as Himp.
  { intros [] [] [] [] [] []. cbn in *. subst. intros [H1 H2 H3].
    split; [exact H1|exact H2|exact H3]. }
  intros d1 d2 Hd e1 e2 He. split; apply Himp; done || by symmetry.
Qed.

#[export] Instance frozen_preorder : PreOrder frozen.
Proof.
  split.
  { intros db. split; [intros rid r ? _; by exists r|intros id li ? _; by exists li|eauto]. }
  intros d1 d2 d3 [A1 A2 A3] [B1 B2 B3]. split.
  - intros rid r Hr Hs. destruct (A1 _ _ Hr Hs) as (r2 & Hr2 & H2).
    destruct (B1 _ _ Hr2) as (r3 & Hr3 & H3); [by rewrite (same_debt_status _ _ H2)|].
    exists r3. split; [done|by etransitivity].
  - intros id li Hl Hs. destruct (A2 _ _ Hl Hs) as (li2 & Hl2 & H2).
    destruct (B2 _ _ Hl2) as (li3 & Hl3 & H3); [by rewrite (same_item_status _ _ H2)|].
    exists li3. split; [done|by etransitivity].
  - intros fid f li Hf Hl Hs. destruct (A2 _ _ Hl Hs) as (li2 & Hl2 & H2).
    eapply B3; [by eauto|exact Hl2|by rewrite (same_item_status _ _ H2)].
Qed.

(** Item rows that differ at most in status and fulfilled quantity. *)
Definition item_key li : Uuid * option Uuid * Z :=
  (li_list_id li, li_requested_by_user_id li, li_qty_requested li).
Definition items_similar (t t' : gmap Uuid ListItemRow) : Prop :=
  ∀ id, item_key <$> t' !! id = item_key <$> t !! id.

#[export] Instance items_similar_equiv : Equivalence items_similar.
Proof.
  split.
  - intros t id. done.
  - intros t t' Hs id. by rewrite Hs.
  - intros t1 t2 t3 H1 H2 id. by rewrite H2, H1.
Qed.

Lemma items_similar_Some t t' id li' :
  items_similar t t' → t' !! id = Some li' → ∃ li, t !! id = Some li ∧ item_key li = item_key li'.
Proof.
  intros Hs Hl. specialize (Hs id). rewrite Hl in Hs. cbn in Hs. symmetry in Hs.
  apply fmap_Some in Hs as (li & ? & ?). eauto.
Qed.

Lemma items_similar_is_Some t t' id : items_similar t t' → is_Some (t !! id) → is_Some (t' !! id).
Proof.
  intros Hs [li Hl]. specialize (Hs id). rewrite Hl in Hs. by destruct (t' !! id).
Qed.

Lemma targets_ok_similar cls cis items items' :
  items_similar items items' → targets_ok cls cis items → targets_ok cls cis items'.
Proof.
  intros Hs Ht k Hk. destruct (Ht k Hk) as (c & li & Hc & Hl & He). specialize (Hs k.2).
  rewrite Hl in Hs. cbn in Hs. apply fmap_Some in Hs as (li' & Hl' & [= E _ _]).
  exists c, li'. by rewrite <- E.
Qed.

Lemma targets_ok_shrink cls cis cls' cis' items :
  claims_shrink cls cis cls' cis' → targets_ok cls cis items → targets_ok cls' cis' items.
Proof.
  intros [Hk Hl] Ht k (c & li & Hc & Hi & He)%Hk%Ht. destruct (Hl _ _ Hc) as (c' & Hc' & E).
  exists c', li. by rewrite E.
Qed.

Lemma claims_shrink_refl cls cis : claims_shrink cls cis cls cis.
Proof. split; [done|eauto]. Qed.

Lemma items_similar_update P (g : ListItemRow → ListItemRow) t :
  (∀ li, item_key (g li) = item_key li) → items_similar t (update_where P g t).
Proof.
  intros Hg id. rewrite lookup_update_where. destruct (t !! id); [|done]. cbn.
  by destruct (P _ _); rewrite ?Hg.
Qed.

Lemma items_similar_each (g : Uuid → ListItemRow → ListItemRow) t :
  (∀ id li, item_key (g id li) = item_key li) → items_similar t (update_each g t).
Proof.
  intros Hg id. rewrite lookup_update_each. destruct (t !! id); [|done]. cbn. by rewrite Hg.
Qed.

Lemma items_similar_insert id li li' t :
  t !! id = Some li → item_key li' = item_key li → items_similar t (<[id := li']> t).
Proof.
  intros Hl Hk id'. destruct (decide (id' = id)) as [->|Hne].
  - by rewrite lookup_insert_eq, Hl; cbn; rewrite Hk.
  - by rewrite lookup_insert_ne.
Qed.

(** List rows that differ at most in status, tip and timestamps. *)
Definition lists_similar (t t' : gmap Uuid ListRow) : Prop :=
  ∀ lid, l_payer_corp_id <$> t' !! lid = l_payer_corp_id <$> t !! lid.

#[export] Instance lists_similar_equiv : Equivalence lists_similar.
Proof.
  split.
  - intros t id. done.
  - intros t t' Hs id. by rewrite Hs.
  - intros t1 t2 t3 H1 H2 id. by rewrite H2, H1.
Qed.

Lemma lists_similar_update P (g : ListRow → ListRow) t :
  (∀ l, l_payer_corp_id (g l) = l_payer_corp_id l) → lists_similar t (update_where P g t).
Proof.
  intros Hg id. rewrite lookup_update_where. destruct (t !! id); [|done]. cbn.
  by destruct (P _ _); rewrite ?Hg.
Qed.
(** What scopes and requesters are read from. *)
Record similar db db' : Prop := mkSimilar {
  sim_users : users db' = users db;
  sim_principals : principals db' = principals db;
  sim_group_corps : group_corps db' = group_corps db;
  sim_lists : lists_similar (lists db) (lists db');
  sim_items : items_similar (list_items db) (list_items db')
}.

Lemma similar_refl db : similar db db.
Proof. by split. Qed.

Section Similar.
Context {db db' : Db} (Hsim : similar db db').

Lemma principal_of_user_similar u : principal_of_user db' u = principal_of_user db u.
Proof. unfold principal_of_user. by rewrite (sim_principals _ _ Hsim). Qed.

Lemma principal_of_corp_similar c : principal_of_corp db' c = principal_of_corp db c.
Proof. unfold principal_of_corp. by rewrite (sim_principals _ _ Hsim). Qed.

Lemma payer_similar lid l' :
  lists db' !! lid = Some l' →
  ∃ l, lists db !! lid = Some l ∧ l_payer_corp_id l = l_payer_corp_id l'.
Proof.
  intros Hl. pose proof (sim_lists _ _ Hsim lid) as Hs. rewrite Hl in Hs. cbn in Hs.
  symmetry in Hs. apply fmap_Some in Hs as (l & ? & ?). eauto.
Qed.

Lemma payer_similar_rev lid l :
  lists db !! lid = Some l →
  ∃ l', lists db' !! lid = Some l' ∧ l_payer_corp_id l' = l_payer_corp_id l.
Proof.
  intros Hl. pose proof (sim_lists _ _ Hsim lid) as Hs. rewrite Hl in Hs. cbn in Hs.
  apply fmap_Some in Hs as (l' & ? & ?). eauto.
Qed.

Lemma item_similar id li' :
  list_items db' !! id = Some li' →
  ∃ li, list_items db !! id = Some li ∧ item_key li = item_key li'.
Proof. apply items_similar_Some, (sim_items _ _ Hsim). Qed.

Lemma item_similar_rev id li :
  list_items db !! id = Some li →
  ∃ li', list_items db' !! id = Some li' ∧ item_key li' = item_key li.
Proof.
  intros Hl. pose proof (sim_items _ _ Hsim id) as Hs. rewrite Hl in Hs. cbn in Hs.
  apply fmap_Some in Hs as (li' & ? & ?). eauto.
Qed.

Lemma payable_similar lid q id : payable_item db' lid q id = payable_item db lid q id.
Proof.
  unfold payable_item. pose proof (sim_items _ _ Hsim id) as Hs.
  destruct (list_items db' !! id) as [li'|], (list_items db !! id) as [li|]; try done.
  cbn in Hs. unfold item_key in Hs. injection Hs as H1 H2 _. by rewrite H1, H2.
Qed.

Lemma pays_similar r f : pays db' r f = pays db r f.
Proof. unfold pays. by rewrite payable_similar. Qed.

Lemma subtotal_similar lid q h :
  fulfillments db' = fulfillments db → subtotal_of db' lid q h = subtotal_of db lid q h.
Proof.
  intros Hf. unfold subtotal_of, sum_where. rewrite Hf. apply sum_of_ext. intros fid f _.
  by rewrite payable_similar.
Qed.

Lemma requester_similar r : requester_ok db r → requester_ok db' r.
Proof.
  intros (l & Hl & Hp). destruct (payer_similar_rev _ _ Hl) as (l' & Hl' & He).
  exists l'. split; [done|]. rewrite He. destruct (l_payer_corp_id l).
  - by rewrite principal_of_corp_similar.
  - setoid_rewrite principal_of_user_similar. done.
Qed.

Lemma refs_similar :
  (∀ lid l, lists db' !! lid = Some l → 0 ≤ l_tip_pct l)%Z → refs_ok db → refs_ok db'.
Proof.
  intros Ht [Hu Hp Hi Hr _ Hg Hpr]. split; [| | | |exact Ht| |].
  - intros u. rewrite (sim_users _ _ Hsim), principal_of_user_similar. apply Hu.
  - intros lid l' c Hl Hc. destruct (payer_similar _ _ Hl) as (l & Hl0 & He).
    rewrite principal_of_corp_similar. eapply Hp; [done|congruence].
  - intros id li' Hl. destruct (item_similar _ _ Hl) as (li & Hl0 & He).
    injection He as He _ _. destruct (Hi _ _ Hl0) as [l Hll]. rewrite He in Hll. destruct (payer_similar_rev _ _ Hll) as (l' & ? & _). eauto.
  - intros id li' u Hl Hq. destruct (item_similar _ _ Hl) as (li & Hl0 & He).
    injection He as _ He _. rewrite (sim_users _ _ Hsim). eapply Hr; [done|]. congruence.
  - intros k. rewrite (sim_group_corps _ _ Hsim), principal_of_corp_similar. apply Hg.
  - by rewrite (sim_principals _ _ Hsim).
Qed.

Lemma fulfillment_similar f : fulfillment_ok db f → fulfillment_ok db' f.
Proof.
  intros [Hq Hp (li & Hli & Hu) Hh]. split; [done|done| |].
  - destruct (item_similar_rev _ _ Hli) as (li' & ? & He). exists li'. split; [done|].
    injection He as _ He _. by rewrite He.
  - by rewrite (sim_users _ _ Hsim).
Qed.

Lemma reimb_similar r :
  (r_status r ≠ Reimb_Cancelled → current_subtotal db' r = current_subtotal db r) →
  reimb_ok db r → reimb_ok db' r.
Proof.
  intros Hs [Ha Hr Hh Hc]. split; [done|by apply requester_similar| |].
  - by rewrite principal_of_user_similar.
  - intros Hp. rewrite (Hs Hp). auto.
Qed.
End Similar.
End Invariant.
