(* ===== verification/Book.v ===== *)
(** * The account book

    What the ledger is an implementation of: a book with one entry per
    purchase that stands, who is owed how much for it and whether it was paid.
    Entries are added unpaid, struck out while unpaid, and marked as paid; no
    turn of the book touches a paid entry.  [advances] asks of every step of
    the ledger that it keep the invariant, keep what is settled, and be turns
    of the book. *)

From Stdlib Require Import ZArith Lia.
From stdpp Require Import base tactics decidable option list gmap relations strings.
From S2P Require Import Prelude Effect Money Domain Host Schema.
From S2P Require Import Fulfillment Claims Reimbursements Invariant.

Record Entry := mkEntry { e_creditor : Uuid; e_amount : Z; e_paid : bool }.
Abbreviation Book := (gmap Uuid Entry) (only parsing).

Definition mark_paid (e : Entry) : Entry := mkEntry (e_creditor e) (e_amount e) true.

Inductive turn : Book → Book → Prop :=
| turn_buy (b : Book) fid creditor amount :
    b !! fid = None → (0 ≤ amount)%Z → turn b (<[fid := mkEntry creditor amount false]> b)
| turn_void (b : Book) fid e : b !! fid = Some e → e_paid e = false → turn b (delete fid b)
| turn_pay (b : Book) (paid : Uuid → bool) : turn b (update_where (λ k _, paid k) mark_paid b).

Section Book.
Context `{RT : Runtime}.
Implicit Types (db : Db) (f : FulfillmentRow).

(** A settled reimbursement covers the purchase. *)
Definition is_paid db f : bool :=
  sel_exists (λ _ r, pays db r f && (r_status r == Reimb_Settled)) (reimbursements db).

Definition entry_of db f : option Entry :=
  match f_reversed_at f with
  | None => Some (mkEntry (f_hauler_user_id f) (f_qty f * f_unit_price_isk f) (is_paid db f))
  | Some _ => None
  end.

Definition book_of db : Book := map_imap (λ _ f, entry_of db f) (fulfillments db).

Lemma lookup_book db fid : book_of db !! fid = fulfillments db !! fid ≫= entry_of db.
Proof. unfold book_of. by rewrite map_lookup_imap. Qed.

#[export] Instance book_of_proper : Proper (same_ledger ==> eq) book_of.
Proof.
  intros db db' Hs. unfold book_of, entry_of, is_paid, pays, payable_item.
  by rewrite (sl_fulfillments _ _ Hs), (sl_reimbs _ _ Hs), (sl_items _ _ Hs).
Qed.

Lemma is_paid_true db f :
  is_paid db f = true ↔
  ∃ rid r, reimbursements db !! rid = Some r ∧ pays db r f = true ∧ r_status r = Reimb_Settled.
Proof.
  unfold is_paid. rewrite sel_exists_true. split; intros (rid & r & Hr & H).
  - apply andb_prop in H as [? ?%bool_decide_eq_true]. eauto.
  - exists rid, r. destruct H as [-> ->]. by rewrite bool_decide_eq_true_2.
Qed.

(** The same purchases, and the same of them paid. *)
Lemma book_of_ext db db' :
  fulfillments db' = fulfillments db →
  (∀ fid f, fulfillments db !! fid = Some f → is_paid db' f = is_paid db f) →
  book_of db' = book_of db.
Proof.
  intros Hf Hp. apply map_eq. intros fid. rewrite !lookup_book, Hf.
  destruct (fulfillments db !! fid) as [f|] eqn:Hk; [cbn|done]. unfold entry_of.
  by rewrite (Hp _ _ Hk).
Qed.

(** A change that leaves the debts and what they cover alone. *)
Lemma book_of_same db db' :
  fulfillments db' = fulfillments db → reimbursements db' = reimbursements db →
  (∀ fid f r, fulfillments db !! fid = Some f → pays db' r f = pays db r f) →
  rtc turn (book_of db) (book_of db').
Proof.
  intros Hf Hr Hp. replace (book_of db') with (book_of db); [done|symmetry].
  apply book_of_ext; [done|]. intros fid f Hk. unfold is_paid. rewrite Hr.
  apply eq_true_iff_eq. rewrite !sel_exists_true. by setoid_rewrite (Hp _ _ _ Hk).
Qed.

(** The same purchases, and more of them paid. *)
Lemma book_of_pay db db' :
  fulfillments db' = fulfillments db →
  (∀ fid f, fulfillments db !! fid = Some f → is_paid db f = true → is_paid db' f = true) →
  turn (book_of db) (book_of db').
Proof.
  intros Hf Hp.
  assert (book_of db' = update_where (λ k _, match fulfillments db !! k with
    | Some f => is_paid db' f | None => false end) mark_paid (book_of db)) as ->; [|constructor].
  apply map_eq. intros fid. rewrite lookup_update_where, !lookup_book, Hf.
  destruct (fulfillments db !! fid) as [f|] eqn:Hk; [cbn|done]. unfold entry_of.
  destruct (f_reversed_at f); [done|cbn]. unfold mark_paid. cbn.
  specialize (Hp _ _ Hk). destruct (is_paid db' f), (is_paid db f); naive_solver.
Qed.

(** ** Moves of the ledger *)

Record advances db db' : Prop := mkAdvances {
  adv_Inv : Inv db';
  adv_frozen : frozen db db';
  adv_book : rtc turn (book_of db) (book_of db')
}.

#[export] Instance advances_proper : Proper (same_ledger ==> same_ledger ==> iff) advances.
Proof.
  intros d1 d2 Hd e1 e2 He.
  split; intros [A B C]; split; by rewrite ?Hd, ?He || by rewrite <- ?Hd, <- ?He.
Qed.

Lemma advances_refl db : Inv db → advances db db.
Proof. by split. Qed.

Lemma advances_trans db1 db2 db3 :
  advances db1 db2 → (Inv db2 → advances db2 db3) → advances db1 db3.
Proof.
  intros [Hi Hf Hb] H2. destruct (H2 Hi) as [Hi3 Hf2 Hb2].
  split; [done|by etransitivity|by etransitivity].
Qed.
End Book.
