(* ===== verification/InvariantItems.v ===== *)
(** * The ledger invariant: items and claims

    How an item stays consistent through a recompute, and the claim tables
    through the statements of the claim handlers. *)

From Stdlib Require Import ZArith Lia.
From stdpp Require Import base tactics decidable option list gmap strings.
From S2P Require Import Prelude Effect Money Domain Host Schema.
From S2P Require Import Settlement Fulfillment Claims Reimbursements Fulfillments Invariant.

Section InvariantItems.
Context `{RT : Runtime}.
Implicit Types (fs : gmap Uuid FulfillmentRow) (cis : gmap (Uuid * Uuid) ClaimItemRow)
  (li : ListItemRow).

(** ** Live quantities *)

Lemma live_qty_nonneg fs id :
  (∀ fid f, fs !! fid = Some f → 0 < f_qty f)%Z → (0 ≤ live_qty fs id)%Z.
Proof.
  intros Hpos. apply sum_of_nonneg. intros fid f Hf. case_match; [|done].
  specialize (Hpos _ _ Hf). lia.
Qed.

Lemma live_qty_insert fs fid f id :
  fs !! fid = None →
  live_qty (<[fid := f]> fs) id =
    (live_qty fs id + if live_of id f then f_qty f else 0)%Z.
Proof. intros Hn. unfold live_qty, sum_where. rewrite sum_of_insert by done. lia. Qed.

Lemma live_qty_replace fs fid f f' id :
  fs !! fid = Some f →
  live_qty (<[fid := f']> fs) id =
    (live_qty fs id - (if live_of id f then f_qty f else 0)
       + (if live_of id f' then f_qty f' else 0))%Z.
Proof. intros Hf. unfold live_qty, sum_where. by rewrite (sum_of_replace _ _ _ f f' Hf). Qed.

(** ** Items *)

Lemma status_ok_base li q a :
  li_qty_fulfilled li = q → li_status li = base_status (li_qty_requested li) q a → status_ok li a.
Proof.
  intros <- Hs. unfold status_ok. rewrite Hs. unfold base_status. by repeat case_match.
Qed.

Lemma base_status_bought q f a : base_status q f a = Item_Bought ↔ (q ≤ f)%Z.
Proof.
  unfold base_status. destruct (q <=? f)%Z eqn:Hq; [apply Z.leb_le in Hq; done|].
  apply Z.leb_gt in Hq. destruct a; split; intros; try done; lia.
Qed.

(** A status of "bought or beyond" is exactly full fulfillment. *)
Lemma status_ok_full li a :
  status_ok li a →
  (li_qty_requested li ≤ li_qty_fulfilled li)%Z ↔
  li_status li = Item_Bought ∨ li_status li = Item_Delivered ∨ li_status li = Item_Settled.
Proof.
  unfold status_ok. destruct (li_status li) eqn:Hs; intros Hok; try naive_solver.
  - split; [|naive_solver]. intros Hq. rewrite <- (base_status_bought _ _ a) in Hq. congruence.
  - split; [|naive_solver]. intros Hq. rewrite <- (base_status_bought _ _ a) in Hq. congruence.
  - symmetry in Hok. apply base_status_bought in Hok. naive_solver.
Qed.

Lemma item_ok_frame fs cis fs' cis' id li :
  live_qty fs' id = live_qty fs id → has_active_claim cis' id = has_active_claim cis id →
  item_ok fs cis id li → item_ok fs' cis' id li.
Proof. intros Hl Ha [Hq Hv Hf Hs]. split; [done|congruence|done|by rewrite Ha]. Qed.

(** A fully fulfilled item does not depend on claims. *)
Lemma item_ok_full fs cis cis' id li :
  (li_qty_requested li ≤ li_qty_fulfilled li)%Z →
  item_ok fs cis id li → item_ok fs cis' id li.
Proof.
  intros Hfull [Hq Hv Hf Hs]. split; [done..|]. revert Hs. unfold status_ok.
  destruct (li_status li); intros Hs; try done;
    rewrite Hs; by transitivity Item_Bought; [|symmetry]; apply base_status_bought.
Qed.

Lemma item_ok_recomputed fs cis fs' cis' dem id li :
  item_ok fs cis id li →
  (0 ≤ live_qty fs' id ≤ li_qty_requested li)%Z →
  (li_status li = Item_Settled ∨ li_status li = Item_Delivered ∧ dem = Forbid →
   live_qty fs' id = live_qty fs id) →
  item_ok fs' cis' id (recomputed fs' cis' dem id li).
Proof.
  intros Hok Hrange Hsame. unfold recomputed.
  destruct (decide (li_status li = Item_Settled)) as [Hs|Hs].
  { rewrite bool_decide_eq_true_2 by done. destruct Hok as [Hq Hv Hf Hst].
    split; [done|rewrite Hv; symmetry; auto|done|].
    unfold status_ok in *. by rewrite Hs in *. }
  rewrite bool_decide_eq_false_2 by done.
  destruct (_ && _) eqn:Hdf.
  { bool_simpl. destruct Hok as [Hq Hv Hf Hst]. split; [done|rewrite Hv; symmetry; auto|done|].
    unfold status_ok in *. by match goal with H : li_status li = Item_Delivered |- _ =>
      rewrite H in * end. }
  destruct Hok as [Hq _ _ _]. split; [done|done|done|].
  set (base := base_status _ _ _). destruct (_ && (base == _)) eqn:Hkeep.
  - bool_simpl. unfold status_ok. cbn. unfold set. cbn.
    by eapply base_status_bought.
  - by apply (status_ok_base _ (live_qty fs' id)).
Qed.

Lemma bulk_row_recomputed db id li :
  (li_status li = Item_Settled ∨ li_status li = Item_Delivered →
   li_qty_fulfilled li = live_qty (fulfillments db) id) →
  bulk_row db id li = recomputed (fulfillments db) (claim_items db) Forbid id li.
Proof.
  intros Hsame. unfold bulk_row, recomputed.
  destruct (decide (li_status li = Item_Settled)) as [Hs|Hs].
  { rewrite (bool_decide_eq_true_2 (_ = Item_Settled)) by done. rewrite orb_true_r.
    rewrite <- Hsame by auto. by destruct li. }
  rewrite (bool_decide_eq_false_2 (_ = Item_Settled)) by done.
  destruct (decide (li_status li = Item_Delivered)) as [Hd|Hd].
  { rewrite (bool_decide_eq_true_2 (_ = Item_Delivered)) by done.
    rewrite <- Hsame by auto. by destruct li. }
  rewrite (bool_decide_eq_false_2 (_ = Item_Delivered)) by done. cbn. done.
Qed.

Lemma recomputed_key fs cis dem id li : item_key (recomputed fs cis dem id li) = item_key li.
Proof. unfold recomputed. by repeat case_match. Qed.

Lemma recomputed_settled fs cis dem id li :
  li_status (recomputed fs cis dem id li) = Item_Settled ↔ li_status li = Item_Settled.
Proof.
  unfold recomputed. destruct (decide (li_status li = Item_Settled)) as [Hs|Hs].
  { by rewrite bool_decide_eq_true_2. }
  rewrite bool_decide_eq_false_2 by done. destruct (_ && _); [done|].
  split; [|done]. cbn. unfold set. cbn. unfold base_status. by repeat case_match.
Qed.

Lemma recomputed_frozen fs cis dem id li :
  li_status li = Item_Settled → recomputed fs cis dem id li = li.
Proof. intros Hs. unfold recomputed. by rewrite bool_decide_eq_true_2. Qed.

(** ** Claims *)

Lemma has_active_claim_true cis id :
  has_active_claim cis id = true ↔
  ∃ cid ci, cis !! (cid, id) = Some ci ∧ ci_active ci = true.
Proof.
  unfold has_active_claim. rewrite sel_exists_true. split.
  - intros ([cid i] & ci & Hci & HP). cbn in HP. bool_simpl. eauto.
  - intros (cid & ci & Hci & Ha). exists (cid, id), ci. split; [done|]. cbn.
    by rewrite bool_decide_eq_true_2.
Qed.

Lemma has_active_claim_ext cis cis' id :
  (∀ cid, ci_active <$> cis' !! (cid, id) = ci_active <$> cis !! (cid, id)) →
  has_active_claim cis' id = has_active_claim cis id.
Proof.
  intros Hext. apply eq_true_iff_eq. rewrite !has_active_claim_true.
  split; intros (cid & ci & Hci & Ha); specialize (Hext cid); rewrite Hci in Hext; cbn in Hext.
  - symmetry in Hext. apply fmap_Some in Hext as (ci' & ? & ?). exists cid, ci'. split; congruence.
  - apply fmap_Some in Hext as (ci' & ? & ?). exists cid, ci'. split; congruence.
Qed.

Lemma claims_ok_insert_claim cls cis cid c :
  cls !! cid = None → claims_ok cls cis → claims_ok (<[cid := c]> cls) cis.
Proof.
  intros Hn [Hs Hu]. split; [|done]. intros k ci Hci.
  destruct (Hs _ _ Hci) as (c0 & Hc0 & Ha). exists c0. split; [|done].
  rewrite lookup_insert_ne; [done|congruence].
Qed.

Lemma claims_ok_insert_item cls cis cid item now c :
  cls !! cid = Some c → cl_status c = Claim_Active →
  has_active_claim cis item = false → claims_ok cls cis →
  claims_ok cls (<[(cid, item) := mkClaimItemRow true now]> cis).
Proof.
  intros Hc Hst Hno [Hs Hu].
  assert (∀ k ci, cis !! k = Some ci → ci_active ci = true → k.2 ≠ item) as Hfree.
  { intros [c' i] ci Hci Ha <-. apply not_true_iff_false in Hno. apply Hno.
    apply has_active_claim_true. eauto. }
  split.
  - intros k ci [[<- <-]|[Hne Hci]]%lookup_insert_Some; [|eauto].
    exists c. split; [done|]. cbn. by rewrite Hst.
  - intros k1 k2 ci1 ci2 [[<- <-]|[Hn1 H1]]%lookup_insert_Some
      [[<- <-]|[Hn2 H2]]%lookup_insert_Some Ha1 Ha2 Heq; [done| | |by eauto].
    + by destruct (Hfree _ _ H2 Ha2).
    + by destruct (Hfree _ _ H1 Ha1).
Qed.

Lemma claims_ok_delete cls cis k : claims_ok cls cis → claims_ok cls (delete k cis).
Proof.
  intros [Hs Hu]. split.
  - intros k' ci [_ Hci]%lookup_delete_Some. eauto.
  - intros k1 k2 ci1 ci2 [_ H1]%lookup_delete_Some [_ H2]%lookup_delete_Some. eauto.
Qed.

(** An active claim that becomes inactive takes its items with it. *)
Lemma claims_ok_deactivate cls cis cid c c' :
  cls !! cid = Some c → cl_status c = Claim_Active → cl_status c' ≠ Claim_Active →
  claims_ok cls cis →
  claims_ok (<[cid := c']> cls)
    (sync_claim_items_active cid (cl_status c) (cl_status c') cis).
Proof.
  intros Hc Hst Hst' [Hs Hu]. unfold sync_claim_items_active.
  rewrite (bool_decide_eq_true_2 (cl_status c = _)) by done.
  rewrite (bool_decide_eq_false_2 (cl_status c' = _)) by done. cbn. split.
  - intros k ci Hci. apply lookup_update_where_Some in Hci as (ci0 & Hci0 & ->).
    destruct (Hs _ _ Hci0) as (c0 & Hc0 & Ha). destruct (decide (k.1 = cid)) as [He|Hne].
    + exists c'. rewrite He, lookup_insert_eq. split; [done|].
      rewrite bool_decide_eq_true_2 by done. cbn. symmetry. by apply bool_decide_eq_false.
    + exists c0. rewrite lookup_insert_ne, bool_decide_eq_false_2 by done. done.
  - intros k1 k2 ci1 ci2 H1 H2 Ha1 Ha2.
    apply lookup_update_where_Some in H1 as (d1 & H1 & ->).
    apply lookup_update_where_Some in H2 as (d2 & H2 & ->).
    destruct (k1.1 == cid); [done|]. destruct (k2.1 == cid); [done|]. eauto.
Qed.

(** Deactivating a claim changes no other item's claim. *)
Lemma sync_other_items cid old new cis id :
  (∀ ci, cis !! (cid, id) = Some ci → False) →
  has_active_claim (sync_claim_items_active cid old new cis) id = has_active_claim cis id.
Proof.
  intros Hno. apply has_active_claim_ext. intros cid'. unfold sync_claim_items_active.
  assert (∀ b, ci_active <$> update_where (λ k _, k.1 == cid) (λ ci, ci <| ci_active := b |>) cis
    !! (cid', id) = ci_active <$> cis !! (cid', id)) as Hb.
  { intros b. rewrite lookup_update_where. destruct (cis !! (cid', id)) as [ci|] eqn:Hci; [|done].
    cbn. destruct (decide (cid' = cid)) as [->|Hne]; [by destruct (Hno ci)|].
    by rewrite bool_decide_eq_false_2. }
  repeat case_match; auto.
Qed.

Lemma sync_keys cid old new cis k :
  is_Some (sync_claim_items_active cid old new cis !! k) → is_Some (cis !! k).
Proof.
  unfold sync_claim_items_active. repeat case_match; rewrite ?lookup_update_where, ?fmap_is_Some; done.
Qed.

Lemma deactivate_shrink cls cis cid c c' :
  cls !! cid = Some c → cl_list_id c' = cl_list_id c →
  claims_shrink cls cis (<[cid := c']> cls)
    (sync_claim_items_active cid (cl_status c) (cl_status c') cis).
Proof.
  intros Hc Hl. split; [intros k; apply sync_keys|]. intros cid0 c0 Hc0.
  destruct (decide (cid0 = cid)) as [->|Hne].
  - rewrite lookup_insert_eq. exists c'. by simplify_eq.
  - rewrite lookup_insert_ne by done. eauto.
Qed.
End InvariantItems.
