(* ===== verification/InvariantMoney.v ===== *)
(** * The ledger invariant: debts

    Scopes and cycles of reimbursements, and what [upsert_reimbursement]
    restores after the purchases of one cycle changed. *)

From Stdlib Require Import ZArith Lia.
From stdpp Require Import base tactics decidable option list gmap strings.
From S2P Require Import Prelude Effect Money Domain Host Schema.
From S2P Require Import Settlement Fulfillment Claims Reimbursements Invariant.

Section InvariantMoney.
Context `{RT : Runtime}.
Implicit Types (db : Db) (li : ListItemRow) (f : FulfillmentRow) (r : ReimbursementRow).

(** ** Principals *)

Lemma principal_of_user_inj db u1 u2 p :
  principal_of_user db u1 = Some p → principal_of_user db u2 = Some p → u1 = u2.
Proof.
  assert (∀ u, principal_of_user db u = Some p →
    ∃ row, principals db !! p = Some row ∧ p_user_id row = Some u) as Hrow.
  { intros u Hu. unfold principal_of_user in Hu. apply fmap_Some in Hu as ([k row] & Hh & ->).
    apply head_Some_elem_of in Hh. apply elem_of_select_where in Hh as [Hk Hp].
    bool_simpl. eauto. }
  intros (row1 & H1 & E1)%Hrow (row2 & H2 & E2)%Hrow. congruence.
Qed.

(** ** Scopes and cycles *)

Record reimb_static db r : Prop := mkReimbStatic {
  rs_amounts : amounts_ok r;
  rs_requester : requester_ok db r;
  rs_hauler : principal_of_user db (r_hauler_user_id r) = Some (r_hauler_principal_id r)
}.

Lemma reimb_ok_static db r : reimb_ok db r → reimb_static db r.
Proof. intros []. by split. Qed.

Lemma payable_item_Some db lid q id :
  payable_item db lid q id = true ↔ ∃ li, list_items db !! id = Some li ∧ li_list_id li = lid ∧
    ∀ u, q = Some u → li_requested_by_user_id li = Some u.
Proof.
  unfold payable_item. destruct (list_items db !! id) as [li|]; [|naive_solver].
  rewrite andb_true_iff, bool_decide_eq_true. destruct q as [u|].
  - rewrite bool_decide_eq_true. naive_solver.
  - naive_solver.
Qed.

Lemma pays_true db r f :
  pays db r f = true ↔ f_hauler_user_id f = r_hauler_user_id r ∧
    ∃ li, list_items db !! f_list_item_id f = Some li ∧ li_list_id li = r_list_id r ∧
      ∀ u, r_requester_user_id r = Some u → li_requested_by_user_id li = Some u.
Proof.
  unfold pays. rewrite andb_true_iff, payable_item_Some, bool_decide_eq_true. naive_solver.
Qed.

Lemma in_cycle_true lid rp hp r :
  in_cycle lid rp hp r = true ↔ r_list_id r = lid ∧ r_requester_principal_id r = rp ∧
    r_hauler_principal_id r = hp.
Proof. unfold in_cycle. rewrite !andb_true_iff, !bool_decide_eq_true. naive_solver. Qed.

(** Two debts whose scopes share a purchase belong to one cycle. *)
Lemma pays_same_cycle db r1 r2 f :
  reimb_static db r1 → reimb_static db r2 → pays db r1 f = true → pays db r2 f = true →
  in_cycle (r_list_id r1) (r_requester_principal_id r1) (r_hauler_principal_id r1) r2 = true.
Proof.
  intros [_ (l1 & Hl1 & Q1) H1] [_ (l2 & Hl2 & Q2) H2]
    (Hh1 & li1 & Hi1 & Hp1 & Hq1)%pays_true (Hh2 & li2 & Hi2 & Hp2 & Hq2)%pays_true.
  rewrite in_cycle_true. assert (li1 = li2) as <- by congruence.
  assert (l1 = l2) as <- by congruence. split_and!; [congruence| |congruence].
  destruct (l_payer_corp_id l1); [naive_solver congruence|].
  destruct Q1 as (_ & u1 & E1 & P1), Q2 as (_ & u2 & E2 & P2).
  specialize (Hq1 _ E1). specialize (Hq2 _ E2). congruence.
Qed.

Definition scope_requester (l : ListRow) (requester : Uuid) : option Uuid :=
  if negb (is_none (l_payer_corp_id l)) then None else Some requester.

Lemma in_cycle_scope db lid q h l rp hp r :
  reimb_static db r → upsert_context db lid q h = Some (l, rp, hp) →
  in_cycle lid rp hp r = true →
  r_list_id r = lid ∧ r_requester_user_id r = scope_requester l q ∧ r_hauler_user_id r = h.
Proof.
  intros [_ (l' & Hl' & Q) Hh] Hctx (Hl & Hr & Hp)%in_cycle_true.
  unfold upsert_context, requester_principal in Hctx.
  destruct (lists db !! lid) as [l0|] eqn:Hl0; [cbn in Hctx|done].
  rewrite Hl, Hl0 in Hl'. injection Hl' as <-. unfold scope_requester.
  destruct (l_payer_corp_id l0) as [c|] eqn:Hc; simplify_option_eq; rewrite Hc; cbn.
  - split_and!; [done|naive_solver|]. by eapply principal_of_user_inj.
  - destruct Q as (_ & u & Hu & Pu). split_and!; [done| |by eapply principal_of_user_inj].
    rewrite Hu. f_equal. by eapply principal_of_user_inj.
Qed.

Lemma pays_in_cycle db r f lid q l rp hp li :
  reimb_static db r → pays db r f = true → list_items db !! f_list_item_id f = Some li →
  li_list_id li = lid → li_requested_by_user_id li = Some q →
  upsert_context db lid q (f_hauler_user_id f) = Some (l, rp, hp) →
  in_cycle lid rp hp r = true.
Proof.
  intros [_ (l' & Hl' & Q) Hh] (Hf & li' & Hli' & Hlid & Hq)%pays_true Hli <- Hreq Hctx.
  rewrite in_cycle_true. rewrite Hli in Hli'. injection Hli' as <-.
  unfold upsert_context, requester_principal in Hctx. rewrite Hlid in *.
  rewrite Hl' in Hctx. cbn in Hctx.
  destruct (l_payer_corp_id l') as [c|] eqn:Hc; simplify_option_eq.
  - split_and!; [done|naive_solver congruence|congruence].
  - destruct Q as (_ & u & Hu & Pu). specialize (Hq _ Hu). split_and!; congruence.
Qed.

(** ** The upsert *)

Definition refreshed db r (subtotal : Z) (pct : Decimal) : ReimbursementRow :=
  r <| r_subtotal_isk := subtotal |> <| r_tip_isk := tip_of subtotal pct |>
    <| r_total_isk := total_of subtotal pct |> <| r_updated_at := db_now db |>.

Definition new_reimbursement db (lid q h rp hp : Uuid) (l : ListRow) (subtotal : Z)
    : ReimbursementRow :=
  mkReimbursementRow lid (scope_requester l q) rp h hp subtotal
    (tip_of subtotal (pct_of_column (l_tip_pct l)))
    (total_of subtotal (pct_of_column (l_tip_pct l)))
    Reimb_Pending None None None (negb (is_none (l_payer_corp_id l))) false None
    (db_now db) (db_now db).

(** What the statement does to the table, for a known cycle. *)
Definition upserted db (lid q h : Uuid) (l : ListRow) (rp hp : Uuid)
    (rs' : gmap Uuid ReimbursementRow) : Prop :=
  let sub := subtotal_of db lid (scope_requester l q) h in
  (∃ rid r, reimbursements db !! rid = Some r ∧ r_status r ≠ Reimb_Cancelled ∧
     in_cycle lid rp hp r = true ∧
     rs' = if r_status r == Reimb_Pending
           then <[rid := refreshed db r sub (pct_of_column (l_tip_pct l))]> (reimbursements db)
           else reimbursements db) ∨
  ((∀ rid r, reimbursements db !! rid = Some r → in_cycle lid rp hp r = true →
      r_status r = Reimb_Cancelled) ∧
   ∃ id, reimbursements db !! id = None ∧
     rs' = <[id := new_reimbursement db lid q h rp hp l sub]> (reimbursements db)).

Lemma upsert_reimbursement_Ok lid q h db u db' :
  upsert_reimbursement lid q h db = Ok (u, db') →
  (upsert_context db lid q h = None ∧ db' = db) ∨
  ∃ l rp hp rs' n, upsert_context db lid q h = Some (l, rp, hp) ∧
    upserted db lid q h l rp hp rs' ∧
    db' = db <| reimbursements := rs' |> <| db_draws := n |>.
Proof.
  unfold upsert_reimbursement. intros Hrun. inv_sql.
  destruct (upsert_context db lid q h) as [[[l rp] hp]|] eqn:Hctx; inv_sql; [right|by left].
  set_simpl. exists l, rp, hp.
  destruct (head _) as [[rid r]|] eqn:Hh; inv_sql.
  - apply head_Some_elem_of in Hh. apply elem_of_select_where in Hh as [Hr HP]. bool_simpl.
    apply when_Ok in Hrun. exists (if r_status r == Reimb_Pending
       then <[rid := refreshed db r (subtotal_of db lid (scope_requester l q) h)
                (pct_of_column (l_tip_pct l))]> (reimbursements db)
       else reimbursements db), (N.succ (db_draws db)).
    split; [done|]. split; [left; by exists rid, r|].
    destruct (r_status r == Reimb_Pending); inv_sql; [|by destruct db].
    unfold set. cbn. by rewrite (update_where_key _ _ _ _ Hr).
  - destruct (select_where _ _) eqn:Hsel; [|done]. apply select_where_nil in Hsel.
    rewrite sel_exists_false in Hsel. rewrite negb_true_iff, row_exists_false in *. set_simpl.
    eexists _, (N.succ (db_draws db)). split; [done|]. split; [|reflexivity].
    right. split; [|eexists; split; [done|reflexivity]].
    intros rid r Hr Hc. specialize (Hsel _ _ Hr). cbn in Hsel. rewrite Hc, andb_true_r in Hsel.
    by bool_simpl.
Qed.
(** ** What the upsert restores *)

(** The columns no recomputation changes. *)
Definition reimb_key r : Uuid * option Uuid * Uuid * Uuid * Uuid * bool * ReimbursementStatus :=
  (r_list_id r, r_requester_user_id r, r_requester_principal_id r, r_hauler_user_id r,
   r_hauler_principal_id r, r_is_corp_funded r, r_status r).

Lemma reimb_key_pays db r r' f : reimb_key r' = reimb_key r → pays db r' f = pays db r f.
Proof. intros Hk. injection Hk as Hl Hq _ Hh _ _. unfold pays. by rewrite Hl, Hq, Hh. Qed.

Lemma reimb_key_cycle lid rp hp r r' :
  reimb_key r' = reimb_key r → in_cycle lid rp hp r' = in_cycle lid rp hp r.
Proof. intros Hk. injection Hk as Hl _ Hr _ Hp _ _. unfold in_cycle. by rewrite Hl, Hr, Hp. Qed.

Lemma reimb_key_requester db r r' : reimb_key r' = reimb_key r → requester_ok db r → requester_ok db r'.
Proof.
  intros Hk (l & Hl & Q). injection Hk as E1 E2 E3 _ _ E6 _.
  exists l. rewrite E1. split; [done|]. by rewrite E2, E3, E6.
Qed.

Lemma reimb_key_current db r r' :
  reimb_key r' = reimb_key r → current_subtotal db r' = current_subtotal db r.
Proof. intros Hk. injection Hk as E1 E2 _ E4 _ _. unfold current_subtotal. by rewrite E1, E2, E4. Qed.

Lemma subtotal_nonneg db lid q h :
  fulfillments_ok db → (0 ≤ subtotal_of db lid q h)%Z.
Proof.
  intros Hf. apply sum_of_nonneg. intros fid f Hl. destruct (Hf _ _ Hl) as [Hq Hp _ _].
  case_match; [nia|done].
Qed.

Lemma amounts_ok_of subtotal pct r :
  (0 ≤ subtotal)%Z → (0 ≤ mantissa pct)%Z → r_subtotal_isk r = subtotal →
  r_tip_isk r = tip_of subtotal pct → r_total_isk r = total_of subtotal pct → amounts_ok r.
Proof.
  intros Hs Hp Es Et Etot. split; [|by rewrite Es|].
  - rewrite Es, Et, Etot. by apply total_of_tip.
  - rewrite Et. by apply tip_of_nonneg.
Qed.

(** Everything about the rows of [rs'] relates to a row of [rs], but for the
    one row the statement may insert. *)
Record upsert_frame (rs rs' : gmap Uuid ReimbursementRow) (lid rp hp : Uuid) : Prop := {
  uf_kept rid r : rs !! rid = Some r →
    ∃ r', rs' !! rid = Some r' ∧ reimb_key r' = reimb_key r ∧
      (r_status r ≠ Reimb_Pending → r' = r);
  uf_origin rid r' : rs' !! rid = Some r' →
    (∃ r, rs !! rid = Some r ∧ reimb_key r' = reimb_key r) ∨
    (r_status r' = Reimb_Pending ∧ in_cycle lid rp hp r' = true ∧
     ∀ rid r, rs !! rid = Some r → in_cycle lid rp hp r = true → r_status r = Reimb_Cancelled);
  uf_present : ∃ rid r', rs' !! rid = Some r' ∧ r_status r' ≠ Reimb_Cancelled ∧
    in_cycle lid rp hp r' = true
}.

Lemma new_in_cycle db lid q h rp hp l sub :
  in_cycle lid rp hp (new_reimbursement db lid q h rp hp l sub) = true.
Proof. by apply in_cycle_true. Qed.

Lemma upserted_frame db lid q h l rp hp rs' :
  upserted db lid q h l rp hp rs' → upsert_frame (reimbursements db) rs' lid rp hp.
Proof.
  intros [(rid & r & Hr & Hst & Hc & ->)|(Hno & id & Hid & ->)].
  - destruct (decide (r_status r = Reimb_Pending)) as [Hp|Hp];
      [rewrite bool_decide_eq_true_2 by done|rewrite bool_decide_eq_false_2 by done];
      [|split; [eauto|eauto|by exists rid, r]].
    set (r2 := refreshed _ _ _ _). assert (reimb_key r2 = reimb_key r) as Hk by done. split.
    + intros rid0 r0 Hr0. destruct (decide (rid0 = rid)) as [->|Hne].
      * exists r2. rewrite lookup_insert_eq. split; [done|]. split; [congruence|]. congruence.
      * exists r0. by rewrite lookup_insert_ne.
    + intros rid0 r0 [[<- <-]|[_ Hr0]]%lookup_insert_Some; eauto.
    + exists rid, r2. rewrite lookup_insert_eq. split; [done|]. split; [done|].
      by rewrite (reimb_key_cycle _ _ _ _ _ Hk).
  - split.
    + intros rid0 r0 Hr0. exists r0. rewrite lookup_insert_ne by congruence. done.
    + intros rid0 r0 [[<- <-]|[_ Hr0]]%lookup_insert_Some; [right|eauto].
      split; [done|]. split; [apply new_in_cycle|done].
    + exists id. eexists. rewrite lookup_insert_eq. split; [done|]. split; [done|].
      apply new_in_cycle.
Qed.

Lemma upserted_cycles db lid q h l rp hp rs' :
  upserted db lid q h l rp hp rs' → cycles_ok db → cycles_ok (db <| reimbursements := rs' |>).
Proof.
  intros Hup Hcyc. pose proof (upserted_frame _ _ _ _ _ _ _ _ Hup) as [_ Horig _].
  assert (∀ k1 k2 r1 r2, rs' !! k1 = Some r1 → rs' !! k2 = Some r2 →
    r_status r1 = Reimb_Pending → in_cycle lid rp hp r1 = true →
    (∀ rid r, reimbursements db !! rid = Some r → in_cycle lid rp hp r = true →
       r_status r = Reimb_Cancelled) →
    in_cycle lid rp hp r2 = true → r_status r2 ≠ Reimb_Cancelled → k1 = k2) as Hnew.
  { intros k1 k2 r1 r2 H1 H2 Hp1 Hc1 Hno Hc2 Hs2.
    destruct Hup as [(rid & r & Hr & Hst & Hc & _)|(_ & id & Hid & ->)];
      [by destruct Hst; eapply Hno|].
    apply lookup_insert_Some in H1 as [[<- _]|[_ H1]], H2 as [[<- _]|[_ H2]]; try done;
      exfalso; [eapply Hs2, Hno; eauto|..]; specialize (Hno _ _ H1 Hc1); congruence. }
  intros k1 k2 r1 r2 H1 H2 Hs1 Hs2 Hc.
  destruct (Horig _ _ H1) as [(o1 & O1 & E1)|(P1 & C1 & N1)],
    (Horig _ _ H2) as [(o2 & O2 & E2)|(P2 & C2 & N2)].
  - pose proof E1 as K1. pose proof E2 as K2.
    injection K1 as L1 _ Q1 _ P1 _ S1. injection K2 as _ _ _ _ _ _ S2.
    eapply Hcyc; [exact O1|exact O2|congruence|congruence|].
    rewrite <- (reimb_key_cycle _ _ _ _ _ E2). by rewrite <- L1, <- Q1, <- P1.
  - symmetry. eapply Hnew; eauto. apply in_cycle_true in Hc as (A & B & D).
    apply in_cycle_true in C2 as (A2 & B2 & D2). apply in_cycle_true. split_and!; congruence.
  - eapply Hnew; eauto. apply in_cycle_true in C1 as (A & B & D). by rewrite A, B, D in Hc.
  - eapply Hnew; eauto.
Qed.

(** Debts outside the cycle must be current before; then all are after. *)
Lemma upserted_reimbs db lid q h l rp hp rs' :
  refs_ok db → fulfillments_ok db → cycles_ok db →
  (∀ rid r, reimbursements db !! rid = Some r → reimb_static db r) →
  (∀ rid r, reimbursements db !! rid = Some r → r_status r ≠ Reimb_Cancelled →
     in_cycle lid rp hp r = false → r_subtotal_isk r = current_subtotal db r) →
  (∀ rid r, reimbursements db !! rid = Some r → r_status r ≠ Reimb_Cancelled →
     in_cycle lid rp hp r = true → r_status r = Reimb_Pending) →
  upsert_context db lid q h = Some (l, rp, hp) →
  upserted db lid q h l rp hp rs' → reimbs_ok (db <| reimbursements := rs' |>).
Proof.
  intros Href Hff Hcyc Hstat Hcur Hpend Hctx Hup.
  assert (lists db !! lid = Some l) as Hl.
  { unfold upsert_context in Hctx. by simplify_option_eq. }
  pose proof (refs_tip _ Href _ _ Hl) as Htip.
  assert (0 ≤ mantissa (pct_of_column (l_tip_pct l)))%Z as Hpct by done.
  assert (∀ r, reimb_static db r →
    (r_status r ≠ Reimb_Cancelled → r_subtotal_isk r = current_subtotal db r) →
    reimb_ok (db <| reimbursements := rs' |>) r) as Hlift.
  { intros r [Ha Hq Hh] Hc. split; [done|exact Hq|exact Hh|exact Hc]. }
  pose proof (subtotal_nonneg db lid (scope_requester l q) h Hff) as Hsub.
  intros rid0 r0 Hr0. change (rs' !! rid0 = Some r0) in Hr0.
  destruct Hup as [(rid & r & Hr & Hst & Hc & ->)|(Hno & id & Hid & ->)].
  - destruct (in_cycle_scope _ _ _ _ _ _ _ _ (Hstat _ _ Hr) Hctx Hc) as (E1 & E2 & E3).
    assert (∀ r0, reimbursements db !! rid0 = Some r0 → r_status r0 ≠ Reimb_Cancelled →
      rid0 ≠ rid → r_subtotal_isk r0 = current_subtotal db r0) as Hother.
    { intros r1 Hr1 Hp1 Hne. eapply Hcur; [done|done|]. apply not_true_iff_false. intros Hc1.
      apply Hne. eapply Hcyc; [exact Hr1|exact Hr|done|done|].
      apply in_cycle_true in Hc1 as (-> & -> & ->). done. }
    rewrite bool_decide_eq_true_2 in Hr0 by eauto.
    apply lookup_insert_Some in Hr0 as [[<- <-]|[Hne Hr0]]; [|apply Hlift; eauto].
    apply Hlift.
    + destruct (Hstat _ _ Hr) as [_ Hq Hh]. split; [|exact Hq|exact Hh]. by eapply amounts_ok_of.
    + intros _. rewrite (reimb_key_current db r) by done. unfold current_subtotal.
      by rewrite E1, E2, E3.
  - apply lookup_insert_Some in Hr0 as [[<- <-]|[Hne Hr0]].
    + apply Hlift.
      * unfold upsert_context, requester_principal in Hctx. rewrite Hl in Hctx. cbn in Hctx.
        split; [by eapply amounts_ok_of| |].
        -- exists l. split; [done|]. cbn. unfold scope_requester.
           destruct (l_payer_corp_id l) as [c|] eqn:Hc; simplify_option_eq;
             rewrite ?Hc; cbn; eauto.
        -- by destruct (l_payer_corp_id l); simplify_option_eq.
      * done.
    + apply Hlift; [eauto|]. intros Hp. eapply Hcur; [done|done|].
      apply not_true_iff_false. intros Hc. by apply Hp, (Hno _ _ Hr0).
Qed.
End InvariantMoney.
