(* ===== verification/Preservation.v ===== *)
(** * The handlers preserve the ledger invariant: claims and items *)

From Stdlib Require Import ZArith Lia.
From stdpp Require Import base tactics decidable option list gmap strings.
From S2P Require Import Prelude Effect Money Domain Host Schema Errors.
From S2P Require Import Extract Webhooks Detail Settlement Wallet Fulfillment Claims Reimbursements.
From S2P Require Import Fulfillments Invariant Book InvariantItems InvariantMoney.

Section Preservation.
Context `{RT : Runtime}.
Implicit Types (db : Db) (li : ListItemRow).

Lemma queue_only_ledger db db' : queue_only db db' → same_ledger db db'.
Proof. intros (q & n & ->). by split. Qed.

(** What an item may become when only claims and statuses change. *)
Record item_step (fs : gmap Uuid FulfillmentRow) (cis' : gmap (Uuid * Uuid) ClaimItemRow)
    (id : Uuid) li li' : Prop := mkItemStep {
  is_key : item_key li' = item_key li;
  is_settled : li_status li' = Item_Settled → li_status li = Item_Settled;
  is_frozen : li_status li = Item_Settled → li' = li;
  is_ok_ : item_ok fs cis' id li'
}.

Definition items_step db cis' (items' : gmap Uuid ListItemRow) : Prop :=
  ∀ id, match list_items db !! id, items' !! id with
        | Some li, Some li' => item_step (fulfillments db) cis' id li li'
        | None, None => True
        | _, _ => False
        end.

Lemma items_step_similar db cis' items' :
  items_step db cis' items' → items_similar (list_items db) items'.
Proof.
  intros Hst id. specialize (Hst id).
  destruct (list_items db !! id), (items' !! id); try done. cbn. by destruct Hst as [-> _ _ _].
Qed.

(** A change of claims and item statuses that keeps quantities and settles nothing. *)
Lemma Inv_items_claims db cls' cis' items' :
  claims_ok cls' cis' → targets_ok cls' cis' (list_items db) → items_step db cis' items' → Inv db →
  advances db (db <| claims := cls' |> <| claim_items := cis' |> <| list_items := items' |>).
Proof.
  intros Hcl Hta Hst Hinv. split.
  3: { apply book_of_same; [done..|]. intros fid f r _. apply pays_similar. split; try done.
    by apply items_step_similar in Hst. }
  2: { split; [intros; by eapply same_reimbs_frozen| |done]. intros id li Hl Hs. specialize (Hst id). rewrite Hl in Hst.
    exists li. split; [|done]. change (items' !! id = Some li). destruct (items' !! id); [|done].
    by destruct Hst as [_ _ -> _]. }
  destruct Hinv as [Hit _ _ Href Hff Hre Hcy Hco Hpa Hcf Hnc].
  pose proof (items_step_similar _ _ _ Hst) as Hsi.
  set (db' := db <| claims := _ |> <| claim_items := _ |> <| list_items := _ |>).
  assert (similar db db') as Hsim by (by split).
  split.
  - intros id li' Hl. change (items' !! id = Some li') in Hl. specialize (Hst id).
    rewrite Hl in Hst. destruct (list_items db !! id); [|done]. by destruct Hst.
  - exact Hcl.
  - by apply (targets_ok_similar _ _ (list_items db)).
  - apply (refs_similar Hsim); [|done]. intros lid l Hl. by eapply refs_tip.
  - intros fid f Hf. apply (fulfillment_similar Hsim). by eapply Hff.
  - intros rid r Hr. apply (reimb_similar Hsim); [|by eapply Hre].
    intros _. unfold current_subtotal. by apply (subtotal_similar Hsim).
  - exact Hcy.
  - intros fid f Hf Hrev. destruct (Hco _ _ Hf Hrev) as (rid & r & ? & ? & ?).
    exists rid, r. rewrite (pays_similar Hsim). done.
  - intros fid f li' Hf Hrev Hl Hs rid r Hr. rewrite (pays_similar Hsim).
    specialize (Hst (f_list_item_id f)). change (list_items db' !! f_list_item_id f) with
      (items' !! f_list_item_id f) in Hl. rewrite Hl in Hst.
    destruct (list_items db !! f_list_item_id f) as [li|] eqn:Hl0; [|done].
    destruct Hst as [_ Hs0 _ _]. by eapply Hpa; eauto.
  - exact Hcf.
  - exact Hnc.
Qed.

(** ** The bulk recompute *)

Definition bulk_items (ids : list Uuid) db : gmap Uuid ListItemRow :=
  update_each (λ id li, if bool_decide (id ∈ ids) then bulk_row db id li else li) (list_items db).

Lemma recompute_bulk_Ok ids db u db' :
  recompute_item_statuses_bulk ids db = Ok (u, db') →
  ids = [] ∧ db' = db ∨ db' = db <| list_items := bulk_items ids db |>.
Proof.
  unfold recompute_item_statuses_bulk. case_bool_decide; intros Hrun; inv_sql; [by left|].
  right. reflexivity.
Qed.

(** Recomputing the items whose claims changed makes every item consistent. *)
Lemma bulk_items_step ids db cis :
  (∀ id li, list_items db !! id = Some li → item_ok (fulfillments db) cis id li) →
  (∀ id, id ∉ ids → has_active_claim (claim_items db) id = has_active_claim cis id) →
  items_step db (claim_items db) (bulk_items ids db).
Proof.
  intros Hok Hsame id. unfold bulk_items. rewrite lookup_update_each.
  destruct (list_items db !! id) as [li|] eqn:Hl; [cbn|done].
  specialize (Hok _ _ Hl). case_bool_decide as Hin.
  - rewrite bulk_row_recomputed by (intros _; by destruct Hok).
    split; [apply recomputed_key|by rewrite recomputed_settled|by apply recomputed_frozen|].
    eapply item_ok_recomputed; [done| |done]. destruct Hok as [_ <- Hf _]. done.
  - split; [done|done|done|]. eapply item_ok_frame; [done|by apply Hsame|done].
Qed.

Lemma Inv_bulk ids db cls cis u db' :
  recompute_item_statuses_bulk ids (db <| claims := cls |> <| claim_items := cis |>) = Ok (u, db') →
  claims_ok cls cis → targets_ok cls cis (list_items db) →
  (∀ id, id ∉ ids → has_active_claim cis id = has_active_claim (claim_items db) id) →
  Inv db → advances db db'.
Proof.
  intros Hrun Hcl Hta Hsame Hinv. apply recompute_bulk_Ok in Hrun as [[-> ->]| ->].
  - apply (Inv_items_claims db cls cis (list_items db)); [done|done| |done].
    intros id. destruct (list_items db !! id) as [li|] eqn:Hl; [|done].
    split; [done|done|done|]. pose proof (inv_items _ Hinv _ _ Hl) as Hok.
    eapply item_ok_frame; [done| |exact Hok]. apply Hsame. set_solver.
  - set (db1 := db <| claims := cls |> <| claim_items := cis |>).
    apply (Inv_items_claims db cls cis (bulk_items ids db1)); [done|done| |done].
    apply (bulk_items_step ids db1 (claim_items db)); [exact (inv_items _ Hinv)|done].
Qed.

(** ** Claim handlers *)

Lemma validate_claimable_items_Ok lid ids db u db' :
  validate_claimable_items lid ids db = Ok (u, db') →
  db' = db ∧ ∀ id, id ∈ ids → ∃ li, list_items db !! id = Some li ∧ li_list_id li = lid.
Proof.
  unfold validate_claimable_items. intros Hrun. inv_sql.
  match goal with H : (length ?rows =? length ids)%nat = true |- _ =>
    apply Nat.eqb_eq in H; rename H into Hlen; set (rs := rows) in * end.
  assert (db' = db) as -> by (case_match; [case_match|]; by inv_sql). split; [done|].
  assert (rs.*1 ≡ₚ ids) as Hp.
  { apply submseteq_length_Permutation; [|by rewrite length_fmap, Hlen].
    apply NoDup_submseteq; [apply NoDup_select_where|]. intros id Hid.
    apply list_elem_of_fmap in Hid as ([k li] & -> & Hin). unfold rs in Hin.
    apply elem_of_select_where in Hin as [_ Hin]. by bool_simpl. }
  intros id Hid. rewrite <- Hp in Hid. apply list_elem_of_fmap in Hid as ([k li] & -> & Hin).
  unfold rs in Hin. apply elem_of_select_where in Hin as [Hl Hin]. bool_simpl. eauto.
Qed.

Lemma insert_claim_Ok lid h note db id db' :
  insert_claim lid h note db = Ok (id, db') →
  claims db !! id = None ∧
  db' = db <| claims ::= <[id := mkClaimRow lid h Claim_Active note (db_now db) None]> |>
           <| db_draws ::= N.succ |>.
Proof.
  unfold insert_claim. intros Hrun. inv_sql. set_simpl.
  rewrite negb_true_iff, row_exists_false in *. done.
Qed.

Lemma insert_claim_item_rows_Ok cid ids c db u db' :
  claims db !! cid = Some c → cl_status c = Claim_Active →
  claims_ok (claims db) (claim_items db) →
  insert_claim_item_rows cid ids db = Ok (u, db') →
  ∃ cis', db' = db <| claim_items := cis' |> ∧ claims_ok (claims db) cis' ∧
    (∀ id, id ∉ ids → has_active_claim cis' id = has_active_claim (claim_items db) id) ∧
    ∀ k, is_Some (cis' !! k) → is_Some (claim_items db !! k) ∨ k.1 = cid ∧ k.2 ∈ ids.
Proof.
  intros Hc Hst Hok. unfold insert_claim_item_rows. intros Hrun. inv_sql.
  match goal with H : for_each _ _ _ = _ |- _ =>
    eapply (for_each_inv (λ db1, ∃ cis', db1 = db <| claim_items := cis' |> ∧
      claims_ok (claims db) cis' ∧ (∀ id, id ∉ ids →
        has_active_claim cis' id = has_active_claim (claim_items db) id) ∧
      ∀ k, is_Some (cis' !! k) → is_Some (claim_items db !! k) ∨ k.1 = cid ∧ k.2 ∈ ids)) in H;
      [destruct H as (cis' & -> & ? & ? & ?)
      | |exists (claim_items db); split_and!; [by destruct db|done|done|by left]] end.
  - exists cis'. by do 3 (split; [done|]).
  - intros item db1 u1 db2 Hin Hrun1 (cis & -> & Hcl & Hsame & Hkeys).
    unfold insert_claim_item in Hrun1. inv_sql. set_simpl. rewrite negb_true_iff in *.
    eexists. split; [reflexivity|]. split; [by eapply claims_ok_insert_item|]. split.
    + intros id Hid. rewrite <- Hsame by done. apply has_active_claim_ext. intros cid'.
      by rewrite lookup_insert_ne by set_solver.
    + intros k [ci [[<- _]|[_ Hk]]%lookup_insert_Some]; [by right|by apply Hkeys; eexists].
Qed.

Lemma Inv_insert_claim_items cid ids c db cls u db' :
  insert_claim_items cid ids (db <| claims := cls |>) = Ok (u, db') →
  claims_ok cls (claim_items db) → claims_shrink (claims db) (claim_items db) cls (claim_items db) →
  cls !! cid = Some c → cl_status c = Claim_Active →
  (∀ id, id ∈ ids → ∃ li, list_items db !! id = Some li ∧ li_list_id li = cl_list_id c) →
  Inv db → advances db db'.
Proof.
  unfold insert_claim_items. intros Hrun Hcl Hsh Hc Hst Hids Hinv.
  assert (targets_ok cls (claim_items db) (list_items db)) as Hta
    by (eapply targets_ok_shrink; [done|apply Hinv]).
  case_bool_decide as Hn; inv_sql.
  - apply (Inv_items_claims db cls (claim_items db) (list_items db)); [done|done| |done].
    intros id. destruct (list_items db !! id) as [li|] eqn:Hl; [|done].
    split; [done|done|done|by eapply inv_items].
  - match goal with H : insert_claim_item_rows _ _ _ = _ |- _ =>
      apply (insert_claim_item_rows_Ok _ _ c) in H as (cis' & -> & Hcl' & Hsame & Hkeys); [|done..] end.
    eapply Inv_bulk; [exact Hrun|done| |done|done].
    intros k Hk. destruct (Hkeys _ Hk) as [Hk'|[-> Hk']]; [by apply Hta|].
    destruct (Hids _ Hk') as (li & ? & ?). by exists c, li.
Qed.

Lemma Inv_create_claim cur body db d db' :
  create_claim cur body db = Ok (d, db') → Inv db → advances db db'.
Proof.
  unfold create_claim. intros Hrun Hinv. inv_sql.
  match goal with H : lock_list _ _ = _ |- _ => apply lock_list_Ok in H as [-> _] end.
  match goal with H : validate_claimable_items _ _ _ = _ |- _ =>
    apply validate_claimable_items_Ok in H as [-> Hids] end.
  match goal with H : load_list_detail _ _ _ _ = _ |- _ => apply load_list_detail_Ok in H; subst end.
  match goal with H : fire_webhook _ _ _ = _ |- _ => apply fire_webhook_Ok, queue_only_ledger in H;
    rewrite <- H end.
  match goal with H : insert_claim _ _ _ _ = _ |- _ => apply insert_claim_Ok in H as [Hn ->] end.
  assert (same_ledger db (db <| db_draws ::= N.succ |>)) as Hd by (by split).
  rewrite Hd. rewrite Hd in Hinv.
  match goal with H : insert_claim_items _ _ ?db1 = Ok (_, ?db2) |- advances _ ?db2 =>
    eapply (Inv_insert_claim_items _ _ _ (db <| db_draws ::= N.succ |>) (claims db1)); [exact H|..] end.
  - set_simpl. apply claims_ok_insert_claim; [done|apply Hinv].
  - set_simpl. split; [done|]. intros cid c Hcid. exists c. rewrite lookup_insert_ne by congruence. done.
  - set_simpl. by rewrite lookup_insert_eq.
  - done.
  - exact Hids.
  - done.
Qed.

Lemma claim_guards_Ok cur db u db' :
  claim_guards cur db = Ok (u, db') → db' = db ∧ cc_status cur = Claim_Active.
Proof.
  unfold claim_guards, ensure_claim_writable. intros Hrun. inv_sql.
  split; [done|]. repeat case_match; try done. by bool_simpl.
Qed.

Lemma Inv_add_claim_items cur ids db d db' :
  add_claim_items cur ids db = Ok (d, db') → claim_extracted db cur → Inv db → advances db db'.
Proof.
  unfold add_claim_items. intros Hrun (c & l & Hc & _ & Hlid & _ & Hst & _) Hinv. inv_sql.
  match goal with H : claim_guards _ _ = _ |- _ => apply claim_guards_Ok in H as [-> Ha] end.
  match goal with H : lock_list _ _ = _ |- _ => apply lock_list_Ok in H as [-> _] end.
  match goal with H : validate_claimable_items _ _ _ = _ |- _ =>
    apply validate_claimable_items_Ok in H as [-> Hids] end.
  match goal with H : load_list_detail _ _ _ _ = _ |- _ => apply load_list_detail_Ok in H; subst end.
  match goal with H : insert_claim_items _ _ _ = _ |- _ =>
    eapply (Inv_insert_claim_items _ _ c db (claims db)); [|apply Hinv|apply claims_shrink_refl|
      done|congruence|by rewrite <- Hlid|done];
    rewrite <- H; f_equal; by destruct db end.
Qed.

Lemma Inv_release_claim cur db d db' :
  release_claim cur db = Ok (d, db') → claim_extracted db cur → Inv db → advances db db'.
Proof.
  unfold release_claim. intros Hrun (c & l & Hc & _ & _ & _ & Hst & _) Hinv. inv_sql.
  match goal with H : claim_guards _ _ = _ |- _ => apply claim_guards_Ok in H as [-> Ha] end.
  match goal with H : lock_list _ _ = _ |- _ => apply lock_list_Ok in H as [-> _] end.
  match goal with H : load_list_detail _ _ _ _ = _ |- _ => apply load_list_detail_Ok in H; subst end.
  match goal with H : recompute_item_statuses_bulk _ _ = _ |- _ => rename H into Hb end.
  unfold update_claim_status in Hb. rewrite Hc in Hb.
  eapply (Inv_bulk _ db); [exact Hb| | | |done].
  - apply (claims_ok_deactivate _ _ _ c); [done|congruence|done|apply Hinv].
  - eapply targets_ok_shrink; [by apply deactivate_shrink|apply Hinv].
  - intros id Hid. apply sync_other_items. intros ci Hci. apply Hid.
    apply list_elem_of_fmap. exists (cc_claim_id cur, id). split; [done|].
    apply list_elem_of_fmap. exists ((cc_claim_id cur, id), ci). split; [done|].
    apply elem_of_select_where. split; [done|]. cbn. by apply bool_decide_eq_true.
Qed.

(** ** Single items *)

Lemma items_step_insert db cis' id li li' :
  list_items db !! id = Some li → item_step (fulfillments db) cis' id li li' →
  (∀ id', id' ≠ id → has_active_claim cis' id' = has_active_claim (claim_items db) id') →
  items_ok db → items_step db cis' (<[id := li']> (list_items db)).
Proof.
  intros Hl Hst Hsame Hok id'. destruct (decide (id' = id)) as [->|Hne].
  - by rewrite Hl, lookup_insert_eq.
  - rewrite lookup_insert_ne by done. destruct (list_items db !! id') as [li0|] eqn:Hl0; [|done].
    split; [done|done|done|]. eapply item_ok_frame; [done|by apply Hsame|by apply Hok].
Qed.

Lemma Inv_remove_claim_item cur item db d db' :
  remove_claim_item cur item db = Ok (d, db') → Inv db → advances db db'.
Proof.
  unfold remove_claim_item. intros Hrun Hinv. inv_sql.
  match goal with H : claim_guards _ _ = _ |- _ => apply claim_guards_Ok in H as [-> Ha] end.
  match goal with H : lock_list _ _ = _ |- _ => apply lock_list_Ok in H as [-> _] end.
  match goal with H : load_list_detail _ _ _ _ = _ |- _ => apply load_list_detail_Ok in H; subst end.
  match goal with H : recompute_item_status _ _ _ = _ |- _ =>
    apply recompute_item_status_Ok in H as (li & Hl & _ & -> & _) end.
  set_simpl. set (cis' := delete _ (claim_items db)) in *.
  apply (Inv_items_claims db (claims db) cis'
    (<[item := recomputed (fulfillments db) cis' Forbid item li]> (list_items db)));
    [apply claims_ok_delete, Hinv| | |done].
  { eapply targets_ok_shrink; [|apply Hinv]. split; [|eauto]. unfold cis'.
    intros k [ci [_ Hk]%lookup_delete_Some]. by eexists. }
  apply (items_step_insert _ _ _ li); [done| | |apply Hinv].
  - pose proof (inv_items _ Hinv _ _ Hl) as Hok.
    split; [apply recomputed_key|by rewrite recomputed_settled|by apply recomputed_frozen|].
    eapply item_ok_recomputed; [exact Hok| |done]. destruct Hok as [_ <- Hf _]. done.
  - intros id' Hne. apply has_active_claim_ext. intros cid. unfold cis'.
    by rewrite lookup_delete_ne by congruence.
Qed.

Lemma Inv_deliver db item li :
  list_items db !! item = Some li → li_status li = Item_Bought → Inv db →
  advances db (db <| list_items ::= update_where (λ k _, k == item)
              (λ li, li <| li_status := Item_Delivered |>) |>).
Proof.
  intros Hl Hb Hinv.
  assert (same_ledger (db <| claims := claims db |> <| claim_items := claim_items db |>
      <| list_items := <[item := li <| li_status := Item_Delivered |>]> (list_items db) |>)
    (db <| list_items ::= update_where (λ k _, k == item)
              (λ li, li <| li_status := Item_Delivered |>) |>)) as <-.
  { split; try done. exact (update_where_key _ _ _ _ Hl). }
  apply Inv_items_claims; [apply Hinv|apply Hinv| |done].
  apply (items_step_insert _ _ _ li); [done| |done|apply Hinv].
  destruct (inv_items _ Hinv _ _ Hl) as [Hq Hv Hf Hs]. split; [done|done|congruence|].
  split; [done|done|done|].
  unfold status_ok. apply (status_ok_full _ _ Hs). by left.
Qed.

Lemma mark_delivered_run cur item db d db' :
  mark_delivered cur item db = Ok (d, db') →
  ∃ li, list_items db !! item = Some li ∧ li_list_id li = cur_list_id cur ∧
    li_status li = Item_Bought ∧
    (cur_user_id cur = default uuid_nil (last_hauler db item) ∨ cur_role cur = Owner) ∧
    same_ledger (db <| list_items ::= update_where (λ k _, k == item)
                        (λ li, li <| li_status := Item_Delivered |>) |>) db'.
Proof.
  unfold mark_delivered. intros Hrun. inv_sql.
  match goal with x : _ * _ |- _ => destruct x end. inv_sql;
  (match goal with H : lock_list _ _ = _ |- _ => apply lock_list_Ok in H as [-> _] end);
  (match goal with H : load_list_detail _ _ _ _ = _ |- _ => apply load_list_detail_Ok in H; subst end).
  unfold item_on_list in *. simplify_option_eq.
  all: match goal with H : when _ _ _ = _ |- _ => apply when_Ok in H; rename H into Hw end.
  all: bool_simpl; eexists; split_and!; try done; try by auto.
  all: destruct (all_delivered _ _); [|by subst]; inv_sql; by eapply queue_only_ledger, fire_webhook_Ok.
Qed.

Lemma Inv_mark_delivered cur item db d db' :
  mark_delivered cur item db = Ok (d, db') → Inv db → advances db db'.
Proof.
  intros (li & Hl & _ & Hb & _ & <-)%mark_delivered_run Hinv. by eapply Inv_deliver.
Qed.

(** ** Purchases *)

Lemma current_subtotal_insert db fid f items r :
  fulfillments db !! fid = None → items_similar (list_items db) items →
  current_subtotal (db <| fulfillments ::= <[fid := f]> |> <| list_items := items |>) r =
    (current_subtotal db r +
     if pays db r f && is_none (f_reversed_at f) then f_qty f * f_unit_price_isk f else 0)%Z.
Proof.
  intros Hn Hsi. set (db' := db <| fulfillments ::= _ |> <| list_items := _ |>).
  assert (similar db db') as Hsim by (by split).
  unfold current_subtotal, subtotal_of, sum_where.
  change (fulfillments db') with (<[fid := f]> (fulfillments db)).
  rewrite sum_of_insert by done. rewrite Z.add_comm. f_equal.
  - apply sum_of_ext. intros ? ? _. by rewrite (payable_similar Hsim).
  - unfold pays. by rewrite (payable_similar Hsim).
Qed.

Lemma current_subtotal_replace db fid f f' items r :
  fulfillments db !! fid = Some f → items_similar (list_items db) items →
  current_subtotal (db <| fulfillments ::= <[fid := f']> |> <| list_items := items |>) r =
    (current_subtotal db r -
       (if pays db r f && is_none (f_reversed_at f) then f_qty f * f_unit_price_isk f else 0) +
     if pays db r f' && is_none (f_reversed_at f') then f_qty f' * f_unit_price_isk f' else 0)%Z.
Proof.
  intros Hf Hsi. set (db' := db <| fulfillments ::= _ |> <| list_items := _ |>).
  assert (similar db db') as Hsim by (by split).
  unfold current_subtotal, subtotal_of, sum_where.
  change (fulfillments db') with (<[fid := f']> (fulfillments db)).
  rewrite (sum_of_replace _ _ _ f f' Hf). unfold pays. rewrite !(payable_similar Hsim).
  do 2 f_equal. apply sum_of_ext. intros ? ? _. by rewrite (payable_similar Hsim).
Qed.

(** The state between a change of purchases and the upsert that follows it. *)
Definition purchase_state db fs' items' cls' cis' : Db :=
  db <| fulfillments := fs' |> <| list_items := items' |>
     <| claims := cls' |> <| claim_items := cis' |>.

(** What the change must satisfy, for the cycle the upsert is about. *)
Record purchase_step db fs' items' cls' cis' (lid rp hp : Uuid) : Prop := mkPurchaseStep {
  ps_claims : claims_ok cls' cis';
  ps_targets : claims_shrink (claims db) (claim_items db) cls' cis';
  ps_similar : items_similar (list_items db) items';
  ps_items id li' : items' !! id = Some li' → item_ok fs' cis' id li';
  ps_settled id li' : items' !! id = Some li' → li_status li' = Item_Settled →
    ∃ li, list_items db !! id = Some li ∧ li_status li = Item_Settled;
  ps_fulfillments fid f : fs' !! fid = Some f → fulfillment_ok db f;
  ps_pending rid r : reimbursements db !! rid = Some r → r_status r ≠ Reimb_Cancelled →
    in_cycle lid rp hp r = true → r_status r = Reimb_Pending;
  ps_other r : reimb_static db r → in_cycle lid rp hp r = false →
    current_subtotal (purchase_state db fs' items' cls' cis') r = current_subtotal db r;
  ps_live fid f : fs' !! fid = Some f → f_reversed_at f = None →
    fulfillments db !! fid = Some f ∨
    ((∀ r, reimb_static db r → in_cycle lid rp hp r = true → pays db r f = true) ∧
     ∀ li, list_items db !! f_list_item_id f = Some li → li_status li ≠ Item_Settled);
  ps_frozen_items id li : list_items db !! id = Some li → li_status li = Item_Settled →
    items' !! id = Some li;
  ps_frozen_purchases fid f li : fulfillments db !! fid = Some f →
    list_items db !! f_list_item_id f = Some li → li_status li = Item_Settled → fs' !! fid = Some f;
  ps_entry : ∃ fid f', fs' = <[fid := f']> (fulfillments db) ∧
    (∀ r, reimb_static db r → pays db r f' = true → in_cycle lid rp hp r = true) ∧
    (fulfillments db !! fid = None ∧ f_reversed_at f' = None ∨
     ∃ f, fulfillments db !! fid = Some f ∧ f_reversed_at f = None ∧
       is_Some (f_reversed_at f') ∧ ∀ r, pays db r f' = pays db r f)
}.

Lemma reimb_static_similar db db' r : similar db db' → reimb_static db r → reimb_static db' r.
Proof.
  intros Hsim [Ha Hq Hh]. split; [done|by apply (requester_similar Hsim)|].
  by rewrite (principal_of_user_similar Hsim).
Qed.

Lemma purchase_frozen db fs' items' cls' cis' lid q h l rp hp rs' :
  (∀ id li, list_items db !! id = Some li → li_status li = Item_Settled → items' !! id = Some li) →
  (∀ fid f li, fulfillments db !! fid = Some f → list_items db !! f_list_item_id f = Some li →
     li_status li = Item_Settled → fs' !! fid = Some f) →
  upserted (purchase_state db fs' items' cls' cis') lid q h l rp hp rs' →
  frozen db (purchase_state db fs' items' cls' cis' <| reimbursements := rs' |>).
Proof.
  intros Hfi Hfp Hup. pose proof (upserted_frame _ _ _ _ _ _ _ _ Hup) as [Hkept _ _].
  split; [|intros id li Hl Hs; exists li; by split; [eapply Hfi|]|exact Hfp].
  intros rid r Hr Hs. destruct (Hkept _ _ Hr) as (r' & Hr' & _ & He).
  rewrite He in Hr' by congruence. by exists r.
Qed.

(** One entry is made or struck out, and it is not a paid one. *)
Lemma purchase_book db fs' items' cls' cis' lid q h l rp hp rs' :
  purchase_step db fs' items' cls' cis' lid rp hp →
  upserted (purchase_state db fs' items' cls' cis') lid q h l rp hp rs' → Inv db →
  rtc turn (book_of db) (book_of (purchase_state db fs' items' cls' cis' <| reimbursements := rs' |>)).
Proof.
  intros Hstep Hup Hinv. set (db' := _ <| reimbursements := rs' |>).
  pose proof (upserted_frame _ _ _ _ _ _ _ _ Hup) as [Hkept Horig _].
  assert (similar db db') as Hsim by (split; try done; apply Hstep).
  assert (∀ f, is_paid db' f = is_paid db f) as Hpaid.
  { intros f. apply eq_true_iff_eq. rewrite !is_paid_true. setoid_rewrite (pays_similar Hsim). split.
    - intros (rid & r' & Hr & Hp & Hs). destruct (Horig _ _ Hr) as [(r & Hr0 & Hk)|(Hq & _)]; [|congruence].
      exists rid, r. rewrite <- (reimb_key_pays _ _ _ _ Hk). injection Hk as _ _ _ _ _ _ Hk.
      by rewrite <- Hk.
    - intros (rid & r & Hr & Hp & Hs). destruct (Hkept _ _ Hr) as (r' & Hr' & Hk & _).
      exists rid, r'. rewrite (reimb_key_pays _ _ _ _ Hk). injection Hk as _ _ _ _ _ _ Hk.
      by rewrite Hk. }
  destruct (ps_entry _ _ _ _ _ _ _ _ Hstep) as (fid & f' & Hfs & Hcyc & Hcase).
  assert (is_paid db f' = false) as Hunpaid.
  { apply not_true_is_false. intros (rid & r & Hr & Hp & Hs)%is_paid_true.
    pose proof (inv_reimbs _ Hinv _ _ Hr) as Hok. apply reimb_ok_static in Hok.
    rewrite (ps_pending _ _ _ _ _ _ _ _ Hstep _ _ Hr) in Hs; [done|by eapply inv_live|by apply Hcyc]. }
  apply rtc_once. destruct Hcase as [[Hnone Hrev]|(f & Hf & Hrev & [t Hrev'] & Hsame)].
  - assert (book_of db' = <[fid := mkEntry (f_hauler_user_id f') (f_qty f' * f_unit_price_isk f') false]>
      (book_of db)) as ->.
    { apply map_eq. intros k. rewrite lookup_book. change (fulfillments db') with fs'. rewrite Hfs.
      destruct (decide (k = fid)) as [->|Hne].
      - rewrite !lookup_insert_eq. cbn. unfold entry_of. by rewrite Hrev, Hpaid, Hunpaid.
      - rewrite !lookup_insert_ne by done. rewrite lookup_book.
        destruct (fulfillments db !! k) as [f0|]; [cbn|done]. unfold entry_of. by rewrite Hpaid. }
    constructor; [by rewrite lookup_book, Hnone|].
    destruct (ps_fulfillments _ _ _ _ _ _ _ _ Hstep fid f') as [? ? _ _]; [|lia].
    by rewrite Hfs, lookup_insert_eq.
  - assert (book_of db' = delete fid (book_of db)) as ->.
    { apply map_eq. intros k. rewrite lookup_book. change (fulfillments db') with fs'. rewrite Hfs.
      destruct (decide (k = fid)) as [->|Hne].
      - rewrite lookup_insert_eq, lookup_delete_eq. cbn. unfold entry_of. by rewrite Hrev'.
      - rewrite lookup_insert_ne, lookup_delete_ne by done. rewrite lookup_book.
        destruct (fulfillments db !! k) as [f0|]; [cbn|done]. unfold entry_of. by rewrite Hpaid. }
    eapply turn_void; [rewrite lookup_book, Hf; cbn; unfold entry_of; by rewrite Hrev|].
    cbn. rewrite <- Hunpaid. unfold is_paid. apply eq_true_iff_eq. rewrite !sel_exists_true.
    by setoid_rewrite Hsame.
Qed.

Lemma Inv_purchase db fs' items' cls' cis' lid q h l rp hp rs' :
  let db1 := purchase_state db fs' items' cls' cis' in
  purchase_step db fs' items' cls' cis' lid rp hp →
  upsert_context db1 lid q h = Some (l, rp, hp) → upserted db1 lid q h l rp hp rs' →
  Inv db → advances db (db1 <| reimbursements := rs' |>).
Proof.
  intros db1 Hstep Hctx Hup Hinv.
  split; [|by destruct Hstep; eapply purchase_frozen|by eapply purchase_book].
  destruct Hstep as [Hcl Hta Hsi Hit Hset Hff' Hpnd Hother Hlive Hfi Hfp _].
  destruct Hinv as [_ _ Htg Href _ Hre Hcy Hco Hpa Hcf Hnc].
  assert (similar db db1) as Hsim by (by split).
  assert (refs_ok db1) as Href1.
  { apply (refs_similar Hsim); [|done]. intros lid0 l0 Hl0. by eapply refs_tip. }
  assert (fulfillments_ok db1) as Hff1.
  { intros fid f Hf. apply (fulfillment_similar Hsim). by eapply Hff'. }
  assert (reimbs_ok (db1 <| reimbursements := rs' |>)) as Hre1.
  { eapply upserted_reimbs; [done|done|exact Hcy| | |exact Hpnd|done|done].
    - intros rid r Hr. eapply reimb_static_similar; [done|]. apply reimb_ok_static. by eapply Hre.
    - intros rid r Hr Hp Hc. pose proof (Hre _ _ Hr) as Hr0.
      unfold db1. rewrite Hother; [|by apply reimb_ok_static|done]. by apply Hr0. }
  pose proof (upserted_frame _ _ _ _ _ _ _ _ Hup) as [Hkept Horig (ridp & rp0 & Hp1 & Hp2 & Hp3)].
  assert (∀ r f, pays (db1 <| reimbursements := rs' |>) r f = pays db r f) as Hpays.
  { intros r f. exact (pays_similar Hsim r f). }
  assert (∀ rid r, rs' !! rid = Some r → reimb_static db r) as Hstat.
  { intros rid r Hr. eapply reimb_static_similar; [|apply reimb_ok_static; by eapply Hre1].
    split; [done..|]. change (items_similar items' (list_items db)). by symmetry. }
  split.
  - exact Hit.
  - exact Hcl.
  - apply (targets_ok_similar _ _ (list_items db)); [done|]. by eapply targets_ok_shrink.
  - destruct Href1 as [A B C D E F G].
    split; [exact A|exact B|exact C|exact D|exact E|exact F|exact G].
  - intros fid f Hf. destruct (Hff1 _ _ Hf) as [A B C D]. by split.
  - exact Hre1.
  - exact (upserted_cycles _ _ _ _ _ _ _ _ Hup Hcy).
  - intros fid f Hf Hrev. setoid_rewrite Hpays.
    destruct (Hlive _ _ Hf Hrev) as [Hold|[Hnew _]].
    + destruct (Hco _ _ Hold Hrev) as (rid & r & Hr & Hs & Hy).
      destruct (Hkept _ _ Hr) as (r' & Hr' & Hk & _). exists rid, r'.
      rewrite (reimb_key_pays _ _ _ _ Hk). injection Hk as _ _ _ _ _ _ Hs'.
      split; [done|]. by rewrite Hs'.
    + exists ridp, rp0. split; [done|]. split; [done|]. apply Hnew; [by eapply Hstat|done].
  - intros fid f li' Hf Hrev Hl Hs rid r' Hr. rewrite Hpays. intros Hy Hpend.
    destruct (Hset _ _ Hl Hs) as (li & Hl0 & Hs0).
    destruct (Hlive _ _ Hf Hrev) as [Hold|[_ Hnew]]; [|by eapply Hnew].
    destruct (Horig _ _ Hr) as [(r & Hr0 & Hk)|(_ & Hc & Hno)].
    + rewrite (reimb_key_pays _ _ _ _ Hk) in Hy. injection Hk as _ _ _ _ _ _ Hk.
      by eapply Hpa; eauto; congruence.
    + destruct (Hco _ _ Hold Hrev) as (rid0 & r0 & Hr0 & Hs00 & Hy0).
      apply Hs00. eapply Hno; [done|].
      pose proof (pays_same_cycle _ _ _ _ (Hstat _ _ Hr) (reimb_ok_static _ _ (Hre _ _ Hr0)) Hy Hy0)
        as Hcc. apply in_cycle_true in Hc as (<- & <- & <-). exact Hcc.
  - exact Hcf.
  - intros rid r' Hr. destruct (Horig _ _ Hr) as [(r & Hr0 & Hk)|(Hp & _)]; [|congruence].
    injection Hk as _ _ _ _ _ _ Hk. rewrite Hk. by eapply Hnc.
Qed.

End Preservation.
