(* ===== verification/Purchases.v ===== *)
(** * The handlers preserve the ledger invariant: purchases and reversals *)

From Stdlib Require Import ZArith Lia.
From stdpp Require Import base tactics decidable option list gmap strings pretty.
From S2P Require Import Prelude Effect Money Domain Host Schema Errors.
From S2P Require Import Extract Webhooks Detail Settlement Fulfillment Claims Reimbursements.
From S2P Require Import Fulfillments Invariant Book InvariantItems InvariantMoney Preservation.

Section Purchases.
Context `{RT : Runtime}.
Implicit Types (db : Db) (li : ListItemRow) (f : FulfillmentRow).

(** ** The cycle of a purchase *)

Lemma upsert_context_Some db lid q h :
  refs_ok db → is_Some (lists db !! lid) → is_Some (users db !! q) → is_Some (users db !! h) →
  ∃ l rp hp, upsert_context db lid q h = Some (l, rp, hp).
Proof.
  intros Href [l Hl] Hq Hh. unfold upsert_context, requester_principal. rewrite Hl. cbn.
  destruct (refs_user _ Href _ Hh) as [hp ->]. destruct (refs_user _ Href _ Hq) as [up Hup].
  destruct (l_payer_corp_id l) as [c|] eqn:Hc.
  - destruct (refs_payer _ Href _ _ _ Hl Hc) as [cp ->]. cbn. eauto.
  - rewrite Hup. cbn. eauto.
Qed.

Lemma upsert_context_similar db db' lid q h :
  users db' = users db → principals db' = principals db → lists db' = lists db →
  upsert_context db' lid q h = upsert_context db lid q h.
Proof.
  intros Hu Hp Hl. unfold upsert_context, requester_principal, principal_of_user, principal_of_corp.
  by rewrite Hl, Hp.
Qed.

(** The handlers' check on the cycle: its live debt, if any, is pending. *)
Lemma cycle_status_pending db lid q h l rp hp :
  cycles_ok db → upsert_context db lid q h = Some (l, rp, hp) →
  (∀ rs, cycle_status db lid q h = Some rs → rs = Reimb_Pending) →
  ∀ rid r, reimbursements db !! rid = Some r → r_status r ≠ Reimb_Cancelled →
    in_cycle lid rp hp r = true → r_status r = Reimb_Pending.
Proof.
  intros Hcyc Hctx Hcs rid r Hr Hs Hc. unfold upsert_context in Hctx. simplify_option_eq.
  unfold cycle_status in Hcs. simplify_option_eq.
  destruct (select_where (λ _ : N, in_cycle lid rp hp) (reimbursements db)) as [|[k r0] rest] eqn:Hsel.
  - apply select_where_nil in Hsel. rewrite sel_exists_false in Hsel.
    by rewrite (Hsel _ _ Hr) in Hc.
  - assert ((k, r0) ∈ select_where (λ _ : N, in_cycle lid rp hp) (reimbursements db)) as Hin
      by (rewrite Hsel; left).
    apply elem_of_select_where in Hin as [Hr0 Hc0]. cbn in Hcs.
    specialize (Hcs _ eq_refl). assert (rid = k) as ->; [|congruence].
    eapply Hcyc; [exact Hr|exact Hr0|done|congruence|].
    apply in_cycle_true in Hc as (-> & -> & ->). exact Hc0.
Qed.

(** ** Statements of the two handlers *)

Lemma insert_fulfillment_Ok item claim_id user b db u db' :
  insert_fulfillment item claim_id user b db = Ok (u, db') →
  ∃ fid f, fulfillments db !! fid = None ∧
    f_list_item_id f = item ∧ f_claim_id f = claim_id ∧ f_hauler_user_id f = user ∧
    f_qty f = rfb_qty b ∧ numeric_cast 20 2 (rfb_unit_price_isk b) = Some (f_unit_price_isk f) ∧
    f_reversed_at f = None ∧ (0 < f_qty f)%Z ∧ (0 ≤ f_unit_price_isk f)%Z ∧
    is_Some (users db !! user) ∧
    db' = db <| fulfillments ::= <[fid := f]> |> <| db_draws ::= N.succ |>.
Proof.
  unfold insert_fulfillment, check. intros Hrun. inv_sql. set_simpl.
  rewrite negb_true_iff, row_exists_false, ?row_exists_true in *.
  match goal with H : (0 <? _)%Z = true |- _ => apply Z.ltb_lt in H end.
  match goal with H : (0 <=? _)%Z = true |- _ => apply Z.leb_le in H end.
  match goal with |- context [<[?k := ?v]>] => exists k, v end.
  by split_and!.
Qed.

Lemma claim_done_true db cid :
  claim_done db cid = true →
  ∀ item ci li, claim_items db !! (cid, item) = Some ci → list_items db !! item = Some li →
    li_status li = Item_Bought ∨ li_status li = Item_Delivered ∨ li_status li = Item_Settled.
Proof.
  unfold claim_done. rewrite negb_true_iff, sel_exists_false. intros Hd item ci li Hci Hl.
  specialize (Hd _ _ Hci). cbn in Hd. rewrite Hl, bool_decide_eq_true_2 in Hd by done.
  cbn in Hd. apply negb_false_iff, bool_decide_eq_true in Hd. set_solver.
Qed.

(** Completing a claim whose items are all bought keeps every item consistent. *)
Lemma complete_claim_Ok cid db u db' :
  complete_claim_if_done cid db = Ok (u, db') → items_ok db →
  claims_ok (claims db) (claim_items db) →
  ∃ cls' cis', db' = db <| claims := cls' |> <| claim_items := cis' |> ∧ claims_ok cls' cis' ∧
    (∀ id li, list_items db !! id = Some li → item_ok (fulfillments db) cis' id li) ∧
    claims_shrink (claims db) (claim_items db) cls' cis'.
Proof.
  unfold complete_claim_if_done. intros Hrun Hit Hcl. inv_sql. apply when_Ok in Hrun.
  destruct (claim_done db cid) eqn:Hd; inv_sql; subst.
  2: { exists (claims db), (claim_items db). split; [by destruct db|]. by auto using claims_shrink_refl. }
  unfold update_claim_status. destruct (claims db !! cid) as [c|] eqn:Hc;
    [|exists (claims db), (claim_items db); split; [by destruct db|]; by auto using claims_shrink_refl].
  destruct (cl_status c == Claim_Active) eqn:Ha;
    [|exists (claims db), (claim_items db); split; [by destruct db|]; by auto using claims_shrink_refl].
  apply bool_decide_eq_true in Ha. eexists _, _. split; [reflexivity|].
  split; [by eapply claims_ok_deactivate|]. split; [|by apply deactivate_shrink].
  intros id li Hl. specialize (Hit _ _ Hl).
  destruct (claim_items db !! (cid, id)) as [ci|] eqn:Hci.
  - eapply item_ok_full; [|exact Hit]. destruct Hit as [_ _ _ Hs].
    apply (status_ok_full _ _ Hs). by eapply claim_done_true.
  - eapply item_ok_frame; [done| |exact Hit]. apply sync_other_items. congruence.
Qed.

Lemma wrap_in_range li q :
  (0 < q ≤ 10000000)%Z → (0 ≤ li_qty_fulfilled li ≤ li_qty_requested li)%Z →
  (li_qty_requested li ≤ max_requested)%Z →
  wrap_i64 (q + li_qty_fulfilled li) = (q + li_qty_fulfilled li)%Z.
Proof. unfold max_requested, i64_max. intros. apply wrap_i64_id. unfold i64_min, i64_max. lia. Qed.

Lemma validate_body_Ok b :
  validate_fulfillment_body b = Ok () → (0 < rfb_qty b ≤ 10000000)%Z.
Proof.
  unfold validate_fulfillment_body. intros Hv.
  destruct (rfb_qty b <=? 0)%Z eqn:H1; [done|]. apply Z.leb_gt in H1.
  destruct (10000000 <? rfb_qty b)%Z eqn:H2; [done|]. apply Z.ltb_ge in H2. lia.
Qed.

(** ** Recording *)

Lemma check_cycle_Ok o : check_cycle o = Ok () → ∀ rs, o = Some rs → rs = Reimb_Pending.
Proof. intros Hc rs ->. cbn in Hc. case_match; [done|]. by bool_simpl. Qed.

Lemma record_run cur item body db d db' :
  record_fulfillment cur item body db = Ok (d, db') →
  ∃ li q fid f dbB dbC,
    require_mutable cur = Ok () ∧ validate_fulfillment_body body = Ok () ∧
    list_items db !! item = Some li ∧ li_list_id li = cur_list_id cur ∧
    li_requested_by_user_id li = Some q ∧
    (wrap_i64 (rfb_qty body + li_qty_fulfilled li) ≤ li_qty_requested li)%Z ∧
    (∀ rs, cycle_status db (cur_list_id cur) q (cur_user_id cur) = Some rs → rs = Reimb_Pending) ∧
    check_active_claim (active_claim_of db item) (cur_user_id cur) (cur_role cur)
      (rfb_claim_id body) = Ok () ∧
    fulfillments db !! fid = None ∧ f_list_item_id f = item ∧
    f_claim_id f = fst <$> active_claim_of db item ∧ f_hauler_user_id f = cur_user_id cur ∧
    f_qty f = rfb_qty body ∧
    numeric_cast 20 2 (rfb_unit_price_isk body) = Some (f_unit_price_isk f) ∧
    f_reversed_at f = None ∧ (0 ≤ f_unit_price_isk f)%Z ∧ is_Some (users db !! cur_user_id cur) ∧
    let li' := recomputed (<[fid := f]> (fulfillments db)) (claim_items db) Forbid item li in
    dbB = db <| fulfillments ::= <[fid := f]> |> <| db_draws ::= N.succ |>
             <| list_items ::= <[item := li']> |> ∧
    advance_claim (active_claim_of db item) (li_status li') dbB = Ok (tt, dbC) ∧
    upsert_reimbursement (cur_list_id cur) q (cur_user_id cur) dbC = Ok (tt, db').
Proof.
  unfold record_fulfillment. intros Hrun. inv_sql.
  match goal with H : lock_list _ _ = _ |- _ => apply lock_list_Ok in H as [-> _] end.
  match goal with H : load_list_detail _ _ _ _ = _ |- _ => apply load_list_detail_Ok in H; subst end.
  match goal with H : insert_fulfillment _ _ _ _ _ = _ |- _ =>
    apply insert_fulfillment_Ok in H as (fid & f & Hfid & Hf1 & Hf2 & Hf3 & Hf4 & Hf5 & Hf6 & _ & Hf7 &
      Hf8 & ->) end.
  match goal with H : recompute_item_status _ _ _ = _ |- _ =>
    apply recompute_item_status_Ok in H as (li & Hl & -> & -> & _) end.
  set_simpl. unfold item_on_list in *. simplify_option_eq.
  match goal with H : (wrap_i64 _ <=? _)%Z = true |- _ => apply Z.leb_le in H end.
  do 6 eexists. split_and!; try done.
  by apply check_cycle_Ok.
Qed.

Lemma advance_claim_Ok active s db u db' :
  advance_claim active s db = Ok (u, db') → items_ok db → claims_ok (claims db) (claim_items db) →
  ∃ cls' cis', db' = db <| claims := cls' |> <| claim_items := cis' |> ∧ claims_ok cls' cis' ∧
    (∀ id li, list_items db !! id = Some li → item_ok (fulfillments db) cis' id li) ∧
    claims_shrink (claims db) (claim_items db) cls' cis'.
Proof.
  intros Hrun Hit Hcl.
  assert (∃ cls' cis', db = db <| claims := cls' |> <| claim_items := cis' |> ∧ claims_ok cls' cis' ∧
    (∀ id li, list_items db !! id = Some li → item_ok (fulfillments db) cis' id li) ∧
    claims_shrink (claims db) (claim_items db) cls' cis') as Hid.
  { exists (claims db), (claim_items db). split; [by destruct db|]. by auto using claims_shrink_refl. }
  unfold advance_claim in Hrun. destruct active as [[cid h]|]; [|by inv_sql].
  apply when_Ok in Hrun. destruct (_ || _); [by eapply complete_claim_Ok|by subst].
Qed.

Lemma Inv_record_fulfillment cur item body db d db' :
  record_fulfillment cur item body db = Ok (d, db') → Inv db → advances db db'.
Proof.
  intros Hrun Hinv.
  apply record_run in Hrun as (li & q & fid & f & dbB & dbC & _ & Hbody & Hl & Hlid & Hq & Hle & Hcs &
    _ & Hfid & Hf1 & _ & Hf3 & Hf4 & _ & Hf6 & Hf7 & Hf8 & -> & Hsc & Hup).
  apply validate_body_Ok in Hbody.
  pose proof (inv_items _ Hinv _ _ Hl) as Hok. pose proof Hok as [Hreq Hlive Hful Hst].
  rewrite (wrap_in_range li) in Hle by (done || lia).
  set (fs' := <[fid := f]> (fulfillments db)) in *.
  set (li' := recomputed fs' (claim_items db) Forbid item li) in *.
  set (items' := <[item := li']> (list_items db)).
  assert (live_of item f = true) as Hlf.
  { unfold live_of. rewrite Hf1, Hf6. by rewrite bool_decide_eq_true_2. }
  assert (live_qty fs' item = li_qty_fulfilled li + rfb_qty body)%Z as Hnew.
  { unfold fs'. rewrite live_qty_insert, Hlf by done. lia. }
  assert (li_status li ≠ Item_Settled ∧ li_status li ≠ Item_Delivered) as [Hns Hnd].
  { unfold status_ok in Hst. split; intros Hs; rewrite Hs in Hst; lia. }
  assert (∀ id li0, items' !! id = Some li0 → item_ok fs' (claim_items db) id li0) as Hit'.
  { intros id li0 [[<- <-]|[Hne Hl0]]%lookup_insert_Some.
    - eapply item_ok_recomputed; [exact Hok|lia|naive_solver].
    - eapply item_ok_frame; [|done|by eapply inv_items]. unfold fs'. rewrite live_qty_insert by done.
      unfold live_of. rewrite bool_decide_eq_false_2 by congruence. cbn. lia. }
  eapply advance_claim_Ok in Hsc as (cls' & cis' & -> & Hcl' & Hit'' & Hkeys);
    [|exact Hit'|apply Hinv].
  assert (items_similar (list_items db) items') as Hsi
    by (eapply items_similar_insert; [done|apply recomputed_key]).
  destruct (upsert_context_Some db (cur_list_id cur) q (cur_user_id cur)) as (l & rp & hp & Hctx);
    [apply Hinv|rewrite <- Hlid; by eapply refs_item; [apply Hinv|]|by eapply refs_requester;
      [apply Hinv|done|done]|done|].
  pose proof (upsert_reimbursement_Ok _ _ _ _ _ _ Hup) as [[Hn _]|(l' & rp' & hp' & rs' & n & Hctx' &
    Hups & ->)]; rewrite (upsert_context_similar db) in * by done; [congruence|].
  rewrite Hctx in Hctx'. injection Hctx' as <- <- <-.
  assert (same_ledger (purchase_state db fs' items' cls' cis' <| reimbursements := rs' |>)
    ((db <| fulfillments ::= <[fid := f]> |> <| db_draws ::= N.succ |>
         <| list_items ::= <[item := li']> |> <| claims := cls' |> <| claim_items := cis' |>)
       <| reimbursements := rs' |> <| db_draws := n |>)) as <- by (by split).
  eapply (Inv_purchase db fs' items' cls' cis' _ q (cur_user_id cur) l rp hp);
    [split|by rewrite (upsert_context_similar db)|exact Hups|done].
  - exact Hcl'.
  - exact Hkeys.
  - exact Hsi.
  - exact Hit''.
  - intros id li0 [[<- <-]|[_ Hl0]]%lookup_insert_Some; [|eauto].
    intros Hs. exists li. split; [done|]. by apply recomputed_settled in Hs.
  - intros fid0 f0 [[<- <-]|[_ Hf0]]%lookup_insert_Some; [|by eapply inv_fulfillments].
    split; [lia|done|exists li; rewrite Hf1; split; [done|by rewrite Hq]|by rewrite Hf3].
  - by eapply cycle_status_pending; [apply Hinv| |].
  - intros r Hr Hc. transitivity (current_subtotal
      (db <| fulfillments ::= <[fid := f]> |> <| list_items := items' |>) r); [done|].
    rewrite current_subtotal_insert by done.
    destruct (pays db r f) eqn:Hp; [|cbn; lia].
    rewrite (pays_in_cycle db r f _ q l rp hp li) in Hc; try done; [by rewrite Hf1|by rewrite Hf3].
  - intros fid0 f0 [[<- <-]|[_ Hf0]]%lookup_insert_Some; [right|by left].
    rewrite Hf1. split; [|intros li0 Hl0; congruence].
    intros r Hr Hc. destruct (in_cycle_scope _ _ _ _ _ _ _ _ Hr Hctx Hc) as (E1 & E2 & E3).
    apply pays_true. split; [congruence|]. exists li. rewrite Hf1. split; [done|].
    split; [congruence|]. intros u. rewrite E2. unfold scope_requester. case_match; congruence.
  - intros id li0 Hl0 Hs. unfold items'. rewrite lookup_insert_ne by congruence. done.
  - intros fid0 f0 li0 Hf0 _ _. unfold fs'. rewrite lookup_insert_ne by congruence. done.
  - exists fid, f. split; [done|]. split; [|by left]. intros r Hr Hp.
    rewrite (pays_in_cycle db r f _ q l rp hp li); try done; [by rewrite Hf1|by rewrite Hf3].
Qed.

(** ** Reversing *)

Definition reversed db f : FulfillmentRow := f <| f_reversed_at := Some (db_now db) |>.

Lemma reverse_run fid user db d db' :
  reverse_fulfillment fid user db = Ok (d, db') →
  ∃ f li l q role dbB,
    fulfillments db !! fid = Some f ∧ f_reversed_at f = None ∧
    list_items db !! f_list_item_id f = Some li ∧ li_requested_by_user_id li = Some q ∧
    lists db !! li_list_id li = Some l ∧ l_status l ≠ List_Archived ∧
    member_role db user (l_group_id l) = Some role ∧
    (user = f_hauler_user_id f ∨ role = Owner) ∧
    (∀ rs, cycle_status db (li_list_id li) q (f_hauler_user_id f) = Some rs → rs = Reimb_Pending) ∧
    let fs' := <[fid := reversed db f]> (fulfillments db) in
    let li' := recomputed fs' (claim_items db) Allow (f_list_item_id f) li in
    dbB = db <| fulfillments := fs' |> <| list_items ::= <[f_list_item_id f := li']> |> ∧
    upsert_reimbursement (li_list_id li) q (f_hauler_user_id f) dbB = Ok (tt, db').
Proof.
  unfold reverse_fulfillment. intros Hrun. inv_sql.
  match goal with x : _ * _ |- _ => destruct x as [f0 li] end.
  destruct (fulfillments db !! fid) as [f|] eqn:Hf; [cbn in *|done].
  destruct (list_items db !! f_list_item_id f) as [li0|] eqn:Hli; [cbn in *; simplify_eq|done].
  inv_sql.
  match goal with H : lock_list _ _ = _ |- _ => apply lock_list_Ok in H as [-> [l Hl]] end.
  match goal with H : mbind _ (fulfillments db !! fid) = Some _ |- _ =>
    rewrite Hf in H; cbn in H; rewrite Hli in H; cbn in H; rewrite Hl in H; cbn in H;
    injection H as <- end.
  cbv beta iota in Hrun. inv_sql;
  (match goal with H : load_list_detail _ _ _ _ = _ |- _ => apply load_list_detail_Ok in H; subst end);
  (match goal with H : recompute_item_status _ _ _ = _ |- _ =>
    apply recompute_item_status_Ok in H as (li1 & Hl1 & _ & -> & _) end); set_simpl.
  match goal with H : is_none _ = true |- _ => apply is_none_true in H; rename H into Hrev end.
  match goal with H : mbind _ (fulfillments db !! fid) = Some _ |- _ =>
    rewrite Hf in H; cbn in H; rewrite Hrev in H; cbn in H; injection H as <- end.
  assert (update_where (λ k f, (k == fid) && is_none (f_reversed_at f))
    (λ f, f <| f_reversed_at := Some (db_now db) |>) (fulfillments db) =
    <[fid := reversed db f0]> (fulfillments db)) as Hupd.
  { apply map_eq. intros k. rewrite lookup_update_where. destruct (decide (k = fid)) as [->|Hne].
    - rewrite Hf, lookup_insert_eq. cbn. by rewrite Hrev, bool_decide_eq_true_2.
    - rewrite lookup_insert_ne, bool_decide_eq_false_2 by done. by destruct (fulfillments db !! k). }
  rewrite Hli in Hl1. injection Hl1 as <-.
  exists f0, li. do 4 eexists. split_and!; try done.
  - by bool_simpl.
  - match goal with H : _ || _ = true |- _ => apply orb_true_iff in H as [H|H] end; bool_simpl; auto.
  - intros rs Hrs. match goal with H : match cycle_status _ _ _ _ with _ => _ end = true |- _ =>
      rewrite Hrs in H end. by bool_simpl.
  - match goal with H : upsert_reimbursement _ _ _ _ = _ |- _ => rewrite <- H end.
    rewrite <- Hupd. reflexivity.
Qed.

(** A purchase on a settled item cannot pass the check of its cycle. *)
Lemma settled_not_reversible db fid f li q l rp hp :
  Inv db → fulfillments db !! fid = Some f → f_reversed_at f = None →
  list_items db !! f_list_item_id f = Some li → li_requested_by_user_id li = Some q →
  upsert_context db (li_list_id li) q (f_hauler_user_id f) = Some (l, rp, hp) →
  (∀ rs, cycle_status db (li_list_id li) q (f_hauler_user_id f) = Some rs → rs = Reimb_Pending) →
  li_status li ≠ Item_Settled.
Proof.
  intros Hinv Hf Hrev Hli Hq Hctx Hcs Hs.
  destruct (inv_covered _ Hinv _ _ Hf Hrev) as (rid & r & Hr & Hst & Hp).
  pose proof (reimb_ok_static _ _ (inv_reimbs _ Hinv _ _ Hr)) as Hstat.
  pose proof (pays_in_cycle db r f _ q l rp hp li Hstat Hp Hli eq_refl Hq Hctx) as Hc.
  eapply (inv_paid _ Hinv); eauto. eapply cycle_status_pending; eauto. apply Hinv.
Qed.

Lemma Inv_reverse_fulfillment fid user db d db' :
  reverse_fulfillment fid user db = Ok (d, db') → Inv db → advances db db'.
Proof.
  intros Hrun Hinv.
  apply reverse_run in Hrun as (f & li & l0 & q & role & dbB & Hf & Hrev & Hl & Hq & Hl0 & _ & _ & _ &
    Hcs & -> & Hup).
  set (fs' := <[fid := reversed db f]> (fulfillments db)) in *.
  set (item := f_list_item_id f) in *. set (h := f_hauler_user_id f) in *.
  set (li' := recomputed fs' (claim_items db) Allow item li) in *.
  set (items' := <[item := li']> (list_items db)).
  pose proof (inv_items _ Hinv _ _ Hl) as Hok. pose proof Hok as [Hreq Hlive Hful Hst].
  pose proof (inv_fulfillments _ Hinv _ _ Hf) as [Hqty Hprice Hitem Hhauler].
  assert (∀ g, fs' !! fid = Some g → g = reversed db f) as Hfid.
  { intros g. unfold fs'. rewrite lookup_insert_eq. congruence. }
  assert (∀ fid0 f0, fs' !! fid0 = Some f0 → fulfillment_ok db f0) as Hff.
  { intros fid0 f0 [[<- <-]|[_ Hf0]]%lookup_insert_Some; [by split|by eapply inv_fulfillments]. }
  assert (live_qty fs' item = li_qty_fulfilled li - f_qty f)%Z as Hnew.
  { unfold fs'. rewrite (live_qty_replace _ _ f) by done. unfold live_of. cbn.
    rewrite Hrev, andb_false_r, andb_true_r, bool_decide_eq_true_2 by done. lia. }
  destruct (upsert_context_Some db (li_list_id li) q h) as (l & rp & hp & Hctx);
    [apply Hinv|by eexists|by eapply refs_requester; [apply Hinv|done|done]|done|].
  assert (li_status li ≠ Item_Settled) as Hns by by eapply settled_not_reversible.
  assert (items_similar (list_items db) items') as Hsi
    by (eapply items_similar_insert; [done|apply recomputed_key]).
  pose proof (upsert_reimbursement_Ok _ _ _ _ _ _ Hup) as [[Hn _]|(l' & rp' & hp' & rs' & n & Hctx' &
    Hups & ->)]; rewrite (upsert_context_similar db) in * by done; [congruence|].
  rewrite Hctx in Hctx'. injection Hctx' as <- <- <-.
  assert (same_ledger (purchase_state db fs' items' (claims db) (claim_items db)
      <| reimbursements := rs' |>)
    ((db <| fulfillments := fs' |> <| list_items ::= <[item := li']> |>)
       <| reimbursements := rs' |> <| db_draws := n |>)) as <- by (by split).
  eapply (Inv_purchase db fs' items' (claims db) (claim_items db) (li_list_id li) q h l rp hp);
    [split|by rewrite (upsert_context_similar db)|exact Hups|done].
  - apply Hinv.
  - apply claims_shrink_refl.
  - exact Hsi.
  - intros id li0 [[<- <-]|[Hne Hl1]]%lookup_insert_Some.
    + eapply item_ok_recomputed; [exact Hok| |naive_solver].
      split; [|lia]. apply live_qty_nonneg. intros fid0 f0 Hf0. by apply (Hff fid0).
    + eapply item_ok_frame; [|done|by eapply inv_items]. unfold fs'.
      rewrite (live_qty_replace _ _ f) by done. unfold live_of.
      change (f_list_item_id (reversed db f)) with item. fold item.
      rewrite bool_decide_eq_false_2 by congruence. cbn. lia.
  - intros id li0 [[<- <-]|[_ Hl1]]%lookup_insert_Some; [|eauto].
    intros Hs. exists li. split; [done|]. by apply recomputed_settled in Hs.
  - exact Hff.
  - by eapply cycle_status_pending; [apply Hinv| |].
  - intros r Hr Hc. transitivity (current_subtotal
      (db <| fulfillments ::= <[fid := reversed db f]> |> <| list_items := items' |>) r); [done|].
    rewrite (current_subtotal_replace _ _ f) by done.
    change (is_none (f_reversed_at (reversed db f))) with false. rewrite andb_false_r.
    destruct (pays db r f) eqn:Hp; [|cbn; lia].
    by rewrite (pays_in_cycle db r f _ q l rp hp li) in Hc.
  - intros fid0 f0 [[<- <-]|[_ Hf0]]%lookup_insert_Some; [done|by left].
  - intros id li0 Hl1 Hs. unfold items'. rewrite lookup_insert_ne by congruence. done.
  - intros fid0 f0 li0 Hf0 Hl1 Hs. unfold fs'. rewrite lookup_insert_ne; [done|]. intros ->.
    assert (f0 = f) as -> by congruence. unfold item in *. congruence.
  - exists fid, (reversed db f). split; [done|]. split.
    + intros r Hr Hp. by eapply (pays_in_cycle db r (reversed db f) _ q l rp hp li).
    + right. exists f. split_and!; done.
Qed.

End Purchases.
