(* ===== verification/DebtSteps.v ===== *)
(** * The handlers preserve the ledger invariant: settlements, tips and links *)

From Stdlib Require Import ZArith Lia.
From stdpp Require Import base tactics decidable option list gmap strings pretty.
From S2P Require Import Prelude Effect Money Domain Principals Host Schema Errors.
From S2P Require Import Extract Webhooks Detail Settlement Wallet Fulfillment Claims Reimbursements.
From S2P Require Import Fulfillments Contracts Poller.
From S2P Require Import Invariant Book InvariantItems InvariantMoney Preservation.

Section DebtSteps.
Context `{RT : Runtime}.
Implicit Types (db : Db) (li : ListItemRow) (f : FulfillmentRow) (r : ReimbursementRow).

(** ** Steps that change no purchase *)

(** The columns that place a debt in its cycle. *)
Definition debt_key r : Uuid * option Uuid * Uuid * Uuid * Uuid * bool * Z :=
  (r_list_id r, r_requester_user_id r, r_requester_principal_id r, r_hauler_user_id r,
   r_hauler_principal_id r, r_is_corp_funded r, r_subtotal_isk r).

Lemma debt_key_pays db r r' f : debt_key r' = debt_key r → pays db r' f = pays db r f.
Proof. intros Hk. injection Hk as Hl Hq _ Hh _ _ _. unfold pays. by rewrite Hl, Hq, Hh. Qed.

(** A debt keeps its place and subtotal, and its status moves to settled at most. *)
Record debt_row r r' : Prop := mkDebtRow {
  dr_key : debt_key r' = debt_key r;
  dr_amounts : amounts_ok r → amounts_ok r';
  dr_status : r_status r' = r_status r ∨
              r_status r = Reimb_Pending ∧ r_status r' = Reimb_Settled;
  dr_frozen : r_status r = Reimb_Settled → same_debt r r'
}.

(** An item is left alone or, fully bought, becomes settled. *)
Definition item_row li li' : Prop :=
  li' = li ∨ (li_status li = Item_Bought ∨ li_status li = Item_Delivered) ∧
             li' = li <| li_status := Item_Settled |>.

(** Row by row, over two tables with the same keys. *)
Definition rows_related {V} (R : V → V → Prop) (t t' : gmap Uuid V) : Prop :=
  ∀ k, match t !! k, t' !! k with
       | Some v, Some v' => R v v'
       | None, None => True
       | _, _ => False
       end.

Lemma rows_related_Some {V} (R : V → V → Prop) t t' k v' :
  rows_related R t t' → t' !! k = Some v' → ∃ v, t !! k = Some v ∧ R v v'.
Proof. intros Hr Hk. specialize (Hr k). rewrite Hk in Hr. destruct (t !! k); naive_solver. Qed.

Lemma rows_related_Some_rev {V} (R : V → V → Prop) t t' k v :
  rows_related R t t' → t !! k = Some v → ∃ v', t' !! k = Some v' ∧ R v v'.
Proof. intros Hr Hk. specialize (Hr k). rewrite Hk in Hr. destruct (t' !! k); naive_solver. Qed.

Lemma rows_related_refl {V} (R : V → V → Prop) t : (∀ v, R v v) → rows_related R t t.
Proof. intros HR k. by destruct (t !! k). Qed.

Lemma rows_related_update {V} (R : V → V → Prop) P g t :
  (∀ v, R v v) → (∀ k v, t !! k = Some v → P k v = true → R v (g v)) →
  rows_related R t (update_where P g t).
Proof.
  intros HR Hg k. rewrite lookup_update_where. destruct (t !! k) as [v|] eqn:Hk; [cbn|done].
  destruct (P k v) eqn:HP; eauto.
Qed.

Lemma debt_row_refl r : debt_row r r.
Proof. split; [done|auto|by left|done]. Qed.

Lemma item_row_refl li : item_row li li.
Proof. by left. Qed.

Lemma item_row_key li li' : item_row li li' → item_key li' = item_key li.
Proof. by intros [->|[_ ->]]. Qed.

Record debt_step db db' : Prop := mkDebtStep {
  ds_users : users db' = users db;
  ds_principals : principals db' = principals db;
  ds_group_corps : group_corps db' = group_corps db;
  ds_lists : lists_similar (lists db) (lists db');
  ds_tips lid l : lists db' !! lid = Some l → (0 ≤ l_tip_pct l)%Z;
  ds_claims : claims db' = claims db;
  ds_claim_items : claim_items db' = claim_items db;
  ds_fulfillments : fulfillments db' = fulfillments db;
  ds_items : rows_related item_row (list_items db) (list_items db');
  ds_reimbs : rows_related debt_row (reimbursements db) (reimbursements db');
  ds_paid fid f li li' rid r' : fulfillments db !! fid = Some f → f_reversed_at f = None →
    list_items db !! f_list_item_id f = Some li → list_items db' !! f_list_item_id f = Some li' →
    li_status li ≠ Item_Settled → li_status li' = Item_Settled →
    reimbursements db' !! rid = Some r' → pays db r' f = true → r_status r' ≠ Reimb_Pending;
  ds_confirmed : one_confirmed db'
}.

Lemma item_ok_settle fs cis id li :
  li_status li = Item_Bought ∨ li_status li = Item_Delivered →
  item_ok fs cis id li → item_ok fs cis id (li <| li_status := Item_Settled |>).
Proof.
  intros Hs [Hq Hv Hf Hst]. split; [done|done|done|].
  unfold status_ok. apply (status_ok_full _ _ Hst). naive_solver.
Qed.

Lemma debt_rows_similar db db' :
  users db' = users db → principals db' = principals db → group_corps db' = group_corps db →
  lists_similar (lists db) (lists db') → rows_related item_row (list_items db) (list_items db') →
  similar db db'.
Proof.
  intros Hu Hp Hg Hl Hits. split; [done|done|done|done|]. intros id. specialize (Hits id).
  destruct (list_items db !! id), (list_items db' !! id); try done.
  cbn. f_equal. by apply item_row_key.
Qed.

(** Entries are only paid. *)
Lemma debt_step_book db db' : debt_step db db' → turn (book_of db) (book_of db').
Proof.
  intros [Hu Hp Hgc Hls _ _ _ Hfs Hits Hrs _ _].
  assert (similar db db') as Hsim by by apply debt_rows_similar.
  apply book_of_pay; [done|]. intros fid f _. rewrite !is_paid_true.
  intros (rid & r & Hr & Hy & Hs). destruct (rows_related_Some_rev _ _ _ _ _ Hrs Hr) as (r' & Hr' & Hrow).
  exists rid, r'. split; [done|]. rewrite (pays_similar Hsim), (debt_key_pays _ _ _ _ (dr_key _ _ Hrow)).
  split; [done|]. by rewrite (same_debt_status _ _ (dr_frozen _ _ Hrow Hs)).
Qed.

Lemma Inv_debt_step db db' : debt_step db db' → Inv db → advances db db'.
Proof.
  intros Hstep Hinv. split; [| |by apply rtc_once, debt_step_book].
  all: destruct Hstep as [Hu Hp Hgc Hls Ht Hcl Hci Hfs Hits Hrs Hpaid Hcf'].
  2: { split.
    - intros rid r Hr Hs. destruct (rows_related_Some_rev _ _ _ _ _ Hrs Hr) as (r' & Hr' & Hrow).
      exists r'. split; [done|by apply (dr_frozen _ _ Hrow)].
    - intros id li Hl Hs. destruct (rows_related_Some_rev _ _ _ _ _ Hits Hl) as (li' & Hl' & Hrow).
      exists li. split; [|done]. destruct Hrow as [->|[[Hb|Hb] _]]; [done|congruence|congruence].
    - intros fid f li Hf _ _. by rewrite Hfs. }
  destruct Hinv as [Hit Hclm Htg Href Hff Hre Hcy Hco Hpa Hcf Hnc].
  assert (similar db db') as Hsim by by apply debt_rows_similar.
  split.
  - intros id li' Hl. destruct (rows_related_Some _ _ _ _ _ Hits Hl) as (li & Hl0 & Hrow).
    specialize (Hit _ _ Hl0). rewrite Hfs, Hci. destruct Hrow as [->|[Hs ->]]; [done|].
    by apply item_ok_settle.
  - by rewrite Hcl, Hci.
  - rewrite Hcl, Hci. by eapply targets_ok_similar; [apply (sim_items _ _ Hsim)|].
  - by apply (refs_similar Hsim).
  - intros fid f. rewrite Hfs. intros Hf. apply (fulfillment_similar Hsim). by eapply Hff.
  - intros rid r' Hr'. destruct (rows_related_Some _ _ _ _ _ Hrs Hr') as (r & Hr & [Hk Ha Hs _]).
    destruct (Hre _ _ Hr) as [HA (l & Hl & HQ) HH HC]. injection Hk as E1 E2 E3 E4 E5 E6 E7.
    split; [auto| | |].
    + apply (requester_similar Hsim). exists l. by rewrite E1, E2, E3, E6.
    + by rewrite (principal_of_user_similar Hsim), E4, E5.
    + intros _. unfold current_subtotal. rewrite (subtotal_similar Hsim), E1, E2, E4, E7 by done.
      apply HC. by eapply Hnc.
  - intros k1 k2 r1' r2' H1 H2 _ _ Hc.
    destruct (rows_related_Some _ _ _ _ _ Hrs H1) as (r1 & R1 & [K1 _ _ _]).
    destruct (rows_related_Some _ _ _ _ _ Hrs H2) as (r2 & R2 & [K2 _ _ _]).
    injection K1 as E1 _ E3 _ E5 _ _. injection K2 as F1 _ F3 _ F5 _ _.
    apply in_cycle_true in Hc as (C1 & C2 & C3).
    eapply Hcy; [exact R1|exact R2|by eapply Hnc|by eapply Hnc|].
    apply in_cycle_true. split_and!; congruence.
  - intros fid f. rewrite Hfs. intros Hf Hrev. destruct (Hco _ _ Hf Hrev) as (rid & r & Hr & _ & Hy).
    destruct (rows_related_Some_rev _ _ _ _ _ Hrs Hr) as (r' & Hr' & [Hk _ Hs _]).
    exists rid, r'. split; [done|]. rewrite (pays_similar Hsim), (debt_key_pays _ _ _ _ Hk).
    split; [|done]. pose proof (Hnc _ _ Hr). destruct Hs as [->|[_ ->]]; done.
  - intros fid f li'. rewrite Hfs. intros Hf Hrev Hl Hs rid r' Hr'. rewrite (pays_similar Hsim).
    destruct (rows_related_Some _ _ _ _ _ Hits Hl) as (li & Hl0 & _).
    destruct (decide (li_status li = Item_Settled)) as [Hold|Hold]; [|by eapply Hpaid].
    destruct (rows_related_Some _ _ _ _ _ Hrs Hr') as (r & Hr & [Hk _ Hst _]).
    rewrite (debt_key_pays _ _ _ _ Hk). intros Hy Hpend.
    eapply (Hpa _ _ _ Hf Hrev Hl0 Hold _ _ Hr Hy). destruct Hst as [?|[? ?]]; congruence.
  - done.
  - intros rid r' Hr'. destruct (rows_related_Some _ _ _ _ _ Hrs Hr') as (r & Hr & [_ _ Hs _]).
    pose proof (Hnc _ _ Hr). destruct Hs as [->|[_ ->]]; done.
Qed.

(** ** Settling *)

Lemma lists_kept_similar t t' : lists_kept t t' → lists_similar t t'.
Proof.
  intros Hk lid. specialize (Hk lid). destruct (t !! lid), (t' !! lid); try done.
  cbn in *. injection Hk. congruence.
Qed.

Lemma lists_kept_tips t t' :
  lists_kept t t' → (∀ lid l, t !! lid = Some l → 0 ≤ l_tip_pct l)%Z →
  ∀ lid l, t' !! lid = Some l → (0 ≤ l_tip_pct l)%Z.
Proof.
  intros Hk Ht lid l Hl. specialize (Hk lid). rewrite Hl in Hk.
  destruct (t !! lid) as [l0|] eqn:Hl0; [|done]. injection Hk as _ _ _ -> _. eauto.
Qed.

(** A second live debt that pays for a purchase in the first one's scope is
    another hauler's. *)
Lemma pays_other_hauler db rid r rid' r' f :
  Inv db → reimbursements db !! rid = Some r → reimbursements db !! rid' = Some r' → rid' ≠ rid →
  payable_item db (r_list_id r) (r_requester_user_id r) (f_list_item_id f) = true →
  pays db r' f = true → r_hauler_user_id r' ≠ r_hauler_user_id r.
Proof.
  intros Hinv Hr Hr' Hne Hin Hp Heq. apply Hne.
  assert (pays db r f = true) as Hp0.
  { unfold pays in *. rewrite Hin. apply andb_true_iff in Hp as [_ Hp]. by rewrite <- Heq. }
  symmetry. eapply (inv_cycles _ Hinv); [exact Hr|exact Hr'|by eapply inv_live..|].
  eapply pays_same_cycle; [| |exact Hp0|exact Hp]; apply reimb_ok_static; by eapply inv_reimbs.
Qed.

Lemma pays_live_by db r f :
  ∀ fid, fulfillments db !! fid = Some f → f_reversed_at f = None → pays db r f = true →
  live_by db (f_list_item_id f) (r_hauler_user_id r) = true.
Proof.
  intros fid Hf Hrev (Hh & _)%pays_true. apply live_by_true. eauto 10.
Qed.

(** The requesters of two debts of one list are both users or both absent. *)
Lemma same_list_requester db r r' :
  reimb_static db r → reimb_static db r' → r_list_id r' = r_list_id r →
  (r_is_corp_funded r = true ∧ r_is_corp_funded r' = true ∧ r_requester_user_id r = None ∧
   r_requester_user_id r' = None) ∨
  (r_is_corp_funded r = false ∧ r_is_corp_funded r' = false ∧
   ∃ u u', r_requester_user_id r = Some u ∧ r_requester_user_id r' = Some u' ∧
     principal_of_user db u = Some (r_requester_principal_id r) ∧
     principal_of_user db u' = Some (r_requester_principal_id r')).
Proof.
  intros [_ (l & Hl & Q) _] [_ (l' & Hl' & Q') _] He.
  assert (l' = l) as -> by congruence.
  destruct (l_payer_corp_id l); [left; naive_solver|right].
  destruct Q as (? & u & ? & ?), Q' as (? & u' & ? & ?). split_and!; eauto 10.
Qed.

Lemma debt_step_manual rid by_user db u db' :
  settle_manual rid by_user db = Ok (u, db') → Inv db → debt_step db db'.
Proof.
  intros Hrun Hinv.
  apply settle_manual_run in Hrun as (r & scope & ls & Hr & Hp & Hsc & _ & Hls & ->).
  set (db1 := db <| reimbursements ::= settle_one rid by_user (db_now db) |>).
  split; try done.
  - by apply lists_kept_similar.
  - eapply lists_kept_tips; [exact Hls|]. apply Hinv.
  - apply rows_related_update; [apply item_row_refl|]. intros item li Hli Hflip. right.
    split; [|done]. right. unfold manual_flip, flip_personal, flip_corp in Hflip.
    destruct scope; rewrite flip_status_strict in Hflip; by bool_simpl.
  - apply rows_related_update; [apply debt_row_refl|]. intros k r0 Hr0 Hk.
    apply bool_decide_eq_true in Hk as ->. rewrite Hr in Hr0. injection Hr0 as <-. split; [done|by intros []|by right|congruence].
  - intros fid f li li' rid' r' Hf Hrev Hl Hl' Hns Hs Hr' Hy Hpend.
    change (list_items _) with (update_where (manual_flip db1 r scope)
      (λ li, li <| li_status := Item_Settled |>) (list_items db)) in Hl'.
    apply lookup_update_where_Some in Hl' as (li0 & Hl0 & ->). rewrite Hl in Hl0. injection Hl0 as <-.
    destruct (manual_flip db1 r scope _ li) eqn:Hflip; [|done].
    change (settle_one rid by_user (db_now db) (reimbursements db) !! rid' = Some r') in Hr'.
    apply lookup_update_where_Some in Hr' as (r0 & Hr0 & ->).
    destruct (rid' == rid) eqn:He; [done|]. apply bool_decide_eq_false in He.
    pose proof (reimb_ok_static _ _ (inv_reimbs _ Hinv _ _ Hr)) as St.
    pose proof (reimb_ok_static _ _ (inv_reimbs _ Hinv _ _ Hr0)) as St0.
    pose proof Hy as (_ & li0 & Hli0 & Hlid & Hq)%pays_true.
    rewrite Hl in Hli0. injection Hli0 as <-.
    assert (r_requester_user_id r = scope) as Hreq.
    { unfold manual_scope in Hsc. destruct St as [_ (l & _ & Q) _].
      destruct (l_payer_corp_id l); [|destruct Q as (Q & u0 & Hu0 & _)];
        [destruct Q as (Q & Hn & _)|]; rewrite Q in Hsc; [congruence|].
      rewrite Hu0 in *. cbn in Hsc. congruence. }
    assert (payable_item db (r_list_id r) scope (f_list_item_id f) = true ∧
      li_list_id li = r_list_id r) as [Hpay Hlr].
    { unfold payable_item. rewrite Hl. unfold manual_flip, flip_personal, flip_corp in Hflip.
      destruct scope; bool_simpl; split; try done; bool_solve. }
    rewrite <- Hreq in Hpay.
    pose proof (pays_other_hauler _ _ _ _ _ _ Hinv Hr Hr0 He Hpay Hy) as Hoth.
    pose proof (pays_live_by _ _ _ _ Hf Hrev Hy) as Hlive.
    assert (settle_one rid by_user (db_now db) (reimbursements db) !! rid' = Some r0) as Hr1.
    { apply lookup_update_where_Some. exists r0. by rewrite bool_decide_eq_false_2. }
    unfold manual_flip, flip_personal, flip_corp in Hflip.
    destruct scope as [u0|]; apply andb_true_iff in Hflip as [_ Hno]; apply negb_true_iff in Hno;
      rewrite sel_exists_false in Hno; specialize (Hno _ _ Hr1); cbn in Hno;
      change (live_by db1) with (live_by db) in Hno; rewrite Hlive in Hno.
    + destruct (same_list_requester _ _ _ St St0) as [(_ & _ & ? & _)|(_ & _ & v & v' & E1 & E2 & _)];
        [congruence|congruence|].
      unfold payable_item in Hpay. rewrite Hl, Hreq in Hpay.
      apply andb_true_iff in Hpay as [_ Hpay]. apply bool_decide_eq_true in Hpay.
      specialize (Hq _ E2). assert (v' = u0) as -> by congruence.
      by rewrite !bool_decide_eq_true_2, bool_decide_eq_false_2, bool_decide_eq_true_2 in Hno
        by congruence.
    + by rewrite !bool_decide_eq_true_2, bool_decide_eq_false_2, bool_decide_eq_true_2 in Hno
        by congruence.
  - apply Hinv.
Qed.

Lemma principal_of_user_user db u p :
  principal_of_user db u = Some p → user_of_principal db p = Some u.
Proof.
  unfold principal_of_user, user_of_principal. intros ([k row] & Hh & ->)%fmap_Some.
  apply head_Some_elem_of, elem_of_select_where in Hh as [Hk Hp]. cbn. rewrite Hk. cbn.
  bool_simpl. by rewrite bool_decide_eq_true_2.
Qed.

Lemma settle_bound_rows cid at_ now t : rows_related debt_row t (settle_bound cid at_ now t).
Proof.
  apply rows_related_update; [apply debt_row_refl|]. intros k r Hr HP. bool_simpl.
  split; [done|by intros []|by right|congruence].
Qed.

(** What a contract covers is in the scope of its debt. *)
Lemma covers_payable db db1 r r1 item li :
  reimb_static db r → debt_key r1 = debt_key r → list_items db !! item = Some li →
  principals db1 = principals db → contract_covers db1 r1 item li = true →
  payable_item db (r_list_id r) (r_requester_user_id r) item = true ∧
  li_list_id li = r_list_id r.
Proof.
  intros [_ (l & _ & Q) _] Hk Hl Hp Hcov. injection Hk as E1 E2 E3 E4 E5 E6 _.
  unfold contract_covers in Hcov. repeat (apply andb_true_iff in Hcov as [Hcov ?]).
  apply bool_decide_eq_true in Hcov.
  match goal with H : _ || sql_eq _ _ = true |- _ => rename H into Hreq end.
  unfold user_of_principal in Hreq. rewrite Hp in Hreq. fold (user_of_principal db) in Hreq.
  rewrite E6, E3 in Hreq. split; [|congruence]. apply payable_item_Some.
  exists li. split; [done|]. split; [congruence|]. intros u Hu.
  destruct (l_payer_corp_id l); [naive_solver congruence|].
  destruct Q as (Q & u0 & Hu0 & Pu). rewrite Q in Hreq. cbn in Hreq.
  apply sql_eq_true in Hreq as (x & -> & Hx). apply principal_of_user_user in Pu.
  unfold user_of_principal in Pu. rewrite Hx in Pu. congruence.
Qed.

Lemma covers_status db r item li :
  contract_covers db r item li = true → li_status li = Item_Bought ∨ li_status li = Item_Delivered.
Proof.
  unfold contract_covers. intros Hc. do 2 apply andb_true_iff in Hc as [Hc _].
  apply andb_true_iff in Hc as [_ [Hs|Hs]%orb_true_iff]; apply bool_decide_eq_true in Hs; auto.
Qed.

Lemma debt_step_contract cid db infos db' :
  settle_via_contract cid db = Ok (infos, db') → Inv db → debt_step db db'.
Proof.
  intros Hrun Hinv. apply settle_via_contract_run in Hrun as (c & _ & Hrun). cbn in Hrun.
  set (at_ := default _ _) in *.
  set (db1 := db <| reimbursements ::= settle_bound cid at_ (db_now db) |>) in *.
  destruct Hrun as [(_ & _ & ->)|(ls & Hls & _ & ->)].
  { split; try done; try apply Hinv.
    - apply rows_related_refl, item_row_refl.
    - apply settle_bound_rows.
    - intros fid f li li' rid r' _ _ Hl Hl' Hns Hs. exfalso.
      change (list_items db !! f_list_item_id f = Some li') in Hl'. congruence. }
  split; try done.
  - by apply lists_kept_similar.
  - eapply lists_kept_tips; [exact Hls|]. apply Hinv.
  - apply rows_related_update; [apply item_row_refl|]. intros item li Hli Hflip. right.
    split; [|done]. apply sel_exists_true in Hflip as (k & r & _ & Hc).
    apply andb_true_iff in Hc as [_ Hc]. by eapply covers_status.
  - apply settle_bound_rows.
  - intros fid f li li' rid' r' Hf Hrev Hl Hl' Hns Hs Hr' Hy Hpend.
    change (list_items _) with (list_items (flip_contract_items cid db1)) in Hl'.
    change (reimbursements _) with (settle_bound cid at_ (db_now db) (reimbursements db)) in Hr'.
    unfold flip_contract_items in Hl'. set_simpl.
    apply lookup_update_where_Some in Hl' as (li0 & Hl0 & ->).
    change (list_items db1) with (list_items db) in Hl0. rewrite Hl in Hl0. injection Hl0 as <-.
    destruct (sel_exists _ _) eqn:Hex; [|done].
    apply sel_exists_true in Hex as (k & r1 & Hr1 & Hc). apply andb_true_iff in Hc as [Hb Hcov].
    change (reimbursements db1) with (settle_bound cid at_ (db_now db) (reimbursements db)) in Hr1.
    destruct (rows_related_Some _ _ _ _ _ (settle_bound_rows cid at_ (db_now db) _) Hr1)
      as (r & Hr & [Hk _ _ _]).
    destruct (rows_related_Some _ _ _ _ _ (settle_bound_rows cid at_ (db_now db) _) Hr')
      as (r0 & Hr0 & [Hk0 _ _ _]).
    pose proof (reimb_ok_static _ _ (inv_reimbs _ Hinv _ _ Hr)) as St.
    pose proof (reimb_ok_static _ _ (inv_reimbs _ Hinv _ _ Hr0)) as St0.
    assert (rid' ≠ k) as Hne.
    { intros ->. rewrite Hr1 in Hr'. injection Hr' as <-.
      pose proof (settle_bound_none_pending cid at_ (db_now db) (reimbursements db)) as Hn.
      apply select_where_nil in Hn. rewrite sel_exists_false in Hn. specialize (Hn _ _ Hr1).
      by rewrite Hb, Hpend, bool_decide_eq_true_2 in Hn. }
    destruct (covers_payable db db1 r r1 _ li St Hk Hl eq_refl Hcov) as [Hpay Hlr].
    rewrite (debt_key_pays _ _ _ _ Hk0) in Hy.
    pose proof (pays_other_hauler _ _ _ _ _ _ Hinv Hr Hr0 Hne Hpay Hy) as Hoth.
    pose proof (pays_live_by _ _ _ _ Hf Hrev Hy) as Hlive.
    pose proof Hy as (_ & li0 & Hli0 & Hlid & _)%pays_true.
    rewrite Hl in Hli0. injection Hli0 as <-.
    injection Hk as E1 E2 E3 E4 E5 E6 _. injection Hk0 as F1 F2 F3 F4 F5 F6 _.
    unfold contract_covers in Hcov. apply andb_true_iff in Hcov as [_ Hno].
    apply negb_true_iff in Hno. rewrite sel_exists_false in Hno. specialize (Hno _ _ Hr').
    cbn in Hno. unfold live_by_principal in Hno.
    change (user_of_principal db1) with (user_of_principal db) in Hno.
    rewrite F5, (principal_of_user_user _ _ _ (rs_hauler _ _ St0)) in Hno.
    change (live_by db1) with (live_by db) in Hno. rewrite Hlive, E5, E1, F1 in Hno.
    assert (r_hauler_principal_id r0 ≠ r_hauler_principal_id r) as Hhp.
    { intros Heq. apply Hoth. eapply principal_of_user_inj; [apply St0|].
      rewrite Heq. apply St. }
    by rewrite !bool_decide_eq_true_2, bool_decide_eq_false_2, bool_decide_eq_true_2 in Hno
      by congruence.
  - apply Hinv.
Qed.

(** What a successful settle request established and did. *)
Definition settled_by db db' (rid user : Uuid) : Prop :=
  ∃ r l role db1, reimbursements db !! rid = Some r ∧ r_status r = Reimb_Pending ∧
    r_contract_id r = None ∧ lists db !! r_list_id r = Some l ∧
    member_role db user (l_group_id l) = Some role ∧
    (r_requester_user_id r = Some user ∨ role = Owner) ∧
    settle_manual rid user db = Ok (tt, db1) ∧ same_ledger db1 db'.

Lemma settle_reimbursement_run rid user db d db' :
  settle_reimbursement rid user db = Ok (d, db') → settled_by db db' rid user.
Proof.
  unfold settle_reimbursement. intros Hrun. inv_sql.
  match goal with H : lock_list _ _ = _ |- _ => apply lock_list_Ok in H as [-> _] end.
  match goal with H : settle_manual _ _ _ = Ok (tt, ?x) |- _ => rename x into db1, H into Hsm end.
  match goal with H : reimbursements db !! rid = Some ?x |- _ => rename x into r, H into Hr end.
  match goal with H : match r_requester_user_id r with _ => _ end _ = Ok (_, ?x) |- _ =>
    assert (x = db1) as Hx by (destruct (r_requester_user_id r); by inv_sql);
    rewrite Hx in *; clear H end.
  match goal with x : _ * _ |- _ => destruct x end. inv_sql;
  (match goal with H : load_list_detail _ _ _ _ = _ |- _ => apply load_list_detail_Ok in H; subst end);
  (match goal with H : fire_webhook _ _ _ = _ |- _ => apply fire_webhook_Ok, queue_only_ledger in H;
     rename H into Hq end);
  bool_simpl; simplify_option_eq; unfold settled_by; do 4 eexists; split_and!; try done; auto.
Qed.

Lemma Inv_settle_reimbursement rid user db d db' :
  settle_reimbursement rid user db = Ok (d, db') → Inv db → advances db db'.
Proof.
  intros (r & l & role & db1 & _ & _ & _ & _ & _ & _ & Hsm & <-)%settle_reimbursement_run Hinv.
  eapply Inv_debt_step; [by eapply debt_step_manual|done].
Qed.

(** ** Tips *)

Lemma validate_tip_Ok v : validate_tip_pct v = Ok () → (0 ≤ mantissa v ≤ pow10 (scale v))%Z.
Proof.
  unfold validate_tip_pct. destruct (_ || _) eqn:He; [done|]. intros _.
  apply orb_false_iff in He as [H1%Decimal_ltb_zero H2%Decimal_one_ltb]. done.
Qed.

Lemma set_list_tip_run cur pct db d db' :
  set_list_tip cur pct db = Ok (d, db') →
  require_mutable cur = Ok () ∧ validate_tip_pct pct = Ok () ∧
  (cur_user_id cur = cur_created_by_user_id cur ∨ cur_role cur = Owner) ∧
  ∃ z, numeric_cast 5 4 pct = Some z ∧
    db' = retip (cur_list_id cur) pct
            (db <| lists ::= update_where (λ k _, k == cur_list_id cur) (λ l, l <| l_tip_pct := z |>) |>).
Proof.
  unfold set_list_tip, cast_tip. intros Hrun. inv_sql;
  (match goal with H : lock_list _ _ = _ |- _ => apply lock_list_Ok in H as [-> _] end);
  (match goal with H : load_list_detail _ _ _ _ = _ |- _ => apply load_list_detail_Ok in H; subst end);
  (match goal with H : when _ _ _ = Ok (_, ?x) |- _ => assert (x = db) as ->
     by (apply when_Ok in H; case_match; by inv_sql) end).
  split; [done|]. split; [done|]. split; [|eauto].
  match goal with H : _ || _ = true |- _ => apply orb_true_iff in H as [H|H];
    apply bool_decide_eq_true in H; auto end.
Qed.

Lemma debt_step_simple db db' :
  users db' = users db → principals db' = principals db → group_corps db' = group_corps db →
  lists_similar (lists db) (lists db') →
  (∀ lid l, lists db' !! lid = Some l → 0 ≤ l_tip_pct l)%Z → claims db' = claims db →
  claim_items db' = claim_items db → fulfillments db' = fulfillments db →
  list_items db' = list_items db → rows_related debt_row (reimbursements db) (reimbursements db') →
  one_confirmed db' → debt_step db db'.
Proof.
  intros. split; try done.
  - replace (list_items db') with (list_items db) by done. apply rows_related_refl, item_row_refl.
  - intros. congruence.
Qed.

Lemma Inv_set_list_tip cur pct db d db' :
  set_list_tip cur pct db = Ok (d, db') → Inv db → advances db db'.
Proof.
  intros (_ & Hv & _ & z & Hz & ->)%set_list_tip_run Hinv. apply validate_tip_Ok in Hv.
  eapply Inv_debt_step; [|done]. apply debt_step_simple; try done.
  - by apply lists_similar_update.
  - intros lid l Hl. change (lists _) with (update_where (λ k _, k == cur_list_id cur)
      (λ l, l <| l_tip_pct := z |>) (lists db)) in Hl.
    apply lookup_update_where_Some in Hl as (l0 & Hl0 & ->). case_match; [|by eapply refs_tip; [apply Hinv|]].
    eapply numeric_cast_nonneg; [|done]. lia.
  - apply rows_related_update; [apply debt_row_refl|]. intros k r Hr HP. bool_simpl.
    split; [done| |by left|congruence]. intros [_ Hs _]. eapply amounts_ok_of; [exact Hs| |done..]. lia.
  - apply Hinv.
Qed.

Lemma Inv_set_group_default_tip cur pct db g db' :
  set_group_default_tip cur pct db = Ok (g, db') → Inv db → advances db db'.
Proof.
  unfold set_group_default_tip, cast_tip. intros Hrun Hinv. inv_sql.
  match goal with |- advances _ ?d => assert (same_ledger db d) as <- by (by split) end.
  by apply advances_refl.
Qed.

(** ** Links *)

Lemma debt_row_refresh r r' :
  debt_key r' = debt_key r → r_tip_isk r' = r_tip_isk r → r_total_isk r' = r_total_isk r →
  r_status r' = r_status r → r_status r = Reimb_Pending → debt_row r r'.
Proof.
  intros Hk Ht Htot Hs Hp. split; [done| |by left|congruence]. intros [A B C]. injection Hk as _ _ _ _ _ _ Hsub.
  split; congruence.
Qed.

Lemma Inv_suggestions db sg n :
  (∀ k1 k2 s1 s2, sg !! k1 = Some s1 → sg !! k2 = Some s2 → s_state s1 = Match_Confirmed →
     s_state s2 = Match_Confirmed → s_reimbursement_id s1 = s_reimbursement_id s2 → k1 = k2) →
  Inv db → advances db (db <| contract_match_suggestions := sg |> <| db_draws := n |>).
Proof.
  intros Hsg Hinv. eapply Inv_debt_step; [|exact Hinv].
  apply debt_step_simple; try done; [apply Hinv|apply rows_related_refl, debt_row_refl].
Qed.

(** A table in which each row keeps its reimbursement, and is confirmed only
    if it was. *)
Lemma one_confirmed_update db P g :
  (∀ s, s_reimbursement_id (g s) = s_reimbursement_id s) →
  (∀ s, s_state (g s) ≠ Match_Confirmed) → one_confirmed db →
  one_confirmed (db <| contract_match_suggestions ::= update_where P g |>).
Proof.
  intros Hr Hs Hone k1 k2 s1 s2 H1 H2 C1 C2 He. set_simpl.
  apply lookup_update_where_Some in H1 as (o1 & O1 & ->).
  apply lookup_update_where_Some in H2 as (o2 & O2 & ->).
  destruct (P k1 o1); [by destruct (Hs o1)|]. destruct (P k2 o2); [by destruct (Hs o2)|].
  by eapply Hone.
Qed.

Lemma Inv_bind ctx db r :
  reimbursements db !! ll_reimbursement_id ctx = Some r → r_status r = Reimb_Pending →
  Inv db → advances db (bind_reimbursement ctx db).
Proof.
  intros Hr Hp Hinv. eapply Inv_debt_step; [|exact Hinv].
  apply debt_step_simple; try done; [apply Hinv| |apply Hinv].
  apply rows_related_update; [apply debt_row_refl|]. intros k r0 Hr0 HP. bool_simpl.
  apply debt_row_refresh; done || congruence.
Qed.

Lemma Inv_finalize_link ctx db settled infos db' r :
  finalize_link ctx db = Ok ((settled, infos), db') →
  reimbursements db !! ll_reimbursement_id ctx = Some r → r_status r = Reimb_Pending →
  Inv db → advances db db'.
Proof.
  intros [_ Hrun]%finalize_link_Ok Hr Hp Hinv.
  eapply advances_trans; [by eapply Inv_bind|]. intros Hb.
  destruct settled; [|by destruct Hrun as [_ ->]; apply advances_refl].
  eapply Inv_debt_step; [by eapply debt_step_contract|done].
Qed.

Lemma no_other_confirmed_true db sid rid :
  no_other_confirmed db sid rid = true →
  ∀ k s, contract_match_suggestions db !! k = Some s → s_reimbursement_id s = rid →
    s_state s = Match_Confirmed → k = sid.
Proof.
  unfold no_other_confirmed. rewrite negb_true_iff, sel_exists_false. intros Hno k s Hs Hr Hst.
  destruct (decide (k = sid)) as [|Hne]; [done|].
  specialize (Hno _ _ Hs). cbn in Hno.
  by rewrite Hr, Hst, bool_decide_eq_false_2, !bool_decide_eq_true_2 in Hno.
Qed.

Lemma Inv_link_run user target db d infos db' :
  link_run user target db = Ok ((d, infos), db') → Inv db → advances db db'.
Proof.
  intros Hrun Hinv. apply link_run_cases in Hrun
    as (cid & rid & c & r & l & ctx & db1 & _ & _ & Hr & _ & [st ->] & (_ & Hp & _) &
        (sid & s & n & Hno & _ & Hsr & _ & _ & ->) & Hf & _).
  eapply advances_trans; [apply Inv_suggestions; [|exact Hinv]|intros Hi; by eapply Inv_finalize_link].
  pose proof (no_other_confirmed_true _ _ _ Hno) as Huniq.
  intros k1 k2 s1 s2 [[<- <-]|[N1 H1]]%lookup_insert_Some [[<- <-]|[N2 H2]]%lookup_insert_Some C1 C2 He;
    [done| | |by eapply inv_confirmed].
  - symmetry. eapply Huniq; [done|congruence|done].
  - eapply Huniq; [done|congruence|done].
Qed.

Lemma fire_settlement_webhooks_Ok infos db u db' :
  fire_settlement_webhooks infos db = Ok (u, db') → queue_only db db'.
Proof.
  intros Hrun. unfold fire_settlement_webhooks in Hrun.
  refine (for_each_inv (queue_only db) _ _ _ _ _ _ Hrun (queue_only_refl db)).
  intros info s1 u1 s2 _ Hb%sql_Ok Hq. eapply queue_only_trans; [exact Hq|].
  by eapply fire_webhook_Ok.
Qed.

Lemma Inv_confirm_suggestion user sid db d db' :
  confirm_suggestion user sid db = Ok (d, db') → Inv db → advances db db'.
Proof.
  unfold confirm_suggestion. intros Hrun Hinv. inv_sql.
  match goal with x : _ * _ |- _ => destruct x as [d1 infos] end. inv_sql.
  match goal with H : fire_settlement_webhooks _ _ = _ |- _ =>
    apply fire_settlement_webhooks_Ok, queue_only_ledger in H as <- end.
  by eapply (Inv_link_run user (inl sid)).
Qed.

Lemma Inv_manual_link user cid rid db d db' :
  manual_link user cid rid db = Ok (d, db') → Inv db → advances db db'.
Proof.
  unfold manual_link. intros Hrun Hinv. inv_sql.
  match goal with x : _ * _ |- _ => destruct x as [d1 infos] end. inv_sql.
  match goal with H : fire_settlement_webhooks _ _ = _ |- _ =>
    apply fire_settlement_webhooks_Ok, queue_only_ledger in H as <- end.
  by eapply (Inv_link_run user (inr (cid, rid))).
Qed.

Lemma Inv_reject_suggestion user sid db d db' :
  reject_suggestion user sid db = Ok (d, db') → Inv db → advances db db'.
Proof.
  unfold reject_suggestion, do_reject. intros Hrun Hinv. inv_sql.
  repeat match goal with x : _ * _ |- _ => destruct x end. inv_sql.
  all: eapply Inv_debt_step; [|exact Hinv]; apply debt_step_simple; try done;
    [apply Hinv|apply rows_related_refl, debt_row_refl|by apply one_confirmed_update, Hinv].
Qed.

Lemma Inv_unlink_contract user cid db d db' :
  unlink_contract user cid db = Ok (d, db') → Inv db → advances db db'.
Proof.
  unfold unlink_contract, do_unlink. intros Hrun Hinv. inv_sql.
  match goal with H : recompute_contract_expected_total _ _ = _ |- _ => apply recompute_Ok in H end.
  subst. eapply Inv_debt_step; [|exact Hinv]. apply debt_step_simple; try done; [apply Hinv| |].
  - apply rows_related_update; [apply debt_row_refl|]. intros k r _ HP. bool_simpl. by apply debt_row_refresh.
  - by apply (one_confirmed_update db), Hinv.
Qed.

(** ** The worker *)

Lemma Inv_unbind_contract cid db n db' : unbind_contract cid db = Ok (n, db') → Inv db → advances db db'.
Proof.
  unfold unbind_contract. intros Hrun Hinv. inv_sql.
  eapply Inv_debt_step; [|exact Hinv]. apply debt_step_simple; try done; [apply Hinv| |].
  - apply rows_related_update; [apply debt_row_refl|]. intros k r _ HP. bool_simpl. by apply debt_row_refresh.
  - by apply (one_confirmed_update db), Hinv.
Qed.

Lemma upsert_contract_ledger u db o db' :
  upsert_contract u db = Ok (o, db') → same_ledger db db'.
Proof.
  unfold upsert_contract, cast_20_2. intros Hrun. inv_sql.
  case_match; [case_match|]; inv_sql;
    match goal with H : contract_foreign_keys _ _ = _ |- _ => apply contract_foreign_keys_Ok in H end;
    subst; by split.
Qed.

Lemma Inv_handle_contract_terminal u db t db' :
  handle_contract_terminal u db = Ok (t, db') → Inv db → advances db db'.
Proof.
  unfold handle_contract_terminal. intros Hrun Hinv.
  destruct (is_terminal_success _); [|destruct (is_terminal_failure _)]; inv_sql;
    [| |by apply advances_refl].
  - match goal with H : settle_via_contract _ _ = Ok (_, ?d) |- _ =>
      assert (queue_only d db') as <-%queue_only_ledger;
        [|eapply Inv_debt_step; [by eapply debt_step_contract|done]] end.
    refine (for_each_inv (queue_only _) _ _ _ _ _ _ Hrun (queue_only_refl _)).
    intros info s1 u1 s2 _ Hb Hq. eapply queue_only_trans; [exact Hq|].
    unfold enqueue_settled in Hb. inv_sql. by eapply insert_pending_webhook_Ok.
  - by eapply Inv_unbind_contract.
Qed.

Lemma upsert_batch_ledger {API : @EsiApi RT} turn cs db us db' :
  (∀ c db o db', turn c db = Ok (o, db') → same_ledger db db') →
  upsert_batch turn cs db = Ok (us, db') → same_ledger db db'.
Proof.
  intros Hturn. revert db us. induction cs as [|c cs IH]; intros db us Hrun; cbn in Hrun; inv_sql.
  - done.
  - etransitivity; [by eapply Hturn|by eapply IH].
Qed.

Lemma upsert_polled_ledger {API : @EsiApi RT} keep ctx src idx c db o db' :
  upsert_polled keep ctx src idx c db = Ok (o, db') → same_ledger db db'.
Proof.
  unfold upsert_polled. intros Hrun. repeat case_match; inv_sql; try done.
  by eapply upsert_contract_ledger.
Qed.

End DebtSteps.
