(* ===== verification/WorkerSteps.v ===== *)
(** * The worker's own transactions preserve the ledger invariant

    The matcher only proposes links and the wallet audit only annotates debts,
    so neither changes what is owed. *)

From Stdlib Require Import ZArith Lia.
From stdpp Require Import base tactics decidable option list gmap strings pretty.
From S2P Require Import Prelude Effect Money Domain Principals Host Schema Errors.
From S2P Require Import Settlement Wallet Fulfillment Claims Reimbursements Contracts Matching.
From S2P Require Import Invariant Book InvariantItems InvariantMoney Preservation DebtSteps.

Section WorkerSteps.
Context `{RT : Runtime} {SA : ShareArith}.

Lemma Inv_run_one cid db u db' : run_one cid db = Ok (u, db') → Inv db → advances db db'.
Proof.
  intros [[Hframe _ Hnew] _]%run_one_run Hinv. rewrite Hframe. apply Inv_suggestions; [|done].
  intros k1 k2 s1 s2 H1 H2 C1 C2.
  destruct (Hnew _ _ H1) as [H1'|(P1 & _)]; [|congruence].
  destruct (Hnew _ _ H2) as [H2'|(P2 & _)]; [|congruence].
  by apply (inv_confirmed _ Hinv k1 k2).
Qed.

Lemma debt_row_stamp now ds id r : debt_row r (stamp now ds id r).
Proof.
  pose proof (stamp_same now ds id r) as Hs. unfold stamp in *. destruct (ds !! id); [|apply debt_row_refl].
  split; [by destruct r|intros []; by split|by left|done].
Qed.

Lemma Inv_verify cid db u db' :
  verify_contract_against_journal cid db = Ok (u, db') → Inv db → advances db db'.
Proof.
  intros [->|(c & payout & ds & Hc & _ & _ & _ & ->)]%verify_run Hinv; [by apply advances_refl|].
  apply Inv_debt_step; [|done]. apply debt_step_simple; try done.
  { apply Hinv. }
  2: { apply Hinv. }
  intros k. set_simpl. rewrite lookup_update_each. destruct (_ !! k); [apply debt_row_stamp|done].
Qed.

Lemma Inv_verify_all cids db : Inv db → advances db (verify_all cids db).
Proof.
  revert db. induction cids as [|cid rest IH]; intros db Hinv; cbn [verify_all]; [by apply advances_refl|].
  destruct (verify_contract_against_journal cid db) as [[u db1]|e] eqn:Hv; [|by apply IH].
  pose proof (Inv_verify _ _ _ _ Hv Hinv) as Ha. exact (advances_trans _ _ _ Ha (IH db1)).
Qed.
End WorkerSteps.
