(* ===== verification/Edits.v ===== *)
(** * The ledger invariant under editing and deletion

    Two kinds of change beside the purchases and payments of the other files.
    An edit adds users, principals, lists and items and reworks open items; a pruning removes lists or items with everything that
    hangs off them.  Each keeps the invariant. *)

From Stdlib Require Import ZArith Lia.
From stdpp Require Import base tactics decidable option list gmap strings.
From S2P Require Import Prelude Effect Money Domain Host Schema.
From S2P Require Import Settlement Wallet Fulfillment Claims Reimbursements.
From S2P Require Import Invariant Book InvariantItems InvariantMoney.

Section Edits.
Context `{RT : Runtime}.
Implicit Types (db : Db) (li : ListItemRow) (f : FulfillmentRow) (r : ReimbursementRow).

(** ** Edits *)

(** What an edit may make of an item: the quantity changes only while it is
    open, to more than is bought of it, and a settled item only in its
    estimate. *)
Record item_edited li li' : Prop := mkItemEdited {
  ie_key : (li_list_id li', li_requested_by_user_id li', li_status li', li_qty_fulfilled li') =
           (li_list_id li, li_requested_by_user_id li, li_status li, li_qty_fulfilled li);
  ie_qty : li_qty_requested li' = li_qty_requested li ∨
    li_status li = Item_Open ∧ (li_qty_fulfilled li < li_qty_requested li')%Z;
  ie_settled : li_status li = Item_Settled → same_item li li'
}.

Lemma same_item_edited li li' : same_item li li' → item_edited li li'.
Proof. intros Hs. split; [by rewrite Hs|rewrite Hs; by left|done]. Qed.

#[export] Instance item_edited_preorder : PreOrder item_edited.
Proof.
  split; [intros li; by apply same_item_edited|].
  intros l1 l2 l3 [[= K1 K2 K3 K4] Q1 S1] [[= K5 K6 K7 K8] Q2 S2]. split; [congruence| |].
  - rewrite K3, K4 in Q2. destruct Q2 as [->|Q2]; [done|by right].
  - intros Hs. etransitivity; [by apply S1|]. apply S2. congruence.
Qed.

(** A list or an item as it is inserted. *)
Definition fresh_list db (l : ListRow) : Prop :=
  (∀ c, l_payer_corp_id l = Some c → is_Some (principal_of_corp db c)) ∧ (0 ≤ l_tip_pct l)%Z.

Definition fresh_item db li : Prop :=
  li_status li = Item_Open ∧ li_qty_fulfilled li = 0%Z ∧ (0 < li_qty_requested li)%Z ∧
  is_Some (lists db !! li_list_id li) ∧
  ∃ u, li_requested_by_user_id li = Some u ∧ is_Some (users db !! u).

(** The payer of a list changes only while nothing is owed on it. *)
Definition list_edited db db' lid (l l' : ListRow) : Prop :=
  l_tip_pct l' = l_tip_pct l ∧
  (l_payer_corp_id l' = l_payer_corp_id l ∨
   (∀ rid r, reimbursements db !! rid = Some r → r_list_id r ≠ lid) ∧
   ∀ c, l_payer_corp_id l' = Some c → is_Some (principal_of_corp db' c)).

Record edits db db' : Prop := mkEdits {
  ed_users u : is_Some (users db !! u) → is_Some (users db' !! u);
  ed_new_users u : is_Some (users db' !! u) →
    is_Some (users db !! u) ∨ is_Some (principal_of_user db' u);
  ed_principals : principals_ok (principals db) → principals_ok (principals db');
  ed_user_principal u p : principal_of_user db u = Some p → principal_of_user db' u = Some p;
  ed_corp_principal c p : principal_of_corp db c = Some p → principal_of_corp db' c = Some p;
  ed_linked k : is_Some (group_corps db' !! k) →
    is_Some (group_corps db !! k) ∨ is_Some (principal_of_corp db' k.2);
  ed_lists lid l : lists db !! lid = Some l →
    ∃ l', lists db' !! lid = Some l' ∧ list_edited db db' lid l l';
  ed_new_lists lid l' : lists db' !! lid = Some l' → lists db !! lid = None → fresh_list db' l';
  ed_items id li : list_items db !! id = Some li →
    ∃ li', list_items db' !! id = Some li' ∧ item_edited li li';
  ed_new_items id li' : list_items db' !! id = Some li' → list_items db !! id = None →
    fresh_item db' li';
  ed_claims : claims db' = claims db;
  ed_claim_items : claim_items db' = claim_items db;
  ed_fulfillments : fulfillments db' = fulfillments db;
  ed_reimbs : reimbursements db' = reimbursements db;
  ed_suggestions : contract_match_suggestions db' = contract_match_suggestions db
}.

Lemma same_ledger_edits db db' : same_ledger db db' → edits db db'.
Proof.
  intros [Hu Hp Hg Hl Hi Hc Hci Hf Hr Hs].
  split; rewrite ?Hu, ?Hp, ?Hg, ?Hl, ?Hi; try done.
  - intros u Hu'. by left.
  - intros u p. unfold principal_of_user. by rewrite Hp.
  - intros c p. unfold principal_of_corp. by rewrite Hp.
  - intros k Hk. by left.
  - intros lid l Hll. exists l. split; [done|]. split; [done|by left].
  - intros lid l' H1 H2. congruence.
  - intros id li Hli. by exists li.
  - intros id li' H1 H2. congruence.
Qed.

Lemma edits_trans db1 db2 db3 : edits db1 db2 → edits db2 db3 → edits db1 db3.
Proof.
  intros A B.
  assert (∀ c, is_Some (principal_of_corp db2 c) → is_Some (principal_of_corp db3 c)) as Hcorp.
  { intros c [p Hp]. exists p. by eapply ed_corp_principal. }
  split.
  - intros u Hu. by eapply ed_users, ed_users.
  - intros u [Hu|Hu]%(ed_new_users _ _ B); [|by right].
    apply (ed_new_users _ _ A) in Hu as [Hu|[p Hp]]; [by left|right].
    exists p. by eapply ed_user_principal.
  - intros Hok. by apply (ed_principals _ _ B), (ed_principals _ _ A).
  - intros u p Hp. by apply (ed_user_principal _ _ B), (ed_user_principal _ _ A).
  - intros c p Hp. by apply (ed_corp_principal _ _ B), (ed_corp_principal _ _ A).
  - intros k [Hk|Hk]%(ed_linked _ _ B); [|by right].
    apply (ed_linked _ _ A) in Hk as [Hk|Hk]; [by left|right; auto].
  - intros lid l Hl. destruct (ed_lists _ _ A _ _ Hl) as (l2 & Hl2 & Ht2 & Hp2).
    destruct (ed_lists _ _ B _ _ Hl2) as (l3 & Hl3 & Ht3 & Hp3). exists l3. split; [done|].
    split; [congruence|]. rewrite (ed_reimbs _ _ A) in Hp3.
    destruct Hp3 as [->|Hp3]; [|by right]. destruct Hp2 as [->|[Hn Hp2]]; [by left|right]. eauto.
  - intros lid l3 Hl3 Hn. destruct (lists db2 !! lid) as [l2|] eqn:Hl2;
      [|by eapply (ed_new_lists _ _ B)].
    destruct (ed_new_lists _ _ A _ _ Hl2 Hn) as [Hc2 Ht2].
    destruct (ed_lists _ _ B _ _ Hl2) as (l' & Hl' & Ht & Hp). simplify_eq.
    split; [|congruence]. intros c Hc. destruct Hp as [Hp|[_ Hp]]; [|by apply Hp].
    apply Hcorp, Hc2. congruence.
  - intros id li Hl. destruct (ed_items _ _ A _ _ Hl) as (l2 & Hl2 & He2).
    destruct (ed_items _ _ B _ _ Hl2) as (l3 & Hl3 & He3). exists l3. split; [done|].
    by etransitivity.
  - intros id l3 Hl3 Hn. destruct (list_items db2 !! id) as [l2|] eqn:Hl2;
      [|by eapply (ed_new_items _ _ B)].
    destruct (ed_new_items _ _ A _ _ Hl2 Hn) as (Hs & Hf & Hq & [l Hl] & u & Hu & Hus).
    destruct (ed_items _ _ B _ _ Hl2) as (l' & Hl' & [[= K1 K2 K3 K4] Hqty _]). simplify_eq.
    destruct (ed_lists _ _ B _ _ Hl) as (l3' & Hl3' & _).
    unfold fresh_item. rewrite K1, K2, K3, K4. split; [done|]. split; [done|].
    split; [destruct Hqty as [->|[_ ?]]; [done|by rewrite Hf in *]|]. split; [by eexists|].
    exists u. split; [done|]. by eapply ed_users.
  - by rewrite (ed_claims _ _ B), (ed_claims _ _ A).
  - by rewrite (ed_claim_items _ _ B), (ed_claim_items _ _ A).
  - by rewrite (ed_fulfillments _ _ B), (ed_fulfillments _ _ A).
  - by rewrite (ed_reimbs _ _ B), (ed_reimbs _ _ A).
  - by rewrite (ed_suggestions _ _ B), (ed_suggestions _ _ A).
Qed.

#[export] Instance edits_preorder : PreOrder edits.
Proof. split; [intros db; by apply same_ledger_edits|exact edits_trans]. Qed.

(** What people may ask for without [qty + qty_fulfilled] wrapping around. *)
Definition quantities_ok db : Prop :=
  ∀ id li, list_items db !! id = Some li → (li_qty_requested li ≤ max_requested)%Z.

Section Preserved.
Context {db db' : Db} (He : edits db db') (Hq : quantities_ok db') (Hinv : Inv db).

Let Hok : principals_ok (principals db) := refs_principals _ (inv_refs _ Hinv).

Lemma edits_item id li :
  list_items db !! id = Some li →
  ∃ li', list_items db' !! id = Some li' ∧ li_list_id li' = li_list_id li ∧
    li_requested_by_user_id li' = li_requested_by_user_id li ∧ li_status li' = li_status li ∧
    li_qty_fulfilled li' = li_qty_fulfilled li.
Proof.
  intros Hl. destruct (ed_items _ _ He _ _ Hl) as (li' & Hl' & [[= K1 K2 K3 K4] _ _]). eauto 8.
Qed.

Lemma edits_payable lid q id :
  is_Some (list_items db !! id) → payable_item db' lid q id = payable_item db lid q id.
Proof.
  intros [li Hl]. destruct (edits_item _ _ Hl) as (li' & Hl' & K1 & K2 & _).
  unfold payable_item. by rewrite Hl, Hl', K1, K2.
Qed.

Lemma edits_bought fid f : fulfillments db !! fid = Some f → is_Some (list_items db !! f_list_item_id f).
Proof. intros Hf. destruct (inv_fulfillments _ Hinv _ _ Hf) as [_ _ (li & Hl & _) _]. eauto. Qed.

Lemma edits_pays fid f r : fulfillments db !! fid = Some f → pays db' r f = pays db r f.
Proof. intros Hf. unfold pays. by rewrite edits_payable by by eapply edits_bought. Qed.

Lemma edits_item_ok id li' : list_items db' !! id = Some li' →
  item_ok (fulfillments db') (claim_items db') id li'.
Proof.
  intros Hl'. rewrite (ed_fulfillments _ _ He), (ed_claim_items _ _ He).
  pose proof (Hq _ _ Hl') as Hmax. destruct (list_items db !! id) as [li|] eqn:Hl.
  - destruct (inv_items _ Hinv _ _ Hl) as [Hr Hv Hf Hs].
    destruct (ed_items _ _ He _ _ Hl) as (l2 & Hl2 & [[= K1 K2 K3 K4] Hqty _]). simplify_eq.
    unfold status_ok in *. split; rewrite ?K4; [|done| |].
    + destruct Hqty as [->|[_ ?]]; lia.
    + destruct Hqty as [->|[_ ?]]; lia.
    + unfold status_ok. rewrite K3, K4. destruct Hqty as [->|[Ho Hp]]; [done|].
      rewrite Ho in *. unfold base_status in *.
      rewrite (proj2 (Z.leb_gt (li_qty_requested li') _)) by lia.
      by destruct (li_qty_requested li <=? li_qty_fulfilled li)%Z, (has_active_claim _ id).
  - destruct (ed_new_items _ _ He _ _ Hl' Hl) as (Hs & Hz & Hp & _).
    assert (has_active_claim (claim_items db) id = false) as Hna.
    { apply not_true_iff_false. rewrite has_active_claim_true. intros (cid & ci & Hci & _).
      destruct (inv_targets _ Hinv (cid, id) (ex_intro _ _ Hci)) as (c & li & _ & Hli & _).
      cbn in Hli. congruence. }
    assert (live_qty (fulfillments db) id = 0%Z) as Hlive.
    { transitivity (sum_of (λ _ _, 0%Z) (fulfillments db)); [|apply sum_of_zero].
      apply sum_of_ext. intros fid f Hf. destruct (live_of id f) eqn:Hlo; [|done]. unfold live_of in Hlo. bool_simpl.
      destruct (edits_bought _ _ Hf) as [li Hli]. congruence. }
    split; rewrite ?Hlive, ?Hz; [lia|done|lia|]. unfold status_ok. rewrite Hs, Hz, Hna.
    unfold base_status. by rewrite (proj2 (Z.leb_gt (li_qty_requested li') _)) by lia.
Qed.

Lemma edits_refs : refs_ok db'.
Proof.
  destruct (inv_refs _ Hinv) as [Hu Hp Hi Hr Ht Hg Hpr].
  assert (∀ c, is_Some (principal_of_corp db c) → is_Some (principal_of_corp db' c)) as Hcorp.
  { intros c [p ?]. exists p. by eapply ed_corp_principal. }
  split.
  - intros u [Hu'|?]%(ed_new_users _ _ He); [|done]. destruct (Hu _ Hu') as [p ?].
    exists p. by eapply ed_user_principal.
  - intros lid l' c Hl' Hc. destruct (lists db !! lid) as [l|] eqn:Hl;
      [|by destruct (ed_new_lists _ _ He _ _ Hl' Hl) as [? _]; eauto].
    destruct (ed_lists _ _ He _ _ Hl) as (l2 & Hl2 & _ & Hpay). simplify_eq.
    destruct Hpay as [Hpay|[_ Hpay]]; [|by apply Hpay]. apply Hcorp. eapply Hp; [done|congruence].
  - intros id li' Hl'. destruct (list_items db !! id) as [li|] eqn:Hl;
      [|by destruct (ed_new_items _ _ He _ _ Hl' Hl) as (_ & _ & _ & ? & _)].
    destruct (edits_item _ _ Hl) as (l2 & Hl2 & E & _). simplify_eq. rewrite E.
    destruct (Hi _ _ Hl) as [l Hll]. destruct (ed_lists _ _ He _ _ Hll) as (l' & ? & _). eauto.
  - intros id li' u Hl' Hu'. destruct (list_items db !! id) as [li|] eqn:Hl.
    + destruct (edits_item _ _ Hl) as (l2 & Hl2 & _ & E & _). simplify_eq.
      apply (ed_users _ _ He). eapply Hr; [done|congruence].
    + destruct (ed_new_items _ _ He _ _ Hl' Hl) as (_ & _ & _ & _ & u2 & ? & ?). congruence.
  - intros lid l' Hl'. destruct (lists db !! lid) as [l|] eqn:Hl;
      [|by destruct (ed_new_lists _ _ He _ _ Hl' Hl)].
    destruct (ed_lists _ _ He _ _ Hl) as (l2 & Hl2 & E & _). simplify_eq. rewrite E. by eapply Ht.
  - intros k [Hk|?]%(ed_linked _ _ He); [|done]. auto.
  - by eapply ed_principals.
Qed.

Lemma edits_fulfillment f fid : fulfillments db !! fid = Some f → fulfillment_ok db' f.
Proof.
  intros Hf. destruct (inv_fulfillments _ Hinv _ _ Hf) as [A B (li & Hl & Hr) D]. split; [done|done| |].
  - destruct (edits_item _ _ Hl) as (li' & Hl' & _ & E & _). exists li'. by rewrite E.
  - by eapply ed_users.
Qed.

Lemma edits_requester rid r : reimbursements db !! rid = Some r → requester_ok db' r.
Proof.
  intros Hr. destruct (inv_reimbs _ Hinv _ _ Hr) as [_ (l & Hl & Hreq) _ _].
  destruct (ed_lists _ _ He _ _ Hl) as (l' & Hl' & _ & Hpay). exists l'. split; [done|].
  destruct Hpay as [->|[Hn _]]; [|by destruct (Hn _ _ Hr)]. destruct (l_payer_corp_id l).
  - destruct Hreq as (A & B & C). split; [done|]. split; [done|]. by eapply ed_corp_principal.
  - destruct Hreq as (A & u & B & C). split; [done|]. exists u. split; [done|].
    by eapply ed_user_principal.
Qed.

Lemma edits_reimb rid r : reimbursements db !! rid = Some r → reimb_ok db' r.
Proof.
  intros Hr. destruct (inv_reimbs _ Hinv _ _ Hr) as [A _ C D].
  split; [done|by eapply edits_requester|by eapply ed_user_principal|].
  intros Hs. rewrite (D Hs). unfold current_subtotal, subtotal_of, sum_where.
  rewrite (ed_fulfillments _ _ He). apply sum_of_ext. intros fid f Hf.
  by rewrite edits_payable by by eapply edits_bought.
Qed.

Lemma Inv_edits : Inv db'.
Proof.
  split.
  - exact edits_item_ok.
  - rewrite (ed_claims _ _ He), (ed_claim_items _ _ He). apply Hinv.
  - rewrite (ed_claims _ _ He), (ed_claim_items _ _ He).
    intros k (c & li & Hc & Hl & E)%(inv_targets _ Hinv).
    destruct (edits_item _ _ Hl) as (li' & Hl' & E' & _). exists c, li'. by rewrite E'.
  - exact edits_refs.
  - intros fid f. rewrite (ed_fulfillments _ _ He). by apply edits_fulfillment.
  - intros rid r. rewrite (ed_reimbs _ _ He). by apply edits_reimb.
  - intros k1 k2 r1 r2. rewrite (ed_reimbs _ _ He). apply (inv_cycles _ Hinv).
  - intros fid f. rewrite (ed_fulfillments _ _ He), (ed_reimbs _ _ He). intros Hf Hrev.
    destruct (inv_covered _ Hinv _ _ Hf Hrev) as (rid & r & Hr & Hs & Hp).
    exists rid, r. by erewrite edits_pays.
  - intros fid f li'. rewrite (ed_fulfillments _ _ He), (ed_reimbs _ _ He).
    intros Hf Hrev Hl' Hs rid r Hr Hp. destruct (edits_bought _ _ Hf) as [li Hl].
    destruct (edits_item _ _ Hl) as (l2 & Hl2 & _ & _ & E & _). simplify_eq.
    erewrite edits_pays in Hp by done. eapply (inv_paid _ Hinv); [done|done|done|congruence|done|done].
  - intros k1 k2 s1 s2. rewrite (ed_suggestions _ _ He). apply (inv_confirmed _ Hinv).
  - intros rid r. rewrite (ed_reimbs _ _ He). apply (inv_live _ Hinv).
Qed.

Lemma frozen_edits : frozen db db'.
Proof.
  split.
  - intros rid r Hr _. exists r. by rewrite (ed_reimbs _ _ He).
  - intros id li Hl Hs. destruct (ed_items _ _ He _ _ Hl) as (li' & Hl' & [_ _ Hsame]). eauto.
  - intros fid f li. by rewrite (ed_fulfillments _ _ He).
Qed.
End Preserved.

Lemma edits_book db db' : edits db db' → Inv db → book_of db' = book_of db.
Proof.
  intros He Hinv. apply book_of_ext; [apply He|]. intros fid f Hf. unfold is_paid.
  rewrite (ed_reimbs _ _ He). apply eq_true_iff_eq. rewrite !sel_exists_true.
  assert (∀ r, pays db' r f = pays db r f) as Hp by (intros r; by eapply edits_pays).
  by setoid_rewrite Hp.
Qed.

Lemma Inv_edit db db' : edits db db' → quantities_ok db' → Inv db → advances db db'.
Proof.
  intros He Hq Hinv. split; [by eapply Inv_edits|by apply frozen_edits|].
  apply book_of_same; [apply He..|]. intros fid f r Hf. by eapply edits_pays.
Qed.
End Edits.
