(* ===== verification/Prunes.v ===== *)
(** * The ledger invariant under deletion

    Deleting lists, or an item nobody has bought any of, with the rows that
    reference them. *)

From Stdlib Require Import ZArith Lia.
From stdpp Require Import base tactics decidable option list gmap strings.
From S2P Require Import Prelude Effect Money Domain Host Schema.
From S2P Require Import Settlement Fulfillment Claims Reimbursements.
From S2P Require Import Invariant Book InvariantItems InvariantMoney Lists Items.

Section Prunes.
Context `{RT : Runtime}.
Implicit Types (db : Db) (li : ListItemRow) (f : FulfillmentRow) (r : ReimbursementRow).

(** A deletion that takes along what references the deleted rows, and whose
    purchases no remaining debt is for. *)
Record prunes db db' : Prop := mkPrunes {
  pr_users : users db' = users db;
  pr_principals : principals db' = principals db;
  pr_group_corps k : is_Some (group_corps db' !! k) → is_Some (group_corps db !! k);
  pr_lists lid l : lists db' !! lid = Some l → lists db !! lid = Some l;
  pr_items id li : list_items db' !! id = Some li →
    list_items db !! id = Some li ∧ is_Some (lists db' !! li_list_id li);
  pr_kept_items id li : list_items db !! id = Some li → is_Some (lists db' !! li_list_id li) →
    list_items db' !! id = Some li ∨ li_status li ≠ Item_Settled;
  pr_claims cid c : claims db' !! cid = Some c → claims db !! cid = Some c;
  pr_claim_items k ci : claim_items db' !! k = Some ci →
    claim_items db !! k = Some ci ∧ is_Some (claims db' !! k.1) ∧ is_Some (list_items db' !! k.2);
  pr_kept_claims k ci : claim_items db !! k = Some ci → is_Some (list_items db' !! k.2) →
    claim_items db' !! k = Some ci;
  pr_bought fid f' : fulfillments db' !! fid = Some f' →
    ∃ f, fulfillments db !! fid = Some f ∧ f' = f <| f_claim_id := f_claim_id f' |> ∧
      is_Some (list_items db' !! f_list_item_id f);
  pr_kept_bought fid f : fulfillments db !! fid = Some f →
    is_Some (list_items db' !! f_list_item_id f) → is_Some (fulfillments db' !! fid);
  pr_reimbs rid r : reimbursements db' !! rid = Some r →
    reimbursements db !! rid = Some r ∧ is_Some (lists db' !! r_list_id r);
  pr_paid rid r fid f : reimbursements db' !! rid = Some r → fulfillments db !! fid = Some f →
    f_reversed_at f = None → pays db r f = true → is_Some (list_items db' !! f_list_item_id f);
  pr_kept_reimbs rid r : reimbursements db !! rid = Some r → is_Some (lists db' !! r_list_id r) →
    reimbursements db' !! rid = Some r;
  pr_suggestions k s : contract_match_suggestions db' !! k = Some s →
    contract_match_suggestions db !! k = Some s
}.

Lemma prunes_tables db d1 d2 :
  users d2 = users d1 → principals d2 = principals d1 →
  (∀ k, is_Some (group_corps d2 !! k) → is_Some (group_corps d1 !! k)) →
  lists d2 = lists d1 → list_items d2 = list_items d1 → claims d2 = claims d1 →
  claim_items d2 = claim_items d1 → fulfillments d2 = fulfillments d1 →
  reimbursements d2 = reimbursements d1 →
  contract_match_suggestions d2 = contract_match_suggestions d1 → prunes db d1 → prunes db d2.
Proof.
  intros E1 E2 Hg E3 E4 E5 E6 E7 E8 E9 [A B C D E F G H I J K L M N O].
  split; rewrite ?E1, ?E2, ?E3, ?E4, ?E5, ?E6, ?E7, ?E8, ?E9; auto.
Qed.

Section Preserved.
Context {db db' : Db} (Hpr : prunes db db') (Hinv : Inv db).

Lemma prunes_payable lid q id :
  is_Some (list_items db' !! id) → payable_item db' lid q id = payable_item db lid q id.
Proof.
  intros [li Hl]. unfold payable_item. by rewrite Hl, (proj1 (pr_items _ _ Hpr _ _ Hl)).
Qed.

Lemma prunes_pays r f :
  is_Some (list_items db' !! f_list_item_id f) → pays db' r f = pays db r f.
Proof. intros Hl. unfold pays. by rewrite prunes_payable. Qed.

Lemma prunes_live id : is_Some (list_items db' !! id) →
  live_qty (fulfillments db') id = live_qty (fulfillments db) id.
Proof.
  intros Hl. apply sum_of_sub.
  - intros fid f' Hf'. destruct (pr_bought _ _ Hpr _ _ Hf') as (f & Hf & -> & _). by exists f.
  - intros fid f Hf Hn. unfold live_of. destruct (f_list_item_id f == id) eqn:He; [|done].
    bool_simpl. destruct (pr_kept_bought _ _ Hpr _ _ Hf Hl) as [? ?]. congruence.
Qed.

Lemma prunes_active id : is_Some (list_items db' !! id) →
  has_active_claim (claim_items db') id = has_active_claim (claim_items db) id.
Proof.
  intros Hl. apply has_active_claim_ext. intros cid. f_equal.
  destruct (claim_items db !! (cid, id)) as [ci|] eqn:Hci.
  - by apply (pr_kept_claims _ _ Hpr).
  - destruct (claim_items db' !! (cid, id)) as [ci|] eqn:Hci'; [|done].
    apply (pr_claim_items _ _ Hpr) in Hci' as [? _]. congruence.
Qed.

Lemma prunes_subtotal rid r :
  reimbursements db' !! rid = Some r → current_subtotal db' r = current_subtotal db r.
Proof.
  intros Hr. apply sum_of_sub.
  - intros fid f' Hf'. destruct (pr_bought _ _ Hpr _ _ Hf') as (f & Hf & -> & Hl). exists f.
    split; [done|]. cbn. by rewrite prunes_payable.
  - intros fid f Hf Hn. cbn. destruct (payable_item _ _ _ _ && _ && _) eqn:Hp; [|done].
    apply andb_true_iff in Hp as [Hp Hrev]. apply is_none_true in Hrev.
    pose proof (pr_paid _ _ Hpr _ _ _ _ Hr Hf Hrev Hp) as Hl.
    destruct (pr_kept_bought _ _ Hpr _ _ Hf Hl) as [? ?]. congruence.
Qed.

Lemma prunes_principal_user u : principal_of_user db' u = principal_of_user db u.
Proof. unfold principal_of_user. by rewrite (pr_principals _ _ Hpr). Qed.

Lemma prunes_principal_corp c : principal_of_corp db' c = principal_of_corp db c.
Proof. unfold principal_of_corp. by rewrite (pr_principals _ _ Hpr). Qed.

Lemma prunes_refs : refs_ok db'.
Proof.
  destruct (inv_refs _ Hinv) as [Hu Hp Hi Hr Ht Hg Hps]. split.
  - intros u. rewrite (pr_users _ _ Hpr), prunes_principal_user. apply Hu.
  - intros lid l c Hl. rewrite prunes_principal_corp. by eapply Hp, pr_lists.
  - intros id li Hl. by apply (pr_items _ _ Hpr _ _ Hl).
  - intros id li u Hl. rewrite (pr_users _ _ Hpr). by eapply Hr, (pr_items _ _ Hpr).
  - intros lid l Hl. by eapply Ht, pr_lists.
  - intros k Hk%(pr_group_corps _ _ Hpr). rewrite prunes_principal_corp. by apply Hg.
  - by rewrite (pr_principals _ _ Hpr).
Qed.

Lemma prunes_fulfillment fid f' : fulfillments db' !! fid = Some f' → fulfillment_ok db' f'.
Proof.
  intros Hf'. destruct (pr_bought _ _ Hpr _ _ Hf') as (f & Hf & -> & [li Hl]).
  destruct (inv_fulfillments _ Hinv _ _ Hf) as [A B (li0 & Hl0 & Hq) D].
  split; [done|done| |by rewrite (pr_users _ _ Hpr)]. exists li. split; [done|].
  pose proof (proj1 (pr_items _ _ Hpr _ _ Hl)). by simplify_eq.
Qed.

Lemma prunes_reimb rid r : reimbursements db' !! rid = Some r → reimb_ok db' r.
Proof.
  intros Hr. destruct (pr_reimbs _ _ Hpr _ _ Hr) as [Hr0 [l Hl]].
  destruct (inv_reimbs _ Hinv _ _ Hr0) as [A (l0 & Hl0 & Hq) C D]. split; [done| | |].
  - pose proof (pr_lists _ _ Hpr _ _ Hl). simplify_eq. exists l0. split; [done|].
    destruct (l_payer_corp_id l0); [by rewrite prunes_principal_corp|].
    destruct Hq as (? & u & ? & ?). split; [done|]. exists u. by rewrite prunes_principal_user.
  - by rewrite prunes_principal_user.
  - intros Hs. erewrite prunes_subtotal by done. auto.
Qed.

Lemma Inv_prunes : Inv db'.
Proof.
  split.
  - intros id li Hl. destruct (pr_items _ _ Hpr _ _ Hl) as [Hl0 _].
    eapply item_ok_frame; [by apply prunes_live|by apply prunes_active|by eapply inv_items].
  - destruct (inv_claims _ Hinv) as [Hs Hun]. split.
    + intros k ci (Hci & [c Hc] & _)%(pr_claim_items _ _ Hpr). exists c. split; [done|].
      destruct (Hs _ _ Hci) as (c0 & Hc0 & ->). pose proof (pr_claims _ _ Hpr _ _ Hc). by simplify_eq.
    + intros k1 k2 ci1 ci2 [H1 _]%(pr_claim_items _ _ Hpr) [H2 _]%(pr_claim_items _ _ Hpr). eauto.
  - intros k [ci (Hci & [c Hc] & [li Hl])%(pr_claim_items _ _ Hpr)].
    destruct (inv_targets _ Hinv k (ex_intro _ _ Hci)) as (c0 & li0 & Hc0 & Hl0 & E).
    pose proof (pr_claims _ _ Hpr _ _ Hc). pose proof (proj1 (pr_items _ _ Hpr _ _ Hl)).
    simplify_eq. by exists c0, li0.
  - exact prunes_refs.
  - exact prunes_fulfillment.
  - exact prunes_reimb.
  - intros k1 k2 r1 r2 [H1 _]%(pr_reimbs _ _ Hpr) [H2 _]%(pr_reimbs _ _ Hpr).
    by apply (inv_cycles _ Hinv).
  - intros fid f' Hf' Hrev. destruct (pr_bought _ _ Hpr _ _ Hf') as (f & Hf & Hfc & [li Hl]).
    assert (f_reversed_at f = None) as Hrev0 by by rewrite Hfc in Hrev.
    destruct (inv_covered _ Hinv _ _ Hf Hrev0) as (rid & r & Hr & Hs & Hp).
    exists rid, r. rewrite Hfc. split; [|split; [done|]].
    + apply (pr_kept_reimbs _ _ Hpr); [done|].
      apply pays_true in Hp as (_ & li0 & Hl0 & <- & _). destruct (pr_items _ _ Hpr _ _ Hl).
      by simplify_eq.
    + change (pays db' r f = true). by rewrite prunes_pays by eauto.
  - intros fid f' li Hf' Hrev Hl Hs rid r [Hr _]%(pr_reimbs _ _ Hpr) Hp.
    destruct (pr_bought _ _ Hpr _ _ Hf') as (f & Hf & Hfc & Hli). rewrite Hfc in Hrev, Hl, Hp.
    cbn in Hrev, Hl. change (pays db' r f = true) in Hp. rewrite prunes_pays in Hp by done.
    eapply (inv_paid _ Hinv); [exact Hf|done|by apply (pr_items _ _ Hpr _ _ Hl)|done|done|done].
  - intros k1 k2 s1 s2 H1%(pr_suggestions _ _ Hpr) H2%(pr_suggestions _ _ Hpr).
    by apply (inv_confirmed _ Hinv).
  - intros rid r [Hr _]%(pr_reimbs _ _ Hpr). by apply (inv_live _ Hinv _ _ Hr).
Qed.
End Preserved.

(** ** What is deleted, and what is left alone *)

(** The book loses the entries of the deleted purchases, and no other is
    changed.  A debt, a settled item and what was bought of it go only with
    their list; before that none of them changes. *)
Record erases db db' : Prop := mkErases {
  er_book fid e : book_of db' !! fid = Some e ↔
    book_of db !! fid = Some e ∧ is_Some (fulfillments db' !! fid);
  er_reimbs rid r : reimbursements db !! rid = Some r →
    reimbursements db' !! rid = Some r ∨
    reimbursements db' !! rid = None ∧ lists db' !! r_list_id r = None;
  er_items id li : list_items db !! id = Some li → li_status li = Item_Settled →
    (∃ li', list_items db' !! id = Some li' ∧ same_item li li') ∨
    list_items db' !! id = None ∧ lists db' !! li_list_id li = None;
  er_bought fid f li : fulfillments db !! fid = Some f → list_items db !! f_list_item_id f = Some li →
    li_status li = Item_Settled →
    (∃ f', fulfillments db' !! fid = Some f' ∧ f' = f <| f_claim_id := f_claim_id f' |>) ∨
    fulfillments db' !! fid = None ∧ lists db' !! li_list_id li = None
}.

Lemma erases_refl db : erases db db.
Proof.
  split; eauto.
  - intros fid e. split; [|by intros [? _]]. intros He. split; [done|]. rewrite lookup_book in He.
    by destruct (fulfillments db !! fid).
  - intros id li Hl _. left. by exists li.
  - intros fid f li Hf _ _. left. exists f. split; [done|by destruct f].
Qed.

Section Erased.
Context {db db' : Db} (Hpr : prunes db db') (Hinv : Inv db).

(** A debt that is left keeps its status, and one that is gone owed nothing
    for a purchase that is left. *)
Lemma prunes_paid fid f : fulfillments db !! fid = Some f → is_Some (list_items db' !! f_list_item_id f) →
  is_paid db' f = is_paid db f.
Proof.
  intros Hf Hli. apply eq_true_iff_eq. rewrite !is_paid_true. split; intros (rid & r & Hr & Hp & Hs);
    exists rid, r; rewrite prunes_pays in * by done; split; try done; [by apply (pr_reimbs _ _ Hpr)|].
  apply (pr_kept_reimbs _ _ Hpr); [done|]. apply pays_true in Hp as (_ & li & Hl & <- & _).
  destruct Hli as [li' Hl']. destruct (pr_items _ _ Hpr _ _ Hl'). by simplify_eq.
Qed.

Lemma prunes_book fid e : book_of db' !! fid = Some e ↔
  book_of db !! fid = Some e ∧ is_Some (fulfillments db' !! fid).
Proof.
  rewrite !lookup_book. split.
  - destruct (fulfillments db' !! fid) as [f'|] eqn:Hf'; [cbn|done]. intros He. split; [|done].
    destruct (pr_bought _ _ Hpr _ _ Hf') as (f & Hf & Heq & Hli). rewrite Hf. cbn.
    rewrite <- He, Heq. unfold entry_of. cbn.
    change (is_paid db' (f <| f_claim_id := f_claim_id f' |>)) with (is_paid db' f).
    by rewrite (prunes_paid _ _ Hf Hli).
  - intros [He [f' Hf']]. rewrite Hf'. cbn.
    destruct (pr_bought _ _ Hpr _ _ Hf') as (f & Hf & Heq & Hli). rewrite Hf in He. cbn in He.
    rewrite <- He, Heq. unfold entry_of. cbn.
    change (is_paid db' (f <| f_claim_id := f_claim_id f' |>)) with (is_paid db' f).
    by rewrite (prunes_paid _ _ Hf Hli).
Qed.

Lemma prunes_erases : erases db db'.
Proof.
  split; [exact prunes_book|..].
  - intros rid r Hr. destruct (lists db' !! r_list_id r) as [l|] eqn:Hl.
    + left. by apply (pr_kept_reimbs _ _ Hpr).
    + right. split; [|done]. destruct (reimbursements db' !! rid) as [r'|] eqn:Hr'; [|done].
      destruct (pr_reimbs _ _ Hpr _ _ Hr') as [Hr0 [? ?]]. congruence.
  - intros id li Hl Hs. destruct (lists db' !! li_list_id li) as [l|] eqn:Hll.
    + destruct (pr_kept_items _ _ Hpr _ _ Hl) as [?|?]; [by eexists| |done]. left. by exists li.
    + right. split; [|done]. destruct (list_items db' !! id) as [li'|] eqn:Hl'; [|done].
      destruct (pr_items _ _ Hpr _ _ Hl') as [Hl0 [? ?]]. congruence.
  - intros fid f li Hf Hl Hs. destruct (lists db' !! li_list_id li) as [l|] eqn:Hll.
    + destruct (pr_kept_items _ _ Hpr _ _ Hl) as [Hk|?]; [by eexists| |done].
      destruct (pr_kept_bought _ _ Hpr _ _ Hf (ex_intro _ _ Hk)) as [f' Hf']. left. exists f'.
      split; [done|]. destruct (pr_bought _ _ Hpr _ _ Hf') as (f0 & Hf0 & ? & _). by simplify_eq.
    + right. split; [|done]. destruct (fulfillments db' !! fid) as [f'|] eqn:Hf'; [|done].
      destruct (pr_bought _ _ Hpr _ _ Hf') as (f0 & Hf0 & _ & [li' Hl']). simplify_eq.
      destruct (pr_items _ _ Hpr _ _ Hl') as [Hl0 [? ?]]. congruence.
Qed.
End Erased.
End Prunes.
