(* ===== verification/Editing.v ===== *)
(** * The list handlers keep the ledger invariant

    [Lists] and [Items] against [Edits] and [Prunes]. *)

From Stdlib Require Import ZArith Lia.
From stdpp Require Import base tactics decidable option list gmap strings.
From S2P Require Import Prelude Effect Money Unicode Domain Host Schema Fixtures Errors Within.
From S2P Require Import Multibuy Market Config Extract Webhooks Detail Fulfillment Pricing Lists Items.
From S2P Require Import Claims Reimbursements Invariant Book InvariantItems InvariantMoney Preservation.
From S2P Require Import Edits Prunes.

Section Editing.
Context `{RT : Runtime} {MA : MarketApi} {CFG : AppConfig} {RD : RustDecimal}.
Implicit Types (db : Db) (li : ListItemRow) (f : FulfillmentRow) (r : ReimbursementRow).

(** ** Statements *)

Lemma ledger_within {E A} (m : M Db E A) : within same_ledger m → within edits m.
Proof. apply within_sub, same_ledger_edits. Qed.

Lemma load_list_detail_within lid viewer role : within same_ledger (load_list_detail lid viewer role).
Proof. intros db d db' ->%load_list_detail_Ok. done. Qed.

Lemma fire_webhook_within g e : within same_ledger (fire_webhook g e).
Proof. intros db u db' H%fire_webhook_Ok. by apply queue_only_ledger. Qed.

Lemma lock_list_within lid : within same_ledger (lock_list lid).
Proof. by intros db u db' [-> _]%lock_list_Ok. Qed.

(** What the price refresh and the type resolution write: their two caches. *)
Definition caches db db' : Prop :=
  ∃ tc mp n, db' = db <| type_cache := tc |> <| market_prices := mp |> <| db_draws := n |>.

#[export] Instance caches_preorder : PreOrder caches.
Proof.
  split.
  - intros db. exists (type_cache db), (market_prices db), (db_draws db). by destruct db.
  - intros db1 db2 db3 (a & b & c & ->) (a' & b' & c' & ->). exists a', b', c'. by destruct db1.
Qed.

Lemma caches_ledger db db' : caches db db' → same_ledger db db'.
Proof. intros (tc & mp & n & ->). by split. Qed.

Lemma resolve_type_ids_caches names : within caches (resolve_type_ids names).
Proof.
  intros db [resolved unresolved] db' Hrun. apply resolve_type_ids_run in Hrun as [types [_ _ _ _ [f ->]]].
  exists (f (type_cache db)), (market_prices db), (db_draws db). by destruct db.
Qed.

Lemma upsert_price_row_caches mid t agg : within caches (upsert_price_row mid t agg).
Proof.
  intros db u db' Hrun. apply upsert_price_row_Ok in Hrun as (row & _ & ->).
  exists (type_cache db), (<[(mid, t) := row]> (market_prices db)), (db_draws db). by destruct db.
Qed.

#[local] Hint Resolve resolve_type_ids_caches upsert_price_row_caches : within.

Lemma fetch_prices_caches g mkts ts : within caches (fetch_prices_for_markets g mkts ts).
Proof.
  unfold fetch_prices_for_markets, anyhow, fetch_market, get_or_refresh_prices, refresh_into,
    refresh_one, read_group_citadel_prices, read_cached_prices. within_solve.
Qed.

Lemma load_markets_caches ids : within caches (load_markets ids).
Proof. unfold load_markets. within_solve. Qed.

Lemma validate_markets_caches g mkts : within caches (validate_markets_for_group g mkts).
Proof. unfold validate_markets_for_group. within_solve. Qed.

Lemma resolve_opt_caches name : within caches (resolve_opt name).
Proof. unfold resolve_opt, resolve_one, anyhow. within_solve. Qed.

Lemma resolve_type_ids_within names : within same_ledger (resolve_type_ids names).
Proof. apply (within_sub caches), resolve_type_ids_caches. apply caches_ledger. Qed.

Lemma fetch_prices_within g mkts ts : within same_ledger (fetch_prices_for_markets g mkts ts).
Proof. apply (within_sub caches), fetch_prices_caches. apply caches_ledger. Qed.

Lemma load_markets_within ids : within same_ledger (load_markets ids).
Proof. apply (within_sub caches), load_markets_caches. apply caches_ledger. Qed.

Lemma validate_markets_within g mkts : within same_ledger (validate_markets_for_group g mkts).
Proof. apply (within_sub caches), validate_markets_caches. apply caches_ledger. Qed.

Lemma upsert_price_row_within mid t agg : within same_ledger (upsert_price_row mid t agg).
Proof. apply (within_sub caches), upsert_price_row_caches. apply caches_ledger. Qed.

Lemma new_uuid_within : within same_ledger new_uuid.
Proof. intros db u db' Hrun. inv_sql. by split. Qed.

#[local] Hint Resolve load_list_detail_within fire_webhook_within lock_list_within
  resolve_type_ids_within new_uuid_within : within.

Lemma insert_list_market_within lid p m : within same_ledger (insert_list_market lid p m).
Proof. unfold insert_list_market. within_solve. by split. Qed.

#[local] Hint Resolve fetch_prices_within load_markets_within validate_markets_within
  insert_list_market_within ledger_within : within.

(** An UPDATE of a list's other columns. *)
Lemma edits_update_lists db P (g : ListRow → ListRow) :
  (∀ l, l_payer_corp_id (g l) = l_payer_corp_id l ∧ l_tip_pct (g l) = l_tip_pct l) →
  edits db (db <| lists ::= update_where P g |>).
Proof.
  intros Hg. split; try done; try by left.
  - intros lid l Hl. set_simpl. rewrite lookup_update_where, Hl. cbn. eexists. split; [done|].
    destruct (Hg l) as [H1 H2]. destruct (P lid l); split; auto.
  - intros lid l' Hl' Hn. set_simpl. by rewrite lookup_update_where, Hn in Hl'.
  - intros id li Hl. by exists li.
  - intros id li' Hl Hn. set_simpl. congruence.
Qed.

(** An UPDATE of items that only reworks those it may. *)
Lemma edits_update_items db P (g : ListItemRow → ListItemRow) :
  (∀ id li, list_items db !! id = Some li → P id li = true → item_edited li (g li)) →
  edits db (db <| list_items ::= update_where P g |>).
Proof.
  intros Hg. split; try done; try by left.
  - intros lid l Hl. exists l. split; [done|]. split; [done|by left].
  - intros lid l' Hl Hn. set_simpl. congruence.
  - intros id li Hl. set_simpl. rewrite lookup_update_where, Hl. cbn. eexists. split; [done|].
    destruct (P id li) eqn:HP; [eauto|reflexivity].
  - intros id li' Hl Hn. set_simpl. by rewrite lookup_update_where, Hn in Hl.
Qed.

Lemma insert_list_within g u label notes total : within edits (insert_list g u label notes total).
Proof.
  intros db id db' Hrun. unfold insert_list in Hrun. inv_sql. set_simpl. bool_simpl.
  rewrite row_exists_false in *. rewrite !Z.leb_le in *.
  split; try done; try by left.
  - intros lid l Hl. set_simpl. exists l. rewrite lookup_insert_ne by congruence.
    split; [done|]. split; [done|by left].
  - intros lid l' Hl' Hn. set_simpl. apply lookup_insert_Some in Hl' as [[_ <-]|[_ Hl]];
      [by split|congruence].
  - intros id li Hl. by exists li.
  - intros id li' Hl Hn. set_simpl. congruence.
Qed.

Lemma insert_list_item_within lid u it : within edits (insert_list_item lid u it).
Proof.
  intros db x db' Hrun. unfold insert_list_item in Hrun. inv_sql. set_simpl.
  match goal with H : price_column _ _ = _ |- _ => apply price_column_Ok in H as (-> & _) end.
  rewrite negb_true_iff, row_exists_false, Z.ltb_lt, !row_exists_true in *.
  split; try done; try by left.
  - intros lid0 l Hl. exists l. split; [done|]. split; [done|by left].
  - intros lid0 l' Hl Hn. set_simpl. congruence.
  - intros id li Hl. set_simpl. exists li. by rewrite lookup_insert_ne by congruence.
  - intros id li' Hl' Hn. set_simpl. apply lookup_insert_Some in Hl' as [[_ <-]|[_ Hl]];
      [|congruence].
    split; [done|]. split; [done|]. split; [done|]. split; [done|]. eauto.
Qed.

Lemma touch_list_within lid : within edits (touch_list lid).
Proof. unfold touch_list. within_solve. by apply edits_update_lists. Qed.

Lemma set_list_total_within lid total : within edits (set_list_total lid total).
Proof. unfold set_list_total. within_solve. by apply edits_update_lists. Qed.

Lemma set_estimate_within e : within edits (set_estimate e).
Proof.
  unfold set_estimate, price_column. destruct e as [id [u m]]. within_solve;
    apply edits_update_items; intros; by apply same_item_edited.
Qed.

#[local] Hint Resolve insert_list_within insert_list_item_within touch_list_within
  set_list_total_within set_estimate_within : within.

Lemma recompute_estimates_within lid t : within edits (recompute_estimates lid t).
Proof.
  unfold recompute_estimates. generalize RECOMPUTE_RETRY_LIMIT. intros n. revert t.
  induction n as [|n IH]; intros t; cbn [recompute_loop]; [apply within_throw|].
  unfold write_estimates, sum_estimate, add_estimate. within_solve.
Qed.

#[local] Hint Resolve recompute_estimates_within : within.

(** ** Handlers *)

Lemma edits_create cur body : within edits (create cur body).
Proof.
  unfold create, anyhow, require_lists_quota, check_lists_quota, price_line, add_estimate.
  within_solve.
Qed.

Lemma edits_preview cur body : within edits (preview cur body).
Proof. unfold preview, anyhow. within_solve. Qed.

Lemma edits_patch_list cur body : within edits (patch_list cur body).
Proof.
  unfold patch_list. within_solve. apply edits_update_lists. intros l. unfold apply_patch.
  by repeat case_match.
Qed.

Lemma edits_patch_list_status lid u st : within edits (do_patch_list_status lid u st).
Proof. unfold do_patch_list_status. within_solve. by apply edits_update_lists. Qed.

Lemma edits_replace_markets cur body : within edits (replace_markets cur body).
Proof. unfold replace_markets. within_solve. apply same_ledger_edits. by split. Qed.

Lemma edits_add_items cur body : within edits (add_items cur body).
Proof. unfold add_items, anyhow, resolved_row. within_solve. Qed.

(** Nobody has bought any of the item. *)
Definition untouched db (item_id : Uuid) : Prop := live_qty (fulfillments db) item_id = 0%Z.

Lemma lock_item_Ok lid id db st db' :
  lock_item lid id db = Ok (st, db') →
  db' = db ∧ ∃ li, list_items db !! id = Some li ∧ li_list_id li = lid ∧ li_status li = st.
Proof.
  unfold lock_item. intros Hrun. inv_sql.
  match goal with H : lock_list _ _ = _ |- _ => apply lock_list_Ok in H as [-> _] end.
  simplify_option_eq. eauto.
Qed.

Lemma require_item_open_Ok verb st : require_item_open verb st = Ok () → st = Item_Open.
Proof. unfold require_item_open. case_match; [done|]. by bool_simpl. Qed.

Lemma resolve_opt_within name : within same_ledger (resolve_opt name).
Proof. apply (within_sub caches), resolve_opt_caches. apply caches_ledger. Qed.

(** The item is open with this much bought of it. *)
Definition reworkable db (item_id : Uuid) (bought : Z) : Prop :=
  ∀ li, list_items db !! item_id = Some li → li_status li = Item_Open ∧ li_qty_fulfilled li = bought.

Definition reworks (item_id : Uuid) (bought : Z) db db' : Prop :=
  reworkable db item_id bought → edits db db' ∧ reworkable db' item_id bought.

Lemma reworks_update lid id n (g : ListItemRow → ListItemRow) db :
  (∀ li, (li_list_id (g li), li_requested_by_user_id (g li), li_status (g li), li_qty_fulfilled (g li)) =
         (li_list_id li, li_requested_by_user_id li, li_status li, li_qty_fulfilled li) ∧
         (li_qty_requested (g li) = li_qty_requested li ∨ (n < li_qty_requested (g li))%Z)) →
  reworks id n db (db <| list_items ::=
    update_where (λ k li, (k == id) && (li_list_id li == lid)) g |>).
Proof.
  intros Hg Hre. split.
  - apply edits_update_items. intros k li Hl Hk. bool_simpl. destruct (Hre _ Hl) as [Hst Hz].
    destruct (Hg li) as [Hkey Hq]. split; [done| |congruence]. rewrite Hz. destruct Hq; auto.
  - intros li' Hl'. set_simpl. apply lookup_update_where_Some in Hl' as (li & Hl & ->).
    destruct (Hre _ Hl). destruct (Hg li) as [[= _ _ H1 H2] _]. case_match; [|done].
    by rewrite H1, H2.
Qed.

Lemma reworks_patch lid id n (qty : option Z) (rt : option ResolvedType) db u1 db1 u2 db2 :
  (match qty with
   | Some qty => update_item lid id (λ li, li <| li_qty_requested := qty |>)
   | None => mret tt
   end : Handler unit) db = Ok (u1, db1) →
  (match rt with
   | Some rt => update_item lid id
       (λ li, li <| li_type_id := rt_type_id rt |> <| li_type_name := utf8 (rt_type_name rt) |>)
   | None => mret tt
   end : Handler unit) db1 = Ok (u2, db2) →
  (∀ q, qty = Some q → (n < q)%Z) → reworkable db id n → edits db db2.
Proof.
  intros H1 H2 Hq Hre.
  assert (edits db db1 ∧ reworkable db1 id n) as [He1 Hre1].
  { destruct qty; unfold update_item in H1; inv_sql; [|done]. apply reworks_update; [|done].
    intros li. split; [done|right; by apply Hq]. }
  etransitivity; [exact He1|]. destruct rt; unfold update_item in H2; inv_sql; [|done].
  eapply reworks_update; [|exact Hre1]. intros li. split; [done|by left].
Qed.

(** An edit asks for more than is bought of the item. *)
Definition raises_above_bought db (item_id : Uuid) (body : PatchItemBody) : Prop :=
  ∀ qty, pib_qty_requested body = Some qty → (live_qty (fulfillments db) item_id < qty)%Z.

(** Reworking an item nobody has claimed. *)
Lemma edits_patch_item cur id body db d db' :
  patch_item cur id body db = Ok (d, db') → raises_above_bought db id body → Inv db → edits db db'.
Proof.
  unfold patch_item. intros Hrun Hun Hinv. inv_sql.
  match goal with H : resolve_opt _ _ = _ |- _ => apply resolve_opt_within in H; rename H into Hs end.
  match goal with H : lock_item _ _ _ = _ |- _ =>
    apply lock_item_Ok in H as [-> (li & Hl & Hlid & Hst)] end.
  match goal with H : require_item_open _ _ = _ |- _ => apply require_item_open_Ok in H as -> end.
  match goal with H : touch_list _ _ = _ |- _ => apply touch_list_within in H; rename H into Ht end.
  match goal with H : recompute_estimates _ _ _ = _ |- _ =>
    apply recompute_estimates_within in H; rename H into Hr end.
  match goal with H : load_list_detail _ _ _ _ = _ |- _ => apply load_list_detail_Ok in H; subst end.
  etransitivity; [by apply same_ledger_edits|]. etransitivity; [|etransitivity; [exact Ht|exact Hr]].
  eapply (reworks_patch _ _ (live_qty (fulfillments db) id)); [eassumption..|exact Hun|].
  intros li0 Hl0. rewrite Hl in Hl0. injection Hl0 as <-. split; [done|].
  rewrite (sl_items _ _ Hs) in Hl. by rewrite (item_live _ _ _ _ (inv_items _ Hinv _ _ Hl)).
Qed.

(** ** Deletions *)

Lemma cascade_lists_prunes doomed db : Inv db → prunes db (cascade_lists doomed db).
Proof.
  intros Hinv. set (db' := cascade_lists doomed db).
  assert (lists db' = delete_where (λ k _, doomed k) (lists db)) as Els by reflexivity.
  assert (list_items db' = delete_where (λ _ li, doomed (li_list_id li)) (list_items db)) as Eli
    by reflexivity.
  assert (claims db' = delete_where (λ _ c, doomed (cl_list_id c)) (claims db)) as Ecl by reflexivity.
  assert (claim_items db' = delete_where (λ k _, claim_doomed doomed db k.1 ||
    item_doomed doomed db k.2) (claim_items db)) as Eci by reflexivity.
  assert (fulfillments db' = update_each (λ _, unclaim (claim_doomed doomed db))
    (delete_where (λ _ f, item_doomed doomed db (f_list_item_id f)) (fulfillments db))) as Efs
    by reflexivity.
  assert (reimbursements db' = delete_where (λ _ r, doomed (r_list_id r)) (reimbursements db)) as Ers
    by reflexivity.
  assert (contract_match_suggestions db' = delete_where (λ _ s, reimb_doomed doomed db
    (s_reimbursement_id s)) (contract_match_suggestions db)) as Esg by reflexivity.
  assert (users db' = users db ∧ principals db' = principals db ∧ group_corps db' = group_corps db)
    as (Eu & Ep & Eg) by by split_and!.
  clearbody db'.
  assert (∀ id, is_Some (list_items db' !! id) ↔
    ∃ li, list_items db !! id = Some li ∧ doomed (li_list_id li) = false) as Hitems.
  { intros id. rewrite Eli. unfold is_Some. by setoid_rewrite lookup_delete_where_Some. }
  assert (∀ lid, is_Some (lists db' !! lid) ↔ is_Some (lists db !! lid) ∧ doomed lid = false) as Hlists.
  { intros lid. rewrite Els. unfold is_Some. setoid_rewrite lookup_delete_where_Some. naive_solver. }
  split; [done|done|by rewrite Eg|..].
  - intros lid l. rewrite Els. by intros [? _]%lookup_delete_where_Some.
  - intros id li. rewrite Eli, Hlists. intros [Hl Hd]%lookup_delete_where_Some.
    split_and!; [done|by eapply refs_item; [apply Hinv|]|done].
  - intros id li Hl. rewrite Eli, Hlists. intros [_ Hd]. left. by apply lookup_delete_where_Some.
  - intros cid c. rewrite Ecl. by intros [? _]%lookup_delete_where_Some.
  - intros k ci. rewrite Eci, Ecl, Hitems.
    intros [Hci [Hd1 Hd2]%orb_false_iff]%lookup_delete_where_Some. split; [done|].
    destruct (inv_targets _ Hinv k (ex_intro _ _ Hci)) as (c & li & Hc & Hl & _).
    unfold claim_doomed, item_doomed in *. rewrite Hc in Hd1. rewrite Hl in Hd2.
    split; [|by exists li]. exists c. by apply lookup_delete_where_Some.
  - intros k ci Hci. rewrite Hitems. intros (li & Hl & Hd). rewrite Eci. apply lookup_delete_where_Some.
    split; [done|]. destruct (inv_targets _ Hinv k (ex_intro _ _ Hci)) as (c & li' & Hc & Hl' & E).
    simplify_eq. unfold claim_doomed, item_doomed. by rewrite Hl, Hc, <- E, Hd.
  - intros fid f'. rewrite Efs, lookup_update_each. setoid_rewrite Hitems.
    intros (f & [Hf Hd]%lookup_delete_where_Some & ->)%fmap_Some. exists f. split; [done|]. split.
    + unfold unclaim. destruct f as [? [c|]]; cbn; [|done]. by destruct (claim_doomed doomed db c).
    + destruct (inv_fulfillments _ Hinv _ _ Hf) as [_ _ (li & Hl & _) _]. exists li. split; [done|].
      unfold item_doomed in Hd. by rewrite Hl in Hd.
  - intros fid f Hf. rewrite Hitems, Efs, lookup_update_each, fmap_is_Some. intros (li & Hl & Hd).
    exists f. apply lookup_delete_where_Some. unfold item_doomed. by rewrite Hl.
  - intros rid r. rewrite Ers, Hlists. intros [Hr Hd]%lookup_delete_where_Some. split; [done|].
    split; [|done]. destruct (inv_reimbs _ Hinv _ _ Hr) as [_ (l & Hl & _) _ _]. eauto.
  - intros rid r fid f. rewrite Ers, Hitems. intros [Hr Hd]%lookup_delete_where_Some Hf _.
    rewrite pays_true. intros (_ & li & Hl & E & _). exists li. by rewrite E.
  - intros rid r Hr. rewrite Hlists, Ers. intros [_ Hd]. by apply lookup_delete_where_Some.
  - intros k s. rewrite Esg. by intros [? _]%lookup_delete_where_Some.
Qed.

(** The item is not settled yet. *)
Definition unsettled db (item_id : Uuid) : Prop :=
  ∀ li, list_items db !! item_id = Some li → li_status li ≠ Item_Settled.

Lemma cascade_item_prunes item_id db :
  Inv db → untouched db item_id → unsettled db item_id → prunes db (cascade_item item_id db).
Proof.
  intros Hinv Hun Hopen. set (db' := cascade_item item_id db).
  assert (list_items db' = delete item_id (list_items db)) as Eli by reflexivity.
  assert (claim_items db' = delete_where (λ k _, k.2 == item_id) (claim_items db)) as Eci by reflexivity.
  assert (fulfillments db' = delete_where (λ _ f, f_list_item_id f == item_id) (fulfillments db)) as Efs
    by reflexivity.
  assert (users db' = users db ∧ principals db' = principals db ∧ group_corps db' = group_corps db ∧
    lists db' = lists db ∧ claims db' = claims db ∧ reimbursements db' = reimbursements db ∧
    contract_match_suggestions db' = contract_match_suggestions db)
    as (Eu & Ep & Eg & Els & Ecl & Ers & Esg) by by split_and!.
  clearbody db'.
  assert (∀ id, is_Some (list_items db' !! id) ↔ id ≠ item_id ∧ is_Some (list_items db !! id)) as Hitems.
  { intros id. rewrite Eli. unfold is_Some. setoid_rewrite lookup_delete_Some. naive_solver. }
  split; rewrite ?Eg, ?Els, ?Ecl, ?Ers, ?Esg; try done.
  - intros id li. rewrite Eli. intros [Hne Hl]%lookup_delete_Some. split; [done|].
    by eapply refs_item; [apply Hinv|].
  - intros id li Hl _. rewrite Eli. destruct (decide (id = item_id)) as [->|Hne]; [right; eauto|left].
    by rewrite lookup_delete_ne by congruence.
  - intros k ci. rewrite Eci, Hitems. intros [Hci Hk]%lookup_delete_where_Some. bool_simpl.
    destruct (inv_targets _ Hinv k (ex_intro _ _ Hci)) as (c & li & Hc & Hl & _). eauto 6.
  - intros k ci Hci. rewrite Hitems, Eci. intros [Hne _]. apply lookup_delete_where_Some.
    split; [done|by apply bool_decide_eq_false].
  - intros fid f'. rewrite Efs. intros [Hf Hd]%lookup_delete_where_Some. bool_simpl. exists f'.
    split; [done|]. split; [by destruct f'|]. rewrite Hitems. split; [done|].
    destruct (inv_fulfillments _ Hinv _ _ Hf) as [_ _ (li & Hl & _) _]. eauto.
  - intros fid f Hf. rewrite Hitems, Efs. intros [Hne _]. exists f. apply lookup_delete_where_Some.
    split; [done|by apply bool_decide_eq_false].
  - intros rid r Hr. split; [done|]. destruct (inv_reimbs _ Hinv _ _ Hr) as [_ (l & Hl & _) _ _]. eauto.
  - intros rid r fid f Hr Hf Hrev _. rewrite Hitems.
    destruct (inv_fulfillments _ Hinv _ _ Hf) as [Hpos _ (li & Hl & _) _]. split; [|eauto].
    intros He. unfold untouched, live_qty, sum_where in Hun.
    rewrite (sum_of_delete _ _ _ _ Hf) in Hun.
    assert (live_of item_id f = true) as Hlo.
    { unfold live_of. rewrite He, Hrev. by rewrite bool_decide_eq_true_2. }
    rewrite Hlo in Hun. enough (0 ≤ sum_of (λ _ f, if live_of item_id f then f_qty f else 0)%Z
      (delete fid (fulfillments db)))%Z by lia.
    apply live_qty_nonneg. intros k f0 [_ Hf0]%lookup_delete_Some.
    by destruct (inv_fulfillments _ Hinv _ _ Hf0).
Qed.

(** A deletion leaves the invariant to what remains. *)
Definition deletes db db' : Prop := Inv db' ∧ erases db db'.

Lemma prunes_deletes db db' : prunes db db' → Inv db → deletes db db'.
Proof. intros Hpr Hinv. split; [by eapply Inv_prunes|by eapply prunes_erases]. Qed.

(** Editing what is left, no list of which was deleted. *)
Lemma deletes_edits db db1 db2 :
  deletes db db1 → (∀ lid, is_Some (lists db !! lid) → is_Some (lists db1 !! lid)) →
  edits db1 db2 → quantities_ok db2 → Inv db → deletes db db2.
Proof.
  intros [Hinv1 [A B C D]] Hls He Hq Hinv. split; [by eapply Inv_edits|].
  assert (∀ lid, is_Some (lists db !! lid) → lists db1 !! lid ≠ None) as Hkept.
  { intros lid [l Hl]%Hls. congruence. }
  split.
  - intros fid e. rewrite (edits_book _ _ He Hinv1), (ed_fulfillments _ _ He). apply A.
  - intros rid r Hr. rewrite (ed_reimbs _ _ He). left.
    destruct (inv_reimbs _ Hinv _ _ Hr) as [_ (l & Hl & _) _ _].
    destruct (B _ _ Hr) as [?|[_ Hn]]; [done|]. by destruct (Hkept _ (ex_intro _ _ Hl)).
  - intros id li Hl Hs. left. pose proof (refs_item _ (inv_refs _ Hinv) _ _ Hl) as Hll.
    destruct (C _ _ Hl Hs) as [(li1 & Hl1 & Hsame)|[_ Hn]]; [|by destruct (Hkept _ Hll)].
    destruct (ed_items _ _ He _ _ Hl1) as (li2 & Hl2 & [_ _ Hsame2]). exists li2. split; [done|].
    etransitivity; [done|]. apply Hsame2. by rewrite (same_item_status _ _ Hsame).
  - intros fid f li Hf Hl Hs. rewrite (ed_fulfillments _ _ He). left.
    pose proof (refs_item _ (inv_refs _ Hinv) _ _ Hl) as Hll.
    destruct (D _ _ _ Hf Hl Hs) as [?|[_ Hn]]; [done|by destruct (Hkept _ Hll)].
Qed.

Lemma deletes_delete_list cur db u db' : delete_list cur db = Ok (u, db') → Inv db → deletes db db'.
Proof.
  unfold delete_list. intros Hrun Hinv. inv_sql.
  match goal with H : when _ _ _ = _ |- _ => apply when_Ok in H end.
  case_match; inv_sql; [|subst; split; [done|apply erases_refl]].
  apply prunes_deletes; [by apply cascade_lists_prunes|done].
Qed.

(** Deleting an item, then recomputing the list's estimates. *)
Lemma deletes_delete_item cur id db d db' :
  delete_item cur id db = Ok (d, db') → untouched db id → quantities_ok db' → Inv db → deletes db db'.
Proof.
  unfold delete_item. intros Hrun Hun Hq Hinv. inv_sql.
  match goal with H : lock_item _ _ _ = _ |- _ =>
    apply lock_item_Ok in H as [-> (li & Hl & _ & Hst)] end.
  match goal with H : require_item_open _ _ = _ |- _ => apply require_item_open_Ok in H as -> end.
  match goal with H : touch_list _ _ = _ |- _ => apply touch_list_within in H; rename H into Ht end.
  match goal with H : recompute_estimates _ _ _ = _ |- _ =>
    apply recompute_estimates_within in H; rename H into Hr end.
  match goal with H : load_list_detail _ _ _ _ = _ |- _ => apply load_list_detail_Ok in H; subst end.
  eapply (deletes_edits _ (cascade_item id db)); [|by intros lid|etransitivity; [exact Ht|exact Hr]|done|done].
  apply prunes_deletes; [|done]. apply cascade_item_prunes; [done|done|].
  intros li0 Hl0. rewrite Hl in Hl0. by injection Hl0 as <-; rewrite Hst.
Qed.
End Editing.
