(* ===== verification/Growth.v ===== *)
(** * Groups and corporations under the ledger invariant

    What [Groups] and [Corps] do to the tables the invariant is about: most
    of it nothing, linking a corporation adds its principal before the link,
    the payer of a list changes only while nothing is owed on it, and a group
    goes with its lists. *)

From Stdlib Require Import ZArith Lia.
From stdpp Require Import base tactics decidable option list gmap strings.
From S2P Require Import Prelude Effect Money Domain Host Schema Errors Within Config Extract Detail.
From S2P Require Import Fulfillment Claims Reimbursements Lists Groups Corps.
From S2P Require Import Invariant Book InvariantItems InvariantMoney Preservation Edits Prunes Editing.

Section Growth.
Context `{RT : Runtime} {CFG : AppConfig} {IC : InviteCodes} {CE : CorpEsi}.
Implicit Types (db : Db).

(** ** Groups *)

Ltac same := split; reflexivity.

Lemma with_invite_code_within attempts failed store :
  (∀ code, within same_ledger (store code)) →
  within same_ledger (with_invite_code attempts failed store).
Proof.
  intros Hs. revert failed. induction attempts as [|n IH]; intros failed; cbn [with_invite_code];
    [apply within_ret; typeclasses eauto|].
  apply within_bind; [typeclasses eauto| |intros code].
  - intros db c db' Hrun. unfold random_invite_code in Hrun. inv_M. same.
  - unfold in_request_tx. within_solve.
Qed.

Lemma create_group_within u name : within same_ledger (create_group u name).
Proof.
  unfold create_group, lock_user_for_quota, require_group_quota, check_group_quota, insert_membership.
  within_solve; try same. apply with_invite_code_within. intros code. unfold insert_group.
  within_solve; try same. apply new_uuid_within.
Qed.

Lemma join_group_within u code : within same_ledger (join_group u code).
Proof.
  unfold join_group, lock_user_for_quota, require_group_quota, check_group_quota, insert_membership.
  within_solve. same.
Qed.

Lemma leave_within cur : within same_ledger (leave cur).
Proof. unfold leave. within_solve. same. Qed.

Lemma rotate_invite_within cur : within same_ledger (rotate_invite cur).
Proof.
  unfold rotate_invite. within_solve. apply with_invite_code_within. intros code.
  unfold store_invite_code. within_solve. same.
Qed.

Lemma cascade_group_prunes g db : Inv db → prunes db (cascade_group g db).
Proof.
  intros Hinv. pose proof (cascade_lists_prunes (list_of_group db g) db Hinv) as Hpr.
  assert (group_corps (cascade_lists (list_of_group db g) db) = group_corps db) as Eg by reflexivity.
  unfold cascade_group. revert Hpr Eg. generalize (cascade_lists (list_of_group db g) db).
  intros d Hpr Eg. apply (prunes_tables db d); [reflexivity|reflexivity| |reflexivity..|exact Hpr].
  intros k [gc Hk]. exists gc. set_simpl. by apply lookup_delete_where_Some in Hk as [? _].
Qed.

Lemma deletes_delete_group cur db u db' : delete_group cur db = Ok (u, db') → Inv db → deletes db db'.
Proof.
  unfold delete_group. intros Hrun Hinv. inv_sql.
  apply prunes_deletes; [by apply cascade_group_prunes|done].
Qed.

(** ** Corporations *)

Lemma add_ambassador_within cur c ch : within same_ledger (add_ambassador cur c ch).
Proof.
  unfold add_ambassador, require_owner, require_corp_in_group, own_character, upsert_ambassador.
  within_solve. same.
Qed.

Lemma remove_ambassador_within cur c ch : within same_ledger (remove_ambassador cur c ch).
Proof.
  unfold remove_ambassador, require_owner, require_corp_in_group. within_solve. same.
Qed.

(** Changes of the link rows alone, none of them new. *)
Lemma edits_group_corps db db' :
  users db' = users db → principals db' = principals db →
  (∀ k, is_Some (group_corps db' !! k) →
     is_Some (group_corps db !! k) ∨ is_Some (principal_of_corp db' k.2)) →
  lists db' = lists db → list_items db' = list_items db → claims db' = claims db →
  claim_items db' = claim_items db → fulfillments db' = fulfillments db →
  reimbursements db' = reimbursements db →
  contract_match_suggestions db' = contract_match_suggestions db → edits db db'.
Proof.
  intros Eu Ep Hg El Ei Ec Eci Ef Er Es.
  split; rewrite ?Eu, ?Ep, ?El, ?Ei, ?Ec, ?Eci, ?Ef, ?Er, ?Es; try done; try by left.
  - intros u p. unfold principal_of_user. by rewrite Ep.
  - intros c p. unfold principal_of_corp. by rewrite Ep.
  - intros lid l Hl. exists l. split; [done|]. split; [done|by left].
  - intros lid l H1 H2. congruence.
  - intros id li Hl. by exists li.
  - intros id li H1 H2. congruence.
Qed.

Lemma unlink_corp_within cur c : within edits (unlink_corp cur c).
Proof.
  unfold unlink_corp, unlink_link, disable_contributed, disable_corp, require_owner, require_corp_in_group. within_solve.
  - apply edits_group_corps; try reflexivity. intros k [gc Hk]. left. set_simpl.
    apply lookup_update_where_Some in Hk as (gc0 & Hk & _). by exists gc0.
  - apply same_ledger_edits. same.
  - apply same_ledger_edits. same.
Qed.

(** A new row no other row of the key competes with. *)
Lemma head_select_grow {V} (t t' : gmap Uuid V) (P : V → bool) k :
  (∀ k1 k2 v1 v2, t' !! k1 = Some v1 → t' !! k2 = Some v2 → P v1 = true → P v2 = true → k1 = k2) →
  t ⊆ t' → fst <$> head (select_where (λ _, P) t) = Some k →
  fst <$> head (select_where (λ _, P) t') = Some k.
Proof.
  intros Hu Hsub Hh. apply fmap_Some in Hh as ([k0 v] & Hh & ->).
  apply head_Some_elem_of, elem_of_select_where in Hh as [Hk HP]. cbn in *.
  eapply lookup_weaken in Hk; [|exact Hsub].
  assert ((k0, v) ∈ select_where (λ _, P) t') as Hin by by apply elem_of_select_where.
  destruct (select_where (λ _, P) t') as [|[k1 v1] rest] eqn:Hs; [set_solver|]. cbn. f_equal.
  assert ((k1, v1) ∈ select_where (λ _, P) t') as Hin1 by (rewrite Hs; left).
  apply elem_of_select_where in Hin1 as [Hk1 HP1]. by eapply Hu.
Qed.

(** A principal inserted for somebody who had none. *)
Lemma principals_grow ps id p :
  principals_ok ps → ps !! id = None →
  (∀ k p0 u, ps !! k = Some p0 → names_user u p = true → names_user u p0 = false) →
  (∀ k p0 c, ps !! k = Some p0 → names_corp c p = true → names_corp c p0 = false) →
  principals_ok (<[id := p]> ps) ∧ ps ⊆ <[id := p]> ps.
Proof.
  intros [Hu Hc] Hn Hnu Hnc. split; [split|by apply insert_subseteq].
  - intros u k1 k2 p1 p2 [[<- <-]|[_ H1]]%lookup_insert_Some [[<- <-]|[_ H2]]%lookup_insert_Some;
      intros N1 N2; [done|by rewrite (Hnu _ _ _ H2 N1) in N2|by rewrite (Hnu _ _ _ H1 N2) in N1|eauto].
  - intros c k1 k2 p1 p2 [[<- <-]|[_ H1]]%lookup_insert_Some [[<- <-]|[_ H2]]%lookup_insert_Some;
      intros N1 N2; [done|by rewrite (Hnc _ _ _ H2 N1) in N2|by rewrite (Hnc _ _ _ H1 N2) in N1|eauto].
Qed.

Lemma edits_principals db db' :
  principals_ok (principals db') → principals db ⊆ principals db' →
  (∀ u, is_Some (users db !! u) → is_Some (users db' !! u)) →
  (∀ u, is_Some (users db' !! u) → is_Some (users db !! u) ∨ is_Some (principal_of_user db' u)) →
  (∀ k, is_Some (group_corps db' !! k) →
     is_Some (group_corps db !! k) ∨ is_Some (principal_of_corp db' k.2)) →
  lists db' = lists db → list_items db' = list_items db → claims db' = claims db →
  claim_items db' = claim_items db → fulfillments db' = fulfillments db →
  reimbursements db' = reimbursements db →
  contract_match_suggestions db' = contract_match_suggestions db → edits db db'.
Proof.
  intros Hok Hsub Hu Hnu Hg El Ei Ec Eci Ef Er Es.
  split; rewrite ?El, ?Ei, ?Ec, ?Eci, ?Ef, ?Er, ?Es; try done.
  - intros u p. apply head_select_grow; [|done]. intros k1 k2 v1 v2 H1 H2. by eapply user_unique.
  - intros c p. apply head_select_grow; [|done]. intros k1 k2 v1 v2 H1 H2. by eapply corp_unique.
  - intros lid l Hl. exists l. split; [done|]. split; [done|by left].
  - intros lid l H1 H2. congruence.
  - intros id li Hl. by exists li.
  - intros id li H1 H2. congruence.
Qed.

(** The results of [gen_random_uuid()] still to come are no principal's. *)
Definition fresh_uuids db : Prop :=
  ∀ n, (db_draws db ≤ n)%N → principals db !! gen_random_uuid n = None.

Lemma upsert_corp_Ok esi name ticker db id db' :
  upsert_corp esi name ticker db = Ok (id, db') →
  same_ledger db db' ∧ (db_draws db ≤ db_draws db')%N.
Proof.
  unfold upsert_corp. intros Hrun. inv_sql. case_match; [case_match|]; inv_sql;
    (split; [same|cbn; unfold set; cbn; lia]).
Qed.

Lemma head_is_Some {A} (l : list A) x : x ∈ l → is_Some (head l).
Proof. destruct l; [set_solver|by eexists]. Qed.

Lemma insert_corp_principal_Ok c db u db' :
  insert_corp_principal c db = Ok (u, db') → principals_ok (principals db) → fresh_uuids db →
  edits db db' ∧ is_Some (principal_of_corp db' c).
Proof.
  unfold insert_corp_principal. intros Hrun Hok Hfresh. inv_sql. apply when_Ok in Hrun.
  set (id := gen_random_uuid (db_draws db)) in *.
  assert (principals db !! id = None) as Hid by (apply Hfresh; lia).
  set_simpl. unfold row_exists in Hrun at 1. rewrite Hid in Hrun. cbn in Hrun.
  destruct (sel_exists _ (principals db)) eqn:Hex; cbn in Hrun; inv_sql; subst.
  - split; [apply same_ledger_edits; same|]. apply sel_exists_true in Hex as (k & p & Hk & Hp).
    unfold principal_of_corp. set_simpl. apply fmap_is_Some. eapply head_is_Some.
    apply elem_of_select_where. by split.
  - rewrite sel_exists_false in Hex.
    set (p := mkPrincipalRow Principal_Corp None (Some c)).
    destruct (principals_grow (principals db) id p Hok Hid) as [Hok' Hsub].
    { intros k p0 u Hk Hn. by destruct (andb_prop _ _ Hn). }
    { intros k p0 c0 Hk Hn. unfold names_corp in *. cbn in Hn. bool_simpl. by apply (Hex k). }
    assert (edits db (db <| db_draws ::= N.succ |> <| principals ::= <[id := p]> |>)) as He.
    { apply edits_principals; try reflexivity; [exact Hok'|exact Hsub|done|by left|by left]. }
    split; [exact He|]. unfold principal_of_corp. set_simpl. apply fmap_is_Some. eapply head_is_Some.
    apply (elem_of_select_where _ _ id p). rewrite lookup_insert_eq. split; [done|].
    unfold p; cbn; by rewrite !bool_decide_eq_true_2.
Qed.

Lemma upsert_group_corp_edits g c u db x db' :
  upsert_group_corp g c u db = Ok (x, db') → is_Some (principal_of_corp db c) → edits db db'.
Proof.
  unfold upsert_group_corp. intros Hrun Hc. inv_sql. apply edits_group_corps; try reflexivity.
  intros k Hk. set_simpl. destruct (decide (k = (g, c))) as [->|Hne]; [by right|left].
  by rewrite lookup_insert_ne in Hk by congruence.
Qed.

Lemma upsert_ambassador_within c ch scopes via : within same_ledger (upsert_ambassador c ch scopes via).
Proof. unfold upsert_ambassador. within_solve. same. Qed.

(** Linking a corporation gives it a principal before the group may pay
    through it. *)
Lemma edits_link_corp cur ch db d db' :
  link_corp cur ch db = Ok (d, db') → fresh_uuids db → principals_ok (principals db) → edits db db'.
Proof.
  unfold link_corp, require_owner, own_character. intros Hrun Hfresh Hok. inv_sql.
  repeat case_match; inv_sql.
  match goal with H : (let '(_, _) := ?x in _) _ = Ok _ |- _ => destruct x end. inv_sql.
  match goal with H : upsert_corp _ _ _ _ = _ |- _ => apply upsert_corp_Ok in H as [Hs Hd] end.
  match goal with H : insert_corp_principal _ _ = _ |- _ =>
    apply insert_corp_principal_Ok in H as [He Hc] end;
    [|by rewrite (sl_principals _ _ Hs)|
     intros draw Hn; rewrite (sl_principals _ _ Hs); apply Hfresh; lia].
  match goal with H : upsert_group_corp _ _ _ _ = _ |- _ =>
    apply upsert_group_corp_edits in H; [rename H into Hg|done] end.
  match goal with H : upsert_ambassador _ _ _ _ _ = _ |- _ =>
    apply upsert_ambassador_within in H; rename H into Ha end.
  etransitivity; [by apply same_ledger_edits|]. etransitivity; [exact He|].
  etransitivity; [exact Hg|by apply same_ledger_edits].
Qed.

(** The payer changes while nothing is owed, to a corporation the group links. *)
Lemma edits_patch_list_payer u lid body db d db' :
  patch_list_payer u lid body db = Ok (d, db') → Inv db → edits db db'.
Proof.
  unfold patch_list_payer. intros Hrun Hinv. inv_sql.
  match goal with H : load_list_detail _ _ _ _ = _ |- _ => apply load_list_detail_Ok in H; subst end.
  match goal with H : negb (sel_exists _ _) = true |- _ =>
    apply negb_true_iff in H; rewrite sel_exists_false in H; rename H into Hnone end.
  assert (∀ c, ppb_payer_corp_id body = Some c → is_Some (principal_of_corp db c)) as Hpay.
  { intros c Hc. rewrite Hc in *. unfold require_corp_in_group, corp_in_group in *. inv_sql.
    case_match eqn:Hgc; [|done]. by apply (refs_linked _ (inv_refs _ Hinv) (_, c) (ex_intro _ _ Hgc)). }
  match goal with H : (match ppb_payer_corp_id body with _ => _ end : Handler unit) _ = Ok (_, ?d) |- _ =>
    assert (d = db) as -> by (destruct (ppb_payer_corp_id body);
      unfold require_corp_in_group in H; inv_sql; done) end.
  split; try done; try by left.
  - intros lid0 l Hl. set_simpl. rewrite lookup_update_where, Hl. cbn. eexists. split; [done|].
    destruct (decide (lid0 = lid)) as [->|Hne]; [rewrite bool_decide_eq_true_2 by done|
      rewrite bool_decide_eq_false_2 by done; split; [done|by left]].
    split; [done|right]. split; [|done]. intros rid r Hr He. specialize (Hnone _ _ Hr).
    cbn in Hnone. by rewrite bool_decide_eq_true_2 in Hnone.
  - intros lid0 l Hl Hn. set_simpl. by rewrite lookup_update_where, Hn in Hl.
  - intros id li Hl. by exists li.
  - intros id li Hl Hn. set_simpl. congruence.
Qed.
End Growth.
