(* ===== verification/Ledger.v ===== *)
(** * The ledger

    The routes of [crates/api/src/] that write (fulfillment.rs, contracts.rs,
    lists.rs, groups.rs, corps.rs), each a committed or rolled-back request,
    interleaved with the worker's transactions, as one step relation; the
    three routes that delete, as a second; and what holds of every state these
    steps reach.  Requests on one list serialize on its row lock, so an
    execution is a sequence of such steps. *)

From Stdlib Require Import ZArith Lia.
From stdpp Require Import base tactics decidable option list gmap relations strings pretty.
From S2P Require Import Prelude Effect Unicode Money Domain Host Schema Fixtures Errors.
From S2P Require Import Market Config Extract Webhooks Detail Pricing Settlement Wallet Fulfillment Claims Reimbursements.
From S2P Require Import Fulfillments Contracts Poller Matching Lists Items Groups Corps.
From S2P Require Import Invariant Book InvariantItems InvariantMoney Preservation Purchases DebtSteps WorkerSteps.
From S2P Require Import Within Edits Prunes Editing Growth.

Local Open Scope string_scope.

(** ** Requests *)

Inductive Request :=
| CreateClaim (list_id : Uuid) (body : CreateClaimBody)
| AddClaimItems (claim_id : Uuid) (item_ids : list Uuid)
| RemoveClaimItem (claim_id item_id : Uuid)
| ReleaseClaim (claim_id : Uuid)
| RecordFulfillment (list_id item_id : Uuid) (body : RecordFulfillmentBody)
| ReverseFulfillment (fulfillment_id : Uuid)
| MarkDelivered (list_id item_id : Uuid)
| SetListTip (list_id : Uuid) (tip_pct : Decimal)
| SettleReimbursement (reimbursement_id : Uuid)
| SetGroupDefaultTip (group_id : Uuid) (tip_pct : Decimal)
| ConfirmSuggestion (suggestion_id : Uuid)
| RejectSuggestion (suggestion_id : Uuid)
| ManualLink (contract_id reimbursement_id : Uuid)
| UnlinkContract (contract_id : Uuid)
| PreviewList (group_id : Uuid) (body : PreviewBody)
| CreateList (group_id : Uuid) (body : CreateBody)
| PatchList (list_id : Uuid) (body : PatchListBody)
| ReplaceMarkets (list_id : Uuid) (body : ReplaceMarketsBody)
| AddItems (list_id : Uuid) (body : AddItemsBody)
| PatchItem (list_id item_id : Uuid) (body : PatchItemBody)
| PatchListPayer (list_id : Uuid) (body : PatchListPayerBody)
| CreateGroup (name : Str)
| JoinGroup (code : string)
| LeaveGroup (group_id : Uuid)
| RotateInvite (group_id : Uuid)
| LinkCorp (group_id : Uuid) (character_id : Z)
| UnlinkCorp (group_id corp_id : Uuid)
| AddAmbassador (group_id corp_id : Uuid) (character_id : Z)
| RemoveAmbassador (group_id corp_id character_id : Uuid).

Inductive Deletion :=
| DeleteList (list_id : Uuid)
| DeleteItem (list_id item_id : Uuid)
| DeleteGroup (group_id : Uuid).

Section Ledger.
Context `{RT : Runtime} {API : EsiApi} {MA : MarketApi} {CFG : AppConfig} {RD : RustDecimal}
  {IC : InviteCodes} {CE : CorpEsi} {SA : ShareArith}.
Implicit Types (db : Db) (li : ListItemRow) (f : FulfillmentRow) (r : ReimbursementRow).

Definition on_path_list {A} (session : option Uuid) (id : Uuid) (h : CurrentList → Handler A)
    : Handler unit :=
  cur ← extract_list session None (Some id); _ ← h cur; mret tt.

Definition on_path_group {A} (session : option Uuid) (id : Uuid) (h : CurrentGroup → Handler A)
    : Handler unit :=
  cur ← extract_group session None (Some id); _ ← h cur; mret tt.

Definition on_path_claim {A} (session : option Uuid) (id : Uuid) (h : CurrentClaim → Handler A)
    : Handler unit :=
  cur ← extract_claim session None (Some id); _ ← h cur; mret tt.

Definition as_user {A} (session : option Uuid) (h : Uuid → Handler A) : Handler unit :=
  user_id ← current_user session; _ ← h user_id; mret tt.

(** The router: extraction, then the handler; the response body is dropped. *)
Definition handle (session : option Uuid) (req : Request) : Handler unit :=
  match req with
  | CreateClaim id body => on_path_list session id (λ cur, create_claim cur body)
  | AddClaimItems id items => on_path_claim session id (λ cur, add_claim_items cur items)
  | RemoveClaimItem id item => on_path_claim session id (λ cur, remove_claim_item cur item)
  | ReleaseClaim id => on_path_claim session id release_claim
  | RecordFulfillment id item body =>
      on_path_list session id (λ cur, record_fulfillment cur item body)
  | ReverseFulfillment id => as_user session (λ user, reverse_fulfillment id user)
  | MarkDelivered id item => on_path_list session id (λ cur, mark_delivered cur item)
  | SetListTip id pct => on_path_list session id (λ cur, set_list_tip cur pct)
  | SettleReimbursement id => as_user session (λ user, settle_reimbursement id user)
  | SetGroupDefaultTip id pct => on_path_group session id (λ cur, set_group_default_tip cur pct)
  | ConfirmSuggestion id => as_user session (λ user, confirm_suggestion user id)
  | RejectSuggestion id => as_user session (λ user, reject_suggestion user id)
  | ManualLink cid rid => as_user session (λ user, manual_link user cid rid)
  | UnlinkContract cid => as_user session (λ user, unlink_contract user cid)
  | PreviewList id body => on_path_group session id (λ cur, preview cur body)
  | CreateList id body => on_path_group session id (λ cur, create cur body)
  | PatchList id body => on_path_list session id (λ cur, patch_list cur body)
  | ReplaceMarkets id body => on_path_list session id (λ cur, replace_markets cur body)
  | AddItems id body => on_path_list session id (λ cur, add_items cur body)
  | PatchItem id item body => on_path_list session id (λ cur, patch_item cur item body)
  | PatchListPayer id body => as_user session (λ user, patch_list_payer user id body)
  | CreateGroup name => as_user session (λ user, create_group user name)
  | JoinGroup code => as_user session (λ user, join_group user code)
  | LeaveGroup id => on_path_group session id leave
  | RotateInvite id => on_path_group session id rotate_invite
  | LinkCorp id character => on_path_group session id (λ cur, link_corp cur character)
  | UnlinkCorp id corp => on_path_group session id (λ cur, unlink_corp cur corp)
  | AddAmbassador id corp character =>
      on_path_group session id (λ cur, add_ambassador cur corp character)
  | RemoveAmbassador id corp character =>
      on_path_group session id (λ cur, remove_ambassador cur corp character)
  end.

Definition handle_deletion (session : option Uuid) (d : Deletion) : Handler unit :=
  match d with
  | DeleteList id => on_path_list session id delete_list
  | DeleteItem id item => on_path_list session id (λ cur, delete_item cur item)
  | DeleteGroup id => on_path_group session id delete_group
  end.

(** ** Steps *)

(** The database a transaction begun at this time reads. *)
Definition at_clock (now utc : Timestamp) (db : Db) : Db :=
  db <| db_now := now |> <| db_utc_now := utc |>.

(** What is assumed of a request's outcome, beyond what the handlers check:
    requested quantities stay below [max_requested], so that a purchase on top
    cannot overflow; generated ids are new; and an edit asks for more of an
    item than is bought of it.  The handlers let an open item that is partly
    bought be edited to less, after which the bound on its quantities is gone:
    [Anomalies.edit_below_bought_breaks_bound]. *)
Definition admitted (req : Request) (db db' : Db) : Prop :=
  match req with
  | PreviewList _ _ | CreateList _ _ | PatchList _ _ | ReplaceMarkets _ _ | AddItems _ _
  | PatchListPayer _ _ | UnlinkCorp _ _ => quantities_ok db'
  | PatchItem _ item body => raises_above_bought db item body ∧ quantities_ok db'
  | LinkCorp _ _ => fresh_uuids db ∧ quantities_ok db'
  | _ => True
  end.

(** One transaction: a request, a poller's batch, a terminal transition, a run
    of the matcher, a wallet audit, a change of a user's own row
    ([Auth.set_active_character]), or any other that writes none of the
    ledger's tables (a token or price refresh, the outbox).  A login would add
    a user, but never commits, see [Auth.first_login_is_lost]. *)
Inductive step : Db → Db → Prop :=
| step_request session (req : Request) now utc db :
    let db' := (tx_middleware (handle session req) (at_clock now utc db)).2 in
    admitted req db db' → step db db'
| step_poll_character cs now utc db :
    step db (in_transaction (poll_character cs) (at_clock now utc db)).2
| step_poll_corp corp_id esi_corp_id cs now utc db :
    step db (in_transaction (poll_corp corp_id esi_corp_id cs) (at_clock now utc db)).2
| step_terminal u now utc db :
    step db (in_transaction (handle_contract_terminal u) (at_clock now utc db)).2
| step_match cid now utc db :
    step db (in_transaction (run_one cid) (at_clock now utc db)).2
| step_verify cids now utc db : step db (verify_all cids (at_clock now utc db))
| step_account user (g : UserRow → UserRow) db :
    step db (db <| users ::= update_where (λ u _, u == user) g |>)
| step_other db db' : same_ledger db db' → step db db'.

(** A deletion; of an item, only before it is first bought.  The handlers let
    an open item that is partly bought be deleted, after which its debt is for
    purchases that are gone: [Anomalies.delete_bought_item_strands_debt]. *)
Inductive erasure : Db → Db → Prop :=
| erasure_request session (d : Deletion) now utc db :
    let db' := (tx_middleware (handle_deletion session d) (at_clock now utc db)).2 in
    (∀ lid item, d = DeleteItem lid item → untouched db item) → quantities_ok db' →
    erasure db db'.

(** Lists as they are created: nothing claimed, bought or owed. *)
Record initial db : Prop := mkInitial {
  init_refs : refs_ok db;
  init_items id li : list_items db !! id = Some li →
    li_status li = Item_Open ∧ li_qty_fulfilled li = 0%Z ∧
    (0 < li_qty_requested li ≤ max_requested)%Z;
  init_claims : claims db = ∅;
  init_claim_items : claim_items db = ∅;
  init_fulfillments : fulfillments db = ∅;
  init_reimbs : reimbursements db = ∅;
  init_suggestions : contract_match_suggestions db = ∅
}.

(** The executions the invariants below speak of: steps and deletions in any
    order, [admitted] and as [erasure] has them. *)
Inductive reachable : Db → Prop :=
| reachable_initial db : initial db → reachable db
| reachable_step db db' : reachable db → step db db' → reachable db'
| reachable_erasure db db' : reachable db → erasure db db' → reachable db'.

(** ** Every step keeps the invariant and what is settled *)

Lemma at_clock_ledger now utc db : same_ledger db (at_clock now utc db).
Proof. by split. Qed.

(** The extractors read, so a route does what its handler does. *)
Lemma on_path_list_run {A} session id (h : CurrentList → Handler A) db u db' :
  on_path_list session id h db = Ok (u, db') → ∃ cur a, h cur db = Ok (a, db').
Proof.
  unfold on_path_list. intros Hrun. inv_M.
  match goal with H : extract_list _ _ _ _ = _ |- _ => apply extract_list_Ok in H as (-> & _) end.
  eauto.
Qed.

Lemma on_path_group_run {A} session id (h : CurrentGroup → Handler A) db u db' :
  on_path_group session id h db = Ok (u, db') → ∃ cur a, h cur db = Ok (a, db').
Proof.
  unfold on_path_group. intros Hrun. inv_M.
  match goal with H : extract_group _ _ _ _ = _ |- _ => apply extract_group_Ok in H as (-> & _) end.
  eauto.
Qed.

Lemma on_path_claim_run {A} session id (h : CurrentClaim → Handler A) db u db' :
  on_path_claim session id h db = Ok (u, db') →
  ∃ cur a, h cur db = Ok (a, db') ∧ claim_extracted db cur.
Proof.
  unfold on_path_claim. intros Hrun. inv_M.
  match goal with H : extract_claim _ _ _ _ = _ |- _ =>
    apply extract_claim_Ok in H as (-> & Hex & _) end.
  eauto.
Qed.

Lemma as_user_run {A} session (h : Uuid → Handler A) db u db' :
  as_user session h db = Ok (u, db') → ∃ user a, h user db = Ok (a, db').
Proof. unfold as_user, current_user. intros Hrun. inv_M. eauto. Qed.

Ltac route_run :=
  match goal with
  | H : on_path_list _ _ _ _ = _ |- _ => apply on_path_list_run in H as (cur & a & Hrun)
  | H : on_path_group _ _ _ _ = _ |- _ => apply on_path_group_run in H as (cur & a & Hrun)
  | H : on_path_claim _ _ _ _ = _ |- _ => apply on_path_claim_run in H as (cur & a & Hrun & Hex)
  | H : as_user _ _ _ = _ |- _ => apply as_user_run in H as (user & a & Hrun)
  end.

Lemma ledger_advances {A} (m : Handler A) db a db' :
  within same_ledger m → m db = Ok (a, db') → Inv db → advances db db'.
Proof. intros Hm Hrun Hinv. rewrite <- (Hm _ _ _ Hrun). by apply advances_refl. Qed.

Lemma edit_advances {A} (m : Handler A) db a db' :
  within edits m → m db = Ok (a, db') → quantities_ok db' → Inv db → advances db db'.
Proof. intros Hm Hrun Hq Hinv. apply Inv_edit; [by eapply Hm|done|done]. Qed.

#[local] Hint Resolve Inv_create_claim Inv_record_fulfillment Inv_mark_delivered Inv_set_list_tip
  Inv_add_claim_items Inv_remove_claim_item Inv_release_claim Inv_reverse_fulfillment
  Inv_settle_reimbursement Inv_confirm_suggestion Inv_reject_suggestion Inv_manual_link
  Inv_unlink_contract Inv_set_group_default_tip Inv_edit inv_refs refs_principals
  edits_patch_item edits_patch_list_payer edits_link_corp : routes.
#[local] Hint Extern 2 (advances _ _) =>
  eapply ledger_advances; [|eassumption|eassumption];
  first [apply create_group_within | apply join_group_within | apply leave_within |
    apply rotate_invite_within | apply add_ambassador_within | apply remove_ambassador_within] : routes.
#[local] Hint Extern 2 (advances _ _) =>
  eapply edit_advances; [|eassumption..];
  first [apply edits_preview | apply edits_create | apply edits_patch_list |
    apply edits_replace_markets | apply edits_add_items | apply unlink_corp_within] : routes.

Lemma handle_advances session (req : Request) db u db' :
  handle session req db = Ok (u, db') → admitted req db db' → Inv db → advances db db'.
Proof.
  destruct req; cbn [handle admitted]; intros Hreq Hadm Hinv; route_run;
    try destruct Hadm as [Hadm Hadm']; eauto 6 with routes.
Qed.

Lemma in_transaction_advances {A} (body : M Db Anyhow A) db :
  (∀ a db', body db = Ok (a, db') → Inv db → advances db db') → Inv db →
  advances db (in_transaction body db).2.
Proof.
  intros Hbody Hinv. unfold in_transaction. destruct (body db) as [[a db']|e] eqn:Hb; [eauto|].
  by apply advances_refl.
Qed.

Lemma upsert_batch_advances turn cs db us db' :
  (∀ c db o db', turn c db = Ok (o, db') → same_ledger db db') →
  upsert_batch turn cs db = Ok (us, db') → Inv db → advances db db'.
Proof.
  intros Ht Hrun Hinv. pose proof (upsert_batch_ledger _ _ _ _ _ Ht Hrun) as <-.
  by apply advances_refl.
Qed.

Lemma admitted_ledger (req : Request) now utc db db' :
  admitted req db db' → admitted req (at_clock now utc db) db'.
Proof. by destruct req. Qed.

(** A user's row is never added nor deleted by a change of it. *)
Lemma account_advances user (g : UserRow → UserRow) db :
  Inv db → advances db (db <| users ::= update_where (λ u _, u == user) g |>).
Proof.
  intros Hinv. set (db' := db <| users ::= _ |>).
  assert (∀ u, is_Some (users db' !! u) ↔ is_Some (users db !! u)) as Hu.
  { intros u. subst db'. set_simpl. rewrite lookup_update_where. by rewrite fmap_is_Some. }
  apply Inv_edit; [|intros id li Hl; by apply (inv_items _ Hinv) in Hl as [[_ Hmax] _ _ _]|done].
  split; try done; try (intros; by left).
  - intros u. by rewrite Hu.
  - intros u. rewrite Hu. by left.
  - intros lid l Hl. exists l. split; [done|]. split; [done|by left].
  - intros lid l'. change (lists db') with (lists db). congruence.
  - intros id li Hl. by exists li.
  - intros id li'. change (list_items db') with (list_items db). congruence.
Qed.

Lemma step_advances db db' : step db db' → Inv db → advances db db'.
Proof.
  intros Hs Hinv. destruct Hs as [session r now utc db db' Hadm|cs now utc db|? ? cs now utc db|u now utc db
    |cid now utc db|cids now utc db|user g db|db db' Hsame];
    [..|by apply account_advances|rewrite <- Hsame; by apply advances_refl];
    rewrite (at_clock_ledger now utc db) at 1; rewrite (at_clock_ledger now utc db) in Hinv;
    set (db0 := at_clock now utc db) in *.
  - subst db'. unfold tx_middleware in *. cbn in *.
    destruct (handle session r db0) as [[u db1]|e] eqn:Hh; cbn in *; [|by apply advances_refl].
    eapply handle_advances; [done| |done]. by apply admitted_ledger.
  - apply in_transaction_advances; [|done]. unfold poll_character. intros us db1 Hrun Hi.
    inv_sql. eapply upsert_batch_advances; [|done|done]. intros. by eapply upsert_polled_ledger.
  - apply in_transaction_advances; [|done]. unfold poll_corp. intros us db1 Hrun Hi.
    inv_sql. eapply upsert_batch_advances; [|done|done]. intros. by eapply upsert_polled_ledger.
  - apply in_transaction_advances; [|done]. intros t db1 Hrun Hi.
    by eapply Inv_handle_contract_terminal.
  - apply in_transaction_advances; [|done]. intros t db1 Hrun Hi. by eapply Inv_run_one.
  - by apply Inv_verify_all.
Qed.

(** The routes that delete leave the invariant to what remains, and that alone. *)
Lemma erasure_deletes db db' : erasure db db' → Inv db → deletes db db'.
Proof.
  intros [session d now utc db0 db1 Hun Hq] Hinv.
  enough (deletes (at_clock now utc db0) db1) as [Hi [A B C D]] by by split.
  rewrite (at_clock_ledger now utc) in Hinv. subst db1. unfold tx_middleware in *. cbn in *.
  destruct (handle_deletion session d _) as [[u db1]|e] eqn:Hreq; cbn in *;
    [|by split; [|apply erases_refl]].
  destruct d; cbn [handle_deletion] in Hreq; route_run;
    eauto using deletes_delete_list, deletes_delete_item, deletes_delete_group.
Qed.

Lemma initial_Inv db : initial db → Inv db.
Proof.
  intros [Href Hit Hc Hci Hf Hr Hs]. split; try done.
  - intros id li Hl. destruct (Hit _ _ Hl) as (Hst & Hful & Hreq). rewrite Hf, Hci.
    split; [done|by rewrite Hful|lia|]. unfold status_ok. rewrite Hst, Hful. unfold base_status.
    destruct (_ <=? _)%Z eqn:Hq; [apply Z.leb_le in Hq; lia|]. done.
  - rewrite Hc, Hci. split; intros; simplify_map_eq.
  - rewrite Hci. intros k [ci Hk]. simplify_map_eq.
  - intros fid f. rewrite Hf. intros. simplify_map_eq.
  - intros rid r. rewrite Hr. intros. simplify_map_eq.
  - intros k1 k2 r1 r2. rewrite Hr. intros. simplify_map_eq.
  - intros fid f. rewrite Hf. intros. simplify_map_eq.
  - intros fid f li. rewrite Hf. intros. simplify_map_eq.
  - intros k1 k2 s1 s2. rewrite Hs. intros. simplify_map_eq.
  - intros rid r. rewrite Hr. intros. simplify_map_eq.
Qed.

Lemma reachable_Inv db : reachable db → Inv db.
Proof.
  induction 1 as [db Hi|db db' _ IH Hs|db db' _ IH Hs]; [by apply initial_Inv| |].
  - by apply (step_advances db db').
  - by apply (erasure_deletes db db').
Qed.

(** ** Properties of every reachable state *)

(** C7 Item state machine, as long as items are edited only to more than is
    bought of them and deleted only before they are bought: the fulfilled quantity of an item is always the sum
    of its purchases that were not reversed and never exceeds the requested
    one, the item is bought, delivered or settled exactly when it is fully
    fulfilled, and short of that it is claimed exactly when a claim on it is
    active. *)
Theorem reachable_items db id li :
  reachable db → list_items db !! id = Some li →
  li_qty_fulfilled li = live_qty (fulfillments db) id ∧
  (0 ≤ li_qty_fulfilled li ≤ li_qty_requested li)%Z ∧
  (li_qty_fulfilled li = li_qty_requested li ↔
   li_status li = Item_Bought ∨ li_status li = Item_Delivered ∨ li_status li = Item_Settled) ∧
  (li_status li = Item_Claimed ↔
   (li_qty_fulfilled li < li_qty_requested li)%Z ∧
   ∃ cid ci, claim_items db !! (cid, id) = Some ci ∧ ci_active ci = true).
Proof.
  intros Hr Hl. destruct (inv_items _ (reachable_Inv _ Hr) _ _ Hl) as [Hq Hv Hf Hs].
  split; [done|]. split; [done|].
  pose proof (status_ok_full _ _ Hs) as Hfull. split; [rewrite <- Hfull; lia|].
  rewrite <- has_active_claim_true. unfold status_ok, base_status in Hs.
  destruct (li_status li) eqn:Hst, (li_qty_requested li <=? li_qty_fulfilled li)%Z eqn:Hle,
    (has_active_claim _ id); rewrite ?Z.leb_le, ?Z.leb_gt in Hle; try done;
    split; intros; naive_solver lia.
Qed.

(** C12 Claims: an item of a claim is active exactly while the claim is, and an
    item never has two active claims. *)
Theorem reachable_claims db cid item ci :
  reachable db → claim_items db !! (cid, item) = Some ci →
  (∃ c, claims db !! cid = Some c ∧ (ci_active ci = true ↔ cl_status c = Claim_Active)) ∧
  ∀ cid2 ci2, claim_items db !! (cid2, item) = Some ci2 → ci_active ci = true →
    ci_active ci2 = true → cid2 = cid.
Proof.
  intros Hr Hci. destruct (inv_claims _ (reachable_Inv _ Hr)) as [Hs Hu]. split.
  - destruct (Hs _ _ Hci) as (c & Hc & ->). exists c. split; [done|]. apply bool_decide_eq_true.
  - intros cid2 ci2 Hci2 Ha Ha2. by specialize (Hu _ _ _ _ Hci2 Hci Ha2 Ha eq_refl) as [= ->].
Qed.

(** C11 Debts are exact, as long as items are deleted only before they are
    bought and edited only to more than is bought of them: every reimbursement, pending or settled, has as its
    subtotal the price of the standing purchases in its scope and as its total
    the subtotal plus the tip, to the cent. *)
Theorem reachable_debts db rid r :
  reachable db → reimbursements db !! rid = Some r →
  r_subtotal_isk r = sum_where (λ _ f, pays db r f && is_none (f_reversed_at f))
                       (λ _ f, f_qty f * f_unit_price_isk f)%Z (fulfillments db) ∧
  r_total_isk r = (r_subtotal_isk r + r_tip_isk r)%Z ∧
  (0 ≤ r_subtotal_isk r)%Z ∧ (0 ≤ r_tip_isk r)%Z.
Proof.
  intros Hr Hl. pose proof (reachable_Inv _ Hr) as Hinv.
  destruct (inv_reimbs _ Hinv _ _ Hl) as [[A B C] _ _ Hc].
  split; [|done]. rewrite Hc by by eapply inv_live. done.
Qed.

(** The debt of a standing purchase. *)
Lemma one_debt db fid f :
  Inv db → fulfillments db !! fid = Some f → f_reversed_at f = None →
  ∃ rid r, reimbursements db !! rid = Some r ∧ pays db r f = true ∧
    ∀ rid2 r2, reimbursements db !! rid2 = Some r2 → pays db r2 f = true → rid2 = rid.
Proof.
  intros Hinv Hf Hrev. destruct (inv_covered _ Hinv _ _ Hf Hrev) as (rid & r & Hr & _ & Hp).
  exists rid, r. split; [done|]. split; [done|]. intros rid2 r2 Hr2 Hp2.
  eapply (inv_cycles _ Hinv); [exact Hr2|exact Hr|by eapply inv_live..|].
  eapply pays_same_cycle; [| |exact Hp2|exact Hp]; apply reimb_ok_static; by eapply inv_reimbs.
Qed.

(** C2 Nobody is left unpaid and nobody is paid twice: every standing purchase
    is in the scope of exactly one reimbursement, its buyer's. *)
Theorem reachable_one_debt db fid f :
  reachable db → fulfillments db !! fid = Some f → f_reversed_at f = None →
  ∃ rid r, reimbursements db !! rid = Some r ∧ pays db r f = true ∧
    r_hauler_user_id r = f_hauler_user_id f ∧
    ∀ rid2 r2, reimbursements db !! rid2 = Some r2 → pays db r2 f = true → rid2 = rid.
Proof.
  intros Hr Hf Hrev.
  destruct (one_debt _ _ _ (reachable_Inv _ Hr) Hf Hrev) as (rid & r & Hl & Hp & Hu).
  exists rid, r. split_and!; try done. by apply pays_true in Hp as [-> _].
Qed.

(** C1 Conservation: over every execution of requests, deletions and worker
    transactions in which an item is deleted only before it is bought and
    edited only to more than is bought of it, the subtotals owed or paid add up
    to the price of the purchases that stand. *)
Theorem reachable_balance db :
  reachable db →
  sum_of (λ _ r, r_subtotal_isk r) (reimbursements db) =
  sum_where (λ _ f, is_none (f_reversed_at f)) (λ _ f, f_qty f * f_unit_price_isk f)%Z
    (fulfillments db).
Proof.
  intros Hr. pose proof (reachable_Inv _ Hr) as Hinv.
  transitivity (sum_of (λ _ r, sum_of (λ _ f,
    if pays db r f && is_none (f_reversed_at f) then f_qty f * f_unit_price_isk f else 0)%Z
    (fulfillments db)) (reimbursements db)).
  { apply sum_of_ext. intros rid r Hl. apply (inv_reimbs _ Hinv _ _ Hl). by eapply inv_live. }
  rewrite (sum_of_exchange (λ _ r _ f, _)). unfold sum_where. apply sum_of_ext. intros fid f Hf.
  destruct (f_reversed_at f) eqn:Hrev; cbn [is_none].
  - rewrite <- (sum_of_zero (reimbursements db)) at 1. apply sum_of_ext. intros.
    by rewrite andb_false_r.
  - destruct (one_debt _ _ _ Hinv Hf Hrev) as (rid & r & Hl & Hp & Hu).
    apply (sum_of_unique (λ _ r, pays db r f && true) _ rid r); [done|by rewrite Hp|].
    intros k' r' Hk' Hp'. rewrite andb_true_r in Hp'. eauto.
Qed.

(** C10 An item is settled only once everybody who bought some of it was paid:
    the reimbursement of each of its standing purchases is settled. *)
Theorem reachable_settled_paid db fid f li :
  reachable db → fulfillments db !! fid = Some f → f_reversed_at f = None →
  list_items db !! f_list_item_id f = Some li → li_status li = Item_Settled →
  ∃ rid r, reimbursements db !! rid = Some r ∧ pays db r f = true ∧ r_status r = Reimb_Settled.
Proof.
  intros Hr Hf Hrev Hl Hs. pose proof (reachable_Inv _ Hr) as Hinv.
  destruct (inv_covered _ Hinv _ _ Hf Hrev) as (rid & r & Hlr & Hnc & Hp).
  exists rid, r. split; [done|]. split; [done|].
  pose proof (inv_paid _ Hinv _ _ _ Hf Hrev Hl Hs _ _ Hlr Hp). by destruct (r_status r).
Qed.

(** C8 Settlement is final: no request and no worker transaction changes a
    settled reimbursement but for its wallet audit columns, a settled item but
    for its price estimate, or any purchase of a settled item.  A deletion
    removes such a row only together with its list, and before that changes
    nothing of it but the estimate and the link of a purchase to a deleted
    claim. *)
Theorem step_settled_final db db' :
  reachable db →
  (step db db' →
   (∀ rid r, reimbursements db !! rid = Some r → r_status r = Reimb_Settled →
      ∃ r', reimbursements db' !! rid = Some r' ∧ same_debt r r') ∧
   (∀ id li, list_items db !! id = Some li → li_status li = Item_Settled →
      ∃ li', list_items db' !! id = Some li' ∧ same_item li li') ∧
   (∀ fid f li, fulfillments db !! fid = Some f → list_items db !! f_list_item_id f = Some li →
      li_status li = Item_Settled → fulfillments db' !! fid = Some f)) ∧
  (erasure db db' →
   (∀ rid r, reimbursements db !! rid = Some r →
      reimbursements db' !! rid = Some r ∨
      reimbursements db' !! rid = None ∧ lists db' !! r_list_id r = None) ∧
   (∀ id li, list_items db !! id = Some li → li_status li = Item_Settled →
      (∃ li', list_items db' !! id = Some li' ∧ same_item li li') ∨
      list_items db' !! id = None ∧ lists db' !! li_list_id li = None) ∧
   (∀ fid f li, fulfillments db !! fid = Some f → list_items db !! f_list_item_id f = Some li →
      li_status li = Item_Settled →
      (∃ f', fulfillments db' !! fid = Some f' ∧ f' = f <| f_claim_id := f_claim_id f' |>) ∨
      fulfillments db' !! fid = None ∧ lists db' !! li_list_id li = None)).
Proof.
  intros Hr%reachable_Inv. split.
  - intros Hs. by destruct (step_advances _ _ Hs Hr) as [_ [A B C] _].
  - intros He. by destruct (erasure_deletes _ _ He Hr) as [_ [_ A B C]].
Qed.

(** C3 The ledger implements the account book: whatever a request that does not
    delete, or a worker transaction, does to purchases, items, claims and
    debts, in the book it is a sequence of turns, each of which adds an unpaid
    entry, strikes out an unpaid one, or marks entries as paid.  A deletion
    tears out the entries of the purchases it deletes, paid ones included, and
    changes no other. *)
Theorem step_refines_book db db' :
  reachable db →
  (step db db' → rtc turn (book_of db) (book_of db')) ∧
  (erasure db db' → ∀ fid e, book_of db' !! fid = Some e ↔
     book_of db !! fid = Some e ∧ is_Some (fulfillments db' !! fid)).
Proof.
  intros Hr%reachable_Inv. split.
  - intros Hs. exact (adv_book _ _ (step_advances _ _ Hs Hr)).
  - intros He. by destruct (erasure_deletes _ _ He Hr) as [_ [? _ _ _]].
Qed.

(** C13 A reimbursement is confirmed against at most one contract. *)
Theorem reachable_one_confirmed db k1 k2 s1 s2 :
  reachable db → contract_match_suggestions db !! k1 = Some s1 →
  contract_match_suggestions db !! k2 = Some s2 →
  s_reimbursement_id s1 = s_reimbursement_id s2 →
  s_state s1 = Match_Confirmed → s_state s2 = Match_Confirmed → k1 = k2.
Proof. intros Hr H1 H2 He C1 C2. by eapply (inv_confirmed _ (reachable_Inv _ Hr)). Qed.

End Ledger.

(** ** Witnesses *)

Section Witnesses.
#[local] Existing Instance fixture_runtime.

(** ESI contracts as an id and a status. *)
Definition fixture_api : EsiApi := {|
  EsiContract := Z * string;
  ec_contract_id := fst;
  ec_issuer_id _ := 501%Z;
  ec_issuer_corporation_id _ := 98000009%Z;
  ec_for_corporation _ := false;
  ec_assignee_id _ := Some 502%Z;
  ec_contract_type _ := "item_exchange";
  ec_status := snd;
  ec_price _ := Some (mkDecimal 1200 0);
  ec_reward _ := None;
  ec_collateral _ := None;
  ec_date_issued _ := 50%Z;
  ec_date_expired _ := 500%Z;
  ec_date_accepted _ := None;
  ec_date_completed _ := Some 90%Z;
  ec_start_location_id _ := None;
  ec_end_location_id _ := None;
  ec_to_value _ := Some (ListDelivered "" "")
|}.
#[local] Existing Instance fixture_api.
#[local] Existing Instance fixture_market.
#[local] Existing Instance fixture_config.
#[local] Existing Instance fixture_decimal.

#[local] Instance fixture_codes : InviteCodes := λ n, "code" +:+ pretty n.
#[local] Existing Instance fixture_shares.
#[local] Instance fixture_corp_esi : CorpEsi := {|
  CorpClient := unit;
  authed_client_for _ := Ok tt;
  character_affiliation _ ids := Ok ((λ id, (id, 98000009%Z)) <$> ids);
  get_corporation _ _ := Ok ("Other Corp", "OTH")
|}.

(** [base_db] with the characters of Alice and Bob. *)
Definition fixture_character (user : Uuid) (character : Z) : CharacterRow :=
  mkCharacterRow user character "" "" [] [] [] None None None "" None None 1 None.
Definition start_db : Db :=
  base_db <| characters := {[ 201%N := fixture_character 1 502; 202%N := fixture_character 2 501 ]} |>.

Definition run_request (db : Db) (r : Uuid * Request) : Db :=
  (tx_middleware (handle (Some r.1) r.2) (at_clock 100 101 db)).2.

Definition buy (qty : Z) : RecordFulfillmentBody :=
  mkRecordFulfillmentBody qty (mkDecimal 10000 2) (Some 50%N) None None None.

(** Carol claims item 31 and buys two of five; Bob buys and delivers all of
    item 30. *)
Definition open_db : Db :=
  foldl run_request start_db
    [ (3%N, CreateClaim 20 (mkCreateClaimBody [31%N] None));
      (3%N, RecordFulfillment 20 31 (buy 2));
      (2%N, RecordFulfillment 20 30 (buy 10));
      (2%N, MarkDelivered 20 30) ].

(** Alice settles Bob's reimbursement. *)
Definition paid_db : Db := run_request open_db (1%N, SettleReimbursement 1005).

(** A statement over a concrete table, decided row by row. *)
Lemma forall_rows `{Countable K} {V} (t : gmap K V) (b : K → V → bool) :
  forallb (λ kv, b kv.1 kv.2) (map_to_list t) = true → ∀ k v, t !! k = Some v → b k v = true.
Proof.
  rewrite forallb_forall. intros Hall k v Hk. apply (Hall (k, v)).
  by apply list_elem_of_In, elem_of_map_to_list.
Qed.


Lemma start_db_unique (g : PrincipalRow → option Uuid) x :
  forallb (λ kv1, forallb (λ kv2, bool_decide (kv1.1 = kv2.1) || is_none (g kv1.2) ||
    negb (bool_decide (g kv1.2 = g kv2.2))) (map_to_list (principals start_db)))
    (map_to_list (principals start_db)) = true →
  ∀ k1 k2 p1 p2, principals start_db !! k1 = Some p1 → principals start_db !! k2 = Some p2 →
    g p1 = Some x → g p2 = Some x → k1 = k2.
Proof.
  intros Hall k1 k2 p1 p2 H1%elem_of_map_to_list%list_elem_of_In H2%elem_of_map_to_list%list_elem_of_In G1 G2.
  rewrite forallb_forall in Hall. specialize (Hall _ H1). rewrite forallb_forall in Hall.
  specialize (Hall _ H2). cbn in Hall. rewrite G1, G2, (bool_decide_eq_true_2 (Some x = Some x)) in Hall
    by done. cbn in Hall. rewrite !orb_false_r in Hall. by apply bool_decide_eq_true in Hall.
Qed.

Lemma start_db_initial : initial start_db.
Proof.
  split; try reflexivity.
  - split.
    + intros u [row Hu]. apply is_none_false, negb_true_iff. revert u row Hu.
      refine (forall_rows _ (λ u _, negb (is_none (principal_of_user start_db u))) _).
      vm_compute. reflexivity.
    + intros lid l corp Hl Hc. apply (f_equal is_none) in Hc. exfalso. revert Hc.
      pose proof (forall_rows (lists start_db) (λ _ l, is_none (l_payer_corp_id l)) eq_refl _ _ Hl) as ->.
      done.
    + intros id li Hl. apply row_exists_true.
      exact (forall_rows (list_items start_db) (λ _ li, row_exists (lists start_db) (li_list_id li))
               eq_refl _ _ Hl).
    + intros id li u Hl Hu. apply row_exists_true.
      pose proof (forall_rows (list_items start_db) (λ _ li,
        opt_row_exists (users start_db) (li_requested_by_user_id li)) eq_refl _ _ Hl) as Hr.
      cbn in Hr. by rewrite Hu in Hr.
    + intros lid l Hl. apply Z.leb_le.
      exact (forall_rows (lists start_db) (λ _ l, 0 <=? l_tip_pct l)%Z eq_refl _ _ Hl).
    + intros k [row Hk]. exfalso. apply (f_equal is_none) in Hk. vm_compute in Hk. discriminate.
    + split.
      * intros u k1 k2 p1 p2 H1 H2 [_ N1%bool_decide_eq_true]%andb_prop
          [_ N2%bool_decide_eq_true]%andb_prop.
        exact (start_db_unique p_user_id u ltac:(vm_compute; reflexivity) _ _ _ _ H1 H2 N1 N2).
      * intros c k1 k2 p1 p2 H1 H2 [_ N1%bool_decide_eq_true]%andb_prop
          [_ N2%bool_decide_eq_true]%andb_prop.
        exact (start_db_unique p_corp_id c ltac:(vm_compute; reflexivity) _ _ _ _ H1 H2 N1 N2).
  - intros id li Hl.
    pose proof (forall_rows (list_items start_db) (λ _ li, (li_status li == Item_Open) &&
      (li_qty_fulfilled li == 0%Z) && (0 <? li_qty_requested li)%Z &&
      (li_qty_requested li <=? max_requested)%Z) eq_refl _ _ Hl) as Hr. cbn in Hr.
    repeat (apply andb_true_iff in Hr as [Hr ?]). rewrite Z.ltb_lt, Z.leb_le in *.
    apply bool_decide_eq_true in Hr, H1. done.
Qed.

Lemma run_request_reachable db r :
  admitted r.2 db (run_request db r) → reachable db → reachable (run_request db r).
Proof. intros Ha Hr. eapply reachable_step; [exact Hr|by apply step_request]. Qed.

(** Bob's contract is polled and he links it to his reimbursement. *)
Definition linked_db : Db :=
  run_request (in_transaction (poll_character [(9000%Z, "outstanding")]) (at_clock 100 101 open_db)).2
    (2%N, ManualLink 1006 1005).

(** Alice then adds a list of one item, links her corporation, and deletes
    the new item. *)
Definition grown_db : Db :=
  foldl run_request paid_db
    [ (1%N, CreateList 10 (mkCreateBody None None [50%N] 50 (str "Tritanium 7")));
      (1%N, LinkCorp 10 502) ].
Definition pruned_db : Db :=
  (tx_middleware (handle_deletion (Some 1%N) (DeleteItem 1007 1008)) (at_clock 100 101 grown_db)).2.

Lemma quantities_decided db :
  forallb (λ kv, li_qty_requested kv.2 <=? max_requested)%Z (map_to_list (list_items db)) = true →
  quantities_ok db.
Proof. intros Hall id li Hl. apply Z.leb_le. exact (forall_rows _ (λ _ li, li_qty_requested li <=? max_requested)%Z Hall _ _ Hl). Qed.

(** Instead, Alice deletes the list she has paid for. *)
Definition torn_db : Db :=
  (tx_middleware (handle_deletion (Some 1%N) (DeleteList 20)) (at_clock 100 101 paid_db)).2.

Lemma torn_db_erasure : erasure paid_db torn_db.
Proof.
  apply erasure_request; [discriminate|]. apply quantities_decided. vm_compute. reflexivity.
Qed.

Lemma open_db_reachable : reachable open_db.
Proof. unfold open_db. cbn [foldl]. do 4 (apply run_request_reachable; [exact I|]). apply reachable_initial, start_db_initial. Qed.

Lemma linked_db_reachable : reachable linked_db.
Proof.
  apply run_request_reachable; [exact I|]. eapply reachable_step; [apply open_db_reachable|].
  apply step_poll_character.
Qed.

Lemma paid_db_reachable : reachable paid_db.
Proof. apply run_request_reachable; [exact I|apply open_db_reachable]. Qed.

Lemma fresh_decided db :
  forallb (λ kv, kv.1 <? 1000 + db_draws db)%N (map_to_list (principals db)) = true → fresh_uuids db.
Proof.
  intros Hall n Hn. apply eq_None_not_Some. intros [p Hp].
  pose proof (forall_rows _ (λ k _, k <? 1000 + db_draws db)%N Hall _ _ Hp) as Hlt.
  change (1000 + n <? 1000 + db_draws db = true)%N in Hlt. apply N.ltb_lt in Hlt. lia.
Qed.

Lemma grown_db_reachable : reachable grown_db.
Proof.
  unfold grown_db. cbn [foldl]. apply run_request_reachable; [split|apply run_request_reachable].
  - apply fresh_decided. vm_compute. reflexivity.
  - apply quantities_decided. vm_compute. reflexivity.
  - apply quantities_decided. vm_compute. reflexivity.
  - apply paid_db_reachable.
Qed.

Lemma pruned_db_reachable : reachable pruned_db.
Proof.
  eapply reachable_erasure; [apply grown_db_reachable|apply erasure_request].
  - intros lid item [= <- <-]. vm_compute. reflexivity.
  - apply quantities_decided. vm_compute. reflexivity.
Qed.

(** The row a concrete lookup finds. *)
Lemma lookup_row {V A} (t : gmap Uuid V) k (g : V → A) a :
  g <$> t !! k = Some a → ∃ v, t !! k = Some v ∧ g v = a.
Proof. intros (v & ? & ->)%fmap_Some. eauto. Qed.

Lemma reachable_items_witness :
  ∃ li, list_items open_db !! 31%N = Some li ∧ li_status li = Item_Claimed ∧
    (li_qty_fulfilled li < li_qty_requested li)%Z.
Proof.
  destruct (lookup_row (list_items open_db) 31 li_status Item_Claimed) as (li & Hl & Hs);
    [vm_compute; reflexivity|].
  exists li. split; [exact Hl|]. split; [exact Hs|].
  apply (reachable_items open_db 31 li open_db_reachable Hl). exact Hs.
Defined.

Lemma reachable_claims_witness :
  ∃ ci c, claim_items open_db !! (1000%N, 31%N) = Some ci ∧ claims open_db !! 1000%N = Some c ∧
    cl_status c = Claim_Active.
Proof.
  destruct (claim_items open_db !! (1000%N, 31%N)) as [ci|] eqn:Hci; [|vm_compute in Hci; discriminate Hci].
  destruct (reachable_claims open_db 1000 31 ci open_db_reachable Hci) as [(c & Hc & Ha) _].
  exists ci, c. split; [reflexivity|]. split; [exact Hc|]. apply Ha.
  vm_compute in Hci. injection Hci as <-. reflexivity.
Defined.

Lemma reachable_debts_witness :
  ∃ r, reimbursements open_db !! 1005%N = Some r ∧ r_status r = Reimb_Pending ∧
    r_total_isk r = (r_subtotal_isk r + r_tip_isk r)%Z.
Proof.
  destruct (lookup_row (reimbursements open_db) 1005 r_status Reimb_Pending) as (r & Hr & Hs);
    [vm_compute; reflexivity|].
  exists r. split; [exact Hr|]. split; [exact Hs|].
  apply (reachable_debts open_db 1005 r open_db_reachable Hr).
Defined.

Lemma reachable_one_debt_witness :
  ∃ f rid r, fulfillments open_db !! 1004%N = Some f ∧ reimbursements open_db !! rid = Some r ∧
    r_hauler_user_id r = 2%N.
Proof.
  destruct (lookup_row (fulfillments open_db) 1004 (λ f, (f_reversed_at f, f_hauler_user_id f))
    (None, 2%N)) as (f & Hf & He); [vm_compute; reflexivity|]. injection He as Hrev Hh.
  destruct (reachable_one_debt open_db 1004 f open_db_reachable Hf Hrev) as (rid & r & Hr & _ & Hb & _).
  exists f, rid, r. split; [exact Hf|]. split; [exact Hr|]. rewrite Hb. exact Hh.
Defined.

Lemma reachable_balance_witness :
  list_items grown_db !! 1008%N ≠ None ∧ list_items pruned_db !! 1008%N = None ∧
  sum_of (λ _ r, r_subtotal_isk r) (reimbursements pruned_db) = 120000%Z ∧
  sum_where (λ _ f, is_none (f_reversed_at f)) (λ _ f, f_qty f * f_unit_price_isk f)%Z
    (fulfillments pruned_db) = 120000%Z.
Proof.
  rewrite <- (reachable_balance pruned_db pruned_db_reachable).
  split; [|split; [|split]]; vm_compute; [discriminate|reflexivity..].
Defined.

Lemma reachable_settled_paid_witness :
  ∃ f li rid r, fulfillments paid_db !! 1004%N = Some f ∧
    list_items paid_db !! f_list_item_id f = Some li ∧ li_status li = Item_Settled ∧
    reimbursements paid_db !! rid = Some r ∧ r_status r = Reimb_Settled.
Proof.
  destruct (lookup_row (fulfillments paid_db) 1004 (λ f, (f_reversed_at f, f_list_item_id f))
    (None, 30%N)) as (f & Hf & He); [vm_compute; reflexivity|]. injection He as Hrev Hi.
  destruct (lookup_row (list_items paid_db) 30 li_status Item_Settled) as (li & Hl & Hs);
    [vm_compute; reflexivity|]. rewrite <- Hi in Hl.
  destruct (reachable_settled_paid paid_db 1004 f li paid_db_reachable Hf Hrev Hl Hs)
    as (rid & r & Hr & _ & Hst).
  exists f, li, rid, r. exact (conj Hf (conj Hl (conj Hs (conj Hr Hst)))).
Defined.

Lemma step_settled_final_witness :
  ∃ r r', reimbursements paid_db !! 1005%N = Some r ∧ r_status r = Reimb_Settled ∧
    (reimbursements (run_request paid_db (2%N, ReverseFulfillment 1004)) !! 1005%N = Some r' ∧
     same_debt r r') ∧ reimbursements torn_db !! 1005%N = None.
Proof.
  destruct (lookup_row (reimbursements paid_db) 1005 r_status Reimb_Settled) as (r & Hr & Hs);
    [vm_compute; reflexivity|].
  destruct (proj1 (proj1 (step_settled_final paid_db _ paid_db_reachable) (step_request (Some 2%N) (ReverseFulfillment 1004) 100 101 paid_db I)) _ _ Hr Hs)
    as (r' & Hr' & Hd).
  exists r, r'. split; [exact Hr|]. split; [exact Hs|]. split; [exact (conj Hr' Hd)|].
  destruct (proj1 (proj2 (step_settled_final paid_db torn_db paid_db_reachable) torn_db_erasure) _ _ Hr)
    as [Hk|[Hn _]]; [vm_compute in Hk; discriminate Hk|exact Hn].
Defined.

Lemma step_refines_book_witness :
  rtc turn (book_of open_db) (book_of paid_db) ∧
  book_of open_db !! 1004%N = Some (mkEntry 2 100000 false) ∧
  book_of paid_db !! 1004%N = Some (mkEntry 2 100000 true) ∧
  ∀ e, book_of torn_db !! 1004%N ≠ Some e.
Proof.
  split; [|split; [vm_compute; reflexivity|split; [vm_compute; reflexivity|]]].
  - exact (proj1 (step_refines_book open_db paid_db open_db_reachable)
             (step_request (Some 1%N) (SettleReimbursement 1005) 100 101 open_db I)).
  - intros e Hb. apply (proj2 (step_refines_book paid_db torn_db paid_db_reachable) torn_db_erasure) in Hb
      as [_ [f Hf]]. vm_compute in Hf. discriminate Hf.
Defined.

Lemma reachable_one_confirmed_witness :
  ∃ s, contract_match_suggestions linked_db !! 1007%N = Some s ∧ s_state s = Match_Confirmed ∧
    ∀ k s2, contract_match_suggestions linked_db !! k = Some s2 → s_reimbursement_id s2 = 1005%N →
      s_state s2 = Match_Confirmed → k = 1007%N.
Proof.
  destruct (lookup_row (contract_match_suggestions linked_db) 1007
    (λ s, (s_state s, s_reimbursement_id s)) (Match_Confirmed, 1005%N)) as (s & Hs & He);
    [vm_compute; reflexivity|]. injection He as Hst Hr.
  exists s. split; [exact Hs|]. split; [exact Hst|]. intros k s2 Hs2 Hr2 Hst2.
  apply (reachable_one_confirmed linked_db k 1007 s2 s linked_db_reachable Hs2 Hs);
    [transitivity 1005%N; [exact Hr2|symmetry; exact Hr]|exact Hst2|exact Hst].
Defined.
End Witnesses.
