(* ===== verification/Liveness.v ===== *)
(** * Nothing stays unpaid for want of a move

    From every reachable state a debt whose purchases were all delivered can be
    settled, by its requester or an owner of the group: the request succeeds
    and the debt is paid. *)

From Stdlib Require Import ZArith Lia.
From stdpp Require Import base tactics decidable option list gmap relations strings pretty.
From S2P Require Import Prelude Effect Unicode Money Domain Host Schema Fixtures Errors.
From S2P Require Import Market Config Extract Webhooks Detail Pricing Settlement Wallet Fulfillment Claims.
From S2P Require Import Reimbursements Poller Groups Corps.
From S2P Require Import Invariant Book InvariantItems InvariantMoney DebtSteps Ledger.

(** ** Running forward *)

Lemma run_bind {S E A B} (m : M S E A) (k : A → M S E B) s a s' r :
  m s = Ok (a, s') → k a s' = r → (m ≫= k) s = r.
Proof. unfold mbind, M_bind. by intros -> ->. Qed.

Lemma run_expect {S E A} (e : E) (o : option A) (s : S) a :
  o = Some a → expect e o s = Ok (a, s).
Proof. by intros ->. Qed.

Lemma run_ensure {S E} (b : bool) (e : E) (s : S) : b = true → ensure b e s = Ok (tt, s).
Proof. by intros ->. Qed.

Section Liveness.
Context `{RT : Runtime}.
Implicit Types (db : Db) (f : FulfillmentRow) (r : ReimbursementRow).

Lemma run_sql {E A} `{FromSql E} (m : Stmt A) db a db' :
  m db = Ok (a, db') → (sql m : M Db E A) db = Ok (a, db').
Proof. unfold sql, map_err. by intros ->. Qed.

Lemma run_fetch_one {A} (f : Db → option A) db a : f db = Some a → fetch_one f db = Ok (a, db).
Proof. intros Hf. unfold fetch_one, mbind, M_bind, reads. by rewrite Hf. Qed.

(** ** The view of a well-formed list *)

Record viewable db (list_id : Uuid) : Prop := mkViewable {
  view_list : is_Some (lists db !! list_id);
  view_requesters id li : list_items db !! id = Some li → li_list_id li = list_id →
    is_Some (li_requested_by_user_id li);
  view_primary : ∃ mid m lm, list_markets db !! (list_id, mid) = Some lm ∧
    lm_is_primary lm = true ∧ markets db !! mid = Some m
}.

Lemma decode_items_total rows :
  Forall (λ kv : Uuid * ListItemRow, is_Some (li_requested_by_user_id kv.2)) rows →
  ∃ items, decode_items rows = Ok items.
Proof.
  induction 1 as [|[id li] rows [u Hu] _ [items IH]]; [by eexists|]. cbn in *. rewrite Hu, IH. by eexists.
Qed.

Lemma find_total {A} (p : A → bool) l x : x ∈ l → p x = true → ∃ y, List.find p l = Some y.
Proof.
  intros Hin Hp. destruct (List.find p l) as [y|] eqn:Hf; [by exists y|].
  rewrite list_elem_of_In in Hin. pose proof (find_none p l Hf _ Hin). congruence.
Qed.

Lemma load_list_detail_total db list_id viewer role :
  viewable db list_id → ∃ d, load_list_detail list_id viewer role db = Ok (d, db).
Proof.
  intros [[l Hl] Hreq (mid & m & lm & Hlm & Hprim & Hm)].
  destruct (decode_items_total (item_rows db list_id)) as [items Hitems].
  { apply Forall_forall. intros [id li] Hin. unfold item_rows in Hin.
    apply elem_of_sort_by, elem_of_select_where in Hin as [Hli Hon]. bool_simpl. by eapply Hreq. }
  destruct (find_total (λ row : Uuid * MarketRow * bool, row.2) (market_rows db list_id) (mid, m, true)) as [[[p pm] b] Hf]; [|done|].
  { apply elem_of_sort_by, list_elem_of_omap. exists ((list_id, mid), lm).
    rewrite elem_of_select_where, Hm, Hprim. cbn. by rewrite bool_decide_eq_true_2. }
  eexists. unfold load_list_detail. do 2 (eapply run_bind; [first [reflexivity|by apply run_expect]|]).
  eapply run_bind; [reflexivity|]. eapply run_bind; [apply run_sql; by rewrite Hitems|].
  eapply run_bind; [reflexivity|].
  eapply run_bind; [apply run_expect; unfold primary_market; by rewrite Hf|].
  do 6 (eapply run_bind; [reflexivity|]). reflexivity.
Qed.

(** ** The queue accepts *)

Lemma fire_webhook_total db group_id event :
  is_Some (groups db !! group_id) → pending_webhooks db !! gen_random_uuid (db_draws db) = None →
  ∃ db', fire_webhook group_id event db = Ok (tt, db').
Proof.
  intros Hg Hfree. unfold fire_webhook. destruct (to_value event) as [v|]; [|by eexists].
  eexists. unfold insert_pending_webhook, unique, foreign_key, new_uuid.
  destruct Hg as [g Hg]. eapply run_bind; [reflexivity|].
  eapply run_bind; [eapply run_bind; [reflexivity|]; apply run_ensure|].
  { apply negb_true_iff, row_exists_false. exact Hfree. }
  eapply run_bind; [eapply run_bind; [reflexivity|]; apply run_ensure|reflexivity].
  apply row_exists_true. by exists g.
Qed.

(** ** Settling *)

(** Nothing in the scope of a debt with every purchase delivered is owed. *)
Definition delivered_up db r : Prop :=
  ∀ fid f li, fulfillments db !! fid = Some f → f_reversed_at f = None → pays db r f = true →
    list_items db !! f_list_item_id f = Some li →
    li_status li = Item_Delivered ∨ li_status li = Item_Settled.

Lemma manual_scope_requester db r :
  requester_ok db r → manual_scope r = Some (r_requester_user_id r).
Proof.
  intros (l & _ & Hp). unfold manual_scope. destruct (l_payer_corp_id l).
  - by destruct Hp as (-> & -> & _).
  - by destruct Hp as (-> & u & -> & _).
Qed.

Lemma settle_manual_total db rid r by_user :
  requester_ok db r → reimbursements db !! rid = Some r → r_status r = Reimb_Pending →
  delivered_up db r → ∃ db', settle_manual rid by_user db = Ok (tt, db').
Proof.
  intros Hreq Hr Hp Hdel. pose proof (settle_manual_branches rid by_user db) as Hd.
  rewrite Hr, (manual_scope_requester _ _ Hreq), bool_decide_eq_true_2 in Hd by done. cbn in Hd.
  assert (count_where (owes_delivery db (r_list_id r) (r_requester_user_id r) (r_hauler_user_id r))
    (list_items db) ≤ 0)%Z as Hn.
  { apply count_where_zero, not_true_iff_false. intros (item & li & Hl & Howe)%sel_exists_true.
    unfold owes_delivery in Howe. bool_simpl.
    match goal with H : live_by _ _ _ = true |- _ =>
      apply live_by_true in H as (fid & f & Hf & Hit & Hh & Hrev) end. subst item.
    destruct (Hdel fid f li Hf Hrev) as [Hs|Hs]; [|done|rewrite Hs in *; done..].
    apply pays_true. split; [done|]. exists li. split; [done|]. split; [done|].
    intros u Hu. rewrite Hu in *. by bool_simpl. }
  cbn in Hd. apply Z.ltb_ge in Hn. rewrite Hn in Hd. destruct (settle_manual rid by_user db) as [[[] db']|e]; [by exists db'|done].
Qed.
(** The rows a settle request reads besides the ledger's: the foreign keys of
    the debt and the list, a view to answer with, and room in the queue. *)
Record settle_context db r (l : ListRow) : Prop := mkSettleContext {
  sc_list : lists db !! r_list_id r = Some l;
  sc_group : is_Some (groups db !! l_group_id l);
  sc_hauler : is_Some (users db !! r_hauler_user_id r);
  sc_requester u : r_requester_user_id r = Some u → is_Some (users db !! u);
  sc_view : viewable db (r_list_id r);
  sc_queue : pending_webhooks db !! gen_random_uuid (db_draws db) = None
}.

(** What settling leaves for the rest of the request. *)
Lemma settle_manual_context db rid r l by_user db1 :
  settle_manual rid by_user db = Ok (tt, db1) → settle_context db r l →
  reimbursements db !! rid = Some r →
  ∃ r' l', reimbursements db1 !! rid = Some r' ∧ r_status r' = Reimb_Settled ∧
    r_hauler_user_id r' = r_hauler_user_id r ∧ l_group_id l' = l_group_id l ∧
    r_list_id r' = r_list_id r ∧ r_requester_user_id r' = r_requester_user_id r ∧
    settle_context db1 r' l'.
Proof.
  intros (r0 & scope & ls & Hr0 & _ & _ & _ & Hls & ->)%settle_manual_run [Hl Hg Hh Hq Hv Hqu] Hr.
  rewrite Hr in Hr0. injection Hr0 as <-.
  set (db1 := set_settled _ _ <| lists := ls |>).
  pose proof (Hls (r_list_id r)) as Hk. rewrite Hl in Hk.
  destruct (ls !! r_list_id r) as [l'|] eqn:Hl'; [|done]. apply (inj Some) in Hk; injection Hk as Eg Eb Ed Et Ep.
  set (r' := r <| r_status := Reimb_Settled |> <| r_settled_at := Some (db_now db) |>
                <| r_settled_by_user_id := Some by_user |> <| r_updated_at := db_now db |>).
  exists r', l'. split.
  { change (reimbursements db1) with (settle_one rid by_user (db_now db) (reimbursements db)).
    unfold settle_one. rewrite lookup_update_where, Hr. cbn. by rewrite bool_decide_eq_true_2. }
  do 2 (split; [done|]). split; [done|]. do 2 (split; [done|]). split; try done.
  - rewrite Eg. exact Hg.
  - destruct Hv as [_ Hreq Hprim]. split; [by exists l'| |exact Hprim].
    intros id li' (li & Hli & ->)%lookup_update_where_Some Hid. destruct (manual_flip _ _ _ _ _);
      exact (Hreq id li Hli Hid).
Qed.

(** C9 A delivered debt can be settled: in every reachable state, a pending debt
    that is not bound to a contract and all of whose standing purchases were
    delivered can be settled by its requester, while a member of the group, and
    by any owner of the group (who alone can when a corporation pays); the
    request succeeds and the debt is settled.  Assumed are the rows the foreign
    keys of the debt and its list promise, a list with a primary market, and a
    queue id that is new. *)
Theorem delivered_debt_settles `{API : !EsiApi, MA : !MarketApi, CFG : AppConfig, RD : RustDecimal,
    IC : InviteCodes, CE : CorpEsi, SA : ShareArith} db rid r l user role :
  reachable db → reimbursements db !! rid = Some r → r_status r = Reimb_Pending →
  r_contract_id r = None → delivered_up db r → settle_context db r l →
  member_role db user (l_group_id l) = Some role →
  r_requester_user_id r = Some user ∨ role = Owner →
  ∃ d db', settle_reimbursement rid user db = Ok (d, db') ∧
    ∃ r', reimbursements db' !! rid = Some r' ∧ r_status r' = Reimb_Settled.
Proof.
  intros Hreach Hr Hp Hc Hdel Hctx Hrole Hstand.
  pose proof (reimb_requester _ _ (inv_reimbs _ (reachable_Inv _ Hreach) _ _ Hr)) as Hreq.
  destruct (settle_manual_total db rid r user Hreq Hr Hp Hdel) as [db1 Hsm].
  destruct (settle_manual_context _ _ _ _ _ _ Hsm Hctx Hr)
    as (r' & l' & Hr' & Hs' & Eh & Eg & El & Eq & [Hl1 Hg1 Hh1 Hq1 Hv1 Hqu1]).
  destruct Hh1 as [hu Hhu].
  set (event name := ReimbursementSettled (default "(unnamed)"%string (l_destination_label l')) name
    (u_display_name hu) (decimal_to_string (r_total_isk r'))).
  assert (∃ name, (match r_requester_user_id r with
    | Some uid => sql (fetch_one (λ db, u_display_name <$> users db !! uid))
    | None => mret "Corp"%string end : Handler string) db1 = Ok (name, db1)) as [name Hname].
  { destruct (r_requester_user_id r) as [uid|] eqn:Hu; [|by eexists].
    destruct (Hq1 uid) as [u Hu1]; [congruence|]. exists (u_display_name u).
    apply run_sql, run_fetch_one. by rewrite Hu1. }
  destruct (fire_webhook_total db1 (l_group_id l') (event name) Hg1 Hqu1) as [db2 Hfire].
  pose proof (fire_webhook_Ok _ _ _ _ _ Hfire) as (q & n & ->).
  destruct (load_list_detail_total (db1 <| pending_webhooks := q |> <| db_draws := n |>)
    (r_list_id r) user role) as [d Hd].
  { rewrite <- El. destruct Hv1 as [A B C]. by split. }
  exists d, (db1 <| pending_webhooks := q |> <| db_draws := n |>). split; [|by exists r'].
  destruct Hctx as [Hl _ _ _ _ _]. unfold settle_reimbursement.
  eapply run_bind; [reflexivity|]. eapply run_bind; [apply run_expect; by rewrite Hr|].
  eapply run_bind; [eapply run_bind; [reflexivity|]; eapply run_bind; [by apply run_expect|done]|].
  eapply run_bind; [reflexivity|]. eapply run_bind; [by apply run_expect|].
  eapply run_bind; [apply run_ensure; by rewrite bool_decide_eq_true_2|].
  eapply run_bind; [apply run_ensure; by rewrite Hc|]. eapply run_bind; [reflexivity|].
  eapply run_bind; [apply run_expect; rewrite Hl; exact Hrole|].
  eapply run_bind; [apply run_ensure|].
  { destruct Hstand as [-> | ->]; [by rewrite bool_decide_eq_true_2|].
    by rewrite (bool_decide_eq_true_2 (Owner = Owner)), orb_true_r. }
  eapply run_bind; [unfold map_err; by rewrite Hsm|].
  eapply run_bind; [apply run_sql, run_fetch_one; by rewrite <- El|].
  eapply run_bind; [exact Hname|].
  eapply run_bind; [apply run_sql, run_fetch_one; rewrite Hr'; cbn; by rewrite Hhu|].
  eapply run_bind; [by apply run_sql|]. exact Hd.
Qed.
End Liveness.

(** ** Witness *)

Section Witness.
#[local] Existing Instance fixture_runtime.
#[local] Existing Instance fixture_api.
#[local] Existing Instance fixture_market.
#[local] Existing Instance fixture_config.
#[local] Existing Instance fixture_decimal.
#[local] Existing Instance fixture_codes.
#[local] Existing Instance fixture_corp_esi.
#[local] Existing Instance fixture_shares.

(** Bob delivered everything he bought: Alice can settle. *)
Lemma open_db_delivered r : reimbursements open_db !! 1005%N = Some r → delivered_up open_db r.
Proof.
  intros Hr fid f li Hf Hrev Hp Hl. apply pays_true in Hp as [Hh _].
  assert (r_hauler_user_id r = 2%N) as Hu.
  { destruct (lookup_row (reimbursements open_db) 1005 r_hauler_user_id 2%N) as (r0 & Hr0 & <-);
      [vm_compute; reflexivity|]. rewrite Hr in Hr0. injection Hr0 as ->. reflexivity. }
  set (ok := λ (_ : Uuid) f, negb (bool_decide (f_hauler_user_id f = 2%N)) ||
    match list_items open_db !! f_list_item_id f with
    | Some li => bool_decide (li_status li = Item_Delivered) | None => true end).
  assert (ok fid f = true) as Hall.
  { apply (forall_rows (fulfillments open_db) ok); [vm_compute; reflexivity|exact Hf]. }
  unfold ok in Hall. rewrite Hl, Hh, Hu, bool_decide_eq_true_2 in Hall by reflexivity.
  left. exact (bool_decide_eq_true_1 _ Hall).
Qed.

Lemma open_db_viewable : viewable open_db 20.
Proof.
  split.
  - destruct (lists open_db !! 20%N) as [l|] eqn:Hl; [by exists l|vm_compute in Hl; discriminate].
  - intros id li Hl _.
    pose proof (forall_rows (list_items open_db) (λ _ li, negb (is_none (li_requested_by_user_id li)))
      ltac:(vm_compute; reflexivity) _ _ Hl) as Hn.
    by apply is_none_false, negb_true_iff.
  - destruct (list_markets open_db !! (20%N, 50%N)) as [lm|] eqn:Hlm; [|vm_compute in Hlm; discriminate].
    destruct (markets open_db !! 50%N) as [m|] eqn:Hm; [|vm_compute in Hm; discriminate].
    exists 50%N, m, lm. split; [exact Hlm|]. split; [|exact Hm].
    vm_compute in Hlm. injection Hlm as <-. reflexivity.
Qed.

Lemma delivered_debt_settles_witness :
  ∃ d db', settle_reimbursement 1005 1 open_db = Ok (d, db') ∧
    ∃ r', reimbursements db' !! 1005%N = Some r' ∧ r_status r' = Reimb_Settled.
Proof.
  destruct (lookup_row (reimbursements open_db) 1005
    (λ r, (r_status r, r_contract_id r, r_list_id r, (r_hauler_user_id r, r_requester_user_id r)))
    (Reimb_Pending, None, 20%N, (2%N, Some 1%N))) as (r & Hr & He); [vm_compute; reflexivity|].
  injection He as Hs Hc Hlid Hh Hq.
  destruct (lookup_row (lists open_db) 20 l_group_id 10%N) as (l & Hl & Hg); [vm_compute; reflexivity|].
  apply (delivered_debt_settles open_db 1005 r l 1 Owner open_db_reachable Hr Hs Hc
           (open_db_delivered r Hr)).
  - split.
    + rewrite Hlid. exact Hl.
    + rewrite Hg. destruct (groups open_db !! 10%N) as [g|] eqn:E; [exists g; reflexivity|].
      vm_compute in E. discriminate E.
    + rewrite Hh. destruct (users open_db !! 2%N) as [u|] eqn:E; [exists u; reflexivity|].
      vm_compute in E. discriminate E.
    + intros u Hu. rewrite Hq in Hu. injection Hu as <-.
      destruct (users open_db !! 1%N) as [u|] eqn:E; [exists u; reflexivity|].
      vm_compute in E. discriminate E.
    + rewrite Hlid. exact open_db_viewable.
    + vm_compute. reflexivity.
  - rewrite Hg. vm_compute. reflexivity.
  - left. exact Hq.
Defined.
End Witness.
