(* ===== verification/Locality.v ===== *)
(** * A purchase's claim is on the list of its item

    [fulfillments.claim_id] refers to a claim and [fulfillments.list_item_id]
    to an item, and no constraint of the schema says that both are on one
    list.  The handlers keep it so: [record_fulfillment] takes the claim from
    the item's own claim rows, and claims and items never change lists. *)

From Stdlib Require Import ZArith Lia.
From stdpp Require Import base tactics decidable option list gmap relations strings.
From S2P Require Import Prelude Effect Unicode Money Domain Host Schema Fixtures Errors.
From S2P Require Import Market Config Extract Webhooks Detail Pricing Settlement Wallet Fulfillment Claims.
From S2P Require Import Reimbursements Fulfillments Contracts Poller Matching Lists Items Groups Corps.
From S2P Require Import Within Invariant Preservation Purchases DebtSteps WorkerSteps Edits Prunes Editing.
From S2P Require Import Growth Ledger.

Local Open Scope string_scope.

Section Locality.
Context `{RT : Runtime} {API : EsiApi} {MA : MarketApi} {CFG : AppConfig} {RD : RustDecimal}
  {IC : InviteCodes} {CE : CorpEsi} {SA : ShareArith}.
Implicit Types (db : Db) (li : ListItemRow) (f : FulfillmentRow) (r : ReimbursementRow).

Definition purchase_local db f : Prop :=
  ∀ cid, f_claim_id f = Some cid → ∃ c li, claims db !! cid = Some c ∧
    list_items db !! f_list_item_id f = Some li ∧ cl_list_id c = li_list_id li.

Definition claims_local db : Prop := ∀ fid f, fulfillments db !! fid = Some f → purchase_local db f.

(** Claims and items stay on their lists, and what is bought anew is local. *)
Record stays db db' : Prop := mkStays {
  st_claims cid c : claims db !! cid = Some c →
    ∃ c', claims db' !! cid = Some c' ∧ cl_list_id c' = cl_list_id c;
  st_items id li : list_items db !! id = Some li →
    ∃ li', list_items db' !! id = Some li' ∧ li_list_id li' = li_list_id li;
  st_bought fid f' : fulfillments db' !! fid = Some f' → purchase_local db' f' ∨
    ∃ f, fulfillments db !! fid = Some f ∧ f_list_item_id f' = f_list_item_id f ∧ f_claim_id f' = f_claim_id f
}.

(** A purchase stays local when its claim and item stay. *)
Lemma purchase_local_stays db db' f f' :
  stays db db' → f_list_item_id f' = f_list_item_id f → f_claim_id f' = f_claim_id f →
  purchase_local db f → purchase_local db' f'.
Proof.
  intros [Hc Hi _] Ei Ec Hl cid Hf'. rewrite Ec in Hf'. destruct (Hl _ Hf') as (c & li & Hc0 & Hi0 & E).
  destruct (Hc _ _ Hc0) as (c' & Hc' & Ec'), (Hi _ _ Hi0) as (li' & Hi' & Ei').
  exists c', li'. rewrite Ei. split; [done|]. split; [done|congruence].
Qed.

Lemma stays_local db db' : stays db db' → claims_local db → claims_local db'.
Proof.
  intros Hs Hl fid f' Hf'. destruct (st_bought _ _ Hs _ _ Hf') as [?|(f & Hf & Ei & Ec)]; [done|].
  eapply purchase_local_stays; eauto.
Qed.

(** Nothing of it changed. *)
Lemma stays_tables db db' :
  claims db' = claims db → list_items db' = list_items db → fulfillments db' = fulfillments db → stays db db'.
Proof. intros Ec Ei Ef. split; intros; rewrite ?Ec, ?Ei, ?Ef in *; eauto. Qed.

#[local] Instance stays_preorder : PreOrder stays.
Proof.
  split; [intros db; by apply stays_tables|]. intros db1 db2 db3 H1 H2. split.
  - intros cid c (c' & Hc' & E1)%(st_claims _ _ H1). apply (st_claims _ _ H2) in Hc' as (c'' & ? & E2).
    exists c''. split; [done|congruence].
  - intros id li (li' & Hl' & E1)%(st_items _ _ H1). apply (st_items _ _ H2) in Hl' as (li'' & ? & E2).
    exists li''. split; [done|congruence].
  - intros fid f3 [?|(f2 & Hf2 & Ei & Ec)]%(st_bought _ _ H2); [by left|].
    apply (st_bought _ _ H1) in Hf2 as [Hl|(f1 & Hf1 & Ei' & Ec')].
    + left. by eapply purchase_local_stays.
    + right. exists f1. split; [done|split; congruence].
Qed.

(** ** Statements *)

Lemma stays_items_each db g :
  (∀ k li, li_list_id (g k li) = li_list_id li) → stays db (db <| list_items ::= update_each g |>).
Proof.
  intros Hg. split; set_simpl; [eauto| |eauto]. intros id li Hl. exists (g id li).
  by rewrite lookup_update_each, Hl.
Qed.

Lemma stays_items_update db P (g : ListItemRow → ListItemRow) :
  (∀ li, li_list_id (g li) = li_list_id li) → stays db (db <| list_items ::= update_where P g |>).
Proof.
  intros Hg. split; set_simpl; [eauto| |eauto]. intros id li Hl. rewrite lookup_update_where, Hl.
  eexists. split; [done|]. by destruct (P id li).
Qed.

Lemma stays_claim_update cid guard (upd : ClaimRow → ClaimRow) db :
  (∀ c, cl_list_id (upd c) = cl_list_id c) → stays db (update_claim_status cid guard upd db).
Proof.
  intros Hu. unfold update_claim_status. destruct (claims db !! cid) as [c|] eqn:Hc; [|done].
  destruct (guard c); [|done]. split; set_simpl; [|eauto|eauto]. intros k c0 Hk.
  destruct (decide (k = cid)) as [->|]; [|rewrite lookup_insert_ne; eauto].
  rewrite lookup_insert_eq. simplify_eq. eauto.
Qed.

Ltac same_rows := by apply stays_tables.

Lemma ledger_stays db db' : same_ledger db db' → stays db db'.
Proof. intros []. by apply stays_tables. Qed.

Lemma edits_stays db db' : edits db db' → stays db db'.
Proof.
  intros He. split; rewrite ?(ed_claims _ _ He), ?(ed_fulfillments _ _ He); eauto.
  intros id li (li' & Hl & E)%(ed_items _ _ He). exists li'. split; [done|]. by destruct E as [[= ? _ _ _] _ _].
Qed.

Lemma stays_load_list_detail lid viewer role : within stays (load_list_detail lid viewer role).
Proof. by intros db d db' ->%load_list_detail_Ok. Qed.
Lemma stays_lock_list lid : within stays (lock_list lid).
Proof. by intros db u db' [-> _]%lock_list_Ok. Qed.
Lemma stays_new_uuid : within stays new_uuid.
Proof. intros db u db' Hrun. inv_sql. same_rows. Qed.
Lemma stays_fire_webhook gid e : within stays (fire_webhook gid e).
Proof.
  intros db u db' Hrun. unfold fire_webhook, insert_pending_webhook in Hrun.
  destruct (to_value e) as [payload|]; inv_sql; [same_rows|done].
Qed.

Lemma stays_recompute_item_status id d : within stays (recompute_item_status id d).
Proof. unfold recompute_item_status, check_qty_fulfilled. within_solve. by apply stays_items_update. Qed.
Lemma stays_recompute_bulk ids : within stays (recompute_item_statuses_bulk ids).
Proof.
  unfold recompute_item_statuses_bulk. within_solve. apply stays_items_each. intros k li. by case_match.
Qed.

#[local] Hint Resolve stays_load_list_detail stays_lock_list stays_new_uuid stays_fire_webhook
  stays_recompute_item_status stays_recompute_bulk : within.

(** ** Handlers *)

Lemma stays_insert_claim lid u note : within stays (insert_claim lid u note).
Proof.
  intros db cid db' [Hn ->]%insert_claim_Ok. split; set_simpl; [|eauto|eauto].
  intros k c Hk. exists c. by rewrite lookup_insert_ne by congruence.
Qed.

Lemma stays_insert_claim_items cid ids : within stays (insert_claim_items cid ids).
Proof. unfold insert_claim_items, insert_claim_item_rows, insert_claim_item. within_solve. same_rows. Qed.

Lemma stays_validate lid ids : within stays (validate_claimable_items lid ids).
Proof. by intros db u db' [-> _]%validate_claimable_items_Ok. Qed.

Lemma stays_upsert_reimbursement lid q h : within stays (upsert_reimbursement lid q h).
Proof. unfold upsert_reimbursement. within_solve; same_rows. Qed.

#[local] Hint Resolve stays_insert_claim stays_insert_claim_items stays_validate
  stays_upsert_reimbursement : within.

Lemma stays_create_claim cur body : within stays (create_claim cur body).
Proof. unfold create_claim. within_solve. Qed.
Lemma stays_add_claim_items cur ids : within stays (add_claim_items cur ids).
Proof. unfold add_claim_items, claim_guards. within_solve. Qed.
Lemma stays_remove_claim_item cur item : within stays (remove_claim_item cur item).
Proof. unfold remove_claim_item, claim_guards. within_solve. same_rows. Qed.
Lemma stays_release_claim cur : within stays (release_claim cur).
Proof. unfold release_claim, claim_guards. within_solve. by apply stays_claim_update. Qed.

Lemma stays_advance_claim o status : within stays (advance_claim o status).
Proof. unfold advance_claim, complete_claim_if_done. within_solve. by apply stays_claim_update. Qed.

Lemma active_claim_local db item cid h :
  Inv db → active_claim_of db item = Some (cid, h) → ∃ c li, claims db !! cid = Some c ∧
    list_items db !! item = Some li ∧ cl_list_id c = li_list_id li.
Proof.
  intros Hinv Ha. unfold active_claim_of in Ha.
  apply head_Some_elem_of, list_elem_of_omap in Ha as ([[c i] ci] & Hin & Hc).
  apply elem_of_select_where in Hin as [Hk Hp]. cbn in *. bool_simpl. subst.
  destruct (claims db !! c) as [cl|] eqn:Hcl; simplify_eq/=.
  destruct (inv_targets _ Hinv (cid, item)) as (c' & li & ? & ? & ?); [by eexists|]. by exists c', li.
Qed.

Lemma stays_record_fulfillment cur item body db d db' :
  record_fulfillment cur item body db = Ok (d, db') → Inv db → stays db db'.
Proof.
  intros Hrun Hinv.
  apply record_run in Hrun as (li & q & fid & f & dbB & dbC & _ & _ & Hli & _ & _ & _ & _ & _ & Hfid & Hfi &
    Hfc & _ & _ & _ & _ & _ & _ & HdbB & Hadv & Hup).
  assert (stays db dbB) as K; [|rewrite K; rewrite (stays_advance_claim _ _ _ _ _ Hadv);
    by eapply stays_upsert_reimbursement].
  subst dbB. set (li' := recomputed _ _ _ _ _).
  assert (li_list_id li' = li_list_id li) as E by (subst li'; unfold recomputed; by repeat case_match).
  split; set_simpl; [eauto| |].
  - intros id li0 Hl0. destruct (decide (id = item)) as [->|]; [|rewrite lookup_insert_ne; eauto].
    rewrite lookup_insert_eq. simplify_eq. eauto.
  - intros k f' [[<- <-]|[_ Hf]]%lookup_insert_Some; [left|right; eauto].
    intros cid Hcid. rewrite Hfc in Hcid. destruct (active_claim_of db item) as [[c h]|] eqn:Ha; [|done].
    cbn in Hcid. injection Hcid as ->. destruct (active_claim_local _ _ _ _ Hinv Ha) as (c0 & li0 & Hc0 & Hl0 & E0).
    exists c0, li'. rewrite Hfi. set_simpl. rewrite lookup_insert_eq. simplify_eq. by rewrite E.
Qed.

Lemma stays_reverse_fulfillment fid user : within stays (reverse_fulfillment fid user).
Proof.
  intros db d db' (f & li & l & q & role & dbB & Hf & _ & Hli & _ & _ & _ & _ & _ & _ & HdbB & Hup)%reverse_run.
  assert (stays db dbB) as K; [|rewrite K; by eapply stays_upsert_reimbursement].
  subst dbB. split; set_simpl; [eauto| |].
  - intros id li0 Hl0. destruct (decide (id = f_list_item_id f)) as [->|]; [|rewrite lookup_insert_ne; eauto].
    rewrite lookup_insert_eq. simplify_eq. eexists. split; [done|]. unfold recomputed. by repeat case_match.
  - intros k f' [[<- <-]|[_ Hk]]%lookup_insert_Some; right; eauto.
Qed.

Lemma stays_mark_delivered cur item : within stays (mark_delivered cur item).
Proof. unfold mark_delivered. within_solve. by apply stays_items_update. Qed.

Lemma stays_auto_close lid : within stays (auto_close_list_if_complete lid).
Proof. unfold auto_close_list_if_complete. within_solve. case_match; same_rows. Qed.
#[local] Hint Resolve stays_auto_close : within.

Lemma stays_settle_manual rid user : within stays (settle_manual rid user).
Proof.
  unfold settle_manual, flip_items_to_settled, flip_items_to_settled_corp, set_settled.
  within_solve; first [same_rows|by apply stays_items_update].
Qed.
#[local] Hint Resolve stays_settle_manual : within.

Lemma stays_settle_reimbursement rid user : within stays (settle_reimbursement rid user).
Proof. unfold settle_reimbursement. within_solve. Qed.
Lemma stays_set_list_tip cur pct : within stays (set_list_tip cur pct).
Proof. unfold set_list_tip, cast_tip. within_solve; same_rows. Qed.
Lemma stays_set_group_default_tip cur pct : within stays (set_group_default_tip cur pct).
Proof. unfold set_group_default_tip, cast_tip. within_solve; same_rows. Qed.

Lemma stays_recompute_expected cid : within stays (recompute_contract_expected_total cid).
Proof. unfold recompute_contract_expected_total. within_solve. same_rows. Qed.

Lemma stays_settle_via_contract cid : within stays (settle_via_contract cid).
Proof.
  unfold settle_via_contract, flip_contract_items. within_solve;
    first [same_rows|by apply stays_items_update].
Qed.
#[local] Hint Resolve stays_recompute_expected stays_settle_via_contract : within.

Lemma stays_finalize_link ctx : within stays (finalize_link ctx).
Proof. unfold finalize_link. within_solve. same_rows. Qed.
#[local] Hint Resolve stays_finalize_link : within.

Lemma stays_fire_settlement infos : within stays (fire_settlement_webhooks infos).
Proof. unfold fire_settlement_webhooks. within_solve. Qed.
#[local] Hint Resolve stays_fire_settlement : within.

Lemma stays_confirm user sid : within stays (confirm_suggestion user sid).
Proof. unfold confirm_suggestion, do_confirm, validate_link, confirm_suggestion_row. within_solve. same_rows. Qed.
Lemma stays_manual_link user cid rid : within stays (manual_link user cid rid).
Proof.
  unfold manual_link, do_manual_link, validate_link, upsert_confirmed, confirm_suggestion_row.
  within_solve; same_rows.
Qed.
Lemma stays_reject user sid : within stays (reject_suggestion user sid).
Proof. unfold reject_suggestion, do_reject. within_solve; same_rows. Qed.
Lemma stays_unlink user cid : within stays (unlink_contract user cid).
Proof. unfold unlink_contract, do_unlink. within_solve; same_rows. Qed.

(** ** Steps *)

Lemma within_edits_stays {A} (m : Handler A) : within edits m → within stays m.
Proof. apply within_sub, edits_stays. Qed.
Lemma within_ledger_stays {A} (m : Handler A) : within same_ledger m → within stays m.
Proof. apply within_sub, ledger_stays. Qed.

(** The extractors only read. *)
Lemma stays_on_path_list {A} session id (h : CurrentList → Handler A) :
  (∀ cur, within stays (h cur)) → within stays (on_path_list session id h).
Proof. intros Hh db u db' (cur & a & Hrun)%on_path_list_run. by eapply Hh. Qed.
Lemma stays_on_path_group {A} session id (h : CurrentGroup → Handler A) :
  (∀ cur, within stays (h cur)) → within stays (on_path_group session id h).
Proof. intros Hh db u db' (cur & a & Hrun)%on_path_group_run. by eapply Hh. Qed.
Lemma stays_on_path_claim {A} session id (h : CurrentClaim → Handler A) :
  (∀ cur, within stays (h cur)) → within stays (on_path_claim session id h).
Proof. intros Hh db u db' (cur & a & Hrun & _)%on_path_claim_run. by eapply Hh. Qed.
Lemma stays_as_user {A} session (h : Uuid → Handler A) :
  (∀ user, within stays (h user)) → within stays (as_user session h).
Proof. intros Hh db u db' (user & a & Hrun)%as_user_run. by eapply Hh. Qed.

#[local] Hint Resolve stays_on_path_list stays_on_path_group stays_on_path_claim stays_as_user
  stays_create_claim stays_add_claim_items stays_remove_claim_item stays_release_claim
  stays_reverse_fulfillment stays_mark_delivered stays_settle_reimbursement stays_set_list_tip
  stays_set_group_default_tip stays_confirm stays_manual_link stays_reject stays_unlink
  within_edits_stays within_ledger_stays edits_preview edits_create edits_patch_list edits_replace_markets
  edits_add_items unlink_corp_within create_group_within join_group_within leave_within
  rotate_invite_within add_ambassador_within remove_ambassador_within : stays.

Lemma handle_stays session (req : Request) db u db' :
  handle session req db = Ok (u, db') → admitted req db db' → Inv db → stays db db'.
Proof.
  destruct req; cbn [handle admitted]; intros Hreq Hadm Hinv;
    try (refine ((_ : within stays _) _ _ _ Hreq); by eauto with stays).
  - apply on_path_list_run in Hreq as (cur & a & Hrun). by eapply stays_record_fulfillment.
  - apply on_path_list_run in Hreq as (cur & a & Hrun). destruct Hadm. by eapply edits_stays, edits_patch_item.
  - apply as_user_run in Hreq as (user & a & Hrun). by eapply edits_stays, edits_patch_list_payer.
  - apply on_path_group_run in Hreq as (cur & a & Hrun). destruct Hadm.
    eapply edits_stays, edits_link_corp; [done|done|]. by apply refs_principals, inv_refs.
Qed.

Lemma stays_in_transaction {A} (body : M Db Anyhow A) db :
  within stays body → stays db (in_transaction body db).2.
Proof.
  intros Hb. unfold in_transaction. destruct (body db) as [[a db']|e] eqn:He; [by eapply Hb|done].
Qed.

Lemma stays_upsert_batch turn cs :
  (∀ c db o db', turn c db = Ok (o, db') → same_ledger db db') → within stays (upsert_batch turn cs).
Proof. intros Ht db us db' H. by eapply ledger_stays, upsert_batch_ledger. Qed.

Lemma stays_terminal u : within stays (handle_contract_terminal u).
Proof.
  unfold handle_contract_terminal, unbind_contract, enqueue_settled, insert_pending_webhook.
  within_solve; same_rows.
Qed.

Lemma stays_run_one cid : within stays (run_one cid).
Proof. unfold run_one, suggest. within_solve; same_rows. Qed.

Lemma stays_verify_all cids db : stays db (verify_all cids db).
Proof.
  revert db. induction cids as [|cid rest IH]; intros db; cbn [verify_all]; [done|].
  destruct (verify_contract_against_journal cid db) as [[u db1]|e] eqn:Hv; [|done].
  transitivity db1; [|done].
  apply verify_run in Hv as [->|(c & payout & ds & _ & _ & _ & _ & ->)]; [done|]. same_rows.
Qed.

Lemma step_stays db db' : step db db' → Inv db → stays db db'.
Proof.
  intros Hs Hinv. destruct Hs as [session r now utc db db' Hadm|cs now utc db|? ? cs now utc db|u now utc db
    |cid now utc db|cids now utc db|user g db|db db' Hsame];
    [..|same_rows|by apply ledger_stays];
    rewrite (ledger_stays _ _ (at_clock_ledger now utc db)) at 1;
    rewrite (at_clock_ledger now utc db) in Hinv; set (db0 := at_clock now utc db) in *.
  - subst db'. unfold tx_middleware in *. cbn in *.
    destruct (handle session r db0) as [[u db1]|e] eqn:Hh; cbn in *; [|done].
    eapply handle_stays; [done| |done]. by apply admitted_ledger.
  - apply stays_in_transaction. unfold poll_character. within_solve. apply stays_upsert_batch.
    intros. by eapply upsert_polled_ledger.
  - apply stays_in_transaction. unfold poll_corp. within_solve. apply stays_upsert_batch.
    intros. by eapply upsert_polled_ledger.
  - apply stays_in_transaction, stays_terminal.
  - apply stays_in_transaction, stays_run_one.
  - apply stays_verify_all.
Qed.

(** ** Deletions *)

Lemma local_cascade_lists doomed db : claims_local db → claims_local (cascade_lists doomed db).
Proof.
  intros Hl. set (db' := cascade_lists doomed db).
  assert (list_items db' = delete_where (λ _ li, doomed (li_list_id li)) (list_items db)) as Eli
    by reflexivity.
  assert (claims db' = delete_where (λ _ c, doomed (cl_list_id c)) (claims db)) as Ecl by reflexivity.
  assert (fulfillments db' = update_each (λ _, unclaim (claim_doomed doomed db))
    (delete_where (λ _ f, item_doomed doomed db (f_list_item_id f)) (fulfillments db))) as Efs
    by reflexivity.
  clearbody db'. intros fid f'. rewrite Efs, lookup_update_each.
  intros (f & [Hf Hi]%lookup_delete_where_Some & ->)%fmap_Some.
  unfold unclaim. destruct (f_claim_id f) as [c|] eqn:Hc; [|intros cid; congruence].
  destruct (claim_doomed doomed db c) eqn:Hd; intros cid Hcid; [done|].
  rewrite Hc in Hcid. injection Hcid as <-. destruct (Hl _ _ Hf _ Hc) as (c0 & li & Hc0 & Hli & E).
  unfold claim_doomed, item_doomed in *. rewrite Hc0 in Hd. rewrite Hli in Hi.
  exists c0, li. rewrite Ecl, Eli. by rewrite !lookup_delete_where_Some.
Qed.

Lemma local_cascade_item item db : claims_local db → claims_local (cascade_item item db).
Proof.
  intros Hl fid f' [Hf Hi]%lookup_delete_where_Some cid Hcid. bool_simpl.
  destruct (Hl _ _ Hf _ Hcid) as (c0 & li & Hc0 & Hli & E). exists c0, li.
  split; [done|]. split; [|done]. unfold cascade_item. cbn. by rewrite lookup_delete_ne by done.
Qed.

Lemma local_cascade_group g db : claims_local db → claims_local (cascade_group g db).
Proof.
  intros Hl%(local_cascade_lists (list_of_group db g)). unfold cascade_group.
  revert Hl. generalize (cascade_lists (list_of_group db g) db). intros d. by apply stays_local, stays_tables.
Qed.

Lemma erasure_local db db' : erasure db db' → claims_local db → claims_local db'.
Proof.
  intros [session d now utc db0 db1 Hun Hq] Hl.
  assert (claims_local (at_clock now utc db0)) as Hl' by done.
  subst db1. unfold tx_middleware in *. cbn in *.
  destruct (handle_deletion session d _) as [[u db1]|e] eqn:Hreq; cbn in *; [|done]. clear Hun Hq Hl.
  revert Hl' Hreq. generalize (at_clock now utc db0). intros s Hl Hreq.
  destruct d; cbn [handle_deletion] in Hreq.
  - apply on_path_list_run in Hreq as (cur & a & Hrun). unfold delete_list in Hrun. inv_sql.
    match goal with H : when _ _ _ = _ |- _ => apply when_Ok in H end. case_match; inv_sql; [|done].
    by apply local_cascade_lists.
  - apply on_path_list_run in Hreq as (cur & a & Hrun). unfold delete_item in Hrun. inv_sql.
    match goal with H : lock_item _ _ _ = _ |- _ => apply lock_item_Ok in H as [-> _] end.
    match goal with H : load_list_detail _ _ _ _ = _ |- _ => apply load_list_detail_Ok in H; subst end.
    eapply stays_local; [|apply (local_cascade_item item_id), Hl].
    match goal with H : touch_list _ _ = _ |- _ => apply touch_list_within in H; rename H into Ht end.
    match goal with H : recompute_estimates _ _ _ = _ |- _ =>
      apply recompute_estimates_within in H; rename H into Hr end.
    apply edits_stays. by rewrite Ht.
  - apply on_path_group_run in Hreq as (cur & a & Hrun). unfold delete_group in Hrun. inv_sql.
    by apply local_cascade_group.
Qed.

Lemma reachable_local db : reachable db → claims_local db.
Proof.
  induction 1 as [db Hi|db db' Hr IH Hs|db db' Hr IH He].
  - intros fid f Hf. by rewrite (init_fulfillments _ Hi) in Hf.
  - eapply stays_local; [|exact IH]. by apply step_stays, reachable_Inv.
  - by eapply erasure_local.
Qed.
End Locality.
