(* ===== verification/Membership.v ===== *)
(** * Membership

    The requests of [crates/api/src/groups.rs] that write, as a step relation
    over the groups and memberships, with what every reachable state satisfies:
    a group always has an owner, invite codes identify groups, and nobody is in
    more groups than the quota allows.  The last part is about the loop that
    draws another invite code after a collision. *)

From Stdlib Require Import ZArith Lia.
From stdpp Require Import base tactics decidable option list gmap strings pretty.
From S2P Require Import Prelude Effect Unicode Domain Host Schema Fixtures Errors Within.
From S2P Require Import Market Config Extract Detail Pricing Wallet Lists Poller Groups Corps.
From S2P Require Import Invariant Ledger.

Local Open Scope string_scope.

Section Membership.
Context `{RT : Runtime} {API : EsiApi} {MA : MarketApi} {CFG : AppConfig} {RD : RustDecimal}
  {IC : InviteCodes} {CE : CorpEsi} {SA : ShareArith}.
Implicit Types (db : Db).

(** ** Steps *)

Definition is_group_request (req : Request) : bool :=
  match req with CreateGroup _ | JoinGroup _ | LeaveGroup _ | RotateInvite _ => true | _ => false end.

Inductive group_step : Db → Db → Prop :=
| group_step_request session (req : Request) now utc db : is_group_request req = true →
    group_step db (tx_middleware (handle session req) (at_clock now utc db)).2
| group_step_delete session id now utc db :
    group_step db (tx_middleware (handle_deletion session (DeleteGroup id)) (at_clock now utc db)).2.

Inductive group_reachable (db0 : Db) : Db → Prop :=
| group_start : group_reachable db0 db0
| group_next db db' : group_reachable db0 db → group_step db db' → group_reachable db0 db'.

(** ** The invariant *)

Record groups_ok db : Prop := mkGroupsOk {
  go_owned g : is_Some (groups db !! g) →
    ∃ u m, group_memberships db !! (u, g) = Some m ∧ gm_role m = Owner;
  go_member u g : is_Some (group_memberships db !! (u, g)) → is_Some (groups db !! g);
  go_codes g1 g2 r1 r2 : groups db !! g1 = Some r1 → groups db !! g2 = Some r2 →
    g_invite_code r1 = g_invite_code r2 → g1 = g2;
  go_quota u : (groups_of db u ≤ groups_per_user limits)%Z
}.

Lemma groups_ok_tables db db' :
  groups db' = groups db → group_memberships db' = group_memberships db → groups_ok db → groups_ok db'.
Proof.
  intros Eg Em [A B C D]. split; intros *; unfold groups_of; rewrite ?Eg, ?Em;
    [apply A|apply B|apply C|apply D].
Qed.

(** ** Storing a code *)

(** A stored group: a new row, or a new code in an old row. *)
Definition stored_group db db' (g : Uuid) (row : GroupRow) : Prop :=
  groups db' = <[g := row]> (groups db) ∧ group_memberships db' = group_memberships db ∧
  users db' = users db ∧
  ∀ g2 r2, groups db !! g2 = Some r2 → g_invite_code r2 = g_invite_code row → g2 = g.

Lemma code_free_true db except code :
  code_free db except code = true ↔
  ∀ g r, groups db !! g = Some r → g_invite_code r = code → Some g = except.
Proof.
  unfold code_free. rewrite negb_true_iff, sel_exists_false. split.
  - intros Hall g r Hr Hc. specialize (Hall _ _ Hr). rewrite (bool_decide_eq_true_2 _ Hc), andb_true_r in Hall.
    apply negb_false_iff in Hall. by bool_simpl.
  - intros Hall g r Hr. destruct (decide (g_invite_code r = code)) as [Hc|Hc].
    + rewrite (bool_decide_eq_true_2 (Some g = except)) by by eapply Hall. done.
    + by rewrite (bool_decide_eq_false_2 (g_invite_code r = code)), andb_false_r.
Qed.

Lemma insert_group_Ok name u code db gr db' :
  insert_group name u code db = Ok (gr, db') →
  ∃ row, stored_group db db' (Group_id gr) row ∧ groups db !! Group_id gr = None ∧
    g_invite_code row = code.
Proof.
  unfold insert_group. intros Hrun. inv_sql. set_simpl.
  rewrite ?negb_true_iff, row_exists_false, ?code_free_true in *.
  match goal with H : groups db !! ?id = None |- _ => rename H into Hn end.
  eexists. split; [split; [reflexivity|]; split; [reflexivity|]; split; [reflexivity|]|by split].
  intros g2 r2 Hr Hc. match goal with H : ∀ g r, _ → _ → Some g = None |- _ => by specialize (H _ _ Hr Hc) end.
Qed.

Lemma store_invite_code_Ok g code db gr db' :
  store_invite_code g code db = Ok (gr, db') →
  ∃ row, stored_group db db' g row ∧ is_Some (groups db !! g) ∧ g_invite_code row = code.
Proof.
  unfold store_invite_code. intros Hrun. inv_sql. set_simpl. rewrite code_free_true in *.
  eexists. split; [split; [reflexivity|]; split; [reflexivity|]; split; [reflexivity|]|by split].
  intros g2 r2 Hr Hc. match goal with H : ∀ g r, _ → _ → Some g = _ |- _ =>
    by specialize (H _ _ Hr Hc) as [= ->] end.
Qed.
(** Only the first code is ever stored: after an error the transaction takes
    no more statements. *)
Lemma with_invite_code_first n store db o db' :
  with_invite_code (S (S n)) false store db = Ok (o, db') →
  ∃ gr, o = Some gr ∧
    store (sample_string (db_draws db)) (db <| db_draws ::= N.succ |>) = Ok (gr, db').
Proof.
  cbn [with_invite_code]. unfold random_invite_code, in_request_tx, attempt, mbind, M_bind.
  destruct (store _ _) as [[gr d]|e]; [intros [= <- <-]; eauto|].
  by destruct (is_invite_collision e).
Qed.

Lemma stored_group_draws db db' g row :
  stored_group (db <| db_draws ::= N.succ |>) db' g row → stored_group db db' g row.
Proof. done. Qed.

(** ** The invariant holds after every request *)

Lemma insert_membership_Ok u g role db x db' :
  insert_membership u g role db = Ok (x, db') →
  group_memberships db !! (u, g) = None ∧ is_Some (groups db !! g) ∧ groups db' = groups db ∧
  group_memberships db' = <[(u, g) := mkMembershipRow role (db_now db)]> (group_memberships db).
Proof.
  unfold insert_membership. intros Hrun. inv_sql. set_simpl.
  rewrite negb_true_iff, row_exists_false, row_exists_true in *. by split_and!.
Qed.

(** A member more, below the cap. *)
Lemma groups_ok_member db db' u g role :
  group_memberships db !! (u, g) = None → is_Some (groups db !! g) → groups db' = groups db →
  group_memberships db' = <[(u, g) := role]> (group_memberships db) →
  (groups_of db u < groups_per_user limits)%Z → groups_ok db → groups_ok db'.
Proof.
  intros Hn Hg Eg Em Hq [A B C D]. split; intros *; unfold groups_of; rewrite ?Eg, ?Em.
  - intros [v [m [Hm Ho]]]%A. exists v, m. split; [|done]. rewrite lookup_insert_ne; [done|congruence].
  - intros [[= <- <-]|[_ Hm]]%lookup_insert_is_Some; [done|]. by eapply B.
  - apply C.
  - unfold count_where, sum_where. rewrite sum_of_insert by done. specialize (D u0).
    unfold groups_of, count_where, sum_where in *. case_match; bool_simpl; lia.
Qed.

Lemma groups_ok_stored db db' g row :
  stored_group db db' g row → is_Some (groups db !! g) → groups_ok db → groups_ok db'.
Proof.
  intros (Eg & Em & _ & Hc) [r0 Hr0] [A B C D]. split; intros *; unfold groups_of; rewrite ?Eg, ?Em.
  - intros Hg. apply A. destruct (decide (g0 = g)) as [->|Hne]; [by eexists|].
    by rewrite lookup_insert_ne in Hg by done.
  - intros Hm%B. destruct (decide (g0 = g)) as [->|Hne]; [by rewrite lookup_insert_eq|].
    by rewrite lookup_insert_ne.
  - intros [[<- <-]|[N1 H1]]%lookup_insert_Some [[<- <-]|[N2 H2]]%lookup_insert_Some He;
      [done|by specialize (Hc _ _ H2 (eq_sym He))|by specialize (Hc _ _ H1 He)|by eapply C].
  - apply D.
Qed.

Lemma groups_ok_create u name db gr db' :
  create_group u name db = Ok (gr, db') → groups_ok db → groups_ok db'.
Proof.
  unfold create_group, lock_user_for_quota, require_group_quota, check_group_quota.
  intros Hrun Hok. inv_sql.
  match goal with H : with_invite_code _ _ _ _ = _ |- _ =>
    apply with_invite_code_first in H as (gr0 & [= ->] & H); apply insert_group_Ok in H as
      (row & Hst%stored_group_draws & Hn & _) end.
  match goal with H : insert_membership _ _ _ _ = _ |- _ => apply insert_membership_Ok in H as
    (_ & _ & Eg & Em) end.
  destruct Hst as (Eg0 & Em0 & _ & Hc). destruct Hok as [A B C D].
  match goal with H : (_ <? _)%Z = true |- _ => apply Z.ltb_lt in H; rename H into Hq end.
  set (g := Group_id gr0) in *.
  assert (∀ v, group_memberships db !! (v, g) = None) as Hfresh.
  { intros v. apply eq_None_not_Some. intros [r Hr]%B. change (groups db !! g = None) in Hn. congruence. }
  split; intros *; unfold groups_of; rewrite ?Eg, ?Em, ?Eg0, ?Em0.
  - intros Hg. destruct (decide (g0 = g)) as [->|Hne].
    + exists u. eexists. by rewrite lookup_insert_eq.
    + rewrite lookup_insert_ne in Hg by done. destruct (A _ Hg) as (v & m & Hm & Ho).
      exists v, m. rewrite lookup_insert_ne by congruence. done.
  - intros [m [[[= <- <-] _]|[_ Hm]]%lookup_insert_Some]; [by rewrite lookup_insert_eq|].
    destruct (decide (g0 = g)) as [->|Hne]; [by rewrite lookup_insert_eq|].
    rewrite lookup_insert_ne by done. by eapply B.
  - intros [[<- <-]|[N1 H1]]%lookup_insert_Some [[<- <-]|[N2 H2]]%lookup_insert_Some He;
      [done|by specialize (Hc _ _ H2 (eq_sym He))|by specialize (Hc _ _ H1 He)|by eapply C].
  - unfold count_where, sum_where. rewrite sum_of_insert by apply Hfresh. specialize (D u0).
    unfold groups_of, count_where, sum_where in *. case_match; bool_simpl; lia.
Qed.

Lemma groups_ok_join u code db gr db' :
  join_group u code db = Ok (gr, db') → groups_ok db → groups_ok db'.
Proof.
  unfold join_group, lock_user_for_quota, require_group_quota, check_group_quota.
  intros Hrun Hok. inv_sql. match goal with x : N * GroupRow |- _ => destruct x as [g row] end.
  inv_sql. match goal with H : when _ _ _ = _ |- _ => apply when_Ok in H end.
  case_match; [|by subst]. inv_sql.
  match goal with H : insert_membership _ _ _ _ = _ |- _ => apply insert_membership_Ok in H as
    (Hn & Hg & Eg & Em) end.
  match goal with H : (_ <? _)%Z = true |- _ => apply Z.ltb_lt in H end. by eapply groups_ok_member.
Qed.

Lemma other_owners_pos db g u :
  other_owners db g u ≠ 0 → ∃ v m, group_memberships db !! (v, g) = Some m ∧ v ≠ u ∧ gm_role m = Owner.
Proof.
  unfold other_owners. destruct (select_where _ _) as [|[[v g'] m] rest] eqn:Hs; [done|intros _].
  assert ((v, g', m) ∈ select_where (λ k m, (k.2 == g) && (k.1 != u) && (gm_role m == Owner))
    (group_memberships db)) as [Hm Hp]%elem_of_select_where by (rewrite Hs; left).
  cbn in Hp. bool_simpl. eauto.
Qed.

Lemma groups_ok_leave cur db x db' : leave cur db = Ok (x, db') → groups_ok db → groups_ok db'.
Proof.
  unfold leave. intros Hrun [A B C D]. inv_sql. set_simpl.
  match goal with H : group_memberships db !! _ = Some ?x |- _ => rename x into m0, H into Hm0 end.
  match goal with H : negb _ = true |- _ => apply negb_true_iff in H; rename H into Hlast end.
  set (u := cg_user_id cur) in *. set (g := cg_group_id cur) in *.
  split; intros *; unfold groups_of; set_simpl.
  - intros Hg. destruct (A _ Hg) as (v & m & Hm & Ho). destruct (decide ((v, g0) = (u, g))) as [He|Hne].
    + injection He as -> ->. rewrite Hm0 in Hm. injection Hm as ->.
      rewrite Ho, bool_decide_eq_true_2 in Hlast by done. apply Nat.eqb_neq in Hlast.
      destruct (other_owners_pos _ _ _ Hlast) as (w & mw & Hw & Hwu & Hwo). exists w, mw.
      rewrite lookup_delete_ne by congruence. done.
    + exists v, m. by rewrite lookup_delete_ne.
  - intros [m [_ Hm]%lookup_delete_Some]. by eapply B.
  - apply C.
  - specialize (D u0). unfold groups_of, count_where, sum_where in *.
    rewrite (sum_of_delete _ _ _ _ Hm0) in D. case_match; lia.
Qed.

Lemma groups_ok_rotate cur db gr db' : rotate_invite cur db = Ok (gr, db') → groups_ok db → groups_ok db'.
Proof.
  unfold rotate_invite. intros Hrun Hok. inv_sql.
  match goal with H : with_invite_code _ _ _ _ = _ |- _ =>
    apply with_invite_code_first in H as (gr0 & [= ->] & H); apply store_invite_code_Ok in H as
      (row & Hst%stored_group_draws & Hg & _) end.
  by eapply groups_ok_stored.
Qed.

Lemma groups_ok_delete cur db x db' : delete_group cur db = Ok (x, db') → groups_ok db → groups_ok db'.
Proof.
  unfold delete_group. intros Hrun [A B C D]. inv_sql. set (g := cg_group_id cur).
  assert (groups (cascade_group g db) = delete g (groups db)) as Eg by reflexivity.
  assert (group_memberships (cascade_group g db) =
    delete_where (λ k _, k.2 == g) (group_memberships db)) as Em by reflexivity.
  split; intros *; unfold groups_of; rewrite ?Eg, ?Em.
  - intros [r [Hne Hr]%lookup_delete_Some]. destruct (A g0) as (v & m & Hm & Ho); [by eexists|].
    exists v, m. split; [|done]. apply lookup_delete_where_Some. split; [done|].
    by apply bool_decide_eq_false.
  - intros [m [Hm Hne]%lookup_delete_where_Some]. bool_simpl. rewrite lookup_delete_ne by done.
    by eapply B.
  - intros [_ H1]%lookup_delete_Some [_ H2]%lookup_delete_Some. by eapply C.
  - etransitivity; [|apply (D u)]. unfold groups_of, count_where, sum_where.
    rewrite sum_of_delete_where. apply sum_of_le. intros k m _. by repeat case_match.
Qed.

Lemma group_step_ok db db' : group_step db db' → groups_ok db → groups_ok db'.
Proof.
  assert (∀ (h : Handler unit) d, (∀ u d', h d = Ok (u, d') → groups_ok d → groups_ok d') →
    groups_ok d → groups_ok (tx_middleware h d).2) as Htx.
  { intros h d Hh Hok. unfold tx_middleware. cbn. destruct (h d) as [[u d']|e] eqn:Hd; cbn; eauto. }
  intros [session req now utc d Hreq|session id now utc d] Hok; apply Htx; try by destruct Hok.
  - intros u d' Hrun. destruct req; try discriminate Hreq; cbn [handle] in Hrun; intros Hd.
    + apply as_user_run in Hrun as (user & a & Hrun). by eapply groups_ok_create.
    + apply as_user_run in Hrun as (user & a & Hrun). by eapply groups_ok_join.
    + apply on_path_group_run in Hrun as (cur & a & Hrun). by eapply groups_ok_leave.
    + apply on_path_group_run in Hrun as (cur & a & Hrun). by eapply groups_ok_rotate.
  - intros u d' Hrun. cbn [handle_deletion] in Hrun. intros Hd.
    apply on_path_group_run in Hrun as (cur & a & Hrun). by eapply groups_ok_delete.
Qed.

Lemma group_reachable_ok db0 db : group_reachable db0 db → groups_ok db0 → groups_ok db.
Proof. induction 1; [done|]. intros. eapply group_step_ok; eauto. Qed.

(** ** Properties *)

(** C27 A group is never orphaned, and a code never ambiguous: in every state
    the group requests reach, each group has an owner, every membership is of
    an existing group, and no two groups share an invite code. *)
Theorem groups_keep_owner db0 db :
  groups_ok db0 → group_reachable db0 db →
  (∀ g, is_Some (groups db !! g) →
     ∃ u m, group_memberships db !! (u, g) = Some m ∧ gm_role m = Owner) ∧
  (∀ u g, is_Some (group_memberships db !! (u, g)) → is_Some (groups db !! g)) ∧
  (∀ g1 g2 r1 r2, groups db !! g1 = Some r1 → groups db !! g2 = Some r2 →
     g_invite_code r1 = g_invite_code r2 → g1 = g2).
Proof. intros Hok Hr. by destruct (group_reachable_ok _ _ Hr Hok). Qed.

(** C28 The quota is a bound: in every state the group requests reach, nobody
    is a member of more groups than [limits.groups_per_user], created or
    joined. *)
Theorem group_quota_bound db0 db user :
  groups_ok db0 → group_reachable db0 db → (groups_of db user ≤ groups_per_user limits)%Z.
Proof. intros Hok Hr. by destruct (group_reachable_ok _ _ Hr Hok). Qed.

(** The loop that draws another invite code never gets to: when the first
    code drawn is taken, creating a group and rotating a code fail with an
    error, whatever the seven codes to come. *)
Theorem invite_collision_fails user name cur db :
  (code_free db None (sample_string (db_draws db)) = false →
   is_ok (create_group user name db) = false) ∧
  (code_free db (Some (cg_group_id cur)) (sample_string (db_draws db)) = false →
   is_ok (rotate_invite cur db) = false).
Proof.
  split; intros Htaken.
  - destruct (create_group user name db) as [[gr db']|e] eqn:Hrun; [exfalso|done].
    unfold create_group, lock_user_for_quota, require_group_quota, check_group_quota in Hrun. inv_sql.
    match goal with H : with_invite_code _ _ _ _ = _ |- _ =>
      apply with_invite_code_first in H as (gr0 & _ & H); apply insert_group_Ok in H as
        (row & (_ & _ & _ & Hc) & Hn & Hx) end.
    apply not_true_iff_false in Htaken. apply Htaken, code_free_true.
    intros g r Hg He. specialize (Hc _ _ Hg (eq_trans He (eq_sym Hx))) as ->.
    match type of Hn with groups ?d !! _ = _ => change (groups d) with (groups db) in Hn end. congruence.
  - destruct (rotate_invite cur db) as [[gr db']|e] eqn:Hrun; [exfalso|done].
    unfold rotate_invite in Hrun. inv_sql.
    match goal with H : with_invite_code _ _ _ _ = _ |- _ =>
      apply with_invite_code_first in H as (gr0 & _ & H); apply store_invite_code_Ok in H as
        (row & (_ & _ & _ & Hc) & _ & Hx) end.
    apply not_true_iff_false in Htaken. apply Htaken, code_free_true.
    intros g r Hg He. by specialize (Hc _ _ Hg (eq_trans He (eq_sym Hx))) as ->.
Qed.
End Membership.

(** ** Witnesses *)

Section Witnesses.
#[local] Existing Instance fixture_runtime.
#[local] Existing Instance fixture_api.
#[local] Existing Instance fixture_market.
#[local] Existing Instance fixture_config.
#[local] Existing Instance fixture_decimal.
#[local] Existing Instance fixture_codes.
#[local] Existing Instance fixture_corp_esi.
#[local] Existing Instance fixture_shares.

Lemma base_db_groups : groups_ok base_db.
Proof.
  split.
  - intros g Hg. destruct (decide (g = 10%N)) as [->|Hne].
    + exists 1%N, (mkMembershipRow Owner 1). split; vm_compute; reflexivity.
    + destruct Hg as [r Hg]. change (groups base_db) with
        ({[ 10%N := mkGroupRow "Haulers" "code" 1 0 1 ]} : gmap Uuid GroupRow) in Hg.
      by rewrite lookup_singleton_ne in Hg.
  - intros u g [m Hm]. apply elem_of_map_to_list in Hm. vm_compute in Hm.
    assert (g = 10%N) as ->; [|vm_compute; by eexists].
    repeat (apply elem_of_cons in Hm as [Hm|Hm]; [congruence|]). set_solver.
  - intros g1 g2 r1 r2 H1 H2 _.
    change (groups base_db) with
      ({[ 10%N := mkGroupRow "Haulers" "code" 1 0 1 ]} : gmap Uuid GroupRow) in H1, H2.
    apply lookup_singleton_Some in H1 as [<- _], H2 as [<- _]. reflexivity.
  - intros u. unfold groups_of, count_where, sum_where.
    transitivity (sum_of (λ _ _, 1%Z) (group_memberships base_db)); [|vm_compute; discriminate].
    apply sum_of_le. intros k m _. by case_match.
Qed.

(** Carol creates a group, Bob joins it, and Carol may not leave it. *)
Definition crew_db : Db :=
  foldl run_request base_db
    [ (3%N, CreateGroup (str "Crew")); (2%N, JoinGroup "code0"); (3%N, LeaveGroup 1001) ].

Lemma crew_db_reachable : group_reachable base_db crew_db.
Proof.
  unfold crew_db, run_request. cbn [foldl fst snd].
  do 3 (eapply group_next; [|apply group_step_request; reflexivity]). apply group_start.
Qed.

Lemma groups_keep_owner_witness :
  is_Some (groups crew_db !! 1001%N) ∧
  ∃ u m, group_memberships crew_db !! (u, 1001%N) = Some m ∧ gm_role m = Owner.
Proof.
  assert (is_Some (groups crew_db !! 1001%N)) as Hg.
  { apply is_none_false. vm_compute. reflexivity. }
  split; [exact Hg|].
  exact (proj1 (groups_keep_owner base_db crew_db base_db_groups crew_db_reachable) _ Hg).
Defined.

Lemma group_quota_bound_witness :
  groups_of crew_db 2 = 2%Z ∧ (groups_of crew_db 2 ≤ groups_per_user limits)%Z.
Proof.
  split; [vm_compute; reflexivity|].
  exact (group_quota_bound base_db crew_db 2 base_db_groups crew_db_reachable).
Defined.
End Witnesses.
