(* ===== verification/Tenancy.v ===== *)
(** * Tenant isolation

    Groups share the tables, so what a request writes must stay with the groups
    its caller is in.  [kept g] says that a state has the same rows of the
    tenant [g] as another: the group, its members, links and settings, its
    lists and all that hangs off them, and its queued events.  Contracts,
    corporations, their ambassadors and wallets have no group column and are
    nobody's here.  Every statement
    a handler makes keeps [g] when the rows it names are not [g]'s; which rows
    those are does not change while [g] is kept, so the facts the guards
    establish last to the end of the handler. *)

From Stdlib Require Import ZArith Lia.
From stdpp Require Import base tactics decidable option list gmap relations strings.
From S2P Require Import Prelude Effect Unicode Money Domain Host Schema Fixtures Errors.
From S2P Require Import Market Config Extract Webhooks Detail Pricing Settlement Wallet Fulfillment Claims.
From S2P Require Import Reimbursements Fulfillments Contracts Poller Matching Lists Items Groups Corps.
From S2P Require Import Within Invariant Preservation Purchases DebtSteps Edits Prunes Editing Growth Ledger.

Local Open Scope string_scope.

(** ** Tables that agree on some rows *)

Section SameOn.
Context `{Countable K} {V : Type}.
Implicit Types (Q : K → V → Prop) (t : gmap K V).

Definition same_on Q t t' : Prop := ∀ k v, Q k v → t !! k = Some v ↔ t' !! k = Some v.

Lemma same_on_refl Q t : same_on Q t t.
Proof. done. Qed.

Lemma same_on_trans Q Q' t1 t2 t3 :
  (∀ k v, Q k v → Q' k v) → same_on Q t1 t2 → same_on Q' t2 t3 → same_on Q t1 t3.
Proof. intros HQ H1 H2 k v Hk. rewrite (H1 k v Hk). apply H2, HQ, Hk. Qed.

Lemma same_on_insert Q t k v :
  (∀ v0, t !! k = Some v0 → ¬ Q k v0) → ¬ Q k v → same_on Q t (<[k:=v]> t).
Proof.
  intros H1 H2 j w Hj. destruct (decide (k = j)) as [->|]; [|by rewrite lookup_insert_ne].
  rewrite lookup_insert_eq. split; [intros Hw; by destruct (H1 w)|intros [= ->]; done].
Qed.

Lemma same_on_update_each Q t f :
  (∀ k v, t !! k = Some v → f k v = v ∨ ¬ Q k v ∧ ¬ Q k (f k v)) → same_on Q t (update_each f t).
Proof.
  intros Hf k v Hk. rewrite lookup_update_each. destruct (t !! k) as [w|] eqn:Hw; [|done]. cbn.
  destruct (Hf _ _ Hw) as [->|[H1 H2]]; [done|]. split; intros [= <-]; done.
Qed.

Lemma same_on_update_where Q t P f :
  (∀ k v, t !! k = Some v → P k v = true → ¬ Q k v ∧ ¬ Q k (f v)) → same_on Q t (update_where P f t).
Proof.
  intros Hf k v Hk. rewrite lookup_update_where. destruct (t !! k) as [w|] eqn:Hw; [|done]. cbn.
  destruct (P k w) eqn:HP; [|done]. destruct (Hf _ _ Hw HP). split; intros [= <-]; done.
Qed.

Lemma same_on_delete Q t k : (∀ v, t !! k = Some v → ¬ Q k v) → same_on Q t (delete k t).
Proof.
  intros Hd j v Hj. destruct (decide (k = j)) as [->|]; [|by rewrite lookup_delete_ne].
  rewrite lookup_delete_eq. split; [|done]. intros Hv. by destruct (Hd v).
Qed.

Lemma same_on_delete_where Q t P :
  (∀ k v, t !! k = Some v → P k v = true → ¬ Q k v) → same_on Q t (delete_where P t).
Proof.
  intros Hd k v Hk. rewrite lookup_delete_where_Some. split; [|by intros [? _]]. intros Hv.
  split; [done|]. destruct (P k v) eqn:HP; [|done]. by destruct (Hd _ _ Hv HP).
Qed.
End SameOn.

(** Reduces [kept] to the tables that changed. *)
Ltac keep := split; try apply same_on_refl; cbn beta.

Section Tenancy.
Context `{RT : Runtime}.

(** ** Whose a row is *)

Definition list_of g (db : Db) (lid : Uuid) : Prop :=
  ∃ l, lists db !! lid = Some l ∧ l_group_id l = g.
Definition item_of g (db : Db) (id : Uuid) : Prop :=
  ∃ li, list_items db !! id = Some li ∧ list_of g db (li_list_id li).
Definition claim_of g (db : Db) (cid : Uuid) : Prop :=
  ∃ c, claims db !! cid = Some c ∧ list_of g db (cl_list_id c).
Definition debt_of g (db : Db) (rid : Uuid) : Prop :=
  ∃ r, reimbursements db !! rid = Some r ∧ list_of g db (r_list_id r).

(** The rows of [g] in one state are its rows in the other. *)
Record kept (g : Uuid) (db db' : Db) : Prop := mkKept {
  kt_group : same_on (λ k _, k = g) (groups db) (groups db');
  kt_members : same_on (λ k _, k.2 = g) (group_memberships db) (group_memberships db');
  kt_webhook : same_on (λ k _, k = g) (group_discord_webhooks db) (group_discord_webhooks db');
  kt_tracked : same_on (λ k _, k.1 = g) (group_tracked_markets db) (group_tracked_markets db');
  kt_corps : same_on (λ k _, k.1 = g) (group_corps db) (group_corps db');
  kt_lists : same_on (λ _ l, l_group_id l = g) (lists db) (lists db');
  kt_markets : same_on (λ k _, list_of g db k.1) (list_markets db) (list_markets db');
  kt_items : same_on (λ _ li, list_of g db (li_list_id li)) (list_items db) (list_items db');
  kt_claims : same_on (λ _ c, list_of g db (cl_list_id c)) (claims db) (claims db');
  kt_claim_items : same_on (λ k _, claim_of g db k.1) (claim_items db) (claim_items db');
  kt_fulfillments : same_on (λ _ f, item_of g db (f_list_item_id f))
                      (fulfillments db) (fulfillments db');
  kt_debts : same_on (λ _ r, list_of g db (r_list_id r)) (reimbursements db) (reimbursements db');
  kt_suggestions : same_on (λ _ s, debt_of g db (s_reimbursement_id s))
                     (contract_match_suggestions db) (contract_match_suggestions db');
  kt_queue : same_on (λ _ w, pw_group_id w = g) (pending_webhooks db) (pending_webhooks db')
}.

Section Group.
Context (g : Uuid).

Lemma kept_rows_refl db : kept g db db.
Proof. by split. Qed.

Section Kept.
Context {db db' : Db} (Hk : kept g db db').

Lemma kept_list lid : list_of g db lid ↔ list_of g db' lid.
Proof. split; intros (l & Hl & Hg); exists l; (split; [|done]); by apply (kt_lists _ _ _ Hk). Qed.

Lemma kept_item id : item_of g db id ↔ item_of g db' id.
Proof.
  split; intros (li & Hl & Hg); exists li.
  - split; [by apply (kt_items _ _ _ Hk)|by apply kept_list].
  - apply kept_list in Hg. split; [by apply (kt_items _ _ _ Hk)|done].
Qed.

Lemma kept_claim cid : claim_of g db cid ↔ claim_of g db' cid.
Proof.
  split; intros (c & Hl & Hg); exists c.
  - split; [by apply (kt_claims _ _ _ Hk)|by apply kept_list].
  - apply kept_list in Hg. split; [by apply (kt_claims _ _ _ Hk)|done].
Qed.

Lemma kept_debt rid : debt_of g db rid ↔ debt_of g db' rid.
Proof.
  split; intros (r & Hl & Hg); exists r.
  - split; [by apply (kt_debts _ _ _ Hk)|by apply kept_list].
  - apply kept_list in Hg. split; [by apply (kt_debts _ _ _ Hk)|done].
Qed.
End Kept.

Lemma kept_rows_trans db1 db2 db3 : kept g db1 db2 → kept g db2 db3 → kept g db1 db3.
Proof.
  intros H1 H2. split; (eapply same_on_trans; [|by apply H1|by apply H2]); try done; intros k v HQ;
    by first [apply (kept_list H1)|apply (kept_item H1)|apply (kept_claim H1)|apply (kept_debt H1)].
Qed.

Lemma kept_rows_sym db db' : kept g db db' → kept g db' db.
Proof.
  intros Hk. split; intros k v HQ; symmetry; apply Hk; try done;
    by first [apply (kept_list Hk)|apply (kept_item Hk)|apply (kept_claim Hk)|apply (kept_debt Hk)].
Qed.

#[export] Instance kept_equivalence : Equivalence (kept g).
Proof. split; [exact kept_rows_refl|exact kept_rows_sym|exact kept_rows_trans]. Qed.

(** What is not [g]'s stays so. *)
Definition off_list (lid : Uuid) (db : Db) : Prop := ¬ list_of g db lid.
Definition off_item (id : Uuid) (db : Db) : Prop := ¬ item_of g db id.
Definition off_claim (cid : Uuid) (db : Db) : Prop := ¬ claim_of g db cid.
Definition off_debt (rid : Uuid) (db : Db) : Prop := ¬ debt_of g db rid.

#[export] Instance off_list_proper lid : Proper (kept g ==> iff) (off_list lid).
Proof. intros db db' Hk. unfold off_list. by rewrite (kept_list Hk). Qed.
#[export] Instance off_item_proper id : Proper (kept g ==> iff) (off_item id).
Proof. intros db db' Hk. unfold off_item. by rewrite (kept_item Hk). Qed.
#[export] Instance off_claim_proper cid : Proper (kept g ==> iff) (off_claim cid).
Proof. intros db db' Hk. unfold off_claim. by rewrite (kept_claim Hk). Qed.
#[export] Instance off_debt_proper rid : Proper (kept g ==> iff) (off_debt rid).
Proof. intros db db' Hk. unfold off_debt. by rewrite (kept_debt Hk). Qed.

#[export] Instance off_and_proper O1 O2 :
  Proper (kept g ==> iff) O1 → Proper (kept g ==> iff) O2 →
  Proper (kept g ==> iff) (λ db, O1 db ∧ O2 db).
Proof. intros H1 H2 db db' Hk. by rewrite (H1 _ _ Hk), (H2 _ _ Hk). Qed.

(** A relation for statements on rows of which something stable is known. *)
Definition apart (O : Db → Prop) (db db' : Db) : Prop := O db → kept g db db'.

#[export] Instance apart_preorder O : Proper (kept g ==> iff) O → PreOrder (apart O).
Proof.
  intros HO. split; [by intros db _|]. intros db1 db2 db3 H1 H2 Hl.
  pose proof (H1 Hl) as Hk. transitivity db2; [done|]. apply H2. by rewrite <- Hk.
Qed.

Lemma apart_mono (O O' : Db → Prop) db db' : (∀ s, O' s → O s) → apart O db db' → apart O' db db'.
Proof. intros HO H H'. by apply H, HO. Qed.

Lemma within_apart {E A} O (m : M Db E A) : within (kept g) m → within (apart O) m.
Proof. apply within_sub. by intros s s' Hk _. Qed.

Lemma off_list_row db lid l : lists db !! lid = Some l → l_group_id l ≠ g → off_list lid db.
Proof. intros Hl Hg (l' & Hl' & Hg'). congruence. Qed.

Lemma off_list_group db lid l : off_list lid db → lists db !! lid = Some l → l_group_id l ≠ g.
Proof. intros Hn Hl Hg. apply Hn. by exists l. Qed.

Lemma off_item_row db id li : list_items db !! id = Some li →
  off_item id db ↔ off_list (li_list_id li) db.
Proof.
  intros Hl. split; intros Hn; [intros Hg; apply Hn; by exists li|intros (li' & Hl' & Hg); congruence].
Qed.

Lemma off_claim_row db cid c : claims db !! cid = Some c →
  off_claim cid db ↔ off_list (cl_list_id c) db.
Proof.
  intros Hl. split; intros Hn; [intros Hg; apply Hn; by exists c|intros (c' & Hl' & Hg); congruence].
Qed.

Lemma off_debt_row db rid r : reimbursements db !! rid = Some r →
  off_debt rid db ↔ off_list (r_list_id r) db.
Proof.
  intros Hl. split; intros Hn; [intros Hg; apply Hn; by exists r|intros (r' & Hl' & Hg); congruence].
Qed.

(** ** Statements *)

Lemma caches_kept db db' : caches db db' → kept g db db'.
Proof. intros (tc & mp & n & ->). by split. Qed.

Lemma kept_lists_update db P f :
  (∀ k l, lists db !! k = Some l → P k l = true → off_list k db) →
  (∀ l, l_group_id (f l) = l_group_id l) →
  kept g db (db <| lists ::= update_where P f |>).
Proof.
  intros HP Hf. keep. apply same_on_update_where. intros k l Hl Hk. rewrite Hf.
  pose proof (HP _ _ Hl Hk) as Hn. split; intros Hg; apply Hn; by exists l.
Qed.

Lemma kept_items_each db f :
  (∀ k li, list_items db !! k = Some li →
     f k li = li ∨ off_list (li_list_id li) db ∧ li_list_id (f k li) = li_list_id li) →
  kept g db (db <| list_items ::= update_each f |>).
Proof.
  intros Hf. keep. apply same_on_update_each. intros k li Hl.
  destruct (Hf _ _ Hl) as [?|[Hn E]]; [by left|right]. by rewrite E.
Qed.

Lemma kept_items_update db P f :
  (∀ k li, list_items db !! k = Some li → P k li = true → off_list (li_list_id li) db) →
  (∀ li, li_list_id (f li) = li_list_id li) →
  kept g db (db <| list_items ::= update_where P f |>).
Proof.
  intros HP Hf. keep. apply same_on_update_where. intros k li Hl Hk. rewrite Hf.
  pose proof (HP _ _ Hl Hk). done.
Qed.

Lemma kept_items_insert db id li :
  off_item id db → off_list (li_list_id li) db → kept g db (db <| list_items ::= <[id := li]> |>).
Proof.
  intros Hid Hli. keep. apply same_on_insert; [|done]. intros li0 Hl. by apply (off_item_row _ _ _ Hl).
Qed.

Lemma kept_debts_update db P f :
  (∀ k r, reimbursements db !! k = Some r → P k r = true → off_list (r_list_id r) db) →
  (∀ r, r_list_id (f r) = r_list_id r) →
  kept g db (db <| reimbursements ::= update_where P f |>).
Proof.
  intros HP Hf. keep. apply same_on_update_where. intros k r Hl Hk. rewrite Hf.
  pose proof (HP _ _ Hl Hk). done.
Qed.

Lemma kept_suggestions_update db P f :
  (∀ k s, contract_match_suggestions db !! k = Some s → P k s = true →
     off_debt (s_reimbursement_id s) db) →
  (∀ s, s_reimbursement_id (f s) = s_reimbursement_id s) →
  kept g db (db <| contract_match_suggestions ::= update_where P f |>).
Proof.
  intros HP Hf. keep. apply same_on_update_where. intros k s Hl Hk. rewrite Hf.
  pose proof (HP _ _ Hl Hk). done.
Qed.

Lemma kept_load_list_detail lid viewer role : within (kept g) (load_list_detail lid viewer role).
Proof. by intros db d db' ->%load_list_detail_Ok. Qed.

Lemma kept_lock_list lid : within (kept g) (lock_list lid).
Proof. by intros db u db' [-> _]%lock_list_Ok. Qed.

Lemma kept_new_uuid : within (kept g) new_uuid.
Proof. intros db u db' Hrun. inv_sql. by split. Qed.

Lemma kept_fire_webhook gid e : gid ≠ g → within (kept g) (fire_webhook gid e).
Proof.
  intros Hg db u db' Hrun. unfold fire_webhook, insert_pending_webhook in Hrun.
  destruct (to_value e) as [payload|]; inv_sql; [|done]. set_simpl.
  rewrite negb_true_iff, row_exists_false in *. keep. apply same_on_insert; [|done]. intros w Hw. set_simpl. congruence.
Qed.

Lemma recomputed_list fs cis d id li : li_list_id (recomputed fs cis d id li) = li_list_id li.
Proof. unfold recomputed. by repeat case_match. Qed.

Lemma kept_recompute_item_status id d : within (apart (off_item id)) (recompute_item_status id d).
Proof.
  intros db s db' (li & Hl & _ & -> & _)%recompute_item_status_Ok Hoff.
  apply kept_items_insert; [done|]. rewrite recomputed_list. by apply (off_item_row _ _ _ Hl).
Qed.

Lemma kept_recompute_bulk ids : within (apart (λ db, ∀ id, id ∈ ids → off_item id db))
  (recompute_item_statuses_bulk ids).
Proof.
  intros db u db' Hrun Hoff. unfold recompute_item_statuses_bulk in Hrun.
  case_bool_decide; inv_sql; [done|]. apply kept_items_each. intros id li Hl.
  case_bool_decide as Hin; [right|by left]. split; [|done].
  by apply (off_item_row _ _ _ Hl), Hoff.
Qed.
End Group.
End Tenancy.

(** The row is on the list another row or the caller names. *)
Ltac same_list :=
  bool_simpl; subst;
  first [done|match goal with H : ?x = _ |- off_list _ ?x _ => by rewrite H end].

(** Calls that only read. *)
Ltac skip_reads :=
  repeat match goal with
  | H : lock_list _ _ = Ok _ |- _ => apply lock_list_Ok in H as [-> _]
  | H : claim_guards _ _ = Ok _ |- _ => apply claim_guards_Ok in H as [-> _]
  | H : load_list_detail _ _ _ _ = Ok _ |- _ => apply load_list_detail_Ok in H; subst
  end.
