(* ===== verification/TenantDebts.v ===== *)
(** * Claims, purchases, debts and contract links keep other groups

    The handlers of [fulfillment.rs] and [contracts.rs] against [Tenancy]. *)

From Stdlib Require Import ZArith Lia.
From stdpp Require Import base tactics decidable option list gmap relations strings.
From S2P Require Import Prelude Effect Unicode Money Domain Host Schema Fixtures Errors.
From S2P Require Import Market Config Extract Webhooks Detail Pricing Settlement Wallet Fulfillment Claims.
From S2P Require Import Reimbursements Fulfillments Contracts Poller Matching Lists Items Groups Corps.
From S2P Require Import Within Invariant InvariantMoney Preservation Purchases DebtSteps Edits Prunes Editing.
From S2P Require Import Growth Ledger Tenancy.

Local Open Scope string_scope.

Section Isolation.
Context `{RT : Runtime} {API : EsiApi} {MA : MarketApi} {CFG : AppConfig} {RD : RustDecimal}
  {IC : InviteCodes} {CE : CorpEsi} {SA : ShareArith}.
Context (g : Uuid).
Implicit Types (db : Db).

(** What the extractors say of a caller outside the group. *)
Definition stranger (user : Uuid) db : Prop := member_role db user g = None.

Lemma stranger_role user gid role db :
  stranger user db → member_role db user gid = Some role → gid ≠ g.
Proof. unfold stranger. intros Hs Hm ->. congruence. Qed.

Lemma stranger_member user gid db : stranger user db → is_member db gid user = true → gid ≠ g.
Proof.
  intros Hs [m Hm]%row_exists_true. eapply stranger_role; [exact Hs|]. unfold member_role. by rewrite Hm.
Qed.

Lemma list_extracted_off db cur :
  list_extracted db cur → stranger (cur_user_id cur) db →
  off_list g (cur_list_id cur) db ∧ cur_group_id cur ≠ g.
Proof.
  intros (l & Hl & Hg & _ & _ & Hm) Hs. unfold stranger in Hs.
  assert (l_group_id l ≠ g) by congruence. split; [by eapply off_list_row|congruence].
Qed.

Lemma claim_extracted_off db cur :
  claim_extracted db cur → stranger (cc_user_id cur) db →
  off_list g (cc_list_id cur) db ∧ off_claim g (cc_claim_id cur) db.
Proof.
  intros (c & l & Hc & Hl & Hcl & _ & _ & _ & Hg & Hm) Hs. unfold stranger in Hs.
  assert (off_list g (cc_list_id cur) db) as Hoff by (eapply off_list_row; [exact Hl|congruence]).
  split; [done|]. apply (off_claim_row _ _ _ _ Hc). by rewrite <- Hcl.
Qed.

(** ** Claims *)

Lemma kept_insert_claim lid u note db cid db' :
  insert_claim lid u note db = Ok (cid, db') → off_list g lid db →
  kept g db db' ∧ off_claim g cid db'.
Proof.
  intros [Hn ->]%insert_claim_Ok Hoff.
  assert (kept g db (db <| claims ::= <[cid := mkClaimRow lid u Claim_Active note (db_now db) None]> |>
           <| db_draws ::= N.succ |>)) as Hk.
  { keep. apply same_on_insert; [|done]. intros c Hc. set_simpl. congruence. }
  split; [exact Hk|]. eapply off_claim_row; [apply lookup_insert_eq|].
  cbn. by apply (off_list_proper _ _ _ _ Hk).
Qed.

Lemma kept_insert_claim_items cid ids db u db' :
  insert_claim_items cid ids db = Ok (u, db') →
  off_claim g cid db → (∀ id, id ∈ ids → off_item g id db) → kept g db db'.
Proof.
  intros Hrun Hc Hids. unfold insert_claim_items in Hrun. case_bool_decide; inv_sql; [done|].
  match goal with H : insert_claim_item_rows _ _ _ = Ok (_, ?d) |- _ =>
    assert (kept g db d) as Hk end.
  { unfold insert_claim_item_rows in *. inv_sql.
    match goal with H : for_each _ _ _ = _ |- _ =>
      refine (for_each_inv (kept g db) _ _ _ _ _ _ H _); [|done] end.
    intros id s1 v s2 _ Hb Hs. unfold insert_claim_item in Hb. inv_sql. rewrite Hs. keep.
    rewrite (off_claim_proper g cid _ _ Hs) in Hc. by apply same_on_insert. }
  match goal with H : recompute_item_statuses_bulk _ _ = _ |- _ => apply (kept_recompute_bulk g) in H;
    rename H into Hr end.
  rewrite Hk. apply Hr. intros id Hid. by rewrite <- Hk; apply Hids.
Qed.

Lemma off_items_of_list lid db (ids : list Uuid) :
  off_list g lid db → (∀ id, id ∈ ids → ∃ li, list_items db !! id = Some li ∧ li_list_id li = lid) →
  ∀ id, id ∈ ids → off_item g id db.
Proof. intros Hoff Hids id (li & Hl & <-)%Hids. by apply (off_item_row _ _ _ _ Hl). Qed.

Lemma kept_create_claim cur body db d db' :
  create_claim cur body db = Ok (d, db') → off_list g (cur_list_id cur) db → kept g db db'.
Proof.
  unfold create_claim. intros Hrun Hoff. inv_sql. skip_reads.
  match goal with H : validate_claimable_items _ _ _ = _ |- _ =>
    apply validate_claimable_items_Ok in H as [-> Hids] end.
  match goal with H : insert_claim _ _ _ _ = _ |- _ =>
    apply kept_insert_claim in H as [K1 Hc]; [|done] end.
  match goal with H : insert_claim_items _ _ _ = _ |- _ => apply kept_insert_claim_items in H as K2 end;
    [|done|].
  2:{ intros id Hid. rewrite <- K1. by eapply off_items_of_list. }
  rewrite K1, K2. match goal with H : fire_webhook _ _ _ = _ |- _ => eapply kept_fire_webhook; [|exact H] end.
  eapply off_list_group; [|eassumption]. by rewrite <- K2, <- K1.
Qed.

Lemma kept_add_claim_items cur ids db d db' :
  add_claim_items cur ids db = Ok (d, db') →
  off_list g (cc_list_id cur) db → off_claim g (cc_claim_id cur) db → kept g db db'.
Proof.
  unfold add_claim_items. intros Hrun Hoff Hc. inv_sql. skip_reads.
  match goal with H : validate_claimable_items _ _ _ = _ |- _ =>
    apply validate_claimable_items_Ok in H as [-> Hids] end.
  eapply kept_insert_claim_items; [eassumption|done|]. by eapply off_items_of_list.
Qed.

(** The items of a claim are on its list. *)
Lemma off_claim_item db cid item :
  Inv db → is_Some (claim_items db !! (cid, item)) → off_claim g cid db ↔ off_item g item db.
Proof.
  intros Hinv Hci. destruct (inv_targets _ Hinv _ Hci) as (c & li & Hc & Hl & E). cbn in *.
  by rewrite (off_claim_row _ _ _ _ Hc), (off_item_row _ _ _ _ Hl), E.
Qed.

Lemma kept_remove_claim_item cur item db d db' :
  remove_claim_item cur item db = Ok (d, db') → Inv db →
  off_claim g (cc_claim_id cur) db → kept g db db'.
Proof.
  unfold remove_claim_item. intros Hrun Hinv Hc. inv_sql. skip_reads.
  match goal with H : row_exists _ _ = true |- _ => apply row_exists_true in H as Hci end.
  apply off_claim_item in Hci as Hi; [|done]. apply Hi in Hc as Hoff.
  assert (kept g db (db <| claim_items ::= delete (cc_claim_id cur, item) |>)) as K.
  { keep. by apply same_on_delete. }
  rewrite K. match goal with H : recompute_item_status _ _ _ = _ |- _ =>
    eapply kept_recompute_item_status; [exact H|] end. by rewrite <- K.
Qed.

Lemma kept_sync cid old new db :
  off_claim g cid db →
  same_on (λ k _, claim_of g db k.1) (claim_items db) (sync_claim_items_active cid old new (claim_items db)).
Proof.
  intros Hc. unfold sync_claim_items_active.
  repeat case_match; try apply same_on_refl; apply same_on_update_where; intros k ci _ Hk; bool_simpl; by subst.
Qed.

Lemma kept_update_claim_status cid guard upd db :
  (∀ c, cl_list_id (upd c) = cl_list_id c) → off_claim g cid db →
  kept g db (update_claim_status cid guard upd db).
Proof.
  intros Hu Hc. unfold update_claim_status. destruct (claims db !! cid) as [c|] eqn:Hl; [|done].
  destruct (guard c); [|done]. keep; set_simpl; [|by apply kept_sync]. rewrite (off_claim_row _ _ _ _ Hl) in Hc.
  apply same_on_insert; [|by rewrite Hu]. intros c0 Hl0. by simplify_eq.
Qed.

Lemma kept_release_claim cur db d db' :
  release_claim cur db = Ok (d, db') → Inv db → off_claim g (cc_claim_id cur) db → kept g db db'.
Proof.
  unfold release_claim. intros Hrun Hinv Hc. inv_sql. skip_reads.
  match goal with H : recompute_item_statuses_bulk _ (update_claim_status _ ?P ?f _) = _ |- _ =>
    pose proof (kept_update_claim_status (cc_claim_id cur) P f db (λ _, eq_refl) Hc) as K; rewrite K;
    eapply kept_recompute_bulk; [exact H|] end.
  intros id Hid. rewrite <- K. apply list_elem_of_fmap in Hid as ([c i] & -> & Hin).
  apply list_elem_of_fmap in Hin as ([k ci] & E & Hin). apply elem_of_select_where in Hin as [Hk Hp].
  cbn in *. subst k. bool_simpl. subst. by apply (off_claim_item _ (cc_claim_id cur)).
Qed.

(** ** Purchases and debts *)

Lemma kept_upsert_reimbursement lid q h :
  within (apart g (off_list g lid)) (upsert_reimbursement lid q h).
Proof.
  intros db u db' Hrun Hoff. apply upsert_reimbursement_Ok in Hrun as [[_ ->]|(l & rp & hp & rs & n & _ & Hu & ->)];
    [done|]. keep. set_simpl. destruct Hu as [(rid & r & Hr & _ & Hc & ->)|(_ & id & Hn & ->)].
  - unfold in_cycle in Hc. bool_simpl. subst. case_match; [|apply same_on_refl].
    apply same_on_insert; [|done]. intros r0 Hr0. by simplify_eq.
  - apply same_on_insert; [|done]. intros r0 Hr0. congruence.
Qed.

Lemma kept_advance_claim cid h status :
  within (apart g (off_claim g cid)) (advance_claim (Some (cid, h)) status).
Proof.
  unfold advance_claim, complete_claim_if_done. within_solve.
  intros Hc. by apply kept_update_claim_status.
Qed.

Lemma active_claim_off db item cid h :
  Inv db → active_claim_of db item = Some (cid, h) → off_item g item db → off_claim g cid db.
Proof.
  intros Hinv Ha Hoff. unfold active_claim_of in Ha.
  apply head_Some_elem_of, list_elem_of_omap in Ha as ([[c i] ci] & Hin & Hc).
  apply elem_of_select_where in Hin as [Hk Hp]. cbn in *. bool_simpl. subst.
  destruct (claims db !! c) as [cl|] eqn:Hcl; simplify_eq/=. eapply off_claim_item; eauto.
Qed.

Lemma kept_record_fulfillment cur item body db d db' :
  record_fulfillment cur item body db = Ok (d, db') → Inv db → off_list g (cur_list_id cur) db →
  kept g db db'.
Proof.
  intros Hrun Hinv Hoff.
  apply record_run in Hrun as (li & q & fid & f & dbB & dbC & _ & _ & Hli & Hlid & _ & _ & _ & _ & Hfid & Hfi &
    _ & _ & _ & _ & _ & _ & _ & HdbB & Hadv & Hup).
  assert (off_item g item db) as Hit by (apply (off_item_row _ _ _ _ Hli); by rewrite Hlid).
  assert (kept g db dbB) as K.
  { subst dbB. keep; set_simpl.
    - apply same_on_insert; [intros li0 Hl0; simplify_eq|rewrite recomputed_list]; by rewrite Hlid.
    - apply same_on_insert; [intros; congruence|by rewrite Hfi]. }
  assert (kept g dbB dbC) as K2.
  { destruct (active_claim_of db item) as [[cid h]|] eqn:Ha; [|by cbn in Hadv; inv_sql].
    eapply kept_advance_claim; [exact Hadv|]. rewrite <- K. by eapply active_claim_off. }
  rewrite K, K2. eapply kept_upsert_reimbursement; [exact Hup|]. by rewrite <- K2, <- K.
Qed.

Lemma kept_reverse_fulfillment fid user db d db' :
  reverse_fulfillment fid user db = Ok (d, db') → stranger user db → kept g db db'.
Proof.
  intros Hrun Hs. apply reverse_run in Hrun as (f & li & l & q & role & dbB & Hf & _ & Hli & _ & Hl & _ & Hm &
    _ & _ & HdbB & Hup).
  assert (off_list g (li_list_id li) db) as Hoff.
  { eapply off_list_row; [exact Hl|]. unfold stranger in Hs. congruence. }
  assert (kept g db dbB) as K.
  { subst dbB. keep; set_simpl.
    - apply same_on_insert; [intros li0 Hl0; simplify_eq|rewrite recomputed_list]; done.
    - assert (off_item g (f_list_item_id f) db) by by apply (off_item_row _ _ _ _ Hli).
      apply same_on_insert; [intros f0 Hf0; simplify_eq|]; done. }
  rewrite K. eapply kept_upsert_reimbursement; [exact Hup|]. by rewrite <- K.
Qed.

Lemma kept_mark_delivered cur item db d db' :
  mark_delivered cur item db = Ok (d, db') → off_list g (cur_list_id cur) db → kept g db db'.
Proof.
  unfold mark_delivered. intros Hrun Hoff. inv_sql. skip_reads. unfold item_on_list in *.
  destruct (list_items db !! item) as [li|] eqn:Hli; [cbn in *|done]. case_match; [|done]. bool_simpl.
  simplify_eq. inv_sql. skip_reads.
  assert (kept g db (db <| list_items ::= update_where (λ k _, k == item)
        (λ li, li <| li_status := Item_Delivered |>) |>)) as K.
  { apply kept_items_update; [|done]. intros k li0 Hl0 Hk. same_list. }
  rewrite K. match goal with H : when _ _ _ = _ |- _ => apply when_Ok in H; rename H into Hw end.
  destruct (all_delivered _ _); [|by subst]. inv_sql.
  match goal with H : fire_webhook _ _ _ = _ |- _ => eapply kept_fire_webhook; [|exact H] end.
  eapply off_list_group; [|eassumption]. by rewrite <- K.
Qed.

(** ** Settling *)

Lemma kept_auto_close lid : within (apart g (off_list g lid)) (auto_close_list_if_complete lid).
Proof.
  unfold auto_close_list_if_complete. within_solve. intros Hoff. case_match; [|done].
  apply kept_lists_update; [|done]. intros k l _ Hk. bool_simpl. by subst.
Qed.

Lemma kept_settle_manual rid user : within (apart g (off_debt g rid)) (settle_manual rid user).
Proof.
  intros db u db' Hrun Hoff. unfold settle_manual in Hrun.
  apply bind_Ok in Hrun as (row & db1 & H1 & Hrun). apply reads_Ok in H1 as [-> ->].
  apply bind_Ok in Hrun as (r & db1 & H1 & Hrun). apply expect_Ok in H1 as [Hr ->].
  assert (off_list g (r_list_id r) db) as Hl by by apply (off_debt_row _ _ _ _ Hr).
  refine ((_ : within (apart g (λ db, off_list g (r_list_id r) db ∧ off_debt g rid db)) _)
    _ _ _ Hrun (conj Hl Hoff)).
  unfold flip_items_to_settled_corp, flip_items_to_settled, set_settled. within_solve.
  - intros [_ H]. apply kept_debts_update; [|done]. intros k r0 Hr0 Hk. bool_simpl. subst.
    by apply (off_debt_row _ _ _ _ Hr0).
  - intros [H _]. apply kept_items_update; [|done]. intros k li Hl0 Hk. unfold flip_personal in Hk.
    same_list.
  - intros [H _]. apply kept_items_update; [|done]. intros k li Hl0 Hk. unfold flip_corp in Hk.
    same_list.
  - apply (within_sub (apart g (off_list g (r_list_id r)))); [|apply kept_auto_close].
    intros s s'. apply apart_mono. by intros ? [? _].
Qed.

Lemma kept_settle_reimbursement rid user db d db' :
  settle_reimbursement rid user db = Ok (d, db') → stranger user db → kept g db db'.
Proof.
  unfold settle_reimbursement. intros Hrun Hs. inv_sql. skip_reads.
  match goal with H : settle_manual _ _ _ = Ok (tt, ?x) |- _ => rename x into db1, H into Hsm end.
  match goal with H : reimbursements db !! rid = Some ?x |- _ => rename x into r, H into Hr end.
  match goal with H : match r_requester_user_id r with _ => _ end _ = Ok (_, ?x) |- _ =>
    assert (x = db1) as Hx by (destruct (r_requester_user_id r); by inv_sql);
    rewrite Hx in *; clear H end.
  match goal with x : _ * _ |- _ => destruct x end.
  match goal with H : r_list_id <$> _ = Some _ |- _ => rewrite Hr in H; injection H as <- end.
  assert (off_list g (r_list_id r) db) as Hoff.
  { match goal with H : lists db !! _ ≫= _ = Some ?role |- _ => rename H into Hm end.
    destruct (lists db !! r_list_id r) as [l|] eqn:Hl; [|done]. cbn in Hm.
    eapply off_list_row; [exact Hl|]. by eapply stranger_role. }
  assert (kept g db db1) as K.
  { eapply kept_settle_manual; [exact Hsm|]. by apply (off_debt_row _ _ _ _ Hr). }
  inv_sql; skip_reads; rewrite K;
    (match goal with H : fire_webhook _ _ _ = _ |- _ => eapply kept_fire_webhook; [|exact H] end);
    (eapply off_list_group; [|eassumption]); by rewrite <- K.
Qed.

Lemma kept_retip lid pct db : off_list g lid db → kept g db (retip lid pct db).
Proof. intros Hoff. apply kept_debts_update; [|done]. intros k r _ Hk. same_list. Qed.

Lemma kept_set_list_tip cur pct db d db' :
  set_list_tip cur pct db = Ok (d, db') → off_list g (cur_list_id cur) db → kept g db db'.
Proof.
  intros (_ & _ & _ & z & _ & ->)%set_list_tip_run Hoff.
  match goal with |- kept _ _ (retip _ _ ?d) => assert (kept g db d) as K end.
  { apply kept_lists_update; [|done]. intros k l _ Hk. bool_simpl. by subst. }
  rewrite K at 1. apply kept_retip. by rewrite <- K.
Qed.

(** ** Contract links *)

(** No debt bound to the contract is the group's. *)
Definition off_contract (cid : Uuid) db : Prop :=
  ∀ rid r, reimbursements db !! rid = Some r → bound_to cid r = true → off_list g (r_list_id r) db.

#[local] Instance off_contract_proper cid : Proper (kept g ==> iff) (off_contract cid).
Proof.
  assert (∀ db db', kept g db db' → off_contract cid db → off_contract cid db') as Hp.
  { intros db db' K Hoff rid r Hr Hb Hg. apply (kept_list _ K) in Hg as Hg'.
    apply (kt_debts _ _ _ K) in Hr; [|done]. by eapply Hoff. }
  intros db db' K. split; [by apply Hp|by apply Hp, kept_rows_sym].
Qed.

Lemma kept_recompute_expected cid : within (kept g) (recompute_contract_expected_total cid).
Proof. by intros db u db' ->%recompute_Ok. Qed.

Lemma kept_flip_contract cid db : off_contract cid db → kept g db (flip_contract_items cid db).
Proof.
  intros Hoff. apply kept_items_update; [|done]. intros k li _ Hk.
  apply sel_exists_true in Hk as (rid & r & Hr & Hk). bool_simpl.
  match goal with H : contract_covers _ _ _ _ = true |- _ => unfold contract_covers in H end.
  pose proof (Hoff rid r Hr ltac:(done)). same_list.
Qed.

Lemma settled_info_off cid db db' ids info :
  kept g db db' → off_contract cid db →
  (∀ id r, id ∈ ids → reimbursements db !! id = Some r → bound_to cid r = true) →
  info ∈ settled_webhook_info db' ids → csr_group_id info ≠ g.
Proof.
  intros K Hoff Hids Hin. unfold settled_webhook_info in Hin.
  apply list_elem_of_omap in Hin as ([id r] & Hin & Hi). apply elem_of_select_where in Hin as [Hr Hid].
  cbn in Hr, Hid. apply bool_decide_eq_true in Hid.
  destruct (lists db' !! r_list_id r) as [l|] eqn:Hl; [cbn in Hi|done].
  destruct (users db' !! r_hauler_user_id r) as [u|]; [cbn in Hi|done]. injection Hi as <-. cbn.
  intros Hg. assert (list_of g db' (r_list_id r)) as Hof by by exists l.
  apply (kept_list _ K) in Hof. apply (kt_debts _ _ _ K) in Hr; [|done]. by eapply Hoff, Hof; eauto.
Qed.

Lemma kept_settle_via_contract cid db infos db' :
  settle_via_contract cid db = Ok (infos, db') → off_contract cid db →
  kept g db db' ∧ ∀ info, info ∈ infos → csr_group_id info ≠ g.
Proof.
  unfold settle_via_contract. intros Hrun Hoff. inv_sql.
  match type of Hrun with _ ?d = _ => set (db1 := d) in *; assert (kept g db db1) as K1 end.
  { apply kept_debts_update; [|done]. intros k r Hr Hk. bool_simpl. by eapply Hoff. }
  assert (off_contract cid db1) as Hoff1 by by rewrite <- K1.
  case_bool_decide; inv_sql; [split; [done|by intros ? ?%elem_of_nil]|].
  pose proof (kept_flip_contract _ _ Hoff1) as K2.
  match goal with H : for_each _ _ ?d = Ok (_, ?d') |- _ =>
    assert (kept g db d) as K3 by (transitivity db1; [done|]; etransitivity; [exact K2|by split]);
    assert (kept g db d') as K4 end.
  { match goal with H : for_each _ _ _ = _ |- _ =>
      refine (for_each_inv (kept g db) _ _ _ _ _ _ H _); [|done] end.
    intros lid s1 u s2 Hin Hb Hs. inv_sql. rewrite Hs.
    match goal with H : auto_close_list_if_complete _ _ = _ |- _ => eapply kept_auto_close; [exact H|] end.
    rewrite <- Hs. rewrite K1. apply elem_of_remove_dups, list_elem_of_fmap in Hin as ([k r] & -> & Hin).
    apply elem_of_select_where in Hin as [Hr Hb1]. by eapply Hoff1. }
  split; [done|]. intros info Hin. eapply settled_info_off; [exact K4|exact Hoff| |exact Hin].
  intros id r Hid Hr. apply list_elem_of_fmap in Hid as ([k r0] & -> & Hid).
  apply elem_of_select_where in Hid as [Hr0 Hb]. cbn in *. simplify_eq. by bool_simpl.
Qed.

Lemma kept_fire_settlement infos : (∀ info, info ∈ infos → csr_group_id info ≠ g) →
  within (kept g) (fire_settlement_webhooks infos).
Proof.
  intros Hi. unfold fire_settlement_webhooks. intros db u db' Hrun.
  refine (for_each_inv (kept g db) _ _ _ _ _ _ Hrun _); [|done].
  intros info s1 v s2 Hin Hb Hs. rewrite Hs. inv_sql.
  match goal with H : fire_webhook _ _ _ = _ |- _ => eapply kept_fire_webhook; [by apply Hi|exact H] end.
Qed.

(** The link routes, for a caller outside the group and a contract that no debt
    of the group is bound to. *)
Lemma kept_link user target db d infos db' cid rid :
  link_run user target db = Ok ((d, infos), db') → stranger user db →
  link_target db target cid rid → off_contract cid db →
  kept g db db' ∧ ∀ info, info ∈ infos → csr_group_id info ≠ g.
Proof.
  intros Hrun Hs Htgt Hoff.
  apply link_run_cases in Hrun as (cid' & rid' & c & r & l & ctx & db1 & Ht & _ & Hr & Hl & [st ->] & Hv &
    (sid & s & n & _ & _ & Hsr & _ & Hold & Hdb1) & Hfin & _).
  assert (cid' = cid) as ->.
  { destruct target as [sid'|p]; cbn in Ht, Htgt; [|congruence].
    destruct Ht as (s1 & ? & <- & _), Htgt as (s2 & ? & <- & _). congruence. }
  assert (off_debt g rid' db) as Hd.
  { apply (off_debt_row _ _ _ _ Hr). eapply off_list_row; [exact Hl|].
    destruct Hv as (_ & _ & _ & _ & _ & _ & _ & Hm). by eapply stranger_member. }
  assert (kept g db db1) as K1.
  { subst db1. keep. set_simpl. apply same_on_insert; [|by rewrite Hsr].
    intros s0 Hs0. destruct Hold as [?|(s0' & ? & _ & E)]; [congruence|]. simplify_eq. by rewrite E. }
  clear Hdb1. apply finalize_link_Ok in Hfin as [_ Hfin]. set (ctx := link_lock_row _ _ _ _ _ _) in *.
  assert (kept g db1 (bind_reimbursement ctx db1)) as K2.
  { unfold bind_reimbursement. cbv zeta.
    match goal with |- kept _ _ (set contracts _ ?d) => transitivity d; [|by split] end.
    apply kept_debts_update; [|done].
    intros k r0 Hr0 Hk. cbn in Hk. bool_simpl. subst. apply (off_debt_row _ _ _ _ Hr0).
    by rewrite <- K1. }
  assert (kept g db (bind_reimbursement ctx db1)) as K by by transitivity db1.
  case_match; [|destruct Hfin as [-> ->]; split; [done|by intros ? ?%elem_of_nil]].
  cbn [ll_contract_id ctx link_lock_row] in Hfin. apply kept_settle_via_contract in Hfin as [K3 Hi];
    [|by rewrite <- K]. split; [by etransitivity|done].
Qed.

Lemma kept_confirm user sid db d db' s :
  confirm_suggestion user sid db = Ok (d, db') → stranger user db →
  contract_match_suggestions db !! sid = Some s → off_contract (s_contract_id s) db → kept g db db'.
Proof.
  unfold confirm_suggestion. intros Hrun Hs Hsid Hoff. inv_sql.
  match goal with H : do_confirm _ _ _ = Ok (?p, ?d1) |- _ => destruct p as [d1' infos]; rename H into Hc end.
  inv_sql. pose proof Hc as (ctx & Hrow & _ & Hst & _)%do_confirm_run.
  edestruct (kept_link user (inl sid)) as [K Hi]; [exact Hc|done| |exact Hoff|].
  { exists s. split; [done|]. split; [done|]. split; [reflexivity|].
    unfold confirm_row in Hrow. rewrite Hsid in Hrow. cbn in Hrow.
    destruct (contracts db !! _); [cbn in Hrow|done]. destruct (reimbursements db !! _); [cbn in Hrow|done].
    destruct (lists db !! _); [cbn in Hrow|done]. injection Hrow as <-. cbn in Hst. congruence. }
  etransitivity; [exact K|]. by eapply kept_fire_settlement.
Qed.

Lemma kept_manual_link user cid rid db d db' :
  manual_link user cid rid db = Ok (d, db') → stranger user db → off_contract cid db → kept g db db'.
Proof.
  unfold manual_link. intros Hrun Hs Hoff. inv_sql.
  match goal with H : do_manual_link _ _ _ _ = Ok (?p, ?d1) |- _ => destruct p as [d1' infos]; rename H into Hc end.
  inv_sql. edestruct (kept_link user (inr (cid, rid))) as [K Hi]; [exact Hc|done|reflexivity|exact Hoff|].
  etransitivity; [exact K|]. by eapply kept_fire_settlement.
Qed.

Lemma kept_reject user sid db d db' :
  reject_suggestion user sid db = Ok (d, db') → stranger user db → kept g db db'.
Proof.
  unfold reject_suggestion, do_reject. intros Hrun Hs. inv_sql.
  match goal with H : _ ≫= _ = Some ?p |- _ => rename H into Hrow; destruct p as [[[st iu] hu] gid] end.
  destruct (contract_match_suggestions db !! sid) as [s|] eqn:Hsid; [cbn in Hrow|done].
  destruct (contracts db !! _) as [c|]; [cbn in Hrow|done].
  destruct (reimbursements db !! _) as [r|] eqn:Hr; [cbn in Hrow|done].
  destruct (lists db !! _) as [l|] eqn:Hl; [cbn in Hrow|done]. injection Hrow as <- <- <- <-. inv_sql.
  apply kept_suggestions_update; [|done]. intros k s0 Hs0 Hk. bool_simpl. simplify_eq.
  apply (off_debt_row _ _ _ _ Hr). eapply off_list_row; [exact Hl|]. by eapply stranger_member.
Qed.

(** No suggestion confirmed for the contract is about a debt of the group. *)
Definition off_confirmed (cid : Uuid) db : Prop :=
  ∀ sid s, contract_match_suggestions db !! sid = Some s → s_contract_id s = cid →
    s_state s = Match_Confirmed → off_debt g (s_reimbursement_id s) db.

Lemma kept_unlink user cid db d db' :
  unlink_contract user cid db = Ok (d, db') → stranger user db → off_confirmed cid db → kept g db db'.
Proof.
  unfold unlink_contract, do_unlink. intros Hrun Hs Hoff. inv_sql.
  match goal with H : negb (outside_group _ _ _) = true |- _ =>
    apply negb_true_iff in H; unfold outside_group in H; rewrite sel_exists_false in H; rename H into Hout end.
  match goal with H : recompute_contract_expected_total _ (set _ _ ?d1) = _ |- _ =>
    assert (kept g db d1) as K1 end.
  { apply kept_debts_update; [|done]. intros k r Hr Hk. bool_simpl. specialize (Hout _ _ Hr).
    intros (l & Hl & Hg). rewrite Hl in Hout. rewrite andb_false_iff, negb_false_iff in Hout.
    destruct Hout as [|Hm]; [congruence|]. by eapply stranger_member in Hm. }
  match goal with H : recompute_contract_expected_total _ ?d2 = _ |- _ =>
    assert (kept g db d2) as K2; [|rewrite K2; by eapply kept_recompute_expected] end.
  etransitivity; [exact K1|]. apply kept_suggestions_update; [|done].
  intros k s Hk HP. bool_simpl. rewrite <- K1. by eapply Hoff.
Qed.
End Isolation.
