(* ===== verification/TenantLists.v ===== *)
(** * Lists, items, groups and corporations keep other groups

    The handlers of [lists.rs], [groups.rs] and [corps.rs] against [Tenancy]. *)

From Stdlib Require Import ZArith Lia.
From stdpp Require Import base tactics decidable option list gmap relations strings.
From S2P Require Import Prelude Effect Unicode Money Domain Host Schema Fixtures Errors.
From S2P Require Import Multibuy Market Config Extract Webhooks Detail Pricing Settlement Wallet Fulfillment.
From S2P Require Import Claims Reimbursements Fulfillments Contracts Poller Matching Lists Items Groups Corps.
From S2P Require Import Within Invariant InvariantMoney Preservation Purchases DebtSteps Edits Prunes Editing.
From S2P Require Import Growth Ledger Membership Tenancy TenantDebts.

Local Open Scope string_scope.

Section TenantLists.
Context `{RT : Runtime} {API : EsiApi} {MA : MarketApi} {CFG : AppConfig} {RD : RustDecimal}
  {IC : InviteCodes} {CE : CorpEsi} {SA : ShareArith}.
Context (g : Uuid).
Implicit Types (db : Db).

(** ** Statements *)

Lemma within_caches_kept {E A} (m : M Db E A) : within caches m → within (kept g) m.
Proof. apply within_sub, caches_kept. Qed.

Lemma kept_touch_list lid : within (apart g (off_list g lid)) (touch_list lid).
Proof.
  unfold touch_list. within_solve. intros Hoff. apply kept_lists_update; [|done].
  intros k l _ Hk. bool_simpl. by subst.
Qed.

Lemma kept_set_list_total lid total : within (apart g (off_list g lid)) (set_list_total lid total).
Proof.
  unfold set_list_total. within_solve. intros Hoff. apply kept_lists_update; [|done].
  intros k l _ Hk. bool_simpl. by subst.
Qed.

Lemma kept_set_estimate e : within (apart g (off_item g e.1)) (set_estimate e).
Proof.
  destruct e as [id [u m]]. unfold set_estimate, price_column. within_solve; intros Hoff;
    (apply kept_items_update; [|done]); intros k li Hl Hk; bool_simpl; subst;
    by apply (off_item_row _ _ _ _ Hl).
Qed.

Lemma kept_insert_list_market lid p m : within (apart g (off_list g lid)) (insert_list_market lid p m).
Proof. unfold insert_list_market. within_solve. intros Hoff. keep. by apply same_on_insert. Qed.

Lemma kept_insert_list_item lid u it : within (apart g (off_list g lid)) (insert_list_item lid u it).
Proof.
  intros db x db' Hrun Hoff. unfold insert_list_item in Hrun. inv_sql. set_simpl.
  match goal with H : price_column _ _ = _ |- _ => apply price_column_Ok in H as (-> & _) end.
  rewrite ?negb_true_iff, row_exists_false in *. keep. apply same_on_insert; [|done].
  intros li Hl. set_simpl. congruence.
Qed.

(** Writing the estimates of items of one list. *)
Lemma kept_write_estimates lid ests db u db' :
  write_estimates lid ests db = Ok (u, db') → off_list g lid db →
  (∀ e, e ∈ ests → off_item g e.1 db) → kept g db db'.
Proof.
  intros Hrun Hoff Hall. unfold write_estimates in Hrun. inv_sql.
  match goal with H : for_each _ _ _ = Ok (_, ?d) |- _ => assert (kept g db d) as K end.
  { match goal with H : for_each _ _ _ = _ |- _ =>
      refine (for_each_inv (kept g db) _ _ _ _ _ _ H _); [|done] end.
    intros e s1 v s2 Hin Hb Hs. rewrite Hs. eapply kept_set_estimate; [exact Hb|]. rewrite <- Hs. by apply Hall. }
  match goal with H : fold_each _ _ _ ?d = Ok (_, ?d') |- _ => assert (kept g d d') as K2 end.
  { match goal with H : fold_each _ _ _ _ = _ |- _ => revert H end. generalize Decimal_ZERO.
    intros z Hf. refine ((_ : within (kept g) (fold_each sum_estimate ests z)) _ _ _ Hf).
    unfold sum_estimate, add_estimate. within_solve. }
  rewrite K, K2. match goal with H : set_list_total _ _ _ = _ |- _ => eapply kept_set_list_total; [exact H|] end.
  by rewrite <- K2, <- K.
Qed.

Lemma kept_recompute_estimates lid t : within (apart g (off_list g lid)) (recompute_estimates lid t).
Proof.
  unfold recompute_estimates. generalize RECOMPUTE_RETRY_LIMIT. intros n. revert t.
  induction n as [|n IH]; intros t db u db' Hrun Hoff; cbn [recompute_loop] in Hrun; [by inv_sql|].
  inv_sql. match goal with H : fetch_prices_for_markets _ _ _ _ = Ok (_, ?d) |- _ =>
    assert (kept g db d) as K by (eapply within_caches_kept; [apply fetch_prices_caches|exact H]) end.
  rewrite K. case_match; [eapply IH; [exact Hrun|]; by rewrite <- K|].
  eapply kept_write_estimates; [exact Hrun|by rewrite <- K|].
  intros e ([id ty] & -> & Hin)%list_elem_of_fmap. cbn. rewrite <- K.
  apply list_elem_of_fmap in Hin as ([k li] & [= -> ->] & Hin).
  apply elem_of_select_where in Hin as [Hl Hp]. apply (off_item_row _ _ _ _ Hl). same_list.
Qed.

#[local] Hint Resolve kept_touch_list kept_insert_list_market kept_insert_list_item
  kept_recompute_estimates : within.
#[local] Hint Extern 1 (within (apart _ _) (load_list_detail _ _ _)) =>
  apply within_apart, kept_load_list_detail : within.
#[local] Hint Extern 1 (within (apart _ _) (lock_list _)) => apply within_apart, kept_lock_list : within.
#[local] Hint Extern 1 (within (apart _ _) (load_markets _)) =>
  apply within_apart, within_caches_kept, load_markets_caches : within.
#[local] Hint Extern 1 (within (apart _ _) (validate_markets_for_group _ _)) =>
  apply within_apart, within_caches_kept, validate_markets_caches : within.
#[local] Hint Extern 1 (within (apart _ _) (resolve_type_ids _)) =>
  apply within_apart, within_caches_kept, resolve_type_ids_caches : within.
#[local] Hint Extern 1 (within (apart _ _) (resolve_opt _)) =>
  apply within_apart, within_caches_kept, resolve_opt_caches : within.

(** ** Lists and items *)

Lemma kept_preview cur body : within (kept g) (preview cur body).
Proof.
  apply within_caches_kept. unfold preview, anyhow.
  within_solve; auto using load_markets_caches, validate_markets_caches, resolve_type_ids_caches,
    fetch_prices_caches.
Qed.

Lemma kept_patch_list cur body : within (apart g (off_list g (cur_list_id cur))) (patch_list cur body).
Proof.
  unfold patch_list. within_solve. intros Hoff. apply kept_lists_update.
  - intros k l _ Hk. bool_simpl. by subst.
  - intros l. unfold apply_patch. by repeat case_match.
Qed.

Lemma kept_replace_markets cur body :
  within (apart g (off_list g (cur_list_id cur))) (replace_markets cur body).
Proof.
  unfold replace_markets. within_solve. intros Hoff. keep. apply same_on_delete_where.
  intros k lm _ Hk. apply bool_decide_eq_true in Hk. by rewrite Hk.
Qed.

Lemma kept_add_items cur body : within (apart g (off_list g (cur_list_id cur))) (add_items cur body).
Proof. unfold add_items, anyhow, resolved_row. within_solve. Qed.

Lemma kept_update_item lid id (f : ListItemRow → ListItemRow) :
  (∀ li, li_list_id (f li) = li_list_id li) → within (apart g (off_list g lid)) (update_item lid id f).
Proof.
  intros Hf. unfold update_item. within_solve. intros Hoff. apply kept_items_update; [|done].
  intros k li _ Hk. same_list.
Qed.

Lemma kept_patch_item cur item body :
  within (apart g (off_list g (cur_list_id cur))) (patch_item cur item body).
Proof. unfold patch_item, lock_item. within_solve; by apply kept_update_item. Qed.

Lemma kept_patch_list_payer user lid body db d db' :
  patch_list_payer user lid body db = Ok (d, db') → stranger g user db → kept g db db'.
Proof.
  unfold patch_list_payer. intros Hrun Hs. inv_sql.
  match goal with H : owned_list_group _ _ _ = Some ?x |- _ => unfold owned_list_group in H; rename H into Ho end.
  destruct (lists db !! lid) as [l|] eqn:Hl; [cbn in Ho|done]. case_bool_decide; [bool_simpl|done].
  assert (off_list g lid db) as Hoff.
  { eapply off_list_row; [exact Hl|]. by eapply stranger_role. }
  skip_reads.
  match goal with H : (match ppb_payer_corp_id body with _ => _ end : Handler unit) _ = Ok (_, ?d) |- _ =>
    assert (d = db) as -> by (destruct (ppb_payer_corp_id body);
      unfold require_corp_in_group in H; inv_sql; done) end.
  apply kept_lists_update; [|done]. intros k l0 _ Hk. bool_simpl. by subst.
Qed.

Lemma kept_insert_list gid user label notes total db lid db' :
  insert_list gid user label notes total db = Ok (lid, db') → gid ≠ g →
  kept g db db' ∧ off_list g lid db'.
Proof.
  unfold insert_list. intros Hrun Hg. inv_sql. set_simpl. rewrite ?negb_true_iff, row_exists_false in *.
  split.
  - keep. apply same_on_insert; [|done]. intros l Hl. set_simpl. congruence.
  - eapply off_list_row; [apply lookup_insert_eq|done].
Qed.

Lemma kept_create cur body db d db' :
  create cur body db = Ok (d, db') → cg_group_id cur ≠ g → kept g db db'.
Proof.
  unfold create, require_lists_quota, check_lists_quota, anyhow. intros Hrun Hg. inv_sql. skip_reads.
  match goal with x : _ * _ |- _ => destruct x end. inv_sql.
  match goal with x : _ * _ |- _ => destruct x as [its total] end.
  match goal with H : fold_each _ _ _ ?s = Ok (_, ?s') |- _ => rename s into db1, s' into db2 end.
  assert (kept g db db2) as K.
  { apply caches_kept.
    repeat match goal with
    | H : load_markets _ _ = Ok _ |- _ => apply load_markets_caches in H; rewrite H; clear H
    | H : validate_markets_for_group _ _ _ = Ok _ |- _ => apply validate_markets_caches in H; rewrite H; clear H
    | H : resolve_type_ids _ _ = Ok _ |- _ => apply resolve_type_ids_caches in H; rewrite H; clear H
    | H : fetch_prices_for_markets _ _ _ _ = Ok _ |- _ => apply fetch_prices_caches in H; rewrite H; clear H
    end.
    match goal with H : fold_each ?b _ _ _ = _ |- _ => refine ((_ : within caches (fold_each b _ _)) _ _ _ H) end.
    unfold price_line, add_estimate. within_solve. }
  apply bind_Ok in Hrun as (lid & db3 & Hins & Hrun). revert Hrun. inv_sql. intros Hrun.
  match goal with H : insert_list _ _ _ _ _ _ = _ |- _ => apply kept_insert_list in H as [K2 Hoff]; [|done] end.
  rewrite K, K2. refine ((_ : within (apart g (off_list g lid)) _) _ _ _ Hrun Hoff).
  within_solve; apply within_apart; by first [apply kept_fire_webhook|apply kept_load_list_detail].
Qed.
End TenantLists.
