(* ===== verification/TenantGroups.v ===== *)
(** * Groups, corporations and deletions keep other groups

    The handlers of [groups.rs] and [corps.rs], and the three that delete,
    against [Tenancy]. *)

From Stdlib Require Import ZArith Lia.
From stdpp Require Import base tactics decidable option list gmap relations strings.
From S2P Require Import Prelude Effect Unicode Money Domain Host Schema Fixtures Errors.
From S2P Require Import Multibuy Market Config Extract Webhooks Detail Pricing Settlement Wallet Fulfillment.
From S2P Require Import Claims Reimbursements Fulfillments Contracts Poller Matching Lists Items Groups Corps.
From S2P Require Import Within Invariant InvariantMoney Preservation Purchases DebtSteps Edits Prunes Editing.
From S2P Require Import Growth Ledger Locality Membership Tenancy TenantDebts TenantLists.

Local Open Scope string_scope.

Section TenantGroups.
Context `{RT : Runtime} {API : EsiApi} {MA : MarketApi} {CFG : AppConfig} {RD : RustDecimal}
  {IC : InviteCodes} {CE : CorpEsi} {SA : ShareArith}.
Context (g : Uuid).
Implicit Types (db : Db).

(** ** Groups and their members *)

Lemma kept_set_group_default_tip cur pct db gr db' :
  set_group_default_tip cur pct db = Ok (gr, db') → cg_group_id cur ≠ g → kept g db db'.
Proof.
  unfold set_group_default_tip, cast_tip. intros Hrun Hg. inv_sql. keep. apply same_on_update_where.
  intros k r _ Hk. bool_simpl. subst. by split.
Qed.

Lemma kept_insert_membership u gid role db x db' :
  insert_membership u gid role db = Ok (x, db') → gid ≠ g → kept g db db'.
Proof.
  unfold insert_membership. intros Hrun Hg. inv_sql. set_simpl. keep. by apply same_on_insert.
Qed.

(** The group made is another one: its id was not in use. *)
Lemma kept_create_group user name db gr db' :
  create_group user name db = Ok (gr, db') → is_Some (groups db !! g) → kept g db db'.
Proof.
  unfold create_group, lock_user_for_quota, require_group_quota, check_group_quota.
  intros Hrun [r0 Hr0]. inv_sql.
  match goal with H : with_invite_code _ _ _ _ = _ |- _ =>
    apply with_invite_code_first in H as (gr0 & [= ->] & H); unfold insert_group in H; rename H into Hins end.
  inv_sql. set_simpl. rewrite ?negb_true_iff, row_exists_false in *.
  match goal with H : insert_membership _ _ _ ?d = _ |- _ =>
    apply kept_insert_membership in H; [rewrite <- H|cbn; congruence] end.
  keep. apply same_on_insert; [|congruence]. intros r Hr. congruence.
Qed.

Lemma kept_leave cur db x db' : leave cur db = Ok (x, db') → cg_group_id cur ≠ g → kept g db db'.
Proof. unfold leave. intros Hrun Hg. inv_sql. keep. by apply same_on_delete. Qed.

Lemma kept_rotate_invite cur db gr db' :
  rotate_invite cur db = Ok (gr, db') → cg_group_id cur ≠ g → kept g db db'.
Proof.
  unfold rotate_invite. intros Hrun Hg. inv_sql.
  match goal with H : with_invite_code _ _ _ _ = _ |- _ =>
    apply with_invite_code_first in H as (gr0 & [= ->] & H); unfold store_invite_code in H; rename H into Hst end.
  inv_sql. keep. by apply same_on_insert.
Qed.

(** The code a caller joins with is not the group's. *)
Definition other_code (code : string) db : Prop :=
  ∀ r, groups db !! g = Some r → g_invite_code r ≠ code.

Lemma kept_join_group user code db gr db' :
  join_group user code db = Ok (gr, db') → other_code code db → kept g db db'.
Proof.
  unfold join_group, lock_user_for_quota, require_group_quota, check_group_quota. intros Hrun Hc. inv_sql.
  match goal with x : N * GroupRow |- _ => destruct x as [gid row] end. inv_sql.
  match goal with H : head _ = Some _ |- _ => apply head_Some_elem_of, elem_of_select_where in H as [Hr Hp] end.
  cbn in *. bool_simpl.
  match goal with H : when _ _ _ = _ |- _ => apply when_Ok in H end.
  case_match; [|by subst]. inv_sql. eapply kept_insert_membership; [eassumption|]. intros ->. by eapply Hc.
Qed.

(** ** Corporations *)

(** Corporations, principals and ambassadors are no tenant's. *)
Lemma kept_upsert_corp esi name ticker : within (kept g) (upsert_corp esi name ticker).
Proof. unfold upsert_corp. within_solve; by first [apply kept_new_uuid|split]. Qed.
Lemma kept_insert_corp_principal c : within (kept g) (insert_corp_principal c).
Proof. unfold insert_corp_principal. within_solve; by first [apply kept_new_uuid|split]. Qed.
Lemma kept_upsert_ambassador c ch scopes via : within (kept g) (upsert_ambassador c ch scopes via).
Proof. unfold upsert_ambassador. within_solve. by split. Qed.
Lemma kept_disable_ambassadors P db : kept g db (disable_ambassadors P db).
Proof. by split. Qed.

#[local] Hint Resolve kept_upsert_corp kept_insert_corp_principal kept_upsert_ambassador
  kept_disable_ambassadors : within.

Lemma kept_upsert_group_corp gid c u : gid ≠ g → within (kept g) (upsert_group_corp gid c u).
Proof. intros Hg. unfold upsert_group_corp. within_solve. keep. by apply same_on_insert. Qed.

Lemma kept_link_corp cur ch : cg_group_id cur ≠ g → within (kept g) (link_corp cur ch).
Proof.
  intros Hg. unfold link_corp, require_owner, own_character. within_solve. by apply kept_upsert_group_corp.
Qed.

Lemma kept_unlink_corp cur c : cg_group_id cur ≠ g → within (kept g) (unlink_corp cur c).
Proof.
  intros Hg. unfold unlink_corp, unlink_link, disable_contributed, disable_corp, require_owner, require_corp_in_group. within_solve.
  - keep. apply same_on_update_where. intros k gc _ Hk. bool_simpl. by subst.
  - by split.
Qed.

Lemma kept_add_ambassador cur c ch : within (kept g) (add_ambassador cur c ch).
Proof. unfold add_ambassador, require_owner, require_corp_in_group, own_character. within_solve. Qed.

Lemma kept_remove_ambassador cur c ch : within (kept g) (remove_ambassador cur c ch).
Proof.
  unfold remove_ambassador, require_owner, require_corp_in_group. within_solve.
Qed.

(** ** Deletions *)

(** The purchases that stay are the group's own: a claim that goes is on
    another list than theirs. *)
Lemma same_unclaimed doomed db :
  (∀ lid, doomed lid = true → off_list g lid db) → claims_local db →
  same_on (λ _ f, item_of g db (f_list_item_id f)) (fulfillments db)
    (update_each (λ _, unclaim (claim_doomed doomed db))
      (delete_where (λ _ f, item_doomed doomed db (f_list_item_id f)) (fulfillments db))).
Proof.
  intros Hd Hl. set (Q := λ (_ : Uuid) f, item_of g db (f_list_item_id f)).
  apply (same_on_trans Q Q _ (delete_where (λ _ f, item_doomed doomed db (f_list_item_id f)) (fulfillments db)));
    [done|..].
  - apply same_on_delete_where. intros k f Hf Hi (li & Hli & Hg). unfold item_doomed in Hi; cbn in Hi.
    rewrite Hli in Hi. by eapply Hd.
  - apply same_on_update_each. intros k f [Hf _]%lookup_delete_where_Some. unfold unclaim.
    destruct (f_claim_id f) as [c|] eqn:Hc; [|by left].
    destruct (claim_doomed doomed db c) eqn:Hcd; [right|by left].
    destruct (Hl _ _ Hf _ Hc) as (c0 & li & Hc0 & Hli & E). unfold claim_doomed in Hcd. rewrite Hc0 in Hcd.
    assert (off_item g (f_list_item_id f) db) as Hn; [|by split].
    apply (off_item_row _ _ _ _ Hli). rewrite <- E. by apply Hd.
Qed.

Lemma kept_cascade_lists doomed db :
  (∀ lid, doomed lid = true → off_list g lid db) → Inv db → claims_local db →
  kept g db (cascade_lists doomed db).
Proof.
  intros Hd Hinv Hl. set (db' := cascade_lists doomed db). split; try exact (same_on_refl _ _).
  - refine (same_on_delete_where _ (lists db) (λ k _, doomed k) _).
    intros k l Hk Hdk Hg. apply (Hd k Hdk). by exists l.
  - refine (same_on_delete_where _ (list_markets db) (λ k _, doomed k.1) _). intros k lm _ Hk. by apply Hd.
  - refine (same_on_delete_where _ (list_items db) (λ _ li, doomed (li_list_id li)) _).
    intros k li _ Hk. by apply Hd.
  - refine (same_on_delete_where _ (claims db) (λ _ c, doomed (cl_list_id c)) _). intros k c _ Hk. by apply Hd.
  - refine (same_on_delete_where _ (claim_items db)
      (λ k _, claim_doomed doomed db k.1 || item_doomed doomed db k.2) _).
    intros [cid item] ci Hci Hk (c & Hc & Hg). cbn in *.
    destruct (inv_targets _ Hinv (cid, item)) as (c' & li & Hc' & Hli & E); [by eexists|]. cbn in *.
    unfold claim_doomed, item_doomed in Hk. rewrite Hc, Hli in Hk. simplify_eq. rewrite E in *.
    rewrite orb_diag in Hk. by eapply Hd.
  - exact (same_unclaimed doomed db Hd Hl).
  - refine (same_on_delete_where _ (reimbursements db) (λ _ r, doomed (r_list_id r)) _).
    intros k r _ Hk. by apply Hd.
  - refine (same_on_delete_where _ (contract_match_suggestions db)
      (λ _ s, reimb_doomed doomed db (s_reimbursement_id s)) _).
    intros k s _ Hk (r & Hr & Hg). unfold reimb_doomed in Hk. rewrite Hr in Hk. by eapply Hd.
Qed.

Lemma kept_delete_list cur db u db' :
  delete_list cur db = Ok (u, db') → off_list g (cur_list_id cur) db → Inv db → claims_local db →
  kept g db db'.
Proof.
  unfold delete_list. intros Hrun Hoff Hinv Hl. inv_sql.
  match goal with H : when _ _ _ = _ |- _ => apply when_Ok in H end. case_match; inv_sql; [|done].
  apply kept_cascade_lists; [|done|done]. intros lid Hk. bool_simpl. by subst.
Qed.

Lemma kept_cascade_group gid db :
  gid ≠ g → Inv db → claims_local db → kept g db (cascade_group gid db).
Proof.
  intros Hg Hinv Hl. unfold cascade_group. transitivity (cascade_lists (list_of_group db gid) db);
    [apply kept_cascade_lists|].
  - intros lid Hk (l & Hll & Hlg). unfold list_of_group in Hk. rewrite Hll in Hk. by bool_simpl.
  - done.
  - done.
  - generalize (cascade_lists (list_of_group db gid) db). intros d.
    keep; first [apply same_on_delete|apply same_on_delete_where]; intros; bool_simpl; congruence.
Qed.

Lemma kept_delete_group cur db u db' :
  delete_group cur db = Ok (u, db') → cg_group_id cur ≠ g → Inv db → claims_local db → kept g db db'.
Proof. unfold delete_group. intros Hrun Hg Hinv Hl. inv_sql. by apply kept_cascade_group. Qed.

Lemma kept_cascade_item item db : off_item g item db → Inv db → kept g db (cascade_item item db).
Proof.
  intros Hoff Hinv. keep.
  - apply same_on_delete. intros li Hli. by apply (off_item_row _ _ _ _ Hli).
  - apply same_on_delete_where. intros [cid i] ci Hci Hk. bool_simpl. cbn in *. subst.
    by eapply off_claim_item.
  - apply same_on_delete_where. intros k f _ Hk. bool_simpl. by subst.
Qed.

Lemma kept_delete_item cur item db d db' :
  delete_item cur item db = Ok (d, db') → off_list g (cur_list_id cur) db → Inv db → kept g db db'.
Proof.
  unfold delete_item. intros Hrun Hoff Hinv. inv_sql. skip_reads.
  match goal with H : lock_item _ _ _ = _ |- _ => apply lock_item_Ok in H as (-> & li & Hli & Hlid & _) end.
  assert (kept g db (cascade_item item db)) as K.
  { apply kept_cascade_item; [|done]. apply (off_item_row _ _ _ _ Hli). by rewrite Hlid. }
  match goal with H : touch_list _ _ = Ok (_, ?d) |- _ => assert (kept g db d) as K2 end.
  { rewrite K. match goal with H : touch_list _ _ = _ |- _ => eapply kept_touch_list; [exact H|] end.
    by rewrite <- K. }
  rewrite K2. match goal with H : recompute_estimates _ _ _ = _ |- _ => eapply kept_recompute_estimates; [exact H|] end.
  by rewrite <- K2.
Qed.
End TenantGroups.
