(* ===== verification/Outbox.v ===== *)
(** * The webhook outbox

    [crates/webhook-dispatch/src/lib.rs], the configuration routes of
    [crates/api/src/webhooks.rs] over it, and the drainer of
    [crates/worker/src/jobs/pending_webhooks.rs].  The HTTP request to Discord
    is an argument: the outcome of the one send a tick makes for a row.  Failures
    of the database between those sends, and rows deleted by others while they
    run, are not modelled. *)

From Stdlib Require Import ZArith Lia.
From stdpp Require Import base tactics decidable option list gmap strings pretty sorting.
From S2P Require Import Prelude Effect Domain Host Schema Fixtures Errors Market Extract Webhooks Detail.

Local Open Scope string_scope.

(** ** Configuration *)

Inductive WebhookError :=
| We_BadRequest (message : string)
| We_Forbidden
| We_Db (e : DbError)
| We_Send (e : Anyhow).
#[export] Instance FromSql_WebhookError : FromSql WebhookError := We_Db.

Record WebhookConfig := mkWebhookConfig {
  wc_webhook_url : string;
  wc_notify_list_created : bool;
  wc_notify_list_claimed : bool;
  wc_notify_list_delivered : bool;
  wc_notify_reimbursement_settled : bool
}.

(** The drainer's parameters, per tick: what sending answers for a row, and
    when the outcome is recorded. *)
Record Embed := mkEmbed { em_title : string; em_description : string; em_color : Z }.

Record Tick := mkTick {
  tk_send : Uuid → string → Embed → result Anyhow unit;
  tk_done : Uuid → Timestamp
}.

(** [serde_json::from_value::<WebhookEvent>]. *)
Class EventCodec `{RT : Runtime} := from_value : Value → option WebhookEvent.

Section Outbox.
Context `{RT : Runtime} {EC : EventCodec}.

Definition fetch_row (db : Db) (group_id : Uuid) : option WebhookRow :=
  group_discord_webhooks db !! group_id.

Definition config_of (r : WebhookRow) : WebhookConfig :=
  mkWebhookConfig (gw_webhook_url r) (gw_notify_list_created r) (gw_notify_list_claimed r)
    (gw_notify_list_delivered r) (gw_notify_reimbursement_settled r).

Definition do_get_webhook (group_id : Uuid) (role : GroupRole)
    : M Db WebhookError (option WebhookConfig) :=
  _ ← ensure (role == Owner) We_Forbidden;
  query (λ db, config_of <$> fetch_row db group_id).

Definition discord_url (url : string) : bool :=
  String.prefix "https://discord.com/api/webhooks/" url ||
  String.prefix "https://discordapp.com/api/webhooks/" url.

Definition webhook_row (now created : Timestamp) (c : WebhookConfig) : WebhookRow :=
  mkWebhookRow (wc_webhook_url c) (wc_notify_list_created c) (wc_notify_list_claimed c)
    (wc_notify_list_delivered c) (wc_notify_reimbursement_settled c) created now.

Definition do_upsert_webhook (group_id : Uuid) (role : GroupRole) (body : WebhookConfig)
    : M Db WebhookError WebhookConfig :=
  _ ← ensure (role == Owner) We_Forbidden;
  _ ← ensure (String.length (wc_webhook_url body) <=? 512)%nat (We_BadRequest "webhook_url is too long");
  _ ← ensure (discord_url (wc_webhook_url body))
        (We_BadRequest "webhook_url must be a Discord webhook URL");
  _ ← sql (foreign_key (λ db, row_exists (groups db) group_id) "group_discord_webhooks_group_id_fkey");
  _ ← execute (λ db, db <| group_discord_webhooks ::= <[group_id :=
        webhook_row (db_now db)
          (match fetch_row db group_id with Some r => gw_created_at r | None => db_now db end) body]> |>);
  mret body.

Definition do_delete_webhook (group_id : Uuid) (role : GroupRole) : M Db WebhookError unit :=
  _ ← ensure (role == Owner) We_Forbidden;
  execute (λ db, db <| group_discord_webhooks ::= delete group_id |>).

(** [IntoResponse for WebhookError]. *)
Definition webhook_response (e : WebhookError) : Z * string :=
  match e with
  | We_BadRequest msg => (400%Z, msg)
  | We_Forbidden => (403%Z, "owner only")
  | We_Db _ | We_Send _ => (500%Z, "internal error")
  end.

Definition get_webhook (cur : CurrentGroup) := do_get_webhook (cg_group_id cur) (cg_role cur).
Definition upsert_webhook (cur : CurrentGroup) (body : WebhookConfig) :=
  do_upsert_webhook (cg_group_id cur) (cg_role cur) body.
Definition delete_webhook (cur : CurrentGroup) := do_delete_webhook (cg_group_id cur) (cg_role cur).

(** ** Messages *)

Definition is_enabled (e : WebhookEvent) (r : WebhookRow) : bool :=
  match e with
  | ListCreated _ _ _ _ => gw_notify_list_created r
  | ListClaimed _ _ _ => gw_notify_list_claimed r
  | ListDelivered _ _ => gw_notify_list_delivered r
  | ReimbursementSettled _ _ _ _ => gw_notify_reimbursement_settled r
  end.

Definition embed_color (e : WebhookEvent) : Z :=
  match e with
  | ListCreated _ _ _ _ => 0x2f81f7
  | ListClaimed _ _ _ => 0xd29922
  | ListDelivered _ _ => 0x3fb950
  | ReimbursementSettled _ _ _ _ => 0x8b949e
  end%Z.

Definition title (e : WebhookEvent) : string :=
  match e with
  | ListCreated dest _ _ _ => "New list: " +:+ dest
  | ListClaimed dest hauler _ => hauler +:+ " claimed items on " +:+ dest
  | ListDelivered dest hauler => hauler +:+ " delivered " +:+ dest
  | ReimbursementSettled dest _ _ _ => "Reimbursement settled: " +:+ dest
  end.

Definition description (e : WebhookEvent) : string :=
  match e with
  | ListCreated _ item_count estimate creator =>
      creator +:+ " created a list with " +:+ pretty item_count +:+ " items (est. " +:+
      estimate +:+ " ISK)"
  | ListClaimed _ _ item_count => pretty item_count +:+ " item(s) claimed"
  | ListDelivered _ _ => "All items delivered/settled"
  | ReimbursementSettled _ requester hauler total =>
      requester +:+ " → " +:+ hauler +:+ ": " +:+ total +:+ " ISK"
  end.

Definition build_payload (e : WebhookEvent) : Embed :=
  mkEmbed (title e) (description e) (embed_color e).

Definition dispatch_webhook (send : string → Embed → result Anyhow unit) (group_id : Uuid)
    (event : WebhookEvent) : M Db WebhookError unit :=
  row ← query (λ db, fetch_row db group_id);
  match row with
  | None => mret tt
  | Some row =>
      if negb (is_enabled event row) then mret tt
      else map_err We_Send (of_result (send (gw_webhook_url row) (build_payload event)))
  end.

(** ** The drainer *)

Definition BATCH : nat := 50.
Definition MAX_ATTEMPTS : Z := 8.
Definition LEASE_SECS : Z := 600.

(** [SELECT ... WHERE next_attempt_at <= now() ORDER BY next_attempt_at LIMIT $1]. *)
Definition due (db : Db) : list (Uuid * PendingWebhookRow) :=
  take BATCH (sort_by (λ a b, (pw_next_attempt_at a.2 <=? pw_next_attempt_at b.2)%Z)
    (select_where (λ _ w, pw_next_attempt_at w <=? db_now db)%Z (pending_webhooks db))).

Definition lease (ids : list Uuid) (db : Db) : Db :=
  db <| pending_webhooks ::= update_where (λ id _, bool_decide (id ∈ ids))
    (λ w, w <| pw_next_attempt_at := (db_now db + seconds LEASE_SECS)%Z |>) |>.

Definition delay_secs (attempts : Z) : Z := Z.min (2 ^ attempts) 3600.

Definition drop_row {E} (id : Uuid) : M Db E unit :=
  execute (λ db, db <| pending_webhooks ::= delete id |>).

Definition retry_row {E} (id : Uuid) (attempts : Z) (done_at : Timestamp) : M Db E unit :=
  execute (λ db, db <| pending_webhooks ::= update_where (λ k _, k == id)
    (λ w, w <| pw_attempts := attempts |>
            <| pw_next_attempt_at := (done_at + seconds (delay_secs attempts))%Z |>) |>).

(** One turn of the loop over the leased rows. *)
Definition drain_row (t : Tick) (row : Uuid * PendingWebhookRow) : M Db Anyhow unit :=
  let '(id, w) := row in
  match from_value (pw_payload w) with
  | None => drop_row id
  | Some event =>
      sent ← attempt (dispatch_webhook (tk_send t id) (pw_group_id w) event);
      match sent with
      | Ok _ => drop_row id
      | Err _ =>
          let new_attempts := (pw_attempts w + 1)%Z in
          if (MAX_ATTEMPTS <=? new_attempts)%Z then drop_row id
          else retry_row id new_attempts (tk_done t id)
      end
  end.

Definition run (t : Tick) : M Db Anyhow unit :=
  rows ← query due;
  _ ← execute (lease rows.*1);
  for_each (drain_row t) rows.
(** ** What a tick does to a row *)

Definition delivered (t : Tick) (db : Db) (id : Uuid) (w : PendingWebhookRow) (event : WebhookEvent)
    : bool :=
  is_ok (dispatch_webhook (tk_send t id) (pw_group_id w) event db).

Definition outcome (t : Tick) (db : Db) (id : Uuid) (w : PendingWebhookRow)
    : option PendingWebhookRow :=
  match from_value (pw_payload w) with
  | None => None
  | Some event =>
      if delivered t db id w event then None
      else if (MAX_ATTEMPTS <=? pw_attempts w + 1)%Z then None
      else Some (w <| pw_attempts := (pw_attempts w + 1)%Z |>
                   <| pw_next_attempt_at :=
                        (tk_done t id + seconds (delay_secs (pw_attempts w + 1)))%Z |>)
  end.

Lemma dispatch_reads send g event db u db' :
  dispatch_webhook send g event db = Ok (u, db') → db' = db.
Proof.
  unfold dispatch_webhook. intros Hrun. inv_sql. case_match; [case_match|]; by inv_sql.
Qed.

Lemma drain_row_run t id w w1 db :
  pending_webhooks db !! id = Some w1 → w1 = w <| pw_next_attempt_at := pw_next_attempt_at w1 |> →
  ∃ q, drain_row t (id, w) db = Ok (tt, db <| pending_webhooks := q |>) ∧
    ∀ k, q !! k = if decide (k = id) then outcome t db id w else pending_webhooks db !! k.
Proof.
  intros Hw He.
  assert (∃ q, drop_row (E := Anyhow) id db = Ok (tt, db <| pending_webhooks := q |>) ∧
    ∀ k, q !! k = if decide (k = id) then None else pending_webhooks db !! k) as Hdrop.
  { exists (delete id (pending_webhooks db)). split; [reflexivity|]. intros k.
    case_decide as Hk; [subst; apply lookup_delete_eq|by rewrite lookup_delete_ne]. }
  unfold drain_row, outcome, delivered. destruct (from_value (pw_payload w)) as [event|]; [|exact Hdrop].
  unfold attempt, mbind, M_bind. destruct (dispatch_webhook _ _ _ db) as [[u d]|e] eqn:Hd; cbn.
  { apply dispatch_reads in Hd as ->. exact Hdrop. }
  destruct (MAX_ATTEMPTS <=? pw_attempts w + 1)%Z; [exact Hdrop|].
  eexists. split; [reflexivity|]. intros k. rewrite lookup_update_where.
  case_decide as Hk; [subst k|rewrite bool_decide_eq_false_2 by done; by destruct (_ !! k)].
  rewrite Hw. cbn. rewrite bool_decide_eq_true_2 by done. destruct w, w1. unfold set in *. cbn in *. congruence.
Qed.

(** Nothing the drainer reads of a row's outcome is in the queue. *)
Lemma outcome_queue t db q id w : outcome t (db <| pending_webhooks := q |>) id w = outcome t db id w.
Proof.
  unfold outcome, delivered. destruct (from_value _) as [event|]; [|done].
  replace (is_ok (dispatch_webhook (tk_send t id) (pw_group_id w) event (db <| pending_webhooks := q |>)))
    with (is_ok (dispatch_webhook (tk_send t id) (pw_group_id w) event db)); [done|].
  unfold dispatch_webhook, query, reads, mbind, M_bind, fetch_row. cbn. set_simpl.
  destruct (group_discord_webhooks db !! pw_group_id w) as [r|]; [|done].
  destruct (is_enabled event r); [|done]. cbn. unfold map_err, of_result.
  by destruct (tk_send t id (gw_webhook_url r) (build_payload event)).
Qed.

(** Rows as they were, their lease apart. *)
Definition leased (rows : list (Uuid * PendingWebhookRow)) (db : Db) : Prop :=
  ∀ id w, (id, w) ∈ rows → ∃ w1, pending_webhooks db !! id = Some w1 ∧
    w1 = w <| pw_next_attempt_at := pw_next_attempt_at w1 |>.

Lemma drain_rows_run t rows db :
  NoDup rows.*1 → leased rows db →
  ∃ q, for_each (drain_row t) rows db = Ok (tt, db <| pending_webhooks := q |>) ∧
    (∀ id w, (id, w) ∈ rows → q !! id = outcome t db id w) ∧
    ∀ k, k ∉ rows.*1 → q !! k = pending_webhooks db !! k.
Proof.
  revert db. induction rows as [|[id w] rows IH]; intros db Hnd Hl.
  { exists (pending_webhooks db). split; [by destruct db|]. split; [set_solver|done]. }
  cbn in Hnd. apply NoDup_cons in Hnd as [Hni Hnd].
  destruct (Hl id w ltac:(left)) as (w1 & Hw & He).
  destruct (drain_row_run t id w w1 db Hw He) as (q1 & Hrun & Hq1).
  destruct (IH (db <| pending_webhooks := q1 |>) Hnd) as (q & Hrest & Hin & Hout).
  { intros k v Hkv. destruct (Hl k v ltac:(by right)) as (v1 & Hv & Hev). exists v1. split; [|done].
    set_simpl. rewrite Hq1, decide_False; [done|]. intros ->. apply Hni. by apply (list_elem_of_fmap_2 fst) in Hkv. }
  exists q. split.
  { cbn [for_each]. unfold mbind, M_bind. rewrite Hrun. rewrite Hrest. by destruct db. }
  split.
  - intros k v [[= -> ->]|Hkv]%elem_of_cons.
    + rewrite Hout by done. set_simpl. by rewrite Hq1, decide_True.
    + rewrite (Hin _ _ Hkv). apply outcome_queue.
  - intros k [Hne Hk]%not_elem_of_cons. rewrite Hout by done. set_simpl. by rewrite Hq1, decide_False.
Qed.

Lemma elem_of_due db id w :
  (id, w) ∈ due db → pending_webhooks db !! id = Some w ∧ (pw_next_attempt_at w ≤ db_now db)%Z.
Proof.
  unfold due. intros Hin. apply elem_of_take in Hin as (i & Hi & _).
  apply list_elem_of_lookup_2, elem_of_sort_by, elem_of_select_where in Hi as [Hw Hn].
  split; [done|by apply Z.leb_le].
Qed.

Lemma NoDup_due db : NoDup (due db).*1.
Proof.
  unfold due. rewrite fmap_take. eapply sublist_NoDup; [|apply sublist_take].
  eapply NoDup_Permutation_proper; [|apply (NoDup_select_where
    (λ _ w, pw_next_attempt_at w <=? db_now db)%Z (pending_webhooks db))].
  unfold sort_by. by rewrite merge_sort_Permutation.
Qed.

Lemma due_nonempty db id w :
  pending_webhooks db !! id = Some w → (pw_next_attempt_at w ≤ db_now db)%Z → due db ≠ [].
Proof.
  intros Hw Hn Hd. unfold due in Hd. apply (f_equal length) in Hd. rewrite length_take in Hd. cbn in Hd.
  assert ((id, w) ∈ sort_by (λ a b : Uuid * PendingWebhookRow,
    (pw_next_attempt_at a.2 <=? pw_next_attempt_at b.2)%Z)
    (select_where (λ _ w, pw_next_attempt_at w <=? db_now db)%Z (pending_webhooks db))) as Hin.
  { apply elem_of_sort_by, elem_of_select_where. split; [done|by apply Z.leb_le]. }
  destruct (sort_by _ _); [set_solver|cbn in Hd; lia].
Qed.

(** A tick always completes; it decides every row it leased and no other. *)
Lemma run_total t db :
  ∃ q, run t db = Ok (tt, db <| pending_webhooks := q |>) ∧
    (∀ id w, (id, w) ∈ due db → q !! id = outcome t db id w) ∧
    ∀ id, id ∉ (due db).*1 → q !! id = pending_webhooks db !! id.
Proof.
  destruct (drain_rows_run t (due db) (lease (due db).*1 db) (NoDup_due db)) as (q & Hrun & Hin & Hout).
  { intros id w Hw. destruct (elem_of_due _ _ _ Hw) as [Hp _]. unfold lease. set_simpl.
    rewrite lookup_update_where, Hp. cbn.
    rewrite bool_decide_eq_true_2 by by apply (list_elem_of_fmap_2 fst) in Hw.
    eexists. split; [done|]. by destruct w. }
  exists q. split; [|split].
  - unfold run, mbind, M_bind, query, reads, execute, modify. rewrite Hrun. by destruct db.
  - intros id w Hw. rewrite (Hin _ _ Hw). apply outcome_queue.
  - intros id Hid. rewrite Hout by done. unfold lease. set_simpl. rewrite lookup_update_where.
    rewrite bool_decide_eq_false_2 by done. by destruct (_ !! id).
Qed.
(** ** Bounds *)

(** The rows as they are queued and retried. *)
Definition attempts_ok db : Prop :=
  ∀ id w, pending_webhooks db !! id = Some w → (0 ≤ pw_attempts w < MAX_ATTEMPTS)%Z.

(** The attempts the queue has left, over all its rows. *)
Definition attempts_left db : Z := sum_of (λ _ w, MAX_ATTEMPTS - pw_attempts w)%Z (pending_webhooks db).

Lemma outcome_Some t db id w w' :
  outcome t db id w = Some w' →
  pw_attempts w' = (pw_attempts w + 1)%Z ∧ (pw_attempts w + 1 < MAX_ATTEMPTS)%Z ∧
  pw_next_attempt_at w' = (tk_done t id + seconds (delay_secs (pw_attempts w + 1)))%Z ∧
  (∃ event, from_value (pw_payload w) = Some event ∧ delivered t db id w event = false) ∧
  w' = w <| pw_attempts := pw_attempts w' |> <| pw_next_attempt_at := pw_next_attempt_at w' |>.
Proof.
  unfold outcome. destruct (from_value _) as [event|]; [|done].
  destruct (delivered t db id w event) eqn:Hd; [done|].
  destruct (MAX_ATTEMPTS <=? pw_attempts w + 1)%Z eqn:Hm; [done|]. intros [= <-].
  apply Z.leb_gt in Hm. cbn. split_and!; try done. by exists event.
Qed.

Lemma run_left t db db' :
  attempts_ok db → run t db = Ok (tt, db') →
  attempts_ok db' ∧ (attempts_left db' ≤ attempts_left db)%Z ∧
  (due db ≠ [] → (attempts_left db' < attempts_left db)%Z).
Proof.
  intros Hok Hrun. destruct (run_total t db) as (q & Hrun' & Hin & Hout).
  rewrite Hrun in Hrun'. injection Hrun' as ->.
  set (left_of id w := match (if decide (id ∈ (due db).*1) then outcome t db id w else Some w) with
                       | Some w' => (MAX_ATTEMPTS - pw_attempts w')%Z | None => 0%Z end).
  assert (∀ id w, pending_webhooks db !! id = Some w →
    q !! id = if decide (id ∈ (due db).*1) then outcome t db id w else Some w) as Hq.
  { intros id w Hw. case_decide as Hd; [|by rewrite Hout].
    apply list_elem_of_fmap in Hd as ([k v] & -> & Hd). destruct (elem_of_due _ _ _ Hd) as [Hv _].
    cbn in *. rewrite Hw in Hv. injection Hv as ->. by apply Hin. }
  assert (∀ id w', q !! id = Some w' → is_Some (pending_webhooks db !! id)) as Hsub.
  { intros id w' Hw'. destruct (decide (id ∈ (due db).*1)) as [Hd|Hd];
      [|exists w'; by rewrite <- Hout].
    apply list_elem_of_fmap in Hd as ([k v] & -> & Hd). destruct (elem_of_due _ _ _ Hd) as [Hv _]. eauto. }
  assert (attempts_left (db <| pending_webhooks := q |>) = sum_of left_of (pending_webhooks db)) as Hl.
  { apply sum_of_sub.
    - intros id w' Hw'. destruct (Hsub _ _ Hw') as [w Hw]. exists w. split; [done|].
      unfold left_of. set_simpl. by rewrite <- (Hq _ _ Hw), Hw'.
    - intros id w Hw Hn. unfold left_of. set_simpl. by rewrite <- (Hq _ _ Hw), Hn. }
  assert (∀ id w, pending_webhooks db !! id = Some w → (left_of id w ≤ MAX_ATTEMPTS - pw_attempts w)%Z ∧
    (id ∈ (due db).*1 → left_of id w < MAX_ATTEMPTS - pw_attempts w)%Z) as Hle.
  { intros id w Hw. pose proof (Hok _ _ Hw). unfold left_of. case_decide; [|by split].
    destruct (outcome t db id w) as [w'|] eqn:Ho; [|lia]. apply outcome_Some in Ho as (-> & _). lia. }
  split; [|rewrite Hl; split].
  - intros id w' Hw'. set_simpl. destruct (Hsub _ _ Hw') as [w Hw]. pose proof (Hok _ _ Hw).
    rewrite (Hq _ _ Hw) in Hw'. case_decide; [|congruence]. apply outcome_Some in Hw' as (-> & ? & _). lia.
  - apply sum_of_le. intros id w Hw. by apply Hle.
  - intros Hd. destruct (due db) as [|[id w] rest] eqn:Hdue; [done|].
    destruct (elem_of_due db id w) as [Hw _]; [rewrite Hdue; left|].
    destruct (Hle _ _ Hw) as [_ Hlt]; [..|]. specialize (Hlt ltac:(left)).
    unfold attempts_left. rewrite (sum_of_delete _ _ _ _ Hw), (sum_of_delete _ (pending_webhooks db) _ _ Hw).
    apply Z.add_lt_le_mono; [done|]. apply sum_of_le. intros k v [_ Hv]%lookup_delete_Some. by apply Hle.
Qed.

(** ** Properties *)

(** Some row is ready at this time. *)
Definition ready db (now : Timestamp) : bool :=
  sel_exists (λ _ w, pw_next_attempt_at w <=? now)%Z (pending_webhooks db).

(** Ticks at any times with nothing queued in between, of which so many found
    a row ready. *)
Inductive draining : nat → Db → Db → Prop :=
| draining_done db : draining 0 db db
| draining_tick n t now db db1 db2 :
    run t (db <| db_now := now |>) = Ok (tt, db1) → draining n db1 db2 →
    draining (if ready db now then S n else n) db db2.

(** C29 A tick completes and decides every row it took up, at most a batch of
    ready ones, whatever Discord answers: a row is dropped when it is
    malformed, delivered or disabled, or on its eighth failure; otherwise it
    has one more attempt against it and is ready again after [2 ^ attempts]
    seconds, at most 128.  Nothing else changes. *)
Theorem run_spec t db :
  attempts_ok db →
  ∃ db', run t db = Ok (tt, db') ∧ queue_only db db' ∧ attempts_ok db' ∧
    (length (due db) ≤ BATCH)%nat ∧
    (∀ id w, (id, w) ∈ due db →
       pending_webhooks db !! id = Some w ∧ (pw_next_attempt_at w ≤ db_now db)%Z ∧
       pending_webhooks db' !! id = outcome t db id w ∧
       ∀ w', outcome t db id w = Some w' →
         (∃ event, from_value (pw_payload w) = Some event ∧ delivered t db id w event = false) ∧
         pw_attempts w' = (pw_attempts w + 1)%Z ∧
         (0 < pw_next_attempt_at w' - tk_done t id ≤ seconds 128)%Z) ∧
    ∀ id, id ∉ (due db).*1 → pending_webhooks db' !! id = pending_webhooks db !! id.
Proof.
  intros Hok. destruct (run_total t db) as (q & Hrun & Hin & Hout). eexists. split; [exact Hrun|].
  split; [exists q, (db_draws db); by destruct db|]. split; [by eapply run_left|].
  split; [unfold due; rewrite length_take; lia|]. split; [|exact Hout].
  intros id w Hd. destruct (elem_of_due _ _ _ Hd) as [Hw Hn]. split_and!; [done|done|by apply Hin|].
  intros w' (Ha & Hm & -> & He & _)%outcome_Some. split; [done|]. split; [done|].
  pose proof (Hok _ _ Hw). unfold delay_secs, seconds, MAX_ATTEMPTS in *.
  assert (2 ^ (pw_attempts w + 1) ≤ 2 ^ 7)%Z by (apply Z.pow_le_mono_r; lia).
  assert (0 < 2 ^ (pw_attempts w + 1))%Z by (apply Z.pow_pos_nonneg; lia). lia.
Qed.

(** C30 The outbox empties: whatever Discord answers, while nothing new is queued,
    once as many ticks have found a row ready as the rows had attempts left (at
    most eight each), no row is left.  Ticks that find none, because every row
    is backing off (128 seconds at most, [run_spec]), may come in between. *)
Theorem outbox_drains n db db' :
  attempts_ok db → draining n db db' → (attempts_left db ≤ Z.of_nat n)%Z →
  pending_webhooks db' = ∅ ∧ (attempts_left db ≤ MAX_ATTEMPTS * Z.of_nat (size (pending_webhooks db)))%Z.
Proof.
  intros Hok Hd Hlen. split.
  - induction Hd as [db|n t now db db1 db2 Hrun Hd IH].
    + apply map_empty. intros id. apply eq_None_not_Some. intros [w Hw].
      pose proof (Hok _ _ Hw). unfold attempts_left in Hlen. cbn in Hlen.
      rewrite (sum_of_delete _ _ _ _ Hw) in Hlen.
      assert (0 ≤ sum_of (λ (_ : Uuid) w, MAX_ATTEMPTS - pw_attempts w)
                     (delete id (pending_webhooks db)))%Z; [|lia].
      apply sum_of_nonneg. intros k v [_ Hv]%lookup_delete_Some. specialize (Hok _ _ Hv). lia.
    + set (db0 := db <| db_now := now |>) in *.
      destruct (run_left t db0 db1 Hok Hrun) as (Hok1 & Hle & Hlt). apply IH; [done|].
      change (attempts_left db0) with (attempts_left db) in *.
      destruct (ready db now) eqn:Hready; [|lia].
      apply sel_exists_true in Hready as (id & w & Hw & Hn%Z.leb_le).
      specialize (Hlt (due_nonempty db0 id w Hw Hn)). lia.
  - clear Hd Hlen. unfold attempts_left. revert Hok. unfold attempts_ok.
    generalize (pending_webhooks db). intros q. induction q as [|k w q Hk IH] using map_ind; intros Hok.
    { done. }
    rewrite sum_of_insert, map_size_insert_None by done.
    assert (0 ≤ pw_attempts w)%Z by (eapply (Hok k); by rewrite lookup_insert_eq).
    unshelve epose proof (IH _) as IH'; [|lia]. intros id v Hv. apply (Hok id).
    rewrite lookup_insert_ne by congruence. done.
Qed.
End Outbox.

(** ** Witnesses *)

Section Witnesses.
#[local] Existing Instance fixture_runtime.

Definition fixture_codec : EventCodec := Some.
#[local] Existing Instance fixture_codec.

(** Discord is down. *)
Definition fixture_tick : Tick := mkTick (λ _ _ _, Err "503") (λ _, 101%Z).

Definition outbox_row (attempts next_attempt_at : Z) : PendingWebhookRow :=
  mkPendingWebhookRow (RT := fixture_runtime) 10 (ListDelivered "Home" "Bob" : Value) 90 attempts
    next_attempt_at.

(** One event, ready, with six failures against it. *)
Definition outbox_db : Db :=
  base_db
    <| group_discord_webhooks := {[ 10%N :=
         mkWebhookRow "https://discord.com/api/webhooks/1/x" true true true true 1 1 ]} |>
    <| pending_webhooks := {[ 900%N := (outbox_row 6 100) ]} |>.

Lemma outbox_db_ok : attempts_ok outbox_db.
Proof.
  intros id w Hw. change (pending_webhooks outbox_db) with
    ({[ 900%N := (outbox_row 6 100) ]}
       : gmap Uuid PendingWebhookRow) in Hw.
  apply lookup_singleton_Some in Hw as [_ <-]. unfold MAX_ATTEMPTS. cbn. lia.
Qed.

Lemma run_spec_witness :
  ∃ db' w, run fixture_tick outbox_db = Ok (tt, db') ∧ pending_webhooks db' !! 900%N = Some w ∧
    pw_attempts w = 7%Z ∧ pw_next_attempt_at w = 128000101%Z.
Proof.
  destruct (run_spec fixture_tick outbox_db outbox_db_ok) as (db' & Hrun & _ & _ & _ & Hdue & _).
  assert ((900%N, outbox_row 6 100) ∈ due outbox_db) as Hin.
  { replace (due outbox_db) with [(900%N, outbox_row 6 100)]
      by (vm_compute; reflexivity). left. }
  destruct (Hdue _ _ Hin) as (_ & _ & Hq & _).
  exists db', (outbox_row 7 128000101).
  split; [exact Hrun|]. split; [|split; reflexivity].
  rewrite Hq. vm_compute. reflexivity.
Defined.

Lemma outbox_drains_witness :
  ∃ db', draining 2 outbox_db db' ∧ pending_webhooks db' = ∅.
Proof.
  run_concrete (run fixture_tick (outbox_db <| db_now := 100%Z |>)) u db1 H1. destruct u.
  destruct (run fixture_tick (db1 <| db_now := 200000000%Z |>)) as [[[] db2]|e] eqn:H2.
  2: { destruct (run_total fixture_tick (db1 <| db_now := 200000000%Z |>)) as (q & Hq & _).
       rewrite H2 in Hq. discriminate Hq. }
  assert (draining 2 outbox_db db2) as Hd.
  { assert (ready db1 200000000 = true) as Hr.
    { apply (run_reads (λ _ db, ready db 200000000) _ _ _ _ H1). vm_compute. reflexivity. }
    pose proof (draining_tick 0 fixture_tick 200000000 db1 db2 db2 H2 (draining_done db2)) as Hd.
    rewrite Hr in Hd. exact (draining_tick 1 fixture_tick 100 outbox_db db1 db2 H1 Hd). }
  exists db2. split; [exact Hd|].
  apply (outbox_drains 2 outbox_db db2 outbox_db_ok Hd).
  vm_compute. discriminate.
Defined.
End Witnesses.
