(* ===== verification/Budget.v ===== *)
(** * The ESI error budget

    [crates/auth-tokens/src/budget.rs]: the process-wide gauge of non-2xx
    answers the worker's jobs consult before they start a batch.  The atomic is
    a field of the state; each operation is one atomic access. *)

From Stdlib Require Import ZArith Lia.
From stdpp Require Import base tactics decidable list.
From S2P Require Import Prelude Effect.

Local Open Scope Z_scope.

Definition DEFAULT_CEILING : Z := 100.
Definition DEFAULT_DEFER_THRESHOLD : Z := 20.

Record EsiBudgetGuard := mkEsiBudgetGuard {
  remaining : Z;
  defer_threshold : Z;
  ceiling : Z
}.
#[export] Instance eta_EsiBudgetGuard : Settable EsiBudgetGuard := λ g,
  mkEsiBudgetGuard (remaining g) (defer_threshold g) (ceiling g).

Definition new (ceiling defer_threshold : Z) : EsiBudgetGuard :=
  mkEsiBudgetGuard ceiling defer_threshold ceiling.

Definition default : EsiBudgetGuard := new DEFAULT_CEILING DEFAULT_DEFER_THRESHOLD.

Definition has_budget (g : EsiBudgetGuard) : bool := defer_threshold g <=? remaining g.

(** [fetch_update] with [Some(v - 1)] when [v > 0]; [i16] arithmetic wraps. *)
Definition wrap_i16 (z : Z) : Z := (z + 2 ^ 15) `mod` 2 ^ 16 - 2 ^ 15.

Definition record_non_2xx (g : EsiBudgetGuard) : EsiBudgetGuard :=
  if 0 <? remaining g then g <| remaining := wrap_i16 (remaining g - 1) |> else g.

Definition reset (g : EsiBudgetGuard) : EsiBudgetGuard := g <| remaining := ceiling g |>.

Definition budgeted {T E} (fut : result E T) (g : EsiBudgetGuard) : result E T * EsiBudgetGuard :=
  match fut with
  | Ok v => (Ok v, g)
  | Err e => (Err e, record_non_2xx g)
  end.

(** ** Sequences of calls *)

Definition is_err {T E} (r : result E T) : bool := negb (is_ok r).

(** ESI calls made one after the other under the budget. *)
Definition calls {T E} (rs : list (result E T)) (g : EsiBudgetGuard) : EsiBudgetGuard :=
  foldl (λ g r, (budgeted r g).2) g rs.

Definition failures {T E} (rs : list (result E T)) : Z := Z.of_nat (length (List.filter is_err rs)).

Lemma record_spec g :
  0 ≤ remaining g ≤ i16_max →
  record_non_2xx g = g <| remaining := Z.max 0 (remaining g - 1) |>.
Proof.
  unfold record_non_2xx, i16_max, wrap_i16. intros Hr. destruct (0 <? remaining g) eqn:Hp.
  - apply Z.ltb_lt in Hp. rewrite Z.mod_small by lia. destruct g. unfold set. cbn in *. f_equal. lia.
  - apply Z.ltb_ge in Hp. destruct g. unfold set. cbn in *. f_equal. lia.
Qed.

Lemma calls_spec {T E} (rs : list (result E T)) g :
  0 ≤ remaining g ≤ i16_max →
  calls rs g = g <| remaining := Z.max 0 (remaining g - failures rs) |>.
Proof.
  unfold calls, failures. revert g. induction rs as [|r rs IH]; intros g Hg.
  - cbn. destruct g. unfold set. cbn in *. f_equal. lia.
  - cbn [foldl]. destruct r as [v|e]; cbn [budgeted snd].
    + rewrite IH by done. done.
    + rewrite record_spec by done.
      rewrite IH by (unfold set; cbn [remaining]; lia).
      cbn [List.filter is_err is_ok negb length]. rewrite Nat2Z.inj_succ.
      unfold set. cbn. f_equal. lia.
Qed.

(** From a fresh guard, whatever the calls answer, the gauge is the ceiling
    less the failures since the last reset, clamped at zero and never above
    the ceiling, without overflow of the [i16]; the guard defers a batch
    exactly once that many failures exceed the ceiling less the threshold, and
    a reset restores it. *)
Theorem budget_spec {T E} (before after : list (result E T)) (c threshold : Z) :
  0 ≤ c ≤ i16_max → 0 < threshold ≤ c →
  let g := calls after (reset (calls before (new c threshold))) in
  remaining g = Z.max 0 (c - failures after) ∧ 0 ≤ remaining g ≤ c ∧
  (has_budget g = true ↔ failures after ≤ c - threshold) ∧
  has_budget (reset g) = true.
Proof.
  intros Hc Ht. cbn zeta. rewrite (calls_spec before) by (cbn; lia).
  rewrite calls_spec by (unfold reset, set; cbn [remaining ceiling new]; lia).
  unfold has_budget, failures, reset, set. cbn [remaining defer_threshold new ceiling].
  rewrite !Z.leb_le. split_and!; lia.
Qed.

Lemma budget_spec_witness :
  let failed := repeat (Err tt : result unit unit) 81 in
  has_budget (calls failed (reset (calls [Ok tt : result unit unit] default))) = false.
Proof.
  cbn zeta.
  destruct (budget_spec [Ok tt : result unit unit] (repeat (Err tt : result unit unit) 81) 100 20) as (_ & _ & H & _);
    [vm_compute; by split|vm_compute; by split|].
  change default with (new 100 20). destruct (has_budget _); [|reflexivity].
  destruct (proj1 H eq_refl). reflexivity.
Defined.
