(* ===== verification/Cipher.v ===== *)
(** * Encryption of stored tokens

    [crates/auth-tokens/src/cipher.rs]: AES-GCM under a set of keys named by a
    key id, one of them primary.  The AEAD primitive, base64 and the random
    nonces come from third-party crates and are the class [Aead]; what the
    code relies on is [AeadLaws]: a sealed message opens under the same key,
    nonce and associated data, and messages up to the limit of the crate can
    be sealed. *)

From Stdlib Require Import ZArith Lia Ascii.
From stdpp Require Import base tactics decidable option list gmap strings.
From S2P Require Import Prelude Effect Schema Unicode.

Local Open Scope string_scope.

Abbreviation Bytes := (list Byte.byte) (only parsing).

(** [A_MAX] and [P_MAX] of the aes-gcm crate. *)
Definition aes_limit : Z := (2 ^ 36)%Z.

Class Aead := {
  (** [B64.decode]. *)
  b64_decode : Str → option Bytes;
  (** [Aes256Gcm::new(key).encrypt(nonce, Payload { msg, aad })]. *)
  aes_encrypt : Bytes → Bytes → Bytes → Bytes → option Bytes;
  (** [Aes256Gcm::new(key).decrypt(nonce, Payload { msg, aad })]. *)
  aes_decrypt : Bytes → Bytes → Bytes → Bytes → option Bytes;
  (** [Aes256Gcm::generate_nonce(&mut OsRng)], as the sequence of its results. *)
  generate_nonce : N → Bytes
}.

Class AeadLaws `{AE : Aead} : Prop := {
  aes_encrypt_total key nonce aad msg :
    (Z.of_nat (length msg) ≤ aes_limit)%Z → (Z.of_nat (length aad) ≤ aes_limit)%Z →
    is_Some (aes_encrypt key nonce aad msg);
  aes_decrypt_encrypt key nonce aad msg ct :
    aes_encrypt key nonce aad msg = Some ct → aes_decrypt key nonce aad ct = Some msg;
  aes_decrypt_bound key nonce aad ct msg :
    aes_decrypt key nonce aad ct = Some msg → (Z.of_nat (length msg) ≤ aes_limit)%Z;
  generate_nonce_length n : length (generate_nonce n) = 12
}.

(** The errors of the crate, one per message. *)
Inductive TokenError :=
| NoKeyConfigured
| KeysEmpty
| PrimaryMissing (primary : string)
| EmptyKid
| KeyNotBase64 (kid : string)
| KeyLength (kid : string) (got : nat)
| PrimaryPanic
| EncryptFailed
| NonceLength (got : nat)
| UnknownKid (kid : string)
| DecryptFailed (kid : string)
| CharacterNotFound (id : Uuid)
| NotUtf8 (what : string)
| ClientBuild
| ScanningStale
| PersistingRotated
| InContext (what : string) (id : Uuid) (e : TokenError)
| Token_Db (e : DbError).
#[export] Instance FromSql_TokenError : FromSql TokenError := Token_Db.

Record TokenEncConfig := mkTokenEncConfig {
  te_primary : string;
  te_keys : gmap string Str
}.

(** An [Aes256Gcm] is its key. *)
Record MultiKeyCipher := mkMultiKeyCipher {
  mk_keys : gmap string Bytes;
  mk_primary : string
}.

Definition LEGACY_KID : string := "v1".

Section Cipher.
Context `{AE : Aead}.

(** One turn of the loop over the configured keys. The buffer is zeroized,
    which empties it, before the error message measures it. *)
Definition add_key (keys : gmap string Bytes) (kid : string) (b64 : Str)
    : result TokenError (gmap string Bytes) :=
  if kid == "" then Err EmptyKid
  else match b64_decode (trim b64) with
       | None => Err (KeyNotBase64 kid)
       | Some raw =>
           if negb (length raw =? 32)%nat then Err (KeyLength kid (length (@nil Byte.byte)))
           else Ok (<[kid := raw]> keys)
       end.

Fixpoint add_keys (keys : gmap string Bytes) (configured : list (string * Str))
    : result TokenError (gmap string Bytes) :=
  match configured with
  | [] => Ok keys
  | (kid, b64) :: rest => keys ← add_key keys kid b64; add_keys keys rest
  end.

Definition from_keys (keys_b64 : gmap string Str) (primary : string)
    : result TokenError MultiKeyCipher :=
  if bool_decide (keys_b64 = ∅) then Err KeysEmpty
  else if is_none (keys_b64 !! primary) then Err (PrimaryMissing primary)
  else
    keys ← add_keys ∅ (map_to_list keys_b64);
    mret (mkMultiKeyCipher keys primary).

Definition from_legacy_b64 (key_b64 : Str) : result TokenError MultiKeyCipher :=
  from_keys {[ LEGACY_KID := key_b64 ]} LEGACY_KID.

Definition build_cipher (token_enc : option TokenEncConfig) (token_enc_key : option Str)
    : result TokenError MultiKeyCipher :=
  match token_enc, token_enc_key with
  | Some t, _ => from_keys (te_keys t) (te_primary t)
  | None, Some k => from_legacy_b64 k
  | None, None => Err NoKeyConfigured
  end.

Definition primary_kid (c : MultiKeyCipher) : string := mk_primary c.
Definition knows (c : MultiKeyCipher) (kid : string) : bool := negb (is_none (mk_keys c !! kid)).

Definition encrypt (c : MultiKeyCipher) (nonce plaintext aad : Bytes)
    : result TokenError (Bytes * Bytes * string) :=
  key ← ok_or PrimaryPanic (mk_keys c !! mk_primary c);
  ct ← ok_or EncryptFailed (aes_encrypt key nonce aad plaintext);
  mret (ct, nonce, mk_primary c).

Definition decrypt (c : MultiKeyCipher) (ciphertext nonce : Bytes) (kid : string) (aad : Bytes)
    : result TokenError Bytes :=
  if negb (length nonce =? 12)%nat then Err (NonceLength (length nonce))
  else
    key ← ok_or (UnknownKid kid) (mk_keys c !! kid);
    ok_or (DecryptFailed kid) (aes_decrypt key nonce aad ciphertext).

(** ** Construction *)

(** A cipher holds its primary key, and only 256-bit keys with an id. *)
Record cipher_ok (c : MultiKeyCipher) : Prop := {
  co_primary : is_Some (mk_keys c !! mk_primary c);
  co_keys : ∀ kid key, mk_keys c !! kid = Some key → kid ≠ "" ∧ length key = 32
}.

(** A usable entry of the configuration and the key it stands for. *)
Definition key_of (b64 : Str) : option Bytes :=
  raw ← b64_decode (trim b64); if (length raw =? 32)%nat then Some raw else None.

Definition usable (kid : string) (b64 : Str) : bool := negb (kid == "") && negb (is_none (key_of b64)).

Lemma add_key_spec keys kid b64 :
  match add_key keys kid b64 with
  | Ok keys' => usable kid b64 = true ∧ ∃ key, key_of b64 = Some key ∧ keys' = <[kid := key]> keys
  | Err _ => usable kid b64 = false
  end.
Proof.
  unfold add_key, usable, key_of. destruct (kid == "") eqn:Hk; [done|]. cbn.
  destruct (b64_decode (trim b64)) as [raw|]; [|done]. cbn.
  destruct (length raw =? 32)%nat; [|done]. cbn. eauto.
Qed.

Lemma add_keys_spec configured keys :
  match add_keys keys configured with
  | Ok keys' => Forall (λ kb, usable kb.1 kb.2 = true) configured ∧
      (NoDup configured.*1 → ∀ kid, keys' !! kid =
         match (list_to_map configured : gmap string Str) !! kid with
         | Some b64 => key_of b64 | None => keys !! kid end)
  | Err _ => ¬ Forall (λ kb, usable kb.1 kb.2 = true) configured
  end.
Proof.
  revert keys. induction configured as [|[kid b64] rest IH]; intros keys; [done|].
  cbn [add_keys]. unfold mbind, result_bind. pose proof (add_key_spec keys kid b64) as Ha.
  destruct (add_key keys kid b64) as [keys1|e];
    [|intros [Hu _]%Forall_cons; cbn in Hu; by rewrite Ha in Hu].
  destruct Ha as (Hu & key & Hkey & ->). specialize (IH (<[kid := key]> keys)).
  destruct (add_keys _ rest) as [keys'|e]; [|by intros [_ Hf]%Forall_cons].
  destruct IH as [Hf Hl]. split; [by constructor|]. cbn. intros [Hni Hnd]%NoDup_cons k.
  rewrite Hl by done. destruct (decide (k = kid)) as [->|Hne].
  - rewrite (not_elem_of_list_to_map_1 rest _ Hni).
    rewrite !lookup_insert_eq. done.
  - by rewrite !lookup_insert_ne.
Qed.

(** When construction succeeds, and what it builds. *)
Lemma from_keys_spec keys_b64 primary :
  match from_keys keys_b64 primary with
  | Ok c => is_Some (keys_b64 !! primary) ∧ (∀ kid b64, keys_b64 !! kid = Some b64 → usable kid b64 = true) ∧
      mk_primary c = primary ∧ ∀ kid, mk_keys c !! kid = (b64 ← keys_b64 !! kid; key_of b64)
  | Err _ => keys_b64 !! primary = None ∨
      ∃ kid b64, keys_b64 !! kid = Some b64 ∧ usable kid b64 = false
  end.
Proof.
  unfold from_keys. case_bool_decide as He; [subst; by left|].
  destruct (keys_b64 !! primary) as [pk|] eqn:Hp; cbn [is_none]; [|by left].
  unfold mbind at 1, result_bind. pose proof (add_keys_spec (map_to_list keys_b64) ∅) as Ha.
  destruct (add_keys _ _) as [keys|e].
  - destruct Ha as [Hf Hl]. split; [eauto|]. split.
    { intros kid b64 Hk. apply elem_of_map_to_list in Hk. rewrite Forall_forall in Hf. by apply (Hf (kid, b64)). }
    split; [done|]. intros kid. cbn. rewrite Hl by apply NoDup_fst_map_to_list.
    rewrite list_to_map_to_list. destruct (keys_b64 !! kid) as [b64|] eqn:Hk; [done|]. apply lookup_empty.
  - right. apply not_Forall_Exists in Ha; [|solve_decision]. apply Exists_exists in Ha as ([kid b64] & Hin & Hu).
    exists kid, b64. split; [by apply elem_of_map_to_list|]. cbn in Hu. by destruct (usable kid b64).
Qed.

Lemma from_keys_ok keys_b64 primary c : from_keys keys_b64 primary = Ok c → cipher_ok c.
Proof.
  intros Hc. pose proof (from_keys_spec keys_b64 primary) as H. rewrite Hc in H.
  destruct H as ([pk Hp] & Hu & <- & Hl). split.
  - rewrite Hl, Hp. cbn. specialize (Hu _ _ Hp). unfold usable in Hu.
    destruct (key_of pk); [eauto|]. by rewrite andb_false_r in Hu.
  - intros kid key. rewrite Hl. destruct (keys_b64 !! kid) as [b64|] eqn:Hk; [|done]. cbn.
    specialize (Hu _ _ Hk). unfold usable in Hu. apply andb_prop in Hu as [Hne _].
    unfold key_of. destruct (b64_decode _) as [raw|]; [|done]. cbn.
    destruct (length raw =? 32)%nat eqn:Hlen; [|done]. intros [= ->]. apply Nat.eqb_eq in Hlen.
    split; [|done]. intros ->. done.
Qed.

(** The configured keys and primary, if there are any. *)
Definition configured (token_enc : option TokenEncConfig) (token_enc_key : option Str)
    : option (gmap string Str * string) :=
  match token_enc, token_enc_key with
  | Some t, _ => Some (te_keys t, te_primary t)
  | None, Some k => Some ({[ LEGACY_KID := k ]}, LEGACY_KID)
  | None, None => None
  end.

(** C33 A cipher is built exactly when keys are configured, the primary is among
    them and each has an id and decodes to 256 bits; it then knows exactly the
    configured ids, its primary key is one of them, so encryption never
    panics, and an id outside them is an error of decryption. *)
Theorem build_cipher_typed token_enc token_enc_key :
  match build_cipher token_enc token_enc_key with
  | Ok c => ∃ keys, configured token_enc token_enc_key = Some (keys, primary_kid c) ∧
      (∀ kid b64, keys !! kid = Some b64 → usable kid b64 = true) ∧
      cipher_ok c ∧ (∀ kid, knows c kid = negb (is_none (keys !! kid))) ∧
      (∀ nonce pt aad, encrypt c nonce pt aad ≠ Err PrimaryPanic) ∧
      (∀ ct nonce kid aad, keys !! kid = None → is_ok (decrypt c ct nonce kid aad) = false)
  | Err _ => ∀ keys primary, configured token_enc token_enc_key = Some (keys, primary) →
      keys !! primary = None ∨ ∃ kid b64, keys !! kid = Some b64 ∧ usable kid b64 = false
  end.
Proof.
  assert (build_cipher token_enc token_enc_key =
    match configured token_enc token_enc_key with
    | Some (keys, primary) => from_keys keys primary
    | None => Err NoKeyConfigured
    end) as -> by by destruct token_enc, token_enc_key.
  destruct (configured _ _) as [[keys primary]|]; [|done].
  pose proof (from_keys_spec keys primary) as Hs. pose proof (from_keys_ok keys primary) as Hok.
  destruct (from_keys keys primary) as [c|e]; [|by intros ?? [= <- <-]].
  destruct Hs as (_ & Hu & <- & Hl). specialize (Hok c eq_refl). exists keys.
  assert (∀ kid, knows c kid = negb (is_none (keys !! kid))) as Hk.
  { intros kid. unfold knows. rewrite Hl. destruct (keys !! kid) as [b64|] eqn:Hb; [|done].
    specialize (Hu _ _ Hb). unfold usable in Hu. cbn. destruct (key_of b64); [done|].
    by rewrite andb_false_r in Hu. }
  split_and!; try done.
  - intros nonce pt aad. unfold encrypt. destruct (co_primary c Hok) as [key ->]. cbn.
    by destruct (aes_encrypt _ _ _ _).
  - intros ct nonce kid aad Hn. unfold decrypt. destruct (negb _); [done|].
    specialize (Hk kid). unfold knows in Hk. rewrite Hn in Hk. by destruct (mk_keys c !! kid).
Qed.

(** ** Round trip *)

Section Laws.
Context {AL : AeadLaws}.

Lemma encrypt_total c nonce pt aad :
  cipher_ok c → (Z.of_nat (length pt) ≤ aes_limit)%Z → (Z.of_nat (length aad) ≤ aes_limit)%Z →
  ∃ ct, encrypt c nonce pt aad = Ok (ct, nonce, mk_primary c).
Proof.
  intros [[key Hk] _] Hp Ha. unfold encrypt. rewrite Hk. cbn.
  destruct (aes_encrypt_total key nonce aad pt Hp Ha) as [ct ->]. cbn. eauto.
Qed.

(** Under any cipher that holds the same key by that name. *)
Lemma decrypt_encrypt c c' n pt aad ct nonce kid :
  encrypt c (generate_nonce n) pt aad = Ok (ct, nonce, kid) →
  mk_keys c' !! kid = mk_keys c !! kid →
  decrypt c' ct nonce kid aad = Ok pt.
Proof.
  unfold encrypt, decrypt, mbind, result_bind, mret, result_ret. intros He Hk.
  destruct (mk_keys c !! mk_primary c) as [key|] eqn:Hp; [|done]. cbn in He.
  destruct (aes_encrypt key _ aad pt) as [ct'|] eqn:Henc; [|done]. cbn in He.
  injection He as <- <- <-. rewrite generate_nonce_length, Hk, Hp. cbn.
  by rewrite (aes_decrypt_encrypt _ _ _ _ _ Henc).
Qed.

Lemma decrypt_bound c ct nonce kid aad pt :
  decrypt c ct nonce kid aad = Ok pt → (Z.of_nat (length pt) ≤ aes_limit)%Z.
Proof.
  unfold decrypt, mbind, result_bind. destruct (negb _); [done|].
  destruct (mk_keys c !! kid) as [key|]; [|done]. cbn.
  destruct (aes_decrypt key nonce aad ct) eqn:Hd; [|done]. intros [= <-]. by eapply aes_decrypt_bound.
Qed.
End Laws.
End Cipher.
