(* ===== verification/Tokens.v ===== *)
(** * The token store

    [crates/auth-tokens/src/store.rs] and the sweep of
    [crates/worker/src/jobs/token_reencrypt.rs]: tokens at rest in
    [characters], the per-character clients that use them and the rewriting of
    rows under the primary key.  An [EsiClient] is the tokens it holds; the
    refresh it makes on its own is a step of the environment. *)

From Stdlib Require Import ZArith Lia Ascii.
From stdpp Require Import base tactics decidable option list gmap strings sorting.
From S2P Require Import Prelude Effect Host Schema Fixtures Unicode Market Detail Cipher.

Local Open Scope string_scope.
Local Open Scope list_scope.

(** ** Bytes *)

Definition as_bytes (s : string) : Bytes := String.list_byte_of_string s.

Definition byte_of_Z (z : Z) : Byte.byte :=
  default Byte.x00 (Byte.of_N (Z.to_N (z `mod` 256))).

(** [i64::to_be_bytes]. *)
Definition to_be_bytes (z : Z) : Bytes :=
  (λ k, byte_of_Z (Z.shiftr z (8 * k))) <$> [7; 6; 5; 4; 3; 2; 1; 0]%Z.

Definition between (lo hi : N) (b : Byte.byte) : bool :=
  (lo <=? Byte.to_N b)%N && (Byte.to_N b <=? hi)%N.
Definition tail_byte : Byte.byte → bool := between 0x80 0xBF.

(** Well-formed UTF-8, as [str::from_utf8] checks it: no overlong form, no
    surrogate, nothing above U+10FFFF. *)
Fixpoint utf8_valid (bs : Bytes) : bool :=
  match bs with
  | [] => true
  | b0 :: r0 =>
      if between 0 0x7F b0 then utf8_valid r0
      else match r0 with
      | [] => false
      | b1 :: r1 =>
          if between 0xC2 0xDF b0 then tail_byte b1 && utf8_valid r1
          else match r1 with
          | [] => false
          | b2 :: r2 =>
              if between 0xE0 0xEF b0 then
                between (if between 0xE0 0xE0 b0 then 0xA0 else 0x80)
                        (if between 0xED 0xED b0 then 0x9F else 0xBF) b1
                && tail_byte b2 && utf8_valid r2
              else match r2 with
              | [] => false
              | b3 :: r3 =>
                  between 0xF0 0xF4 b0
                  && between (if between 0xF0 0xF0 b0 then 0x90 else 0x80)
                             (if between 0xF4 0xF4 b0 then 0x8F else 0xBF) b1
                  && tail_byte b2 && tail_byte b3 && utf8_valid r3
              end
          end
      end
  end.

Definition from_utf8 (bs : Bytes) : option string :=
  if utf8_valid bs then Some (String.string_of_list_byte bs) else None.

(** ** State *)

Record LoadedTokens := mkLoadedTokens {
  lt_refresh_token : string;
  lt_access_token : option string;
  lt_access_token_expires_at : option Timestamp;
  lt_eve_character_id : Z
}.

Record EsiTokens := mkEsiTokens {
  et_access_token : string;
  et_refresh_token : string;
  et_expires_at : Timestamp
}.

Record CachedClient := mkCachedClient {
  cc_tokens : option EsiTokens;
  cc_last_refresh_hash : Z;
  cc_eve_character_id : Z
}.
#[export] Instance eta_CachedClient : Settable CachedClient := λ c,
  mkCachedClient (cc_tokens c) (cc_last_refresh_hash c) (cc_eve_character_id c).

Record ReencryptOutcome := mkReencryptOutcome { scanned : nat; rewritten : nat }.

(** The process's hash of a secret, and the construction of a client. *)
Class EsiAuth := {
  (** [u64::from_le_bytes(blake3::hash(s)[..8])]. *)
  blake3_u64 : Bytes → Z;
  (** Whether [EsiClient::with_web_app] accepts the configured credentials. *)
  with_web_app : bool
}.

Section Store.
Context `{RT : Runtime} {AE : Aead} {EA : EsiAuth}.

Definition aad_of (eve_character_id : Z) : Bytes := to_be_bytes eve_character_id.

(** The database, and how many nonces have been drawn. *)
Record Vault := mkVault { v_db : Db; v_draws : N }.
#[local] Instance eta_Vault : Settable Vault := λ v, mkVault (v_db v) (v_draws v).

Definition VM (A : Type) : Type := M Vault TokenError A.

Definition os_rng : VM Bytes := λ v, Ok (generate_nonce (v_draws v), v <| v_draws ::= N.succ |>).

Definition with_context {A} (what : string) (id : Uuid) (r : result TokenError A)
    : result TokenError A :=
  match r with Ok a => Ok a | Err e => Err (InContext what id e) end.

Definition seal (c : MultiKeyCipher) (pt aad : Bytes) : VM (Bytes * Bytes * string) :=
  nonce ← os_rng; of_result (encrypt c nonce pt aad).

(** ** [reencrypt_stale] *)

Definition older_refresh (a b : Uuid * CharacterRow) : bool :=
  match ch_last_refreshed_at a.2, ch_last_refreshed_at b.2 with
  | None, _ => true
  | Some _, None => false
  | Some x, Some y => (x <=? y)%Z
  end.

(** [WHERE token_key_id != $1 ORDER BY last_refreshed_at NULLS FIRST LIMIT $2
    FOR UPDATE SKIP LOCKED]; [locked] are the rows other workers hold. *)
Definition stale_rows (c : MultiKeyCipher) (db : Db) : list (Uuid * CharacterRow) :=
  select_where (λ _ ch, negb (ch_token_key_id ch == primary_kid c)) (characters db).

Definition stale_batch (c : MultiKeyCipher) (locked : Uuid → bool) (batch_size : Z) (db : Db)
    : list (Uuid * CharacterRow) :=
  take (Z.to_nat batch_size)
    (List.filter (λ r, negb (locked r.1)) (sort_by older_refresh (stale_rows c db))).

(** The [UPDATE ... WHERE id = $6 AND token_key_id = $7]. *)
Definition rekey (id : Uuid) (old_kid kid : string) (rt_ct rt_nonce : Bytes)
    (at_ct at_nonce : option Bytes) : VM nat := λ v,
  let matches k ch := (k == id) && (ch_token_key_id ch == old_kid) in
  Ok (length (select_where matches (characters (v_db v))),
      v <| v_db ::= λ db, db <| characters ::= update_where matches (λ ch, ch
             <| ch_refresh_token_ciphertext := rt_ct |> <| ch_refresh_token_nonce := rt_nonce |>
             <| ch_access_token_ciphertext := at_ct |> <| ch_access_token_nonce := at_nonce |>
             <| ch_token_key_id := kid |>) |> |>).

Definition reseal_access (c : MultiKeyCipher) (id : Uuid) (row : CharacterRow) (aad : Bytes)
    : VM (option Bytes * option Bytes) :=
  match ch_access_token_ciphertext row, ch_access_token_nonce row with
  | Some ct, Some nonce =>
      pt ← of_result (with_context "decrypting access token for character" id
             (decrypt c ct nonce (ch_token_key_id row) aad));
      sealed ← seal c pt aad;
      let '(ct, nonce, _) := sealed in
      mret (Some ct, Some nonce)
  | _, _ => mret (None, None)
  end.

Definition reencrypt_row (c : MultiKeyCipher) (rewritten : nat) (r : Uuid * CharacterRow) : VM nat :=
  let '(id, row) := r in
  let aad := aad_of (ch_character_id row) in
  rt_pt ← of_result (with_context "decrypting refresh token for character" id
            (decrypt c (ch_refresh_token_ciphertext row) (ch_refresh_token_nonce row)
               (ch_token_key_id row) aad));
  sealed ← seal c rt_pt aad;
  let '(rt_ct, rt_nonce, _) := sealed in
  access ← reseal_access c id row aad;
  affected ← rekey id (ch_token_key_id row) (primary_kid c) rt_ct rt_nonce access.1 access.2;
  mret (if (affected =? 1)%nat then S rewritten else rewritten).

Definition reencrypt_body (c : MultiKeyCipher) (locked : Uuid → bool) (batch_size : Z)
    : VM ReencryptOutcome :=
  _ ← ensure (0 <=? batch_size)%Z ScanningStale;
  stale ← reads (λ v, stale_batch c locked batch_size (v_db v));
  rewritten ← fold_each (reencrypt_row c) stale 0%nat;
  mret (mkReencryptOutcome (length stale) rewritten).

(** The whole batch is one transaction. *)
Definition reencrypt_stale (c : MultiKeyCipher) (locked : Uuid → bool) (batch_size : Z) (v : Vault)
    : result TokenError ReencryptOutcome * Vault :=
  match reencrypt_body c locked batch_size v with
  | Ok (o, v') => (Ok o, v')
  | Err e => (Err e, v)
  end.

Definition SWEEP_BATCH : Z := 100.

(** [token_reencrypt::run]. *)
Definition token_reencrypt (c : MultiKeyCipher) (locked : Uuid → bool) (v : Vault)
    : result TokenError unit * Vault :=
  let '(r, v') := reencrypt_stale c locked SWEEP_BATCH v in (_ ← r; mret tt, v').

(** ** [CharacterTokenStore] *)

Record Store := mkStore {
  st_vault : Vault;
  st_cipher : MultiKeyCipher;
  st_clients : gmap Uuid CachedClient
}.
#[local] Instance eta_Store : Settable Store := λ s,
  mkStore (st_vault s) (st_cipher s) (st_clients s).

Definition hash_secret (s : string) : Z := blake3_u64 (as_bytes s).

Definition load_tokens (c : MultiKeyCipher) (db : Db) (character_id : Uuid)
    : result TokenError LoadedTokens :=
  row ← ok_or (CharacterNotFound character_id) (characters db !! character_id);
  let aad := aad_of (ch_character_id row) in
  refresh_pt ← decrypt c (ch_refresh_token_ciphertext row) (ch_refresh_token_nonce row)
                 (ch_token_key_id row) aad;
  refresh_token ← ok_or (NotUtf8 "refresh token") (from_utf8 refresh_pt);
  access_token ←
    match ch_access_token_ciphertext row, ch_access_token_nonce row with
    | Some ct, Some nonce =>
        pt ← decrypt c ct nonce (ch_token_key_id row) aad;
        t ← ok_or (NotUtf8 "access token") (from_utf8 pt);
        mret (Some t)
    | _, _ => mret None
    end;
  mret (mkLoadedTokens refresh_token access_token (ch_access_token_expires_at row)
          (ch_character_id row)).

(** The tokens a client starts with: an empty, expired access token when none
    is stored, so that the first call refreshes. *)
Definition initial_tokens (now : Timestamp) (row : LoadedTokens) : EsiTokens :=
  mkEsiTokens (default "" (lt_access_token row)) (lt_refresh_token row)
    (default (now - seconds 1)%Z (lt_access_token_expires_at row)).

Definition authed_client_for (character_id : Uuid) (s : Store)
    : result TokenError CachedClient * Store :=
  match load_tokens (st_cipher s) (v_db (st_vault s)) character_id with
  | Err e => (Err e, s)
  | Ok row =>
      let known := hash_secret (lt_refresh_token row) in
      let rebuild s :=
        if negb with_web_app then (Err ClientBuild, s)
        else
          let cached := mkCachedClient
            (Some (initial_tokens (db_utc_now (v_db (st_vault s))) row)) known
            (lt_eve_character_id row) in
          (Ok cached, s <| st_clients ::= <[character_id := cached]> |>) in
      match st_clients s !! character_id with
      | Some entry =>
          if bool_decide (known = cc_last_refresh_hash entry) then (Ok entry, s)
          else rebuild (s <| st_clients ::= delete character_id |>)
      | None => rebuild s
      end
  end.

(** The [UPDATE] of [persist_rotations]. *)
Definition rotated_row (now : Timestamp) (rt at_ : Bytes * Bytes * string) (expires_at : Timestamp)
    (ch : CharacterRow) : CharacterRow := ch
  <| ch_refresh_token_ciphertext := rt.1.1 |> <| ch_refresh_token_nonce := rt.1.2 |>
  <| ch_access_token_ciphertext := Some at_.1.1 |> <| ch_access_token_nonce := Some at_.1.2 |>
  <| ch_access_token_expires_at := Some expires_at |> <| ch_last_refreshed_at := Some now |>
  <| ch_token_key_id := rt.2 |>.

Definition store_rotated (id : Uuid) (rt at_ : Bytes * Bytes * string) (expires_at : Timestamp)
    (db : Db) : Db :=
  db <| characters ::= update_where (λ k _, k == id) (rotated_row (db_now db) rt at_ expires_at) |>.

(** What follows the hash comparison; [pool_ok] is whether the statement
    reaches the database. *)
Definition write_rotation (pool_ok : bool) (c : MultiKeyCipher) (id : Uuid) (eve : Z)
    (tokens : EsiTokens) : VM unit :=
  let aad := aad_of eve in
  rt ← seal c (as_bytes (et_refresh_token tokens)) aad;
  at_ ← seal c (as_bytes (et_access_token tokens)) aad;
  _ ← ensure pool_ok PersistingRotated;
  modify (λ v, v <| v_db ::= store_rotated id rt at_ (et_expires_at tokens) |>).

Definition persist_rotations (pool_ok : bool) (character_id : Uuid) (s : Store)
    : result TokenError unit * Store :=
  match st_clients s !! character_id with
  | None => (Ok tt, s)
  | Some entry =>
      match cc_tokens entry with
      | None => (Ok tt, s)
      | Some tokens =>
          let new_hash := hash_secret (et_refresh_token tokens) in
          let prior := cc_last_refresh_hash entry in
          let s := s <| st_clients ::= <[character_id :=
                       entry <| cc_last_refresh_hash := new_hash |>]> |> in
          if bool_decide (prior = new_hash) then (Ok tt, s)
          else
            match write_rotation pool_ok (st_cipher s) character_id (cc_eve_character_id entry)
                    tokens (st_vault s) with
            | Ok (_, v) => (Ok tt, s <| st_vault := v |>)
            | Err e => (Err e, s)
            end
      end
  end.

(** The client refreshes its tokens. *)
Definition client_refreshed (character_id : Uuid) (tokens : EsiTokens) (s : Store) : Store :=
  s <| st_clients ::= alter (λ e, e <| cc_tokens := Some tokens |>) character_id |>.

Lemma select_where_one {K V} `{Countable K} (P : K → V → bool) (t : gmap K V) k v :
  t !! k = Some v → P k v = true → (∀ j w, P j w = true → j = k) → select_where P t = [(k, v)].
Proof.
  intros Hk HP Hj. assert ((k, v) ∈ select_where P t) as Hin by by apply elem_of_select_where.
  pose proof (NoDup_select_where P t) as Hnd.
  assert (∀ x, x ∈ select_where P t → x = (k, v)) as Hall.
  { intros [j w] [Hw HPw]%elem_of_select_where. rewrite (Hj _ _ HPw) in *. congruence. }
  destruct (select_where P t) as [|x [|y rest]]; [set_solver| |].
  - by rewrite (Hall x ltac:(left)).
  - rewrite (Hall x ltac:(left)), (Hall y ltac:(right; left)) in Hnd. cbn in Hnd.
    apply NoDup_cons in Hnd as [Hn _]. destruct Hn. left.
Qed.

(** ** What a row holds *)

(** The plaintexts of a row, as [load_tokens] and the sweep decrypt them. *)
Definition open_row (c : MultiKeyCipher) (row : CharacterRow)
    : result TokenError (Bytes * option Bytes) :=
  let aad := aad_of (ch_character_id row) in
  rt ← decrypt c (ch_refresh_token_ciphertext row) (ch_refresh_token_nonce row)
         (ch_token_key_id row) aad;
  access ←
    match ch_access_token_ciphertext row, ch_access_token_nonce row with
    | Some ct, Some nonce => pt ← decrypt c ct nonce (ch_token_key_id row) aad; mret (Some pt)
    | _, _ => mret None
    end;
  mret (rt, access).

(** A row but for how its tokens are stored. *)
Definition untokened (row : CharacterRow) : CharacterRow := row
  <| ch_refresh_token_ciphertext := [] |> <| ch_refresh_token_nonce := [] |>
  <| ch_access_token_ciphertext := None |> <| ch_access_token_nonce := None |>
  <| ch_token_key_id := "" |>.
Definition same_character (row row' : CharacterRow) : Prop := untokened row = untokened row'.

(** [row'] stores [row]'s tokens under the primary key: it needs no other. *)
Record resealed (c : MultiKeyCipher) (pts : Bytes * option Bytes) (row row' : CharacterRow) : Prop := {
  rs_same : same_character row row';
  rs_kid : ch_token_key_id row' = primary_kid c;
  rs_open c' : mk_keys c' !! primary_kid c = mk_keys c !! primary_kid c → open_row c' row' = Ok pts
}.

Section Laws.
Context {AL : AeadLaws}.

Lemma aad_bound z : (Z.of_nat (length (aad_of z)) ≤ aes_limit)%Z.
Proof. unfold aad_of, to_be_bytes. rewrite length_fmap. done. Qed.

Lemma seal_run c pt eve v :
  cipher_ok c → (Z.of_nat (length pt) ≤ aes_limit)%Z →
  ∃ ct, seal c pt (aad_of eve) v =
      Ok ((ct, generate_nonce (v_draws v), primary_kid c), v <| v_draws ::= N.succ |>) ∧
    ∀ c', mk_keys c' !! primary_kid c = mk_keys c !! primary_kid c →
      decrypt c' ct (generate_nonce (v_draws v)) (primary_kid c) (aad_of eve) = Ok pt.
Proof.
  intros Hc Hpt. destruct (encrypt_total c (generate_nonce (v_draws v)) pt (aad_of eve) Hc Hpt (aad_bound _))
    as [ct Hct].
  exists ct. split; [|intros c' Hk; by eapply decrypt_encrypt].
  unfold seal, mbind, M_bind, os_rng. by rewrite Hct.
Qed.

Lemma open_row_inv c row rt access :
  open_row c row = Ok (rt, access) →
  decrypt c (ch_refresh_token_ciphertext row) (ch_refresh_token_nonce row) (ch_token_key_id row)
    (aad_of (ch_character_id row)) = Ok rt ∧
  match ch_access_token_ciphertext row, ch_access_token_nonce row with
  | Some ct, Some nonce => ∃ pt, access = Some pt ∧
      decrypt c ct nonce (ch_token_key_id row) (aad_of (ch_character_id row)) = Ok pt
  | _, _ => access = None
  end.
Proof.
  unfold open_row, mbind, result_bind, mret, result_ret. destruct (decrypt c _ _ _ _) as [rt'|]; [|done].
  destruct (ch_access_token_ciphertext row) as [ct|], (ch_access_token_nonce row) as [nonce|];
    try (intros [= <- <-]; done).
  destruct (decrypt c ct nonce _ _) as [pt|]; [|done]. intros [= <- <-]. eauto.
Qed.

Lemma reseal_access_run c id row rt access v :
  cipher_ok c → open_row c row = Ok (rt, access) →
  ∃ at_ct at_nonce d,
    reseal_access c id row (aad_of (ch_character_id row)) v = Ok ((at_ct, at_nonce), mkVault (v_db v) d) ∧
    match access with
    | None => at_ct = None ∧ at_nonce = None
    | Some pt => ∃ ct nonce, at_ct = Some ct ∧ at_nonce = Some nonce ∧
        ∀ c', mk_keys c' !! primary_kid c = mk_keys c !! primary_kid c →
          decrypt c' ct nonce (primary_kid c) (aad_of (ch_character_id row)) = Ok pt
    end.
Proof.
  intros Hc Ho. apply open_row_inv in Ho as [_ Ho]. unfold reseal_access.
  destruct (ch_access_token_ciphertext row) as [ct|], (ch_access_token_nonce row) as [nonce|];
    try (subst access; exists None, None, (v_draws v); by destruct v).
  destruct Ho as (pt & -> & Hd). unfold mbind, M_bind. rewrite Hd. cbn [with_context of_result mret M_ret].
  destruct (seal_run c pt (ch_character_id row) v Hc) as (ct' & Hs & Hopen); [by eapply decrypt_bound|].
  unfold mret, M_ret. rewrite Hs. eexists _, _, _. split; [done|]. eauto.
Qed.

Lemma rekey_run id row kid rt_ct rt_nonce at_ct at_nonce v :
  characters (v_db v) !! id = Some row →
  rekey id (ch_token_key_id row) kid rt_ct rt_nonce at_ct at_nonce v =
    Ok (1, mkVault (v_db v <| characters ::= <[id := row
             <| ch_refresh_token_ciphertext := rt_ct |> <| ch_refresh_token_nonce := rt_nonce |>
             <| ch_access_token_ciphertext := at_ct |> <| ch_access_token_nonce := at_nonce |>
             <| ch_token_key_id := kid |>]> |>) (v_draws v)).
Proof.
  intros Hrow. unfold rekey. rewrite (select_where_one _ _ id row).
  - cbn [length]. f_equal. f_equal. destruct v as [db d]. unfold set. cbn in *. f_equal. f_equal.
    apply map_eq. intros k. rewrite lookup_update_where. destruct (decide (k = id)) as [->|Hk].
    + rewrite Hrow, lookup_insert_eq. cbn. by rewrite !bool_decide_eq_true_2 by done.
    + rewrite lookup_insert_ne by done. rewrite bool_decide_eq_false_2 by done. by destruct (_ !! k).
  - done.
  - by rewrite !bool_decide_eq_true_2 by done.
  - intros k w Hkw. by apply andb_prop in Hkw as [?%bool_decide_eq_true_1 _].
Qed.

(** One turn of the loop on a row that can be read. *)
Lemma reencrypt_row_run c n id row pts v :
  cipher_ok c → characters (v_db v) !! id = Some row → open_row c row = Ok pts →
  ∃ row' d, reencrypt_row c n (id, row) v =
      Ok (S n, mkVault (v_db v <| characters ::= <[id := row']> |>) d) ∧
    resealed c pts row row'.
Proof.
  intros Hc Hrow Ho. destruct pts as [rt access]. pose proof Ho as [Hrt _]%open_row_inv.
  destruct (seal_run c rt (ch_character_id row) v Hc) as (rt_ct & Hseal & Hrt'); [by eapply decrypt_bound|].
  destruct (reseal_access_run c id row rt access (v <| v_draws ::= N.succ |>) Hc Ho)
    as (at_ct & at_nonce & d & Hre & Hat).
  eexists _, d. split.
  - unfold reencrypt_row, mbind, M_bind. rewrite Hrt. cbn [with_context of_result]. unfold mret, M_ret.
    rewrite Hseal. rewrite Hre. cbn [fst snd]. rewrite rekey_run by done. done.
  - split; [by destruct row|done|]. intros c' Hk. unfold open_row, set. cbn. rewrite Hrt' by done. cbn.
    destruct access as [pt|]; [|by destruct Hat as [-> ->]].
    destruct Hat as (ct & nonce & -> & -> & Hat). cbn. by rewrite Hat.
Qed.

(** Rows that are still as they were read. *)
Definition present (rows : list (Uuid * CharacterRow)) (db : Db) : Prop :=
  ∀ id row, (id, row) ∈ rows → characters db !! id = Some row.

Lemma reencrypt_rows_run c rows n v :
  cipher_ok c → NoDup rows.*1 → present rows (v_db v) →
  (∀ id row, (id, row) ∈ rows → is_ok (open_row c row) = true) →
  ∃ cs d, fold_each (reencrypt_row c) rows n v =
      Ok (n + length rows, mkVault (v_db v <| characters := cs |>) d) ∧
    (∀ id row, (id, row) ∈ rows → ∃ row' pts,
       cs !! id = Some row' ∧ open_row c row = Ok pts ∧ resealed c pts row row') ∧
    ∀ id, id ∉ rows.*1 → cs !! id = characters (v_db v) !! id.
Proof.
  intros Hc. revert n v. induction rows as [|[id row] rows IH]; intros n v Hnd Hp Hopen.
  { exists (characters (v_db v)), (v_draws v). rewrite Nat.add_0_r. split; [by destruct v as [[] ?]|].
    split; [set_solver|done]. }
  cbn in Hnd. apply NoDup_cons in Hnd as [Hni Hnd].
  destruct (is_ok_run _ (Hopen id row ltac:(left))) as [pts Hpts].
  destruct (reencrypt_row_run c n id row pts v Hc (Hp id row ltac:(left)) Hpts) as (row' & d & Hrun & Hrs).
  set (v1 := mkVault _ d) in Hrun.
  assert (∀ k, k ≠ id → characters (v_db v1) !! k = characters (v_db v) !! k) as Hother.
  { intros k Hk. unfold v1. cbn. set_simpl. by rewrite lookup_insert_ne. }
  destruct (IH (S n) v1 Hnd) as (cs & d' & Hrest & Hin & Hout).
  { intros k w Hkw. rewrite Hother; [apply Hp; by right|]. intros ->. apply Hni. by apply (list_elem_of_fmap_2 fst) in Hkw. }
  { intros k w Hkw. apply (Hopen k). by right. }
  exists cs, d'. split; [|split].
  - cbn [fold_each]. unfold mbind, M_bind. rewrite Hrun, Hrest. cbn [length]. rewrite Nat.add_succ_r. by destruct v as [[] ?].
  - intros k w [[= -> ->]|Hkw]%elem_of_cons; [|by apply Hin].
    exists row', pts. rewrite Hout by done. unfold v1. cbn. set_simpl. by rewrite lookup_insert_eq.
  - intros k [Hne Hk]%not_elem_of_cons. rewrite Hout by done. by apply Hother.
Qed.

Lemma elem_of_stale_batch c locked n db id row :
  (id, row) ∈ stale_batch c locked n db →
  characters db !! id = Some row ∧ ch_token_key_id row ≠ primary_kid c ∧ locked id = false.
Proof.
  unfold stale_batch. intros Hin. apply elem_of_take in Hin as (i & Hi & _).
  apply list_elem_of_lookup_2, list_elem_of_In, filter_In in Hi as [Hs Hl].
  apply list_elem_of_In, elem_of_sort_by, elem_of_select_where in Hs as [Hrow Hk]. cbn in *.
  bool_simpl. by destruct (locked id).
Qed.

Lemma sublist_filter {A} (f : A → bool) (l : list A) : List.filter f l `sublist_of` l.
Proof. induction l as [|x l IH]; cbn; [done|]. destruct (f x); [by apply sublist_skip|by apply sublist_cons]. Qed.

Lemma filter_all {A} (f : A → bool) (l : list A) : (∀ x, f x = true) → List.filter f l = l.
Proof. intros Hf. induction l as [|x l IH]; cbn; [done|]. by rewrite Hf, IH. Qed.

Lemma NoDup_stale c db : NoDup (sort_by older_refresh (stale_rows c db)).*1.
Proof. unfold sort_by. rewrite merge_sort_Permutation. apply NoDup_select_where. Qed.

Lemma NoDup_stale_batch c locked n db : NoDup (stale_batch c locked n db).*1.
Proof.
  eapply sublist_NoDup; [|apply fmap_sublist, (sublist_take _ (Z.to_nat n))].
  eapply sublist_NoDup; [apply (NoDup_stale c db)|apply fmap_sublist, sublist_filter].
Qed.

(** ** A sweep *)

(** [db'] is [db] with the same characters holding the same tokens. *)
Definition kept (c : MultiKeyCipher) (db db' : Db) : Prop :=
  db' = db <| characters := characters db' |> ∧
  ∀ id, match characters db !! id, characters db' !! id with
        | Some row, Some row' => same_character row row' ∧ open_row c row' = open_row c row
        | None, None => True
        | _, _ => False
        end.

Definition readable (c : MultiKeyCipher) (db : Db) : Prop :=
  ∀ id row, characters db !! id = Some row → is_ok (open_row c row) = true.

Lemma same_character_refl row : same_character row row.
Proof. by destruct row. Qed.

Lemma kept_refl c db : kept c db db.
Proof.
  split; [by destruct db|]. intros id. destruct (_ !! id); [|done]. split; [apply same_character_refl|done].
Qed.

Lemma kept_trans c db1 db2 db3 : kept c db1 db2 → kept c db2 db3 → kept c db1 db3.
Proof.
  intros [E1 H1] [E2 H2]. split.
  - rewrite E2, E1. by destruct db1.
  - intros id. specialize (H1 id). specialize (H2 id).
    destruct (characters db1 !! id) as [r1|], (characters db2 !! id) as [r2|],
      (characters db3 !! id) as [r3|]; try done.
    destruct H1 as [S1 O1]. destruct H2 as [S2 O2]. split; [|congruence].
    by transitivity (untokened r2).
Qed.

Lemma kept_readable c db db' : kept c db db' → readable c db → readable c db'.
Proof.
  intros [_ Hk] Hr id row' Hrow'. specialize (Hk id). rewrite Hrow' in Hk.
  destruct (characters db !! id) as [row|] eqn:Hrow; [|done]. destruct Hk as [_ ->]. by eapply Hr.
Qed.

Lemma reencrypt_run c locked n v :
  cipher_ok c → (0 ≤ n)%Z →
  (∀ id row, (id, row) ∈ stale_batch c locked n (v_db v) → is_ok (open_row c row) = true) →
  ∃ v', reencrypt_stale c locked n v =
      (Ok (mkReencryptOutcome (length (stale_batch c locked n (v_db v)))
             (length (stale_batch c locked n (v_db v)))), v') ∧
    v_db v' = v_db v <| characters := characters (v_db v') |> ∧
    (∀ id row, (id, row) ∈ stale_batch c locked n (v_db v) → ∃ row' pts,
       characters (v_db v') !! id = Some row' ∧ open_row c row = Ok pts ∧ resealed c pts row row') ∧
    ∀ id, id ∉ (stale_batch c locked n (v_db v)).*1 →
      characters (v_db v') !! id = characters (v_db v) !! id.
Proof.
  intros Hc Hn Hopen.
  destruct (reencrypt_rows_run c (stale_batch c locked n (v_db v)) 0 v Hc (NoDup_stale_batch _ _ _ _))
    as (cs & d & Hrun & Hin & Hout); [by intros ?? (? & _)%elem_of_stale_batch|done|].
  exists (mkVault (v_db v <| characters := cs |>) d).
  split; [|split; [done|split; [exact Hin|exact Hout]]].
  unfold reencrypt_stale, reencrypt_body, mbind, M_bind, reads, ensure.
  apply Z.leb_le in Hn as ->. unfold mret, M_ret. rewrite Hrun. done.
Qed.

Lemma reencrypt_kept c locked n v :
  cipher_ok c → (0 ≤ n)%Z →
  (∀ id row, (id, row) ∈ stale_batch c locked n (v_db v) → is_ok (open_row c row) = true) →
  kept c (v_db v) (v_db (reencrypt_stale c locked n v).2).
Proof.
  intros Hc Hn Hopen. destruct (reencrypt_run c locked n v Hc Hn Hopen) as (v' & -> & He & Hin & Hout).
  split; [done|]. intros id. cbn. destruct (decide (id ∈ (stale_batch c locked n (v_db v)).*1)) as [Hb|Hb].
  - apply list_elem_of_fmap in Hb as ([k row] & -> & Hb). cbn.
    destruct (Hin _ _ Hb) as (row' & pts & -> & Ho & Hs). apply elem_of_stale_batch in Hb as (-> & _).
    split; [apply Hs|]. rewrite Ho. by apply (rs_open _ _ _ _ Hs).
  - rewrite (Hout id Hb). destruct (_ !! id); [|done]. split; [apply same_character_refl|done].
Qed.

(** The rows a sweep leaves for the next. *)
Lemma reencrypt_left c locked n v :
  cipher_ok c → (0 ≤ n)%Z →
  (∀ id row, (id, row) ∈ stale_batch c locked n (v_db v) → is_ok (open_row c row) = true) →
  (length (stale_rows c (v_db (reencrypt_stale c locked n v).2)) +
    length (stale_batch c locked n (v_db v)))%nat = length (stale_rows c (v_db v)).
Proof.
  intros Hc Hn Hopen. destruct (reencrypt_run c locked n v Hc Hn Hopen) as (v' & -> & He & Hin & Hout).
  cbn [snd]. set (batch := stale_batch c locked n (v_db v)) in *.
  rewrite <- (length_fmap fst (stale_rows c (v_db v'))), <- (length_fmap fst batch),
    <- (length_fmap fst (stale_rows c (v_db v))), <- length_app.
  apply Permutation_length, NoDup_Permutation.
  - apply NoDup_app. split; [apply NoDup_select_where|]. split; [|apply NoDup_stale_batch].
    intros id Hs Hb. apply list_elem_of_fmap in Hb as ([k row] & -> & Hb).
    destruct (Hin _ _ Hb) as (row' & pts & Hrow' & _ & Hrs).
    apply list_elem_of_fmap in Hs as ([k' w] & Hk & Hs). cbn in Hk. subst k'.
    apply elem_of_select_where in Hs as [Hw Hne]. cbn in *. rewrite Hrow' in Hw. injection Hw as <-.
    rewrite (rs_kid _ _ _ _ Hrs), bool_decide_eq_true_2 in Hne; done.
  - apply NoDup_select_where.
  - intros id. rewrite elem_of_app, !list_elem_of_fmap. split.
    + intros [([k w] & -> & Hs)|([k w] & -> & Hb)].
      * destruct (decide (k ∈ batch.*1)) as [Hb|Hb].
        { apply list_elem_of_fmap in Hb as ([k' row] & -> & Hb). cbn. exists (k', row). split; [done|].
          apply elem_of_stale_batch in Hb as (Hrow & Hk & _). apply elem_of_select_where. split; [done|].
          by rewrite bool_decide_eq_false_2. }
        apply elem_of_select_where in Hs as [Hw Hk]. rewrite (Hout _ Hb) in Hw.
        exists (k, w). split; [done|]. by apply elem_of_select_where.
      * exists (k, w). split; [done|]. apply elem_of_stale_batch in Hb as (Hw & Hk & _).
        apply elem_of_select_where. split; [done|]. by rewrite bool_decide_eq_false_2.
    + intros ([k w] & -> & Hs). destruct (decide (k ∈ batch.*1)) as [Hb|Hb].
      * right. by apply list_elem_of_fmap in Hb.
      * left. exists (k, w). split; [done|]. apply elem_of_select_where in Hs as [Hw Hk].
        apply elem_of_select_where. by rewrite (Hout _ Hb).
Qed.

(** A row reads the same under any cipher that has its key. *)
Lemma open_row_kid c c' row :
  mk_keys c' !! ch_token_key_id row = mk_keys c !! ch_token_key_id row → open_row c' row = open_row c row.
Proof. intros Hk. unfold open_row, decrypt. by rewrite Hk. Qed.

(** [k] sweeps, one after the other, with no other worker. *)
Definition sweeps (c : MultiKeyCipher) (batch_size : Z) (k : nat) (v : Vault) : Vault :=
  Nat.iter k (λ v, (reencrypt_stale c (λ _, false) batch_size v).2) v.

Lemma length_unlocked_batch c n db :
  length (stale_batch c (λ _, false) n db) = Nat.min (Z.to_nat n) (length (stale_rows c db)).
Proof.
  unfold stale_batch. rewrite length_take. f_equal.
  replace (List.filter _ _) with (sort_by older_refresh (stale_rows c db)).
  - unfold sort_by. by rewrite merge_sort_Permutation.
  - symmetry. by apply filter_all.
Qed.

Lemma sweeps_run c n k v :
  cipher_ok c → (0 ≤ n)%Z → readable c (v_db v) →
  kept c (v_db v) (v_db (sweeps c n k v)) ∧
  length (stale_rows c (v_db (sweeps c n k v))) = (length (stale_rows c (v_db v)) - k * Z.to_nat n)%nat.
Proof.
  intros Hc Hn Hr. induction k as [|k [IHk IHl]]; [split; [apply kept_refl|cbn; lia]|].
  pose proof (kept_readable _ _ _ IHk Hr) as Hr'.
  assert (∀ id row, (id, row) ∈ stale_batch c (λ _, false) n (v_db (sweeps c n k v)) →
    is_ok (open_row c row) = true) as Hopen.
  { intros id row Hb. apply elem_of_stale_batch in Hb as (Hrow & _). by eapply Hr'. }
  change (sweeps c n (S k) v) with (reencrypt_stale c (λ _, false) n (sweeps c n k v)).2. split.
  - eapply kept_trans; [exact IHk|]. by apply reencrypt_kept.
  - pose proof (reencrypt_left c (λ _, false) n _ Hc Hn Hopen) as Hl.
    rewrite length_unlocked_batch in Hl. lia.
Qed.

(** ** Properties of the sweep *)

(** C31 Rotation converges and loses nothing, for a single worker and provided the
    cipher can read every row: after [⌈stale / batch⌉] sweeps no row is left under another key, every character
    has the tokens it had and is otherwise unchanged, and the primary key
    alone reads them all, so the other keys can be retired.  One row that cannot
    be read blocks its batch for ever: [unreadable_row_blocks]. *)
Theorem sweeps_converge c n k v :
  cipher_ok c → (0 < n)%Z → readable c (v_db v) →
  (length (stale_rows c (v_db v)) ≤ k * Z.to_nat n)%nat →
  let db' := v_db (sweeps c n k v) in
  stale_rows c db' = [] ∧ kept c (v_db v) db' ∧
  ∀ retired, mk_keys retired !! primary_kid c = mk_keys c !! primary_kid c →
    ∀ id row row', characters (v_db v) !! id = Some row → characters db' !! id = Some row' →
      open_row retired row' = open_row c row.
Proof.
  intros Hc Hn Hr Hk. cbn zeta. destruct (sweeps_run c n k v Hc ltac:(lia) Hr) as [Hkept Hl].
  assert (stale_rows c (v_db (sweeps c n k v)) = []) as Hs by (apply length_zero_iff_nil; lia).
  split; [done|]. split; [done|]. intros retired Hret id row row' Hrow Hrow'.
  destruct Hkept as [_ Hkept]. specialize (Hkept id). rewrite Hrow, Hrow' in Hkept.
  destruct Hkept as [_ <-]. apply open_row_kid.
  assert (ch_token_key_id row' = primary_kid c) as ->; [|done].
  destruct (decide (ch_token_key_id row' = primary_kid c)) as [|Hne]; [done|].
  assert ((id, row') ∈ stale_rows c (v_db (sweeps c n k v))) as Hin.
  { apply elem_of_select_where. split; [done|]. by rewrite bool_decide_eq_false_2. }
  rewrite Hs in Hin. set_solver.
Qed.

(** One sweep, with other workers holding some rows: it commits, reports as
    rewritten every row it scanned, takes at most the batch size of stale
    unlocked rows, and each of them ends under the primary key with its
    tokens; all other rows and tables are as they were. *)
Theorem reencrypt_stale_spec c locked n v :
  cipher_ok c → (0 ≤ n)%Z → readable c (v_db v) →
  let batch := stale_batch c locked n (v_db v) in
  ∃ v', reencrypt_stale c locked n v = (Ok (mkReencryptOutcome (length batch) (length batch)), v') ∧
    (length batch ≤ Z.to_nat n)%nat ∧ kept c (v_db v) (v_db v') ∧
    (∀ id row, (id, row) ∈ batch → locked id = false ∧ ch_token_key_id row ≠ primary_kid c ∧
       ∃ row', characters (v_db v') !! id = Some row' ∧ ch_token_key_id row' = primary_kid c) ∧
    ∀ id, id ∉ batch.*1 → characters (v_db v') !! id = characters (v_db v) !! id.
Proof.
  intros Hc Hn Hr. cbn zeta.
  assert (∀ id row, (id, row) ∈ stale_batch c locked n (v_db v) → is_ok (open_row c row) = true) as Hopen.
  { intros id row (Hrow & _)%elem_of_stale_batch. by eapply Hr. }
  pose proof (reencrypt_kept c locked n v Hc Hn Hopen) as Hkept.
  destruct (reencrypt_run c locked n v Hc Hn Hopen) as (v' & Hrun & _ & Hin & Hout).
  rewrite Hrun in Hkept. exists v'. split; [done|].
  split; [unfold stale_batch; rewrite length_take; lia|]. split; [done|]. split; [|done].
  intros id row Hb. destruct (Hin _ _ Hb) as (row' & pts & Hrow' & _ & Hs).
  apply elem_of_stale_batch in Hb as (_ & ? & ?). split; [done|]. split; [done|]. exists row'.
  split; [done|apply Hs].
Qed.
End Laws.

(** A row whose tokens cannot be decrypted stops the batch it is in. *)
Lemma reencrypt_row_open c m id row v a :
  reencrypt_row c m (id, row) v = Ok a → is_ok (open_row c row) = true.
Proof.
  unfold reencrypt_row, open_row, reseal_access, mbind, M_bind, result_bind.
  destruct (decrypt c (ch_refresh_token_ciphertext row) _ _ _) as [rt|]; [|done].
  cbn [with_context of_result]. unfold mret at 1, M_ret at 1.
  destruct (seal c rt _ v) as [[[[rt_ct rt_nonce] kid] v1]|]; [|done].
  destruct (ch_access_token_ciphertext row) as [ct|], (ch_access_token_nonce row) as [nonce|]; try done.
  by destruct (decrypt c ct nonce _ _).
Qed.

Lemma fold_each_Ok_all {S E X A} (body : A → X → M S E A) xs a s r :
  fold_each body xs a s = Ok r → ∀ x, x ∈ xs → ∃ a s r, body a x s = Ok r.
Proof.
  revert a s. induction xs as [|y xs IH]; intros a s Hr x Hx; [set_solver|].
  cbn in Hr. destruct r as [b s']. apply bind_Ok in Hr as (a1 & s1 & Hy & Hrest).
  apply elem_of_cons in Hx as [->|Hx]; [eauto|]. by eapply IH.
Qed.

Theorem unreadable_row_blocks c locked n v id row k :
  (id, row) ∈ stale_batch c locked n (v_db v) → is_ok (open_row c row) = false →
  (∃ e, reencrypt_stale c locked n v = (Err e, v)) ∧
  Nat.iter k (λ v, (reencrypt_stale c locked n v).2) v = v.
Proof.
  intros Hb Ho. assert (∃ e, reencrypt_stale c locked n v = (Err e, v)) as [e He].
  { unfold reencrypt_stale. destruct (reencrypt_body c locked n v) as [[o v']|e] eqn:Hr; [|eauto].
    exfalso. unfold reencrypt_body in Hr. inv_M. 
    match goal with H : fold_each _ _ _ _ = Ok _ |- _ =>
      destruct (fold_each_Ok_all _ _ _ _ _ H _ Hb) as (? & ? & ? & Hx) end.
    apply reencrypt_row_open in Hx. congruence. }
  split; [eauto|]. induction k as [|k IH]; [done|].
  change (Nat.iter (S k) _ v) with
    (reencrypt_stale c locked n (Nat.iter k (λ v, (reencrypt_stale c locked n v).2) v)).2.
  by rewrite IH, He.
Qed.

(** ** Properties of the store *)

(** A token as the provider issues them: a [String] within the AEAD's limit. *)
Definition token_ok (t : string) : Prop :=
  utf8_valid (as_bytes t) = true ∧ (Z.of_nat (length (as_bytes t)) ≤ aes_limit)%Z.

(** The client of [id] has rotated to [tokens] and the store has not saved it. *)
Record unsaved (s : Store) (id : Uuid) (entry : CachedClient) (tokens : EsiTokens)
    (row : CharacterRow) : Prop := {
  us_cipher : cipher_ok (st_cipher s);
  us_entry : st_clients s !! id = Some entry;
  us_tokens : cc_tokens entry = Some tokens;
  us_row : characters (v_db (st_vault s)) !! id = Some row;
  us_eve : cc_eve_character_id entry = ch_character_id row;
  us_refresh : token_ok (et_refresh_token tokens);
  us_access : token_ok (et_access_token tokens);
  us_hash : cc_last_refresh_hash entry ≠ hash_secret (et_refresh_token tokens)
}.

Lemma from_utf8_as_bytes t : token_ok t → from_utf8 (as_bytes t) = Some t.
Proof.
  intros [Hv _]. unfold from_utf8. rewrite Hv. f_equal. apply String.string_of_list_byte_of_string.
Qed.

Lemma insert_twice (s : Store) id e :
  st_clients s !! id = Some e → s <| st_clients ::= <[id := e]> |> = s.
Proof. intros He. destruct s. unfold set. cbn in *. by rewrite insert_id. Qed.

Section Rotation.
Context {AL : AeadLaws}.

Lemma write_rotation_run c id row tokens v :
  cipher_ok c → characters (v_db v) !! id = Some row →
  token_ok (et_refresh_token tokens) → token_ok (et_access_token tokens) →
  ∃ rt at_ d, write_rotation true c id (ch_character_id row) tokens v =
      Ok (tt, mkVault (store_rotated id rt at_ (et_expires_at tokens) (v_db v)) d) ∧
    load_tokens c (store_rotated id rt at_ (et_expires_at tokens) (v_db v)) id =
      Ok (mkLoadedTokens (et_refresh_token tokens) (Some (et_access_token tokens))
            (Some (et_expires_at tokens)) (ch_character_id row)).
Proof.
  intros Hc Hrow Hrt Hat.
  destruct (seal_run c (as_bytes (et_refresh_token tokens)) (ch_character_id row) v Hc (proj2 Hrt))
    as (ct1 & Hs1 & Ho1).
  destruct (seal_run c (as_bytes (et_access_token tokens)) (ch_character_id row)
    (v <| v_draws ::= N.succ |>) Hc (proj2 Hat)) as (ct2 & Hs2 & Ho2).
  exists (ct1, generate_nonce (v_draws v), primary_kid c),
    (ct2, generate_nonce (N.succ (v_draws v)), primary_kid c), (N.succ (N.succ (v_draws v))). split.
  - unfold write_rotation, mbind, M_bind. rewrite Hs1, Hs2. cbn [ensure mret M_ret]. unfold mret, M_ret, modify. f_equal.
  - unfold load_tokens, store_rotated. set_simpl. rewrite (update_where_key id _ _ row) by done.
    rewrite lookup_insert_eq. unfold mbind, result_bind, mret, result_ret.
    cbn [ok_or]. unfold rotated_row. set_simpl. cbn [fst snd].
    rewrite Ho1, from_utf8_as_bytes by done. cbn [ok_or].
    rewrite Ho2, from_utf8_as_bytes by done. done.
Qed.

(** C32 A rotation the store saves is read back: the next load returns the
    rotated tokens under the primary key, the cached client is handed out
    again, saving a second time writes nothing, and no other character or
    table changes. *)
Theorem rotation_round_trip s id entry tokens row :
  unsaved s id entry tokens row →
  ∃ s', persist_rotations true id s = (Ok tt, s') ∧
    load_tokens (st_cipher s) (v_db (st_vault s')) id =
      Ok (mkLoadedTokens (et_refresh_token tokens) (Some (et_access_token tokens))
            (Some (et_expires_at tokens)) (ch_character_id row)) ∧
    (∃ entry', cc_tokens entry' = Some tokens ∧ authed_client_for id s' = (Ok entry', s')) ∧
    persist_rotations true id s' = (Ok tt, s') ∧
    (∃ cs, v_db (st_vault s') = v_db (st_vault s) <| characters := cs |>) ∧
    ∀ k, k ≠ id → characters (v_db (st_vault s')) !! k = characters (v_db (st_vault s)) !! k.
Proof.
  intros [Hc He Ht Hrow Heve Hrt Hat Hh].
  destruct (write_rotation_run (st_cipher s) id row tokens (st_vault s) Hc Hrow Hrt Hat)
    as (rt & at_ & d & Hw & Hload).
  set (entry' := entry <| cc_last_refresh_hash := hash_secret (et_refresh_token tokens) |>).
  assert (cc_tokens entry' = Some tokens) as Ht' by done.
  eexists. split.
  - unfold persist_rotations. rewrite He, Ht. rewrite bool_decide_eq_false_2 by done.
    rewrite Heve. set_simpl. rewrite Hw. reflexivity.
  - fold entry'. set (s' := _ <| st_vault := _ |>).
    assert (st_clients s' !! id = Some entry') as He'.
    { unfold s'. set_simpl. apply lookup_insert_eq. }
    split; [exact Hload|]. split; [exists entry'; split; [done|]|split; [|split]].
    + unfold authed_client_for. change (st_cipher s') with (st_cipher s).
      change (v_db (st_vault s')) with (store_rotated id rt at_ (et_expires_at tokens) (v_db (st_vault s))).
      rewrite Hload, He'. cbn [lt_refresh_token]. by rewrite bool_decide_eq_true_2.
    + unfold persist_rotations. rewrite He', Ht', bool_decide_eq_true_2 by done.
      change (entry' <| cc_last_refresh_hash := _ |>) with entry'.
      by rewrite (insert_twice s' id entry').
    + exists (characters (v_db (st_vault s'))). done.
    + intros k Hk. unfold s'. set_simpl. cbn. unfold store_rotated. set_simpl.
      rewrite lookup_update_where, bool_decide_eq_false_2 by done. by destruct (_ !! k).
Qed.
End Rotation.

(** A rotation whose write fails is never saved: the next attempt takes it for
    saved, and the client is then rebuilt from the token the provider has
    already replaced. *)
Theorem failed_rotation_lost {AL : AeadLaws} s id entry tokens row old :
  unsaved s id entry tokens row →
  load_tokens (st_cipher s) (v_db (st_vault s)) id = Ok old →
  hash_secret (lt_refresh_token old) ≠ hash_secret (et_refresh_token tokens) →
  with_web_app = true →
  ∃ s', persist_rotations false id s = (Err PersistingRotated, s') ∧
    persist_rotations true id s' = (Ok tt, s') ∧ st_vault s' = st_vault s ∧
    ∃ client, (authed_client_for id s').1 = Ok client ∧
      option_map et_refresh_token (cc_tokens client) = Some (lt_refresh_token old).
Proof.
  intros [Hc He Ht Hrow Heve Hrt Hat Hh] Hold Hne Hweb.
  destruct (seal_run (st_cipher s) (as_bytes (et_refresh_token tokens)) (ch_character_id row) (st_vault s)
    Hc (proj2 Hrt)) as (ct1 & Hs1 & _).
  destruct (seal_run (st_cipher s) (as_bytes (et_access_token tokens)) (ch_character_id row)
    (st_vault s <| v_draws ::= N.succ |>) Hc (proj2 Hat)) as (ct2 & Hs2 & _).
  set (entry' := entry <| cc_last_refresh_hash := hash_secret (et_refresh_token tokens) |>).
  assert (cc_tokens entry' = Some tokens) as Ht' by done.
  eexists. split.
  - unfold persist_rotations. rewrite He, Ht. rewrite bool_decide_eq_false_2 by done.
    rewrite Heve. set_simpl. unfold write_rotation, mbind, M_bind. rewrite Hs1. rewrite Hs2. reflexivity.
  - fold entry'. set (s' := _ <| st_clients ::= _ |>).
    assert (st_clients s' !! id = Some entry') as He' by (unfold s'; set_simpl; apply lookup_insert_eq).
    split; [|split; [done|]].
    + unfold persist_rotations. rewrite He', Ht', bool_decide_eq_true_2 by done.
      change (entry' <| cc_last_refresh_hash := _ |>) with entry'.
      by rewrite (insert_twice s' id entry').
    + unfold authed_client_for. change (st_cipher s') with (st_cipher s).
      change (st_vault s') with (st_vault s). rewrite Hold, He', bool_decide_eq_false_2 by done.
      rewrite Hweb. cbn. eauto.
Qed.
End Store.

(** ** Witnesses *)
Section Witnesses.
#[local] Existing Instance fixture_runtime.
#[local] Instance Byte_eq_dec : EqDecision Byte.byte := Byte.byte_eq_dec.

(** A primitive that only tags: the ciphertext is key, nonce and associated
    data in front of the message. *)
Definition fixture_aead : Aead := {|
  b64_decode s := Some ((λ n, byte_of_Z (Z.of_N n)) <$> s);
  aes_encrypt key nonce aad msg :=
    if bool_decide (Z.of_nat (length msg) ≤ aes_limit)%Z then Some (key ++ nonce ++ aad ++ msg) else None;
  aes_decrypt key nonce aad ct :=
    let tag := key ++ nonce ++ aad in
    if bool_decide (take (length tag) ct = tag) &&
       bool_decide (Z.of_nat (length (drop (length tag) ct)) ≤ aes_limit)%Z
    then Some (drop (length tag) ct) else None;
  generate_nonce n := to_be_bytes (Z.of_N n) ++ repeat Byte.x00 4
|}.
#[local] Existing Instance fixture_aead.
#[local] Instance fixture_auth : EsiAuth := {|
  blake3_u64 bs := foldl (λ h b, (h * 257 + Z.of_N (Byte.to_N b)) `mod` 2 ^ 64)%Z 7%Z bs;
  with_web_app := true
|}.

Lemma fixture_aead_laws : AeadLaws (AE := fixture_aead).
Proof.
  split; cbn [aes_encrypt aes_decrypt generate_nonce fixture_aead].
  - intros key nonce aad msg Hm _. rewrite bool_decide_eq_true_2 by done. eauto.
  - intros key nonce aad msg ct. case_bool_decide as Hm; [|done]. intros [= <-].
    rewrite !app_assoc, <- (app_assoc key), take_app_length, drop_app_length.
    by rewrite !bool_decide_eq_true_2.
  - intros key nonce aad ct msg. case_bool_decide; cbn [andb]; [|done].
    case_bool_decide as Hm; [|done]. by intros [= <-].
  - intros n. rewrite length_app. unfold to_be_bytes. by rewrite length_fmap.
Qed.
#[local] Existing Instance fixture_aead_laws.

Definition key_a : Bytes := repeat Byte.x61 32.
Definition key_b : Bytes := repeat Byte.x62 32.
Definition old_cipher : MultiKeyCipher := mkMultiKeyCipher {[ "v1" := key_a ]} "v1".
Definition new_cipher : MultiKeyCipher := mkMultiKeyCipher {[ "v1" := key_a; "v2" := key_b ]} "v2".
Definition only_new : MultiKeyCipher := mkMultiKeyCipher {[ "v2" := key_b ]} "v2".

(** A character whose tokens were stored under the first key. *)
Definition fixture_character (user : Uuid) (eve : Z) (refreshed : option Timestamp) : CharacterRow :=
  let sealed t n := match encrypt old_cipher (generate_nonce n) (as_bytes t) (aad_of eve) with
                    | Ok (ct, nonce, _) => (ct, nonce) | Err _ => ([], []) end in
  let rt := sealed "refresh" 0%N in let access := sealed "access" 1%N in
  mkCharacterRow user eve "Pilot" "owner" [] rt.1 rt.2 (Some access.1) (Some access.2) (Some 90%Z)
    "v1" None None 1 refreshed.

Definition keyring_db : Db :=
  base_db <| characters := {[ 91%N := fixture_character 1 501 (Some 40%Z);
                              92%N := fixture_character 2 502 None ]} |>.
Definition fixture_vault : Vault := mkVault keyring_db 2.

Lemma cipher_ok_fixture : cipher_ok new_cipher.
Proof.
  split; [by eexists|]. intros kid key Hk. cbn [mk_keys new_cipher] in Hk.
  apply lookup_insert_Some in Hk as [[<- <-]|[_ Hk]]; [by split|].
  apply lookup_singleton_Some in Hk as [<- <-]. by split.
Qed.

Lemma readable_fixture : readable new_cipher keyring_db.
Proof.
  change (map_Forall (λ _ row, is_ok (open_row new_cipher row) = true) (characters keyring_db)).
  apply (bool_decide_unpack _). vm_compute. exact I.
Qed.

Lemma sweeps_converge_witness :
  let db' := v_db (sweeps new_cipher 1 2 fixture_vault) in
  stale_rows new_cipher db' = [] ∧
  (ch ← characters db' !! 91%N; match load_tokens only_new db' 91 with
                               | Ok t => Some (lt_refresh_token t) | Err _ => None end) = Some "refresh".
Proof.
  destruct (sweeps_converge new_cipher 1 2 fixture_vault cipher_ok_fixture ltac:(lia) readable_fixture)
    as [Hs _]; [vm_compute; lia|]. cbn zeta. split; [exact Hs|]. vm_compute. reflexivity.
Defined.

Lemma reencrypt_stale_spec_witness :
  (reencrypt_stale new_cipher (λ id, id == 92%N) 100 fixture_vault).1 = Ok (mkReencryptOutcome 1 1).
Proof.
  destruct (reencrypt_stale_spec new_cipher (λ id, id == 92%N) 100 fixture_vault cipher_ok_fixture
    ltac:(lia) readable_fixture) as (v' & -> & _). vm_compute. reflexivity.
Defined.

(** The client of character 91 has rotated its tokens. *)
Definition rotated_tokens : EsiTokens := mkEsiTokens "access2" "refresh2" 500.
Definition fixture_store : Store :=
  let s := mkStore fixture_vault new_cipher ∅ in
  client_refreshed 91 rotated_tokens (authed_client_for 91 s).2.
Definition fixture_entry : CachedClient :=
  mkCachedClient (Some rotated_tokens) (hash_secret "refresh") 501.

Lemma fixture_unsaved :
  unsaved fixture_store 91 fixture_entry rotated_tokens (fixture_character 1 501 (Some 40%Z)).
Proof.
  split; [exact cipher_ok_fixture|vm_compute; reflexivity..| | |vm_compute; discriminate].
  - split; [vm_compute; reflexivity|vm_compute; discriminate].
  - split; [vm_compute; reflexivity|vm_compute; discriminate].
Qed.

Lemma rotation_round_trip_witness :
  ∃ s', persist_rotations true 91 fixture_store = (Ok tt, s') ∧
    load_tokens new_cipher (v_db (st_vault s')) 91 =
      Ok (mkLoadedTokens "refresh2" (Some "access2") (Some 500%Z) 501).
Proof.
  destruct (rotation_round_trip fixture_store 91 fixture_entry rotated_tokens _ fixture_unsaved)
    as (s' & Hp & Hl & _).
  exists s'. split; [exact Hp|exact Hl].
Defined.

Lemma failed_rotation_lost_witness :
  ∃ s', persist_rotations false 91 fixture_store = (Err PersistingRotated, s') ∧
    persist_rotations true 91 s' = (Ok tt, s').
Proof.
  destruct (failed_rotation_lost fixture_store 91 fixture_entry rotated_tokens _
    (mkLoadedTokens "refresh" (Some "access") (Some 90%Z) 501) fixture_unsaved) as (s' & Hp & Hq & _);
    [vm_compute; reflexivity|vm_compute; discriminate|reflexivity|].
  exists s'. split; [exact Hp|exact Hq].
Defined.
End Witnesses.
