(* ===== verification/Server.v ===== *)
(** * The server

    [crates/api/src/main.rs] and [db.rs: tx_middleware]: the groups of routes,
    the layers a request passes, outermost first the request transaction, then
    the rate limiter, then the handler, and the probes.  [Errors.tx_middleware]
    is what is left of it when the connection holds, see [tx_layer_healthy].
    The token buckets are those of the tower_governor crate, the class
    [Governor]; connecting, migrating and listening are not modelled. *)

From Stdlib Require Import ZArith Lia.
From stdpp Require Import base tactics decidable option list gmap strings.
From S2P Require Import Prelude Effect Unicode Domain Host Schema Fixtures Errors Config Cipher.

Local Open Scope string_scope.
Local Open Scope list_scope.

(** [config.rs: Config]. *)
Record Config := mkConfig {
  cf_server : ServerConfig;
  cf_database_url : string;
  cf_admin_database_url : string;
  cf_eve_sso : EveSsoConfig;
  cf_esi : EsiConfig;
  cf_token_enc_key : option Str;
  cf_token_enc : option TokenEncConfig;
  cf_rate_limit : RateLimitConfig;
  cf_limits : AbuseLimits;
  cf_turnstile : TurnstileConfig;
  cf_metrics : MetricsConfig
}.

(** ** Probes *)

(** What the pool answers: whether [SELECT 1] succeeds, and its connections. *)
Record Pool := mkPool {
  pool_answers : bool;
  pool_size : Z;
  pool_idle : Z;
  pool_max : Z
}.

Record Health := mkHealth { hl_status : string; hl_db : bool }.
Definition healthz (p : Pool) : Health :=
  mkHealth (if pool_answers p then "ok" else "degraded") (pool_answers p).

Record Readiness := mkReadiness {
  rd_ready : bool;
  rd_db : bool;
  rd_pool_size : Z;
  rd_pool_idle : Z;
  rd_pool_max : Z
}.

Definition readyz (p : Pool) : Z * Readiness :=
  let db_ok := pool_answers p in
  let pool_ok := ((0 <? pool_idle p) || (pool_size p <? pool_max p))%Z in
  let ready := db_ok && pool_ok in
  (if ready then 200 else 503, mkReadiness ready db_ok (pool_size p) (pool_idle p) (pool_max p))%Z.

(** Ready means that the next request gets a connection without waiting. *)
Lemma readyz_spec p :
  ((readyz p).1 = 200 ∨ (readyz p).1 = 503)%Z ∧
  ((readyz p).1 = 200%Z ↔
   pool_answers p = true ∧ ((0 < pool_idle p)%Z ∨ (pool_size p < pool_max p)%Z)).
Proof.
  unfold readyz. cbn. destruct (pool_answers p), (0 <? pool_idle p)%Z eqn:H1,
    (pool_size p <? pool_max p)%Z eqn:H2; cbn; rewrite ?Z.ltb_lt, ?Z.ltb_ge in *; split; try naive_solver lia.
Qed.

(** ** Rate limits *)

(** [GovernorConfigBuilder::finish], which refuses some parameters, and the
    decision on a request from an address. *)
Class Governor := {
  Bucket : Type;
  finish : Z → Z → option Bucket;
  decide_request : string → Bucket → bool * Bucket;
  too_many_requests : string
}.

Section Server.
Context `{RT : Runtime} {GV : Governor}.

Definition mk_layer (period_secs burst : Z) (label : string) : result Anyhow Bucket :=
  match finish period_secs burst with
  | Some b => Ok b
  | None => Err ("invalid " +:+ label +:+ " rate-limit config")
  end.

(** The limiter of each group; [None] where limits are disabled. *)
Record App := mkApp {
  app_auth : option Bucket;
  app_other : option Bucket
}.

Definition build_routes (rl : RateLimitConfig) : result Anyhow App :=
  if rl_disabled rl then Ok (mkApp None None)
  else match mk_layer (auth_period_secs rl) (auth_burst rl) "auth" with
       | Err e => Err e
       | Ok a => match mk_layer (per_ip_period_secs rl) (per_ip_burst rl) "per-ip" with
                 | Err e => Err e
                 | Ok o => Ok (mkApp (Some a) (Some o))
                 end
       end.

(** What an inner service does to the transaction it is given. *)
Definition Service (A : Type) : Type := Db → Response A * Db.

Definition served {A} (h : Handler A) : Service A := λ db,
  (to_response (h db), match h db with Ok (_, tx) => tx | Err _ => db end).

Definition limit_layer {A} (bucket : option Bucket) (ip : string) (next : Service A) (db : Db)
    : Response A * Db * option Bucket :=
  match bucket with
  | None => (next db, None)
  | Some b =>
      let '(ok, b') := decide_request ip b in
      (if ok then next db else (mkResponse A 429 (inr too_many_requests), db), Some b')
  end.

(** ** The transaction layer *)

(** What the session store and the connection do during one request. *)
Record Link := mkLink {
  ln_session : result unit (option Uuid);
  ln_begin : bool;
  ln_set_config : bool;
  ln_finish : bool
}.

(** The statements on the connection, in order. *)
Inductive TxStatement :=
| Begin
| SetCurrentUser (user : option Uuid)
| Commit
| Rollback.

(** A transaction that cannot be committed or rolled back dies with its
    connection; the answer is sent all the same. *)
Definition tx_layer {A} (link : Link) (next : Service A) (db : Db)
    : Response A * Db * list TxStatement :=
  match ln_session link with
  | Err _ => (mkResponse A 500 (inr "session error"), db, [])
  | Ok user =>
      if negb (ln_begin link) then (mkResponse A 500 (inr "internal error"), db, [Begin])
      else if negb (ln_set_config link)
      then (mkResponse A 500 (inr "internal error"), db, [Begin; SetCurrentUser user; Rollback])
      else
        let '(response, tx) := next db in
        let success := is_success (response_status response) in
        (response, if success && ln_finish link then tx else db,
         [Begin; SetCurrentUser user; if success then Commit else Rollback])
  end.

(** ** A request *)

Inductive RouteGroup := AuthRoutes | OtherRoutes.

Definition bucket_of (g : RouteGroup) (app : App) : option Bucket :=
  match g with AuthRoutes => app_auth app | OtherRoutes => app_other app end.
Definition with_bucket (g : RouteGroup) (b : option Bucket) (app : App) : App :=
  match g with AuthRoutes => mkApp b (app_other app) | OtherRoutes => mkApp (app_auth app) b end.

(** The limiter is part of the inner service, so it is asked only when the
    transaction has begun. *)
Definition serve {A} (g : RouteGroup) (link : Link) (ip : string) (h : Handler A) (app : App) (db : Db)
    : Response A * Db * list TxStatement * App :=
  let inner := limit_layer (bucket_of g app) ip (served h) in
  let r := tx_layer link (λ db, (inner db).1) db in
  let reached := is_ok (ln_session link) && ln_begin link && ln_set_config link in
  (r, if reached then with_bucket g (inner db).2 app else app).

Definition healthy (user : option Uuid) : Link := mkLink (Ok user) true true true.

(** On a connection that holds, the layer is [Errors.tx_middleware]. *)
Lemma tx_layer_healthy {A} user (h : Handler A) db :
  (tx_layer (healthy user) (served h) db).1 = tx_middleware h db.
Proof. unfold tx_layer, served, tx_middleware, to_response. cbn. destruct (h db) as [[a tx]|e]; [done|by destruct e]. Qed.

Lemma tx_layer_changes {A} link (next : Service A) db r db' stmts :
  tx_layer link next db = (r, db', stmts) → db' ≠ db →
  last stmts = Some Commit ∧ ln_finish link = true ∧ is_success (response_status r) = true ∧
  next db = (r, db').
Proof.
  unfold tx_layer. intros Hs Hne. destruct (ln_session link) as [user|[]]; [|by simplify_eq].
  destruct (ln_begin link); [|by simplify_eq/=]. destruct (ln_set_config link); [|by simplify_eq/=].
  cbn [negb] in Hs. destruct (next db) as [response tx].
  destruct (is_success _) eqn:Hok, (ln_finish link); simplify_eq/=; done.
Qed.

(** Whatever fails, the database changes only by the commit that follows an
    admitted, successful handler. *)
Lemma serve_changes {A} g link ip (h : Handler A) app db r db' stmts app' :
  serve g link ip h app db = (r, db', stmts, app') → db' ≠ db →
  last stmts = Some Commit ∧ ln_finish link = true ∧
  (∃ a, h db = Ok (a, db') ∧ r = mkResponse A 200 (inl a)) ∧
  ∀ b, bucket_of g app = Some b → (decide_request ip b).1 = true.
Proof.
  unfold serve. intros [= Hs _] Hne.
  apply tx_layer_changes in Hs as (Hl & Hf & _ & Hn); [|done]. split; [done|]. split; [done|].
  unfold limit_layer, served, to_response in Hn.
  destruct (bucket_of g app) as [b|]; [destruct (decide_request ip b) as [[|] b'] eqn:Hb|]; cbn in Hn;
    try (by simplify_eq).
  - destruct (h db) as [[a tx]|e]; [|by destruct e; simplify_eq]. injection Hn as <- <-.
    split; [by exists a|]. intros b0 [= <-]. by rewrite Hb.
  - destruct (h db) as [[a tx]|e]; [|by destruct e; simplify_eq]. injection Hn as <- <-.
    split; [by exists a|done].
Qed.

(** A request the limiter refuses has opened a transaction by then. *)
Lemma refused_request_opens_tx {A} g user ip (h : Handler A) app b b' db :
  bucket_of g app = Some b → decide_request ip b = (false, b') →
  (serve g (healthy user) ip h app db).1 =
    (mkResponse A 429 (inr too_many_requests), db, [Begin; SetCurrentUser user; Rollback]).
Proof. intros Hb Ha. unfold serve, tx_layer, limit_layer. cbn. rewrite Hb, Ha. done. Qed.

(** When the commit fails the answer is still the handler's success. *)
Lemma failed_commit_answers_success {A} g user ip (h : Handler A) app db a tx :
  bucket_of g app = None → h db = Ok (a, tx) →
  (serve g (mkLink (Ok user) true true false) ip h app db).1 =
    (mkResponse A 200 (inl a), db, [Begin; SetCurrentUser user; Commit]).
Proof. intros Hb Hh. unfold serve, tx_layer, limit_layer, served. cbn. rewrite Hb, Hh. done. Qed.
End Server.
