(* ===== verification/Jwt.v ===== *)
(** * EVE access tokens

    [crates/api/src/jwt.rs]: the claims of an access token, and its
    verification against EVE's key set, which is fetched when a key is not in
    the cached one.  Decoding and signatures are [jsonwebtoken]'s. *)

From Stdlib Require Import ZArith Lia.
From stdpp Require Import base tactics decidable option list gmap strings pretty.
From S2P Require Import Prelude Effect Unicode Errors.

Local Open Scope string_scope.
Local Open Scope list_scope.

Inductive ScopesField :=
| Scopes_None
| Scopes_One (s : Str)
| Scopes_Many (v : list string).

Record EveClaims := mkEveClaims {
  claim_sub : Str;
  claim_name : string;
  claim_owner : string;
  claim_scp : ScopesField
}.

(** [sub.rsplit(':').next()] is what follows the last colon. *)
Definition claim_character_id (c : EveClaims) : result Anyhow Z :=
  let id := List.last (split 58 (claim_sub c)) [] in
  ok_or ("non-numeric character id in sub: " +:+ utf8 (claim_sub c)) (parse_i64 id).

Definition claim_scopes (c : EveClaims) : list string :=
  match claim_scp c with
  | Scopes_None => []
  | Scopes_One s => utf8 <$> split 32 s
  | Scopes_Many v => v
  end.

Definition EVE_ISSUER_HOST : string := "login.eveonline.com".
Definition EVE_ISSUER_URL : string := "https://login.eveonline.com".

(** [jsonwebtoken]: headers, key sets, and the decoding of a token with a key
    under an algorithm, the accepted issuers and the accepted audiences. *)
Class JwtLib := {
  Jwk : Type;
  JwkSet : Type;
  find_jwk : JwkSet → string → option Jwk;
  key_algorithm : Jwk → option string;
  (** [DecodingKey::from_jwk] and the parsing of an algorithm's name. *)
  from_jwk : Jwk → bool;
  known_algorithm : string → bool;
  (** The [kid] of a well-formed header. *)
  decode_header : string → option (option string);
  decode : string → Jwk → list string → list string → option EveClaims
}.

Section Jwt.
Context `{JL : JwtLib}.

Definition cached_key (keys : option JwkSet) (kid : string) : option Jwk :=
  set ← keys; find_jwk set kid.

(** [key_for]: the key and the cached set afterwards; [fetched] is what the
    endpoint answers now.  A set without the key is not kept. *)
Definition key_for (fetched : result Anyhow JwkSet) (kid : string) (keys : option JwkSet)
    : result Anyhow Jwk * option JwkSet :=
  match cached_key keys kid with
  | Some k => (Ok k, keys)
  | None =>
      match fetched with
      | Err e => (Err e, keys)
      | Ok fresh =>
          match find_jwk fresh kid with
          | None => (Err ("EVE JWKS has no key with kid " +:+ kid), keys)
          | Some k => (Ok k, Some fresh)
          end
      end
  end.

Definition check_token (audience token : string) (jwk : Jwk) : result Anyhow EveClaims :=
  _ ← (if from_jwk jwk then Ok tt else Err "invalid JWK");
  alg ← ok_or "JWK missing alg" (key_algorithm jwk);
  _ ← (if known_algorithm alg then Ok tt else Err "unsupported JWK alg");
  ok_or "JWT verification failed"
    (decode token jwk [EVE_ISSUER_URL; EVE_ISSUER_HOST] [audience; "EVE Online"]).

Definition verify (audience : string) (fetched : result Anyhow JwkSet) (token : string)
    (keys : option JwkSet) : result Anyhow EveClaims * option JwkSet :=
  match decode_header token with
  | None => (Err "malformed JWT header", keys)
  | Some None => (Err "JWT header missing kid", keys)
  | Some (Some kid) =>
      match key_for fetched kid keys with
      | (Err e, keys) => (Err e, keys)
      | (Ok jwk, keys) => (check_token audience token jwk, keys)
      end
  end.

(** A verified token was decoded, under EVE's issuers and our audience, with a
    key of the cached or the fetched set that its header names. *)
Lemma verify_sound audience fetched token keys claims keys' :
  verify audience fetched token keys = (Ok claims, keys') →
  ∃ kid jwk, decode_header token = Some (Some kid) ∧
    (cached_key keys kid = Some jwk ∨ ∃ set, fetched = Ok set ∧ find_jwk set kid = Some jwk) ∧
    decode token jwk [EVE_ISSUER_URL; EVE_ISSUER_HOST] [audience; "EVE Online"] = Some claims.
Proof.
  unfold verify, key_for, check_token, ok_or, mbind, result_bind.
  destruct (decode_header token) as [[kid|]|]; [|done..].
  destruct (cached_key keys kid) as [k|] eqn:Hk.
  - destruct (from_jwk k); [|done]. destruct (key_algorithm k) as [alg|]; [|done].
    destruct (known_algorithm alg); [|done].
    destruct (decode _ _ _ _) eqn:Hd; [|done]. intros [= <- <-]. exists kid, k. eauto.
  - destruct fetched as [set|]; [|done]. destruct (find_jwk set kid) as [k|] eqn:Hf; [|done].
    destruct (from_jwk k); [|done]. destruct (key_algorithm k) as [alg|]; [|done].
    destruct (known_algorithm alg); [|done].
    destruct (decode _ _ _ _) eqn:Hd; [|done]. intros [= <- <-]. exists kid, k. eauto 6.
Qed.
End Jwt.
