(* ===== verification/Auth.v ===== *)
(** * Login

    [crates/api/src/auth.rs]: the EVE SSO flow over the session and the request
    transaction.  The session outlives a failed request and the database does
    not, so a computation [A_] keeps the state it reached; what is kept of it
    is decided per response by [respond]. *)

From Stdlib Require Import ZArith Lia.
From stdpp Require Import base tactics decidable option list gmap strings pretty sorting.
From S2P Require Import Prelude Effect Unicode Domain Host Schema Fixtures Errors Config Extract Detail.
From S2P Require Import Market Pricing Wallet Poller Groups Corps Invariant Ledger Cipher Tokens Server Jwt.

Local Open Scope string_scope.
Local Open Scope list_scope.

(** ** Redirect targets *)

Definition starts_with (d s : Str) : bool := negb (is_none (strip_prefix d s)).
Definition contains (c : N) (s : Str) : bool := existsb (N.eqb c) s.

Definition safe_return_to (return_to : option Str) : option Str :=
  path ← return_to;
  if starts_with (str "/") path && negb (starts_with (str "//") path) &&
     negb (contains 92 path) && negb (contains 13 path || contains 10 path)
  then Some path else None.

Definition merge_upgrade_scopes (login_scopes existing requested : list string) : list string :=
  sort_by String.leb (remove_dups (login_scopes ++ existing ++ requested)).

(** ** State *)

Record PendingAuth := mkPendingAuth {
  pa_code_verifier : string;
  pa_state : string;
  pa_attach : bool;
  pa_return_to : option Str;
  pa_target_character_id : option Z;
  pa_requested_scopes : list string
}.

Record Session := mkSession {
  ss_user : option Uuid;
  ss_pending : option PendingAuth
}.
#[export] Instance eta_Session : Settable Session := λ s, mkSession (ss_user s) (ss_pending s).

(** [nea_esi::auth::PkceChallenge]. *)
Record PkceChallenge := mkPkceChallenge {
  pk_authorize_url : string;
  pk_state : string;
  pk_code_verifier : string
}.

(** [turnstile.rs: VerifyResponse]. *)
Record VerifyResponse := mkVerifyResponse {
  vr_success : bool;
  vr_error_codes : list string
}.

(** The calls to EVE and to Cloudflare, and for which statuses the session
    layer stores a changed session. *)
Class Sso `{JL : JwtLib} := {
  authorize_url : string → list string → result Anyhow PkceChallenge;
  exchange_code : string → string → result Anyhow EsiTokens;
  fetch_jwks : result Anyhow JwkSet;
  (** A form posted to an URL, the status checked and the body decoded. *)
  post_form : string → list (string * Str) → result Anyhow VerifyResponse;
  saves_session : Z → bool
}.

Section Auth.
Context `{RT : Runtime} {AE : Aead} {JL : JwtLib} {SO : Sso}.

Record AuthState := mkAuthState {
  au_session : Session;
  au_vault : Vault;
  au_keys : option JwkSet
}.

Definition A_ (A : Type) : Type := AuthState → result ApiError A * AuthState.

#[export] Instance A_ret : MRet A_ := λ A a s, (Ok a, s).
#[export] Instance A_bind : MBind A_ := λ A B k m s,
  match m s with (Ok a, s') => k a s' | (Err e, s') => (Err e, s') end.

Definition a_throw {A} (e : ApiError) : A_ A := λ s, (Err e, s).
Definition a_result {A} (r : result ApiError A) : A_ A := λ s, (r, s).
Definition a_ensure (b : bool) (e : ApiError) : A_ unit := if b then mret tt else a_throw e.
Definition a_expect {A} (e : ApiError) (o : option A) : A_ A :=
  match o with Some a => mret a | None => a_throw e end.
(** A third party's answer, an [anyhow::Error] becoming a 500. *)
Definition a_call {A} (what : string) (r : result Anyhow A) : A_ A :=
  a_result (match r with Ok a => Ok a | Err e => Err (internal (what +:+ ": " +:+ e)) end).

(** The request transaction. *)
Definition a_tx {A} (m : M Vault ApiError A) : A_ A := λ s,
  match m (au_vault s) with
  | Ok (a, v) => (Ok a, mkAuthState (au_session s) v (au_keys s))
  | Err e => (Err e, s)
  end.

Definition session_user : A_ (option Uuid) := λ s, (Ok (ss_user (au_session s)), s).
Definition with_session (f : Session → Session) (s : AuthState) : AuthState :=
  mkAuthState (f (au_session s)) (au_vault s) (au_keys s).
Definition session_insert_user (u : Uuid) : A_ unit := λ s,
  (Ok tt, with_session (λ ss, ss <| ss_user := Some u |>) s).
Definition session_insert_pending (p : PendingAuth) : A_ unit := λ s,
  (Ok tt, with_session (λ ss, ss <| ss_pending := Some p |>) s).
Definition session_remove_pending : A_ (option PendingAuth) := λ s,
  (Ok (ss_pending (au_session s)), with_session (λ ss, ss <| ss_pending := None |>) s).

Definition verify_token (cfg : Config) (token : string) : A_ EveClaims := λ s,
  let '(r, keys) := verify (client_id (eve_common (cf_eve_sso cfg))) fetch_jwks token (au_keys s) in
  (match r with Ok c => Ok c | Err e => Err (internal e) end,
   mkAuthState (au_session s) (au_vault s) keys).

(** A statement of the request transaction, beside the nonce source. *)
Definition on_db {E A} (m : M Db E A) : M Vault E A := λ v,
  match m (v_db v) with
  | Ok (a, db) => Ok (a, mkVault db (v_draws v))
  | Err e => Err e
  end.

(** ** [upsert_character] *)

Definition create_user (display_name : string) : Handler Uuid :=
  id ← sql new_uuid;
  _ ← sql (unique (λ db, negb (row_exists (users db) id)) "users_pkey");
  _ ← execute (λ db, db <| users ::= <[id := mkUserRow display_name None (db_now db)]> |>);
  pid ← sql new_uuid;
  taken ← query (λ db, row_exists (principals db) pid ||
    sel_exists (λ _ p, (p_kind p == Principal_User) && (p_user_id p == Some id)) (principals db));
  _ ← when (negb taken) (execute (λ db, db <| principals ::=
        <[pid := mkPrincipalRow Principal_User (Some id) None]> |>));
  mret id.

Definition find_character (db : Db) (character_id : Z) : option (Uuid * CharacterRow) :=
  head (select_where (λ _ ch, ch_character_id ch == character_id) (characters db)).

Definition owned_by (user_id : Uuid) (_ : Uuid) (ch : CharacterRow) : bool := ch_user_id ch == user_id.

(** Whose the character becomes. *)
Definition target_user (existing : option (Uuid * CharacterRow)) (claims : EveClaims)
    (session_user : option Uuid) (attach : bool) : Handler Uuid :=
  let own_session :=
    match session_user with Some sid => mret sid | None => create_user (claim_name claims) end in
  if attach then expect (internal "attach without session") session_user
  else match existing with
       | Some (_, ch) => if ch_owner_hash ch == claim_owner claims then mret (ch_user_id ch) else own_session
       | None => own_session
       end.

Definition check_characters_quota (existing : option (Uuid * CharacterRow)) (target_user_id : Uuid)
    (characters_cap : Z) : Handler unit :=
  when (match existing with None => true | Some (_, ch) => ch_user_id ch != target_user_id end) (
    count ← query (λ db, count_where (owned_by target_user_id) (characters db));
    ensure (count <? characters_cap)%Z (QuotaExceeded ("you already have " +:+ pretty count +:+
      " linked characters (cap " +:+ pretty characters_cap +:+ ")"))).

(** The row stored for a login. *)
Definition logged_in (now : Timestamp) (user_id : Uuid) (character_id : Z) (claims : EveClaims)
    (expires_at : Timestamp) (rt at_ : Bytes * Bytes * string) (old : option CharacterRow) : CharacterRow :=
  mkCharacterRow user_id character_id (claim_name claims) (claim_owner claims) (claim_scopes claims)
    rt.1.1 rt.1.2 (Some at_.1.1) (Some at_.1.2) (Some expires_at) rt.2
    (old ≫= ch_contracts_next_poll_at) (old ≫= ch_contracts_last_polled_at)
    (from_option ch_created_at now old) (Some now).

Definition store_character (user_id : Uuid) (character_id : Z) (claims : EveClaims)
    (expires_at : Timestamp) (rt at_ : Bytes * Bytes * string) : Stmt unit :=
  id ← new_uuid;
  _ ← foreign_key (λ db, row_exists (users db) user_id) "characters_user_id_fkey";
  old ← reads (λ db, find_character db character_id);
  match old with
  | Some (k, ch) =>
      execute (λ db, db <| characters ::=
        <[k := logged_in (db_now db) user_id character_id claims expires_at rt at_ (Some ch)]> |>)
  | None =>
      _ ← unique (λ db, negb (row_exists (characters db) id)) "characters_pkey";
      execute (λ db, db <| characters ::=
        <[id := logged_in (db_now db) user_id character_id claims expires_at rt at_ None]> |>)
  end.

Definition sealed (c : MultiKeyCipher) (secret : string) (character_id : Z)
    : M Vault ApiError (Bytes * Bytes * string) :=
  map_err (λ _, internal "AES-GCM encrypt failed") (seal c (as_bytes secret) (aad_of character_id)).

Definition upsert_character (c : MultiKeyCipher) (claims : EveClaims) (tokens : EsiTokens)
    (session_user : option Uuid) (attach : bool) (characters_cap : Z) : M Vault ApiError Uuid :=
  character_id ← of_result (match claim_character_id claims with
                            | Ok z => Ok z | Err e => Err (internal e) end);
  existing ← on_db (query (λ db, find_character db character_id));
  target_user_id ← on_db (target_user existing claims session_user attach);
  _ ← on_db (check_characters_quota existing target_user_id characters_cap);
  rt ← sealed c (et_refresh_token tokens) character_id;
  at_ ← sealed c (et_access_token tokens) character_id;
  _ ← on_db (sql (store_character target_user_id character_id claims (et_expires_at tokens) rt at_));
  mret target_user_id.

(** ** Handlers *)

Record LoginQuery := mkLoginQuery {
  lq_attach : bool;
  lq_return_to : option Str;
  lq_cf : option string
}.

Definition captcha_required : ApiError :=
  Forbidden "captcha verification required for new accounts".

(** The first hop of [X-Forwarded-For]. *)
Definition remote_ip (forwarded : option Str) : option Str :=
  s ← forwarded; hop ← head (split 44 s); Some (trim hop).

(** [turnstile.rs: verify] and [verify_at]. *)
Definition SITEVERIFY_URL : string := "https://challenges.cloudflare.com/turnstile/v0/siteverify".

Definition turnstile_verify (secret token : string) (ip : option Str) : result Anyhow VerifyResponse :=
  post_form SITEVERIFY_URL
    ([("secret", str secret); ("response", str token)] ++
     match ip with Some ip => [("remoteip", ip)] | None => [] end).

Definition check_captcha (cfg : Config) (q : LoginQuery) (forwarded : option Str) : A_ unit :=
  token ← a_expect captcha_required (lq_cf q);
  answer ← a_result (match turnstile_verify (turnstile_secret_key (cf_turnstile cfg)) token
                             (remote_ip forwarded) with
                     | Ok answer => Ok answer
                     | Err e => Err (internal e)
                     end);
  a_ensure (vr_success answer) captcha_required.

Definition login (cfg : Config) (forwarded : option Str) (q : LoginQuery) : A_ string :=
  user ← session_user;
  _ ← (if lq_attach q then a_ensure (negb (is_none user)) Unauthorized
       else if is_none user && negb (turnstile_disabled (cf_turnstile cfg)) then check_captcha cfg q forwarded
       else mret tt);
  challenge ← a_call "authorize_url" (authorize_url (callback_url (cf_eve_sso cfg)) (login_scopes (cf_eve_sso cfg)));
  _ ← session_insert_pending (mkPendingAuth (pk_code_verifier challenge) (pk_state challenge)
        (lq_attach q) (safe_return_to (lq_return_to q)) None (login_scopes (cf_eve_sso cfg)));
  mret (pk_authorize_url challenge).

Record UpgradeQuery := mkUpgradeQuery {
  uq_character_id : Z;
  uq_scopes : Str;
  uq_return_to : option Str
}.

(** The scopes of the query that are not blank. *)
Definition requested_scopes (s : Str) : list string :=
  utf8 <$> List.filter (λ x, negb (bool_decide (x = []))) (trim <$> split 44 s).

Definition check_scopes (cfg : Config) (requested : list string) : result ApiError unit :=
  match List.filter (λ s, negb (bool_decide (s ∈ login_scopes (cf_eve_sso cfg) ++ upgrade_scopes (cf_eve_sso cfg)))) requested with
  | [] => Ok tt
  | s :: _ => Err (internal ("scope not allowed: " +:+ s))
  end.

Definition upgrade (cfg : Config) (q : UpgradeQuery) : A_ string :=
  user ← session_user;
  user_id ← a_expect Unauthorized user;
  let requested := requested_scopes (uq_scopes q) in
  _ ← a_ensure (negb (bool_decide (requested = []))) (BadRequest "no scopes requested");
  _ ← a_result (check_scopes cfg requested);
  existing ← a_tx (on_db (
    row ← query (λ db, head (select_where
      (λ _ ch, (ch_character_id ch == uq_character_id q) && (ch_user_id ch == user_id)) (characters db)));
    '(_, ch) ← expect Unauthorized row;
    mret (ch_scopes ch)));
  let all := merge_upgrade_scopes (login_scopes (cf_eve_sso cfg)) existing requested in
  challenge ← a_call "authorize_url" (authorize_url (callback_url (cf_eve_sso cfg)) all);
  _ ← session_insert_pending (mkPendingAuth (pk_code_verifier challenge) (pk_state challenge) true
        (safe_return_to (uq_return_to q)) (Some (uq_character_id q)) all);
  mret (pk_authorize_url challenge).

Definition callback (cfg : Config) (c : MultiKeyCipher) (code state : string)
    : A_ string :=
  pending ← session_remove_pending;
  pending ← a_expect (BadRequest "no pending auth in session") pending;
  _ ← a_ensure (pa_state pending == state) (BadRequest "state mismatch");
  tokens ← a_call "exchange_code" (exchange_code code (pa_code_verifier pending));
  claims ← verify_token cfg (et_access_token tokens);
  _ ← match pa_target_character_id pending with
      | None => mret tt
      | Some target =>
          returned ← a_result (match claim_character_id claims with
                               | Ok z => Ok z | Err e => Err (internal e) end);
          a_ensure (returned == target)
            (BadRequest "consent returned a different character than the one requested")
      end;
  user ← session_user;
  user_id ← a_tx (upsert_character c claims tokens user (pa_attach pending) (characters_per_user (cf_limits cfg)));
  _ ← session_insert_user user_id;
  mret (from_option utf8 "/me" (safe_return_to (pa_return_to pending))).

(** [session.flush()]. *)
Definition logout : A_ string := λ s, (Ok "/", with_session (λ _, mkSession None None) s).

(** ** [me] *)

Record MeResponse := mkMeResponse {
  me_user : User;
  me_characters : list Character;
  me_active_character_id : option Uuid
}.

Definition into_user (id : Uuid) (r : UserRow) : User := mkUser id (u_display_name r) (u_created_at r).

Definition into_character (id : Uuid) (r : CharacterRow) : Character :=
  mkCharacter id (ch_user_id r) (ch_character_id r) (ch_character_name r) (ch_owner_hash r)
    (ch_scopes r) (ch_access_token_expires_at r) (ch_created_at r) (ch_last_refreshed_at r).

Definition me_of (user_id : Uuid) : Handler MeResponse :=
  user ← query (λ db, users db !! user_id);
  user ← expect Unauthorized user;
  chars ← query (λ db, (λ kc, into_character kc.1 kc.2) <$>
    sort_by (λ a b, ch_created_at a.2 <=? ch_created_at b.2)%Z
      (select_where (owned_by user_id) (characters db)));
  mret (mkMeResponse (into_user user_id user) chars (u_active_character_id user)).

Definition me : A_ MeResponse :=
  user ← session_user;
  user_id ← a_expect Unauthorized user;
  a_tx (on_db (me_of user_id)).

(** The [UPDATE] matches the user's row when the character, if any, is theirs. *)
Definition do_set_active_character (user_id : Uuid) (character_id : option Uuid) : Handler unit :=
  let allowed db := match character_id with
                    | None => true
                    | Some c => from_option (λ ch, ch_user_id ch == user_id) false (characters db !! c)
                    end in
  hit ← query (λ db, row_exists (users db) user_id && allowed db);
  _ ← execute (λ db, if allowed db then db <| users ::= update_where (λ k _, k == user_id)
        (λ u, u <| u_active_character_id := character_id |>) |> else db);
  ensure hit Unauthorized.

Definition set_active_character (character_id : option Uuid) : A_ MeResponse :=
  user ← session_user;
  user_id ← a_expect Unauthorized user;
  _ ← a_tx (on_db (do_set_active_character user_id character_id));
  a_tx (on_db (me_of user_id)).

(** ** Responses *)

(** [Redirect::to] answers 303 See Other, [Json] 200. *)
Definition SEE_OTHER : Z := 303.

Definition auth_response {A} (ok_status : Z) (r : result ApiError A) : Response A :=
  match r with
  | Ok a => mkResponse A ok_status (inl a)
  | Err e => mkResponse A (into_response e).1 (inr (into_response e).2)
  end.

(** [tx_middleware] inside the session layer: the transaction is committed on
    a 2xx response only. *)
Definition respond {A} (ok_status : Z) (h : A_ A) (s : AuthState) : Response A * AuthState :=
  let '(r, s') := h s in
  let response := auth_response ok_status r in
  let status := response_status response in
  (response,
   mkAuthState (if saves_session status then au_session s' else au_session s)
     (if is_success status then au_vault s' else mkVault (v_db (au_vault s)) (v_draws (au_vault s')))
     (au_keys s')).

(** ** Runs *)

Lemma A_bind_Ok {A B} (m : A_ A) (k : A → A_ B) s b s'' :
  (m ≫= k) s = (Ok b, s'') ↔ ∃ a s', m s = (Ok a, s') ∧ k a s' = (Ok b, s'').
Proof. unfold mbind, A_bind. destruct (m s) as [[a|e] s1]; naive_solver. Qed.

Lemma a_result_Ok {A} (r : result ApiError A) a s s' : a_result r s = (Ok a, s') ↔ r = Ok a ∧ s' = s.
Proof. unfold a_result. naive_solver. Qed.

Lemma a_ensure_Ok b e u s s' : a_ensure b e s = (Ok u, s') ↔ b = true ∧ s' = s.
Proof. destruct u, b; unfold a_ensure, a_throw, mret, A_ret; naive_solver. Qed.

Lemma a_expect_Ok {A} e (o : option A) a s s' : a_expect e o s = (Ok a, s') ↔ o = Some a ∧ s' = s.
Proof. destruct o; unfold a_expect, a_throw, mret, A_ret; naive_solver. Qed.

Lemma a_call_Ok {A} what (r : result Anyhow A) a s s' : a_call what r s = (Ok a, s') ↔ r = Ok a ∧ s' = s.
Proof. unfold a_call. rewrite a_result_Ok. destruct r; naive_solver. Qed.

Lemma a_tx_Ok {A} (m : M Vault ApiError A) a s s' :
  a_tx m s = (Ok a, s') ↔ ∃ v, m (au_vault s) = Ok (a, v) ∧ s' = mkAuthState (au_session s) v (au_keys s).
Proof. unfold a_tx. destruct (m (au_vault s)) as [[b v]|e]; naive_solver. Qed.

Lemma on_db_Ok {E A} (m : M Db E A) a v v' :
  on_db m v = Ok (a, v') ↔ ∃ db, m (v_db v) = Ok (a, db) ∧ v' = mkVault db (v_draws v).
Proof. unfold on_db. destruct (m (v_db v)) as [[b db]|e]; naive_solver. Qed.

Lemma verify_token_Ok cfg token claims s s' :
  verify_token cfg token s = (Ok claims, s') ↔
  ∃ keys, verify (client_id (eve_common (cf_eve_sso cfg))) fetch_jwks token (au_keys s) = (Ok claims, keys) ∧
    s' = mkAuthState (au_session s) (au_vault s) keys.
Proof. unfold verify_token. destruct (verify _ _ _ _) as [[c|e] keys]; naive_solver. Qed.

Lemma find_character_Some db cid k ch :
  find_character db cid = Some (k, ch) → characters db !! k = Some ch ∧ ch_character_id ch = cid.
Proof.
  unfold find_character. intros Hh. apply head_Some_elem_of, elem_of_select_where in Hh as [Hk HP].
  by bool_simpl.
Qed.

(** A transaction that only adds a user. *)
Record adds_user (uid : Uuid) (db db' : Db) : Prop := mkAddsUser {
  add_fresh : users db !! uid = None;
  add_chars : characters db' = characters db
}.

Lemma create_user_run name db uid db' : create_user name db = Ok (uid, db') → adds_user uid db db'.
Proof.
  unfold create_user. intros Hrun. inv_sql. unfold row_exists in *.
  match goal with H : negb (negb (is_none _)) = true |- _ => rewrite negb_involutive in H; apply is_none_true in H end.
  set_simpl. split; [done|].
  match goal with H : when ?b _ _ = _ |- _ => apply when_Ok in H; destruct b end; inv_sql; by subst.
Qed.

(** Whose account a login may end in. *)
Inductive account (db : Db) (cid : Z) (claims : EveClaims) (session_user : option Uuid) (attach : bool)
    (uid : Uuid) : Prop :=
| account_session : session_user = Some uid → account db cid claims session_user attach uid
| account_owner k ch : attach = false → characters db !! k = Some ch → ch_character_id ch = cid →
    ch_owner_hash ch = claim_owner claims → ch_user_id ch = uid → account db cid claims session_user attach uid
| account_new : attach = false → session_user = None → users db !! uid = None →
    account db cid claims session_user attach uid.

Lemma target_user_run cid claims su attach db uid db' :
  target_user (find_character db cid) claims su attach db = Ok (uid, db') →
  account db cid claims su attach uid ∧ characters db' = characters db.
Proof.
  assert (∀ db', (match su with Some sid => mret sid | None => create_user (claim_name claims) end) db
      = Ok (uid, db') → attach = false →
    account db cid claims su attach uid ∧ characters db' = characters db) as Hown.
  { intros db1 Hrun Hat. destruct su as [sid|]; inv_sql; [by split; [apply account_session|]|].
    apply create_user_run in Hrun as [Hf Hc]. split; [by apply account_new|done]. }
  unfold target_user. intros Hrun. destruct attach.
  { inv_sql. split; [by apply account_session|done]. }
  destruct (find_character db cid) as [[k ch]|] eqn:Hfind; [|by apply Hown].
  apply find_character_Some in Hfind as [Hk Hc].
  destruct (ch_owner_hash ch == claim_owner claims) eqn:Hh; [|by apply Hown].
  inv_sql. bool_simpl. split; [by eapply account_owner|done].
Qed.

(** The character now stored for [cid], and every other as it was. *)
Definition stored (db db' : Db) (cid : Z) (uid : Uuid) (claims : EveClaims) : Prop :=
  (∃ k ch, characters db' !! k = Some ch ∧ ch_character_id ch = cid ∧ ch_user_id ch = uid ∧
     ch_owner_hash ch = claim_owner claims ∧ ch_scopes ch = claim_scopes claims) ∧
  ∀ k ch, characters db !! k = Some ch → ch_character_id ch ≠ cid → characters db' !! k = Some ch.

Lemma store_character_run uid cid claims e rt at_ db u db' :
  store_character uid cid claims e rt at_ db = Ok (u, db') → stored db db' cid uid claims.
Proof.
  unfold store_character, stored. intros Hrun. inv_sql.
  destruct (find_character _ cid) as [[k ch]|] eqn:Hfind; inv_sql; set_simpl.
  - apply find_character_Some in Hfind as [Hk Hc]. set_simpl. split.
    + eexists k, _. split; [apply lookup_insert_eq|done].
    + intros k' ch' Hk' Hne. rewrite lookup_insert_ne; [done|congruence].
  - unfold row_exists in *. set_simpl. bool_simpl.
    split; [eexists _, _; split; [apply lookup_insert_eq|done]|].
    intros k' ch' Hk' Hne. rewrite lookup_insert_ne; [done|congruence].
Qed.

Lemma sealed_run c secret cid v x v' : sealed c secret cid v = Ok (x, v') → v_db v' = v_db v.
Proof. unfold sealed, seal, os_rng. intros Hrun. inv_M. done. Qed.

Lemma upsert_character_run c claims tokens su attach cap v uid v' :
  upsert_character c claims tokens su attach cap v = Ok (uid, v') →
  ∃ cid, claim_character_id claims = Ok cid ∧ account (v_db v) cid claims su attach uid ∧
    stored (v_db v) (v_db v') cid uid claims.
Proof.
  unfold upsert_character. intros Hrun. inv_M.
  match goal with H : on_db (query _) _ = _ |- _ => apply on_db_Ok in H as (db0 & Hq & ->) end.
  match goal with H : on_db (target_user _ _ _ _) _ = _ |- _ => apply on_db_Ok in H as (db1 & Ht & ->) end.
  match goal with H : on_db (check_characters_quota _ _ _) _ = _ |- _ => apply on_db_Ok in H as (db2 & Hc & ->) end.
  match goal with H : on_db (sql _) _ = _ |- _ => apply on_db_Ok in H as (db3 & Hs & ->) end.
  repeat match goal with H : sealed _ _ _ _ = _ |- _ => apply sealed_run in H end.
  apply reads_Ok in Hq as [-> ->]. cbn in *. apply target_user_run in Ht as [Ha Hchars].
  assert (db2 = db1) as -> by (unfold check_characters_quota in Hc; apply when_Ok in Hc; case_match; inv_sql; done).
  apply sql_Ok, store_character_run in Hs as [Hnew Hold].
  destruct (claim_character_id claims) as [z|] eqn:Hcid; [|done]. simplify_eq.
  eexists. split; [done|]. split; [done|]. split; [exact Hnew|].
  intros k ch Hk Hne. apply Hold; [|done]. congruence.
Qed.

(** What a callback that succeeds went through. *)
Lemma callback_run cfg c code state s url s' :
  callback cfg c code state s = (Ok url, s') →
  ∃ p tokens claims uid keys v',
    ss_pending (au_session s) = Some p ∧ pa_state p = state ∧
    exchange_code code (pa_code_verifier p) = Ok tokens ∧
    verify (client_id (eve_common (cf_eve_sso cfg))) fetch_jwks (et_access_token tokens) (au_keys s) = (Ok claims, keys) ∧
    (∀ target, pa_target_character_id p = Some target → claim_character_id claims = Ok target) ∧
    upsert_character c claims tokens (ss_user (au_session s)) (pa_attach p) (characters_per_user (cf_limits cfg))
      (au_vault s) = Ok (uid, v') ∧
    url = from_option utf8 "/me" (safe_return_to (pa_return_to p)) ∧
    s' = mkAuthState (mkSession (Some uid) None) v' keys.
Proof.
  unfold callback, session_remove_pending, session_user, session_insert_user, with_session.
  intros (? & ? & [= <- <-] & H)%A_bind_Ok.
  apply A_bind_Ok in H as (p & s1 & [Hp ->]%a_expect_Ok & H).
  apply A_bind_Ok in H as ([] & s2 & [Hst ->]%a_ensure_Ok & H).
  apply A_bind_Ok in H as (tokens & s3 & [Hex ->]%a_call_Ok & H).
  apply A_bind_Ok in H as (claims & s4 & (keys & Hv & ->)%verify_token_Ok & H).
  apply A_bind_Ok in H as ([] & s5 & Htarget & H).
  apply A_bind_Ok in H as (su & s6 & [= <- <-] & H).
  apply A_bind_Ok in H as (uid & s7 & (v' & Hup & ->)%a_tx_Ok & H).
  apply A_bind_Ok in H as (? & ? & [= <- <-] & [= <- <-]).
  assert ((∀ target, pa_target_character_id p = Some target → claim_character_id claims = Ok target) ∧
    s5 = mkAuthState (au_session s <| ss_pending := None |>) (au_vault s) keys) as [Ht ->].
  { destruct (pa_target_character_id p) as [target|]; [|by injection Htarget as <-].
    apply A_bind_Ok in Htarget as (r & s8 & [Hr ->]%a_result_Ok & [Hb ->]%a_ensure_Ok).
    bool_simpl. split; [|done]. intros t [= <-]. by destruct (claim_character_id claims); simplify_eq. }
  bool_simpl. exists p, tokens, claims, uid, keys, v'. split_and!; try done.
Qed.

(** C25 A callback answers the login that this session began, once: it needs the
    state of the pending login, which is gone afterwards, and a token EVE
    issued for the requested character; the session then belongs to the
    account it had, to the account that already holds the character under the
    same owner hash, or to a new one, and the character of the token, and no
    other, is stored under that account. *)
Theorem callback_spec cfg c code state s url s' :
  callback cfg c code state s = (Ok url, s') →
  ∃ p claims cid uid,
    ss_pending (au_session s) = Some p ∧ pa_state p = state ∧
    ss_pending (au_session s') = None ∧ ss_user (au_session s') = Some uid ∧
    claim_character_id claims = Ok cid ∧
    (∃ tokens keys, exchange_code code (pa_code_verifier p) = Ok tokens ∧
       verify (client_id (eve_common (cf_eve_sso cfg))) fetch_jwks (et_access_token tokens) (au_keys s) = (Ok claims, keys)) ∧
    (∀ target, pa_target_character_id p = Some target → target = cid) ∧
    account (v_db (au_vault s)) cid claims (ss_user (au_session s)) (pa_attach p) uid ∧
    stored (v_db (au_vault s)) (v_db (au_vault s')) cid uid claims.
Proof.
  intros (p & tokens & claims & uid & keys & v' & Hp & Hst & Hex & Hv & Ht & Hup & _ & ->)%callback_run.
  apply upsert_character_run in Hup as (cid & Hcid & Ha & Hs).
  exists p, claims, cid, uid. split_and!; eauto. intros target Htg. apply Ht in Htg. congruence.
Qed.

(** A request that does not answer 2xx leaves the database as it was. *)
Lemma respond_rolls_back {A} ok_status (h : A_ A) s :
  is_success ok_status = false → v_db (au_vault (respond ok_status h s).2) = v_db (au_vault s).
Proof.
  intros Hok. unfold respond. destruct (h s) as [[a|e] s1]; cbn [auth_response response_status].
  - by rewrite Hok.
  - by destruct e.
Qed.

(** C26 No login is ever recorded: the callback answers 303 See Other, and the
    middleware commits on 2xx only.  Provided the session layer stores the
    session of a 303 answer (a hypothesis), a first-time user is left with a
    session that names a user who does not exist, to whom [me] answers 401 and
    changes nothing. *)
Theorem first_login_is_lost cfg c code state s url s' :
  saves_session SEE_OTHER = true →
  callback cfg c code state s = (Ok url, s') →
  let s2 := (respond SEE_OTHER (callback cfg c code state) s).2 in
  v_db (au_vault s2) = v_db (au_vault s) ∧
  ss_user (au_session s2) = ss_user (au_session s') ∧
  (∀ uid, ss_user (au_session s') = Some uid → users (v_db (au_vault s)) !! uid = None →
     me s2 = (Err Unauthorized, s2)).
Proof.
  intros Hsave Hrun s2. pose proof (respond_rolls_back SEE_OTHER (callback cfg c code state) s
    eq_refl) as Hdb. fold s2 in Hdb. split; [exact Hdb|].
  assert (au_session s2 = au_session s') as Hs.
  { unfold s2, respond. rewrite Hrun. cbn [auth_response response_status snd au_session]. by rewrite Hsave. }
  rewrite Hs. split; [done|]. intros uid Huid Hnone.
  unfold me, mbind, A_bind, session_user. rewrite Hs, Huid. cbn [a_expect].
  unfold mret, A_ret, a_tx, on_db, me_of, query, reads, mbind, M_bind. rewrite Hdb, Hnone. done.
Qed.

(** A path that is accepted begins with one slash and holds no backslash and
    no line break; so however backslashes are read it names no other host. *)
Lemma safe_return_to_spec r path :
  safe_return_to r = Some path ↔
  r = Some path ∧ (∃ rest, path = 47%N :: rest ∧ head rest ≠ Some 47%N) ∧
  92%N ∉ path ∧ 13%N ∉ path ∧ 10%N ∉ path.
Proof.
  unfold safe_return_to, starts_with, contains. destruct r as [p|]; [|naive_solver]. cbn [mbind option_bind].
  assert (∀ c : N, existsb (N.eqb c) p = false ↔ c ∉ p) as Hex.
  { intros x. rewrite <- not_true_iff_false, existsb_exists. split; intros H H'; apply H.
    - apply list_elem_of_In in H'. exists x. by rewrite N.eqb_refl.
    - destruct H' as (y & Hy & ->%N.eqb_eq). by apply list_elem_of_In. }
  change (str "/") with [47%N]. change (str "//") with [47%N; 47%N]. split.
  - destruct (_ && _) eqn:Hb; [|done]. intros [= ->].
    repeat (apply andb_true_iff in Hb as [Hb ?]). rewrite negb_true_iff, ?orb_false_iff, ?Hex in *.
    destruct path as [|a rest]; [done|]. cbn [strip_prefix] in *.
    destruct (N.eqb_spec 47 a) as [<-|]; [|done]. split; [done|].
    split; [|naive_solver]. exists rest. split; [done|]. destruct rest as [|b rest]; [done|].
    intros [= ->]. done.
  - intros ([= ->] & (rest & -> & Hh) & H1%Hex & H2%Hex & H3%Hex). rewrite H1, H2, H3. cbn [strip_prefix].
    change (47 =? 47)%N with true. destruct rest as [|b rest]; [done|]. cbn [head] in Hh.
    destruct (N.eqb_spec 47 b); [congruence|done].
Qed.

(** But browsers also drop tabs from a URL, and a path may hold one. *)
Definition without_tabs (s : Str) : Str := List.filter (λ c, negb (c =? 9)%N) s.
Lemma tab_escapes_site :
  let path := str "/" ++ [9%N] ++ str "/evil.com" in
  safe_return_to (Some path) = Some path ∧ without_tabs path = str "//evil.com".
Proof. split; reflexivity. Qed.

(** The merged scopes are those of the three sources, each once. *)
Lemma merge_upgrade_scopes_spec login existing requested :
  NoDup (merge_upgrade_scopes login existing requested) ∧
  ∀ s, s ∈ merge_upgrade_scopes login existing requested ↔ s ∈ login ∨ s ∈ existing ∨ s ∈ requested.
Proof.
  unfold merge_upgrade_scopes, sort_by. split.
  - rewrite merge_sort_Permutation. apply NoDup_remove_dups.
  - intros s. rewrite merge_sort_Permutation, elem_of_remove_dups, !elem_of_app. done.
Qed.
End Auth.

(** ** Login requests among the ledger's steps *)
Section Steps.
Context `{RT : Runtime} {AE : Aead} {JL : JwtLib} {SO : Sso}.
Context {API : EsiApi} {MA : MarketApi} {CFG : AppConfig} {RD : RustDecimal}
  {IC : InviteCodes} {CE : CorpEsi} {SA : ShareArith}.

(** The only route of this file that commits a change moves the database by one
    step of the ledger's execution. *)
Lemma set_active_character_step character_id s :
  step (v_db (au_vault s)) (v_db (au_vault (respond 200 (set_active_character character_id) s).2)).
Proof.
  unfold respond. destruct (set_active_character character_id s) as [[r|e] s1] eqn:Hrun.
  2:{ destruct e; by apply step_other. }
  cbn [auth_response response_status is_success]. change (is_success 200) with true. cbn [snd au_vault].
  unfold set_active_character in Hrun. apply A_bind_Ok in Hrun as (user & s2 & H1 & Hrun).
  unfold session_user in H1. injection H1 as <- <-.
  apply A_bind_Ok in Hrun as (uid & s2 & [_ ->]%a_expect_Ok & Hrun).
  apply A_bind_Ok in Hrun as (u & s2 & (v & Hv & ->)%a_tx_Ok & (v2 & Hv2 & ->)%a_tx_Ok).
  apply on_db_Ok in Hv as (db & Hdo & ->). apply on_db_Ok in Hv2 as (db2 & Hme & ->).
  cbn [au_vault v_db] in *. unfold me_of in Hme. inv_sql. subst.
  unfold do_set_active_character in Hdo. inv_sql. subst.
  case_match; [apply step_account|by apply step_other].
Qed.
End Steps.

(** ** Witnesses *)
Section Witnesses.
#[local] Existing Instance fixture_runtime.
#[local] Existing Instance fixture_aead.

Definition fixture_claims : EveClaims :=
  mkEveClaims (str "CHARACTER:EVE:777") "Dave Pilot" "owner-hash" (Scopes_One (str "publicData")).

(** A key set with one key, under which any token carries these claims. *)
#[local] Instance fixture_jwt : JwtLib := {|
  Jwk := unit;
  JwkSet := unit;
  find_jwk _ kid := if kid == "JWT-Signature-Key" then Some tt else None;
  key_algorithm _ := Some "RS256";
  from_jwk _ := true;
  known_algorithm _ := true;
  decode_header _ := Some (Some "JWT-Signature-Key");
  decode _ _ _ _ := Some fixture_claims
|}.

#[local] Instance fixture_sso : Sso := {|
  authorize_url _ _ := Ok (mkPkceChallenge "https://login.eveonline.com/v2/oauth/authorize" "xyz" "verifier");
  exchange_code _ _ := Ok (mkEsiTokens "access" "refresh" 900);
  fetch_jwks := Ok tt;
  post_form _ _ := Ok (mkVerifyResponse true []);
  saves_session status := (status <? 500)%Z
|}.

Definition fixture_auth_cfg : Config :=
  mkConfig (mkServerConfig "0.0.0.0:8080" true) "" ""
    (mkEveSsoConfig (mkEveSsoCommonCfg "client" "secret") "https://jitacart.example/auth/eve/callback"
       default_login_scopes [])
    (mkEsiConfig (mkEsiCommonCfg "jitacart") PollIntervals_default) None None RateLimitConfig_default
    AbuseLimits_default TurnstileConfig_default MetricsConfig_default.

(** A first-time visitor who has just been sent to EVE. *)
Definition visitor : AuthState :=
  (login fixture_auth_cfg None (mkLoginQuery false (Some (str "/groups")) (Some "cf"))
     (mkAuthState (mkSession None None) (mkVault base_db 0) None)).2.

Definition visit : A_ string := callback fixture_auth_cfg new_cipher "code" "xyz".

Lemma visit_runs : ∃ url s', visit visitor = (Ok url, s').
Proof.
  assert (is_ok (visit visitor).1 = true) as [url H]%is_ok_run by (vm_compute; reflexivity).
  exists url, (visit visitor).2. by rewrite <- H, <- surjective_pairing.
Qed.

Lemma callback_spec_witness :
  ∃ s' k ch, (visit visitor).2 = s' ∧ characters (v_db (au_vault s')) !! k = Some ch ∧
    ch_character_id ch = 777%Z ∧ ch_owner_hash ch = "owner-hash".
Proof.
  destruct visit_runs as (url & s' & Hrun).
  destruct (callback_spec _ _ _ _ _ _ _ Hrun)
    as (p & claims & cid & uid & _ & _ & _ & _ & Hcid & (tokens & keys & _ & Hv) & _ & _ & (k & ch & Hk & Hc & _ & Ho & _) & _).
  vm_compute in Hv. injection Hv as <- <-. vm_compute in Hcid. injection Hcid as <-.
  exists s', k, ch. rewrite Hrun. split; [reflexivity|]. split; [exact Hk|]. split; [exact Hc|exact Ho].
Defined.

Lemma first_login_is_lost_witness :
  let s2 := (respond SEE_OTHER visit visitor).2 in
  is_none (ss_user (au_session s2)) = false ∧ me s2 = (Err Unauthorized, s2).
Proof.
  destruct visit_runs as (url & s' & Hrun).
  destruct (first_login_is_lost (SO := fixture_sso) fixture_auth_cfg new_cipher "code" "xyz" visitor url s'
    eq_refl Hrun) as (_ & Hu & Hme).
  assert (au_session s' = mkSession (Some 1000%N) None) as Hs.
  { transitivity (au_session (visit visitor).2); [by rewrite Hrun|]. vm_compute. reflexivity. }
  rewrite Hs in *. split; [exact (f_equal is_none Hu)|].
  apply (Hme 1000%N); [reflexivity|]. vm_compute. reflexivity.
Defined.
End Witnesses.
