(* ===== verification/Citadels.v ===== *)
(** * Citadel routes

    [crates/api/src/citadels.rs] and [markets.rs]: the search over public
    citadels, a group's tracked markets, and the markets a user or a group may
    choose from. *)

From Stdlib Require Import ZArith Lia Ascii.
From stdpp Require Import base tactics decidable option list gmap strings sorting.
From S2P Require Import Prelude Effect Unicode Domain Host Schema Fixtures Errors Extract Detail.

Local Open Scope string_scope.
Local Open Scope list_scope.

(** ** LIKE *)

Definition backslash : N := 92.
Definition percent : N := 37.
Definition underscore : N := 95.

(** PostgreSQL's [LIKE], on characters. *)
Fixpoint like (p s : Str) {struct p} : bool :=
  match p with
  | [] => bool_decide (s = [])
  | c :: p' =>
      if (c =? percent)%N then
        (fix any (s : Str) : bool :=
           like p' s || match s with [] => false | _ :: s' => any s' end) s
      else if (c =? underscore)%N then
        match s with [] => false | _ :: s' => like p' s' end
      else if (c =? backslash)%N then
        match p', s with
        | d :: p'', x :: s' => (x =? d)%N && like p'' s'
        | _, _ => false
        end
      else match s with [] => false | x :: s' => (x =? c)%N && like p' s' end
  end.

(** [trimmed.replace('\\', ..).replace('%', ..).replace('_', ..)]. *)
Definition escape_one (c : N) (s : Str) : Str := x ← s; if (x =? c)%N then [backslash; c] else [x].
Definition escaped (s : Str) : Str :=
  escape_one underscore (escape_one percent (escape_one backslash s)).
Definition search_pattern (q : Str) : Str := [percent] ++ escaped q ++ [percent].

(** The characters of a UTF-8 text. *)
Fixpoint decode_utf8 (bs : list N) : Str :=
  match bs with
  | [] => []
  | b :: r =>
      if (b <? 0x80)%N then b :: decode_utf8 r
      else if (b <? 0xE0)%N then
        match r with
        | c :: r => ((b - 0xC0) * 64 + (c - 0x80))%N :: decode_utf8 r
        | _ => []
        end
      else if (b <? 0xF0)%N then
        match r with
        | c :: d :: r => ((b - 0xE0) * 4096 + (c - 0x80) * 64 + (d - 0x80))%N :: decode_utf8 r
        | _ => []
        end
      else
        match r with
        | c :: d :: e :: r =>
            ((b - 0xF0) * 262144 + (c - 0x80) * 4096 + (d - 0x80) * 64 + (e - 0x80))%N :: decode_utf8 r
        | _ => []
        end
  end.
Definition chars_of (s : string) : Str := decode_utf8 (N_of_ascii <$> String.list_ascii_of_string s).

(** The database's lower case of a character, for [ILIKE]. *)
Class CharLower := lower_char : N → N.
Definition is_meta (c : N) : bool := bool_decide (c ∈ [backslash; percent; underscore]).

Section Citadels.
Context `{RT : Runtime} {CL : CharLower}.

Definition lower (s : Str) : Str := lower_char <$> s.
Definition ilike (name : string) (pattern : Str) : bool := like (lower pattern) (lower (chars_of name)).

(** ** Search *)

Record CitadelSearchHit := mkCitadelSearchHit {
  hit_market_id : Uuid;
  hit_name : string;
  hit_short_label : option string;
  hit_region_id : option Z;
  hit_solar_system_id : option Z;
  hit_structure_type_id : option Z;
  hit_is_public : bool;
  hit_tracked : bool
}.

Definition group_tracks (db : Db) (group_id market_id : Uuid) : bool :=
  row_exists (group_tracked_markets db) (group_id, market_id).

Definition searchable (pattern : Str) (m : MarketRow) : bool :=
  (m_kind m == PublicStructure) && m_is_public m && negb (is_none (m_details_synced_at m)) &&
  match m_name m with Some name => ilike name pattern | None => false end.

(** [ORDER BY tracked DESC, m.name LIMIT 25]. *)
Definition hit_before (a b : CitadelSearchHit) : bool :=
  (hit_tracked a && negb (hit_tracked b)) ||
  (Bool.eqb (hit_tracked a) (hit_tracked b) && collate_leb (hit_name a) (hit_name b)).

Definition hit_of (db : Db) (group_id : Uuid) (km : Uuid * MarketRow) : CitadelSearchHit :=
  let '(id, m) := km in
  mkCitadelSearchHit id (from_option (λ x, x) "" (m_name m)) (m_short_label m) (m_region_id m)
    (m_solar_system_id m) (m_structure_type_id m) (m_is_public m) (group_tracks db group_id id).

Definition search (cur : CurrentGroup) (q : Str) : Handler (list CitadelSearchHit) :=
  let trimmed := trim q in
  if bool_decide (trimmed = []) then mret []
  else
    _ ← ensure (byte_len trimmed <=? 100)%nat (BadRequest "query too long");
    query (λ db, take 25 (sort_by hit_before
      (hit_of db (cg_group_id cur) <$>
         select_where (λ _ m, searchable (search_pattern trimmed) m) (markets db)))).

(** ** Tracking *)

Definition require_owner (cur : CurrentGroup) : result ApiError unit :=
  if cg_role cur == Owner then Ok tt else Err (Forbidden "owner only").

Definition track (cur : CurrentGroup) (market_id : Uuid) : Handler unit :=
  _ ← of_result (require_owner cur);
  row ← query (λ db, markets db !! market_id);
  m ← expect not_found row;
  _ ← ensure ((m_kind m == PublicStructure) && m_is_public m && negb (is_none (m_details_synced_at m)))
        (BadRequest "market is not a tracked-eligible public citadel");
  _ ← sql (foreign_key (λ db, row_exists (groups db) (cg_group_id cur))
             "group_tracked_markets_group_id_fkey");
  _ ← sql (foreign_key (λ db, row_exists (users db) (cg_user_id cur))
             "group_tracked_markets_added_by_user_id_fkey");
  known ← query (λ db, group_tracks db (cg_group_id cur) market_id);
  when (negb known) (execute (λ db, db <| group_tracked_markets ::=
    <[(cg_group_id cur, market_id) := mkTrackedMarketRow (cg_user_id cur) (db_now db)]> |>)).

Definition untrack (cur : CurrentGroup) (market_id : Uuid) : Handler unit :=
  _ ← of_result (require_owner cur);
  hit ← query (λ db, group_tracks db (cg_group_id cur) market_id);
  _ ← execute (λ db, db <| group_tracked_markets ::= delete (cg_group_id cur, market_id) |>);
  ensure hit not_found.

(** ** Lists of markets *)

(** The LATERAL join: the member's character with access checked last. *)
Definition accessing_rows (db : Db) (group_id market_id : Uuid) : list (Uuid * CharacterRow * CsaRow) :=
  omap (λ kc, a ← character_structure_access db !! (kc.1, market_id);
              if csa_market_status a == Access_Ok then Some (kc.1, kc.2, a) else None)
    (select_where (λ _ ch, is_member db group_id (ch_user_id ch)) (characters db)).

(** [ORDER BY market_checked_at DESC NULLS LAST LIMIT 1]. *)
Definition accessing_character (db : Db) (group_id market_id : Uuid) : option (Uuid * CharacterRow) :=
  r ← head (sort_by (λ a b, le_nulls_last (λ x y, y <=? x)%Z
        (csa_market_checked_at a.2) (csa_market_checked_at b.2)) (accessing_rows db group_id market_id));
  Some r.1.

Record TrackedMarket := mkTrackedMarket {
  tr_market_id : Uuid;
  tr_row : MarketRow;
  tr_accessing : option (Uuid * CharacterRow)
}.

Definition tracked_rows (db : Db) (group_id : Uuid) : list (Uuid * MarketRow) :=
  select_where (λ id _, group_tracks db group_id id) (markets db).

Definition list_tracked (cur : CurrentGroup) : Handler (list TrackedMarket) :=
  query (λ db, (λ km, mkTrackedMarket km.1 km.2 (accessing_character db (cg_group_id cur) km.1)) <$>
    sort_by (λ a b, le_nulls_last collate_leb (m_name a.2) (m_name b.2))
      (tracked_rows db (cg_group_id cur))).

(** [ORDER BY is_hub DESC, short_label], NULLs last. *)
Definition market_before (a b : Uuid * MarketRow) : bool :=
  (m_is_hub a.2 && negb (m_is_hub b.2)) ||
  (Bool.eqb (m_is_hub a.2) (m_is_hub b.2) &&
   le_nulls_last collate_leb (m_short_label a.2) (m_short_label b.2)).

Definition hubs (db : Db) : list (Uuid * MarketRow) :=
  select_where (λ _ m, m_is_public m && (m_kind m == NpcHub)) (markets db).

Definition list_global : Handler (list Market) :=
  query (λ db, (λ km, into_market km.1 km.2) <$> sort_by market_before (hubs db)).

Record GroupMarket := mkGroupMarket {
  gmk_market : Market;
  gmk_last_orders_synced_at : option Timestamp;
  gmk_untrackable_until : option Timestamp;
  gmk_accessing : option (Uuid * CharacterRow)
}.

Definition into_group_market (r : Uuid * MarketRow * option (Uuid * CharacterRow)) : GroupMarket :=
  let '(id, m, acc) := r in
  mkGroupMarket (into_market id m) (m_last_orders_synced_at m) (m_untrackable_until m) acc.

Definition list_for_group (cur : CurrentGroup) : Handler (list GroupMarket) :=
  query (λ db, into_group_market <$> sort_by (λ a b, market_before a.1 b.1)
    (((λ km, (km, None)) <$> hubs db) ++
     ((λ km, (km, accessing_character db (cg_group_id cur) km.1)) <$> tracked_rows db (cg_group_id cur)))).

(** ** The search is for the text itself *)

(** Lower case changes letters only. *)
Definition lower_ok : Prop :=
  ∀ c, is_meta (lower_char c) = is_meta c ∧ (is_meta c = true → lower_char c = c).

Definition escape_char (c : N) : Str := if is_meta c then [backslash; c] else [c].

Lemma escaped_chars s : escaped s = s ≫= escape_char.
Proof.
  unfold escaped. induction s as [|c s IH]; [done|]. unfold escape_one in *. rewrite !bind_cons.
  rewrite !bind_app, IH. f_equal. unfold escape_char, is_meta.
  destruct (N.eqb_spec c backslash) as [->|]; [done|]. rewrite bind_cons. cbn [mbind list_bind app].
  destruct (N.eqb_spec c percent) as [->|]; [done|]. cbn [mbind list_bind app].
  destruct (N.eqb_spec c underscore) as [->|]; [done|]. cbn [mbind list_bind app].
  rewrite bool_decide_eq_false_2; [done|]. set_solver.
Qed.

Lemma like_escaped q p s :
  like ((q ≫= escape_char) ++ p) s = true ↔ ∃ t, s = q ++ t ∧ like p t = true.
Proof.
  revert s. induction q as [|c q IH]; intros s.
  - cbn. naive_solver.
  - rewrite bind_cons, <- app_assoc. unfold escape_char at 1. destruct (is_meta c) eqn:Hm.
    + cbn [app like]. change (backslash =? percent)%N with false. change (backslash =? underscore)%N with false.
      change (backslash =? backslash)%N with true. destruct s as [|x s]; [split; [done|by intros (? & [=] & _)]|].
      rewrite andb_true_iff, N.eqb_eq, IH. naive_solver.
    + unfold is_meta in Hm. apply bool_decide_eq_false in Hm. cbn [app like].
      destruct (N.eqb_spec c percent); [set_solver|]. destruct (N.eqb_spec c underscore); [set_solver|].
      destruct (N.eqb_spec c backslash); [set_solver|].
      destruct s as [|x s]; [split; [done|by intros (? & [=] & _)]|].
      rewrite andb_true_iff, N.eqb_eq, IH. naive_solver.
Qed.

Lemma like_percent p s : like (percent :: p) s = true ↔ ∃ a b, s = a ++ b ∧ like p b = true.
Proof.
  cbn [like]. change (percent =? percent)%N with true. cbv iota. induction s as [|x s IH].
  - rewrite orb_false_r. split; [intros H; by exists [], []|].
    by intros ([|] & b & Heq & H); [cbn in Heq; subst|].
  - rewrite orb_true_iff, IH. split.
    + intros [H|(a & b & -> & H)]; [by exists [], (x :: s)|by exists (x :: a), b].
    + intros ([|y a] & b & Heq & H); cbn in Heq; [subst; by left|]. injection Heq as -> ->. right. eauto.
Qed.

Lemma like_search q s : like (search_pattern q) s = true ↔ ∃ a b, s = a ++ q ++ b.
Proof.
  unfold search_pattern. rewrite escaped_chars. cbn [app]. rewrite like_percent. setoid_rewrite like_escaped.
  split.
  - intros (a & t & -> & b & -> & _). eauto.
  - intros (a & b & ->). exists a, (q ++ b). split; [done|]. exists b. split; [done|].
    apply (like_percent []). exists b, []. by rewrite app_nil_r.
Qed.

Lemma lower_pattern q : lower_ok → lower (search_pattern q) = search_pattern (lower q).
Proof.
  intros Hl. unfold search_pattern, lower. rewrite !fmap_app. cbn [fmap list_fmap].
  rewrite (proj2 (Hl percent) eq_refl). f_equal. f_equal. rewrite !escaped_chars.
  induction q as [|c q IH]; [done|]. rewrite fmap_cons, !bind_cons, fmap_app, IH. f_equal.
  unfold escape_char. destruct (Hl c) as [-> Hc]. destruct (is_meta c) eqn:Hm; [|done].
  cbn. by rewrite (Hc eq_refl), (proj2 (Hl backslash) eq_refl).
Qed.

(** A hit's name holds the query as it was typed, but for case: a percent sign
    or an underscore in it stands for itself. *)
Lemma search_literal q name :
  lower_ok → ilike name (search_pattern q) = true ↔ ∃ a b, lower (chars_of name) = a ++ lower q ++ b.
Proof. intros Hl. unfold ilike. rewrite lower_pattern by done. apply like_search. Qed.
End Citadels.
