(* ===== verification/Isolation.v ===== *)
(** * Isolation of tenants

    The routes of [crates/api/src/] that write, for a caller who is not a
    member of a group: none of the group's rows changes.  [Route] has them all:
    the requests and deletions of [Ledger] and the settings below, which are
    the rest of those that are not GET ([Auth.logout] touches the session
    only).  Of the GET routes the login callback alone writes, and its
    transaction is rolled back ([Auth.respond_rolls_back]).  The requests
    [exposed] names are the four whose handlers look further than the groups of
    their caller. *)

From Stdlib Require Import ZArith Lia.
From stdpp Require Import base tactics decidable option list gmap relations strings pretty.
From S2P Require Import Prelude Effect Unicode Money Domain Host Schema Fixtures Errors.
From S2P Require Import Outbox Auth Citadels.
From S2P Require Import Market Config Extract Webhooks Detail Pricing Settlement Wallet Fulfillment Claims.
From S2P Require Import Reimbursements Fulfillments Contracts Poller Matching Lists Items Groups Corps.
From S2P Require Import Within Invariant Preservation Purchases DebtSteps Edits Prunes Editing Growth Ledger.
From S2P Require Import Locality Membership Tenancy TenantDebts TenantLists TenantGroups.

Local Open Scope string_scope.

(** ** Routes beside the ledger's *)

(** The webhook of a group (webhooks.rs), the markets it tracks (citadels.rs)
    and the caller's active character (auth.rs). *)
Inductive Setting :=
| UpsertWebhook (group_id : Uuid) (body : WebhookConfig)
| DeleteWebhook (group_id : Uuid)
| TrackMarket (group_id market_id : Uuid)
| UntrackMarket (group_id market_id : Uuid)
| SetActiveCharacter (character_id : option Uuid).

Inductive Route :=
| OnLedger (req : Request)
| OnDeletion (d : Deletion)
| OnSetting (s : Setting).

(** A webhook error as the error of the same response. *)
Definition webhook_error (e : WebhookError) : ApiError :=
  match e with
  | We_BadRequest msg => BadRequest msg
  | We_Forbidden => Forbidden "owner only"
  | We_Db e => Internal (DbError_to_string e)
  | We_Send e => Internal e
  end.

Lemma webhook_error_response e : into_response (webhook_error e) = webhook_response e.
Proof. by destruct e. Qed.

Section Isolation.
Context `{RT : Runtime} {API : EsiApi} {MA : MarketApi} {CFG : AppConfig} {RD : RustDecimal}
  {IC : InviteCodes} {CE : CorpEsi} {SA : ShareArith}.
Implicit Types (db : Db).

(** ** What a request names outside its caller's groups *)

(** A debt of the group is bound to the contract. *)
Definition contract_in_group db (g cid : Uuid) : bool :=
  sel_exists (λ _ r, bound_to cid r && list_of_group db g (r_list_id r)) (reimbursements db).

(** A suggestion confirmed for the contract is about a debt of the group. *)
Definition confirmed_in_group db (g cid : Uuid) : bool :=
  sel_exists (λ _ s, (s_contract_id s == cid) && (s_state s == Match_Confirmed) &&
    match reimbursements db !! s_reimbursement_id s with
    | Some r => list_of_group db g (r_list_id r) | None => false end) (contract_match_suggestions db).

(** The caller holds the group's invite code, or names a contract that a debt
    of the group is, or was, linked to. *)
Definition exposed (g : Uuid) db (req : Request) : bool :=
  match req with
  | JoinGroup code =>
      match groups db !! g with Some row => g_invite_code row == code | None => false end
  | ConfirmSuggestion sid =>
      match contract_match_suggestions db !! sid with
      | Some s => contract_in_group db g (s_contract_id s) | None => false end
  | ManualLink cid _ => contract_in_group db g cid
  | UnlinkContract cid => confirmed_in_group db g cid
  | _ => false
  end.

Definition outsider (session : option Uuid) (g : Uuid) db : Prop :=
  ∀ user, session = Some user → stranger g user db.

(** ** Routes *)

Definition handle_setting (session : option Uuid) (s : Setting) : Handler unit :=
  match s with
  | UpsertWebhook id body =>
      on_path_group session id (λ cur, map_err webhook_error (upsert_webhook cur body))
  | DeleteWebhook id => on_path_group session id (λ cur, map_err webhook_error (delete_webhook cur))
  | TrackMarket id market => on_path_group session id (λ cur, track cur market)
  | UntrackMarket id market => on_path_group session id (λ cur, untrack cur market)
  | SetActiveCharacter character =>
      as_user session (λ user, _ ← do_set_active_character user character; me_of user)
  end.

(** Every route that writes. *)
Definition handle_any (session : option Uuid) (q : Route) : Handler unit :=
  match q with
  | OnLedger req => handle session req
  | OnDeletion d => handle_deletion session d
  | OnSetting s => handle_setting session s
  end.

Section Group.
Context (g : Uuid).

Lemma list_of_group_false db lid : list_of_group db g lid = false ↔ off_list g lid db.
Proof.
  unfold list_of_group, off_list, list_of. destruct (lists db !! lid) as [l|].
  - rewrite bool_decide_eq_false. split; [intros Hn (l' & [= <-] & Hg); done|].
    intros Hn Hg. apply Hn. by exists l.
  - split; [by intros _ (l & ? & _)|done].
Qed.

Lemma contract_in_group_false db cid : contract_in_group db g cid = false → off_contract g cid db.
Proof.
  unfold contract_in_group. rewrite sel_exists_false. intros Hall rid r Hr Hb. specialize (Hall _ _ Hr).
  rewrite Hb in Hall. by apply list_of_group_false.
Qed.

Lemma confirmed_in_group_false db cid : confirmed_in_group db g cid = false → off_confirmed g cid db.
Proof.
  unfold confirmed_in_group. rewrite sel_exists_false. intros Hall sid s Hs Hc Hst (r & Hr & Hg).
  specialize (Hall _ _ Hs). rewrite Hc, Hst, Hr, !bool_decide_eq_true_2 in Hall by done.
  apply list_of_group_false in Hall. by apply Hall.
Qed.

Lemma on_path_list_kept {A} session id (h : CurrentList → Handler A) db u db' :
  on_path_list session id h db = Ok (u, db') → outsider session g db →
  ∃ cur a, h cur db = Ok (a, db') ∧ off_list g (cur_list_id cur) db ∧ cur_group_id cur ≠ g.
Proof.
  unfold on_path_list. intros Hrun Ho. inv_M.
  match goal with H : extract_list _ _ _ _ = _ |- _ => apply extract_list_Ok in H as (-> & Hex & Hs) end.
  apply Ho in Hs. apply (list_extracted_off g) in Hex as [? ?]; eauto.
Qed.

Lemma on_path_group_kept {A} session id (h : CurrentGroup → Handler A) db u db' :
  on_path_group session id h db = Ok (u, db') → outsider session g db →
  ∃ cur a, h cur db = Ok (a, db') ∧ cg_group_id cur ≠ g.
Proof.
  unfold on_path_group. intros Hrun Ho. inv_M.
  match goal with H : extract_group _ _ _ _ = _ |- _ => apply extract_group_Ok in H as (-> & Hex & Hs) end.
  apply Ho in Hs. eapply (stranger_role g) in Hex; eauto.
Qed.

Lemma on_path_claim_kept {A} session id (h : CurrentClaim → Handler A) db u db' :
  on_path_claim session id h db = Ok (u, db') → outsider session g db →
  ∃ cur a, h cur db = Ok (a, db') ∧ off_list g (cc_list_id cur) db ∧ off_claim g (cc_claim_id cur) db.
Proof.
  unfold on_path_claim. intros Hrun Ho. inv_M.
  match goal with H : extract_claim _ _ _ _ = _ |- _ => apply extract_claim_Ok in H as (-> & Hex & Hs) end.
  apply Ho in Hs. apply (claim_extracted_off g) in Hex as [? ?]; eauto.
Qed.

Lemma as_user_kept {A} session (h : Uuid → Handler A) db u db' :
  as_user session h db = Ok (u, db') → outsider session g db →
  ∃ user a, h user db = Ok (a, db') ∧ stranger g user db.
Proof. unfold as_user, current_user. intros Hrun Ho. inv_M. eauto. Qed.
End Group.

Ltac tenant_route :=
  match goal with
  | H : on_path_list _ _ _ _ = _, Ho : outsider _ _ _ |- _ =>
      destruct (on_path_list_kept _ _ _ _ _ _ _ H Ho) as (cur & a & Hrun & Hoff & Hg)
  | H : on_path_group _ _ _ _ = _, Ho : outsider _ _ _ |- _ =>
      destruct (on_path_group_kept _ _ _ _ _ _ _ H Ho) as (cur & a & Hrun & Hg)
  | H : on_path_claim _ _ _ _ = _, Ho : outsider _ _ _ |- _ =>
      destruct (on_path_claim_kept _ _ _ _ _ _ _ H Ho) as (cur & a & Hrun & Hoff & Hc)
  | H : as_user _ _ _ = _, Ho : outsider _ _ _ |- _ =>
      destruct (as_user_kept _ _ _ _ _ _ H Ho) as (user & a & Hrun & Hs)
  end.

#[local] Hint Resolve kept_create_claim kept_add_claim_items kept_remove_claim_item kept_release_claim
  kept_record_fulfillment kept_reverse_fulfillment kept_mark_delivered kept_set_list_tip
  kept_settle_reimbursement kept_set_group_default_tip kept_manual_link kept_reject kept_unlink
  kept_create kept_patch_list_payer kept_create_group kept_leave kept_rotate_invite
  contract_in_group_false confirmed_in_group_false : tenants.
#[local] Hint Extern 2 (kept _ _ _) =>
  match goal with
  | H : preview _ _ _ = _ |- _ => by eapply kept_preview
  | H : patch_list _ _ _ = _ |- _ => by eapply kept_patch_list
  | H : replace_markets _ _ _ = _ |- _ => by eapply kept_replace_markets
  | H : add_items _ _ _ = _ |- _ => by eapply kept_add_items
  | H : patch_item _ _ _ _ = _ |- _ => by eapply kept_patch_item
  | H : link_corp _ _ _ = _ |- _ => by eapply kept_link_corp
  | H : unlink_corp _ _ _ = _ |- _ => by eapply kept_unlink_corp
  | H : add_ambassador _ _ _ _ = _ |- _ => by eapply kept_add_ambassador
  | H : remove_ambassador _ _ _ _ = _ |- _ => by eapply kept_remove_ambassador
  end : tenants.

Lemma handle_kept g session (req : Request) db u db' :
  handle session req db = Ok (u, db') → Inv db → is_Some (groups db !! g) → outsider session g db →
  exposed g db req = false → kept g db db'.
Proof.
  destruct req; cbn [handle exposed]; intros Hreq Hinv Hgr Ho He; tenant_route; eauto with tenants.
  - destruct (contract_match_suggestions db !! suggestion_id) as [s|] eqn:Hsid.
    + eapply kept_confirm; eauto with tenants.
    + unfold confirm_suggestion, do_confirm, confirm_row in Hrun. inv_sql. by rewrite Hsid in *.
  - eapply kept_join_group; [exact Hrun|]. intros row Hrow. rewrite Hrow in He. by bool_simpl.
Qed.

Lemma handle_deletion_kept g session d db u db' :
  handle_deletion session d db = Ok (u, db') → Inv db → claims_local db → outsider session g db →
  kept g db db'.
Proof.
  destruct d; cbn [handle_deletion]; intros Hreq Hinv Hl Ho; tenant_route;
    eauto using kept_delete_list, kept_delete_item, kept_delete_group.
Qed.

(** ** Settings *)

Lemma kept_upsert_webhook g cur body db c db' :
  upsert_webhook cur body db = Ok (c, db') → cg_group_id cur ≠ g → kept g db db'.
Proof.
  unfold upsert_webhook, do_upsert_webhook. intros Hrun Hg. inv_sql. keep. by apply same_on_insert.
Qed.

Lemma kept_delete_webhook g cur db u db' :
  delete_webhook cur db = Ok (u, db') → cg_group_id cur ≠ g → kept g db db'.
Proof.
  unfold delete_webhook, do_delete_webhook. intros Hrun Hg. inv_sql. keep. by apply same_on_delete.
Qed.

Lemma kept_track g cur market db u db' :
  track cur market db = Ok (u, db') → cg_group_id cur ≠ g → kept g db db'.
Proof.
  unfold track. intros Hrun Hg. inv_sql. apply when_Ok in Hrun. case_match; inv_sql; [|by subst].
  keep. by apply same_on_insert.
Qed.

Lemma kept_untrack g cur market db u db' :
  untrack cur market db = Ok (u, db') → cg_group_id cur ≠ g → kept g db db'.
Proof. unfold untrack. intros Hrun Hg. inv_sql. keep. by apply same_on_delete. Qed.

Lemma kept_set_active g user character db u db' :
  do_set_active_character user character db = Ok (u, db') → kept g db db'.
Proof.
  unfold do_set_active_character. intros Hrun. inv_sql.
  match goal with H : _ && _ = true |- _ => apply andb_prop in H as [_ ->] end. by keep.
Qed.

Lemma me_of_Ok user db r db' : me_of user db = Ok (r, db') → db' = db.
Proof. unfold me_of. intros Hrun. by inv_sql. Qed.

Lemma handle_setting_kept g session s db u db' :
  handle_setting session s db = Ok (u, db') → outsider session g db → kept g db db'.
Proof.
  destruct s; cbn [handle_setting]; intros Hreq Ho; tenant_route; rewrite ?map_err_Ok in Hrun.
  - by eapply kept_upsert_webhook.
  - by eapply kept_delete_webhook.
  - by eapply kept_track.
  - by eapply kept_untrack.
  - inv_M. match goal with H : me_of _ _ = _ |- _ => apply me_of_Ok in H as -> end.
    by eapply kept_set_active.
Qed.

(** ** Isolation *)

Definition outside (g : Uuid) db (q : Route) : Prop :=
  match q with OnLedger req => exposed g db req = false | _ => True end.

(** C4 Tenants are isolated: in every reachable state, on every route that
    writes, deletions and settings included, whatever a caller who is not a
    member of a group sends, the group's row, members, webhook, tracked
    markets, corporation links, lists, list markets, items, claims, purchases,
    debts, suggestions and queued events are the same rows afterwards.  The requests
    set aside are joining with the group's own invite code, and confirming,
    making or removing the link of a contract that a debt of the group is
    linked to. *)
Theorem tenant_isolation g session q now utc db :
  reachable db → is_Some (groups db !! g) → outsider session g db → outside g db q →
  kept g db (tx_middleware (handle_any session q) (at_clock now utc db)).2.
Proof.
  intros Hr Hg Ho Hq. pose proof (reachable_Inv _ Hr) as Hinv. rewrite (at_clock_ledger now utc db) in Hinv.
  assert (claims_local (at_clock now utc db)) as Hl by apply (reachable_local _ Hr).
  transitivity (at_clock now utc db); [by split|]. unfold tx_middleware. cbn.
  destruct (handle_any session q _) as [[u db']|e] eqn:Hs; cbn; [|done].
  destruct q as [req|d|s];
    [by eapply handle_kept|by eapply handle_deletion_kept|by eapply handle_setting_kept].
Qed.
End Isolation.

(** ** Witnesses *)

Section Witnesses.
#[local] Existing Instance fixture_runtime.
#[local] Existing Instance fixture_api.
#[local] Existing Instance fixture_market.
#[local] Existing Instance fixture_config.
#[local] Existing Instance fixture_decimal.
#[local] Existing Instance fixture_codes.
#[local] Existing Instance fixture_corp_esi.
#[local] Existing Instance fixture_shares.

(** Carol has a group of her own; Alice deletes the one they share. *)
Definition two_groups_db : Db := run_request open_db (3%N, CreateGroup (str "Crew")).
Definition one_group_db : Db :=
  (tx_middleware (handle_any (Some 1%N) (OnDeletion (DeleteGroup 10))) (at_clock 100 101 two_groups_db)).2.

Lemma two_groups_db_reachable : reachable two_groups_db.
Proof. apply run_request_reachable; [exact I|apply open_db_reachable]. Qed.

Lemma tenant_isolation_witness :
  kept 1007 two_groups_db one_group_db ∧ row_exists (groups two_groups_db) 10%N = true ∧
  row_exists (groups one_group_db) 10%N = false ∧ row_exists (groups one_group_db) 1007%N = true.
Proof.
  split; [|vm_compute; by split_and!].
  apply (tenant_isolation 1007 (Some 1%N) (OnDeletion (DeleteGroup 10)) 100 101 two_groups_db).
  - apply two_groups_db_reachable.
  - apply row_exists_true. vm_compute. reflexivity.
  - intros user [= <-]. vm_compute. reflexivity.
  - exact I.
Defined.
End Witnesses.
