(* ===== verification/Policies.v ===== *)
(** * Row-level policies

    The service connects as a role that PostgreSQL shows only some rows: the
    policies at the end of [migrations/20260427000000_init.sql], all of them
    FOR ALL with one predicate for what is seen and what may be written.
    [view user db] is what the statements of a user's request see of [db], and
    [as_app] a statement run so.  Foreign keys, unique indexes and cascades
    look at the whole tables, as does the worker, which bypasses the policies.

    A member sees every row of the group, so a handler that stays within its
    caller's groups does as [Ledger.handle] says.  The table [groups] has no
    policy: a group's own row, with its name and invite code, is seen by all.
    The rest of the file is about the handlers that look further. *)

From Stdlib Require Import ZArith Lia.
From stdpp Require Import base tactics decidable option list gmap relations strings pretty.
From S2P Require Import Prelude Effect Unicode Money Domain Host Schema Fixtures Errors.
From S2P Require Import Market Config Extract Webhooks Detail Pricing Settlement Wallet Fulfillment Claims.
From S2P Require Import Reimbursements Fulfillments Contracts Poller Matching Lists Items Groups Corps.
From S2P Require Import Within Invariant Preservation Purchases DebtSteps Edits Prunes Editing Growth Ledger.
From S2P Require Import Locality Membership Tenancy TenantDebts TenantLists TenantGroups Isolation.

Local Open Scope string_scope.

(** ** Tables restricted to some rows *)

Section Restrict.
Context `{Countable K} {V : Type}.
Implicit Types (P : K → V → bool) (Q : K → V → Prop) (t : gmap K V).

Definition visible_rows P t : gmap K V := rows_where P t.
Definition hidden_rows P t : gmap K V := delete_where P t.

Lemma lookup_visible P t k v : visible_rows P t !! k = Some v ↔ t !! k = Some v ∧ P k v = true.
Proof. apply lookup_rows_where. Qed.

Lemma same_on_visible Q P t :
  (∀ k v, t !! k = Some v → Q k v → P k v = true) → same_on Q t (visible_rows P t).
Proof. intros HP k v Hk. rewrite lookup_visible. split; [eauto|by intros [? _]]. Qed.

(** What is left of a table after a statement on its visible part. *)
Definition rejoin P t t' : gmap K V := t' ∪ hidden_rows P t.

(** An UPDATE reaches the visible rows only. *)
Lemma rejoin_update P C (f : V → V) t :
  rejoin P t (update_where C f (visible_rows P t)) = update_where (λ k v, C k v && P k v) f t.
Proof.
  apply map_eq. intros k. unfold rejoin, visible_rows, rows_where, hidden_rows.
  rewrite lookup_union, !lookup_update_where, !lookup_delete_where.
  destruct (t !! k) as [v|]; [cbn|done]. destruct (P k v); cbn; [|by rewrite andb_false_r].
  by rewrite andb_true_r.
Qed.

Lemma rejoin_visible P t : rejoin P t (visible_rows P t) = t.
Proof.
  apply map_eq. intros k. unfold rejoin, visible_rows, rows_where, hidden_rows. rewrite lookup_union, !lookup_delete_where.
  destruct (t !! k) as [v|]; [cbn|done]. by destruct (P k v).
Qed.
End Restrict.
Arguments visible_rows : simpl never.
Arguments rejoin : simpl never.

(** An UPDATE of the table [t], seen in part, as one of the table. *)
Ltac rejoin_table t :=
  match goal with
  | |- context [rejoin ?P t (update_where ?C ?f ?t')] =>
      change (rejoin P t (update_where C f t')) with (rejoin P t (update_where C f (visible_rows P t)));
      rewrite rejoin_update
  end.

Section Policies.
Context `{RT : Runtime} {API : EsiApi} {MA : MarketApi} {CFG : AppConfig} {RD : RustDecimal}
  {IC : InviteCodes} {CE : CorpEsi} {SA : ShareArith}.
Implicit Types (db d : Db) (user : option Uuid).

(** ** The helper functions of the schema [app] *)

(** [app.current_user_id] is NULL without a session. *)
Definition app_is_group_member user db (group_id : Uuid) : bool :=
  match user with Some u => is_member db group_id u | None => false end.

Definition app_is_list_member user db (list_id : Uuid) : bool :=
  match lists db !! list_id with Some l => app_is_group_member user db (l_group_id l) | None => false end.

Definition app_is_corp_member user db (corp_id : Uuid) : bool :=
  sel_exists (λ k gc, (k.2 == corp_id) && active_link gc && app_is_group_member user db k.1) (group_corps db).

Definition app_is_current_user user (column : option Uuid) : bool :=
  match user with Some u => column == Some u | None => false end.

(** ** The policies *)

Definition claim_items_member user db (claim_id : Uuid) : bool :=
  match claims db !! claim_id with Some c => app_is_list_member user db (cl_list_id c) | None => false end.

Definition fulfillments_member user db (f : FulfillmentRow) : bool :=
  match list_items db !! f_list_item_id f with
  | Some li => app_is_list_member user db (li_list_id li) | None => false
  end.

Definition contracts_member user db (c : ContractRow) : bool :=
  app_is_current_user user (ct_issuer_user_id c) || app_is_current_user user (ct_assignee_user_id c) ||
  match ct_source_corp_id c with Some corp => app_is_corp_member user db corp | None => false end.

Definition contract_items_member user db (contract_id : Uuid) : bool :=
  match contracts db !! contract_id with Some c => contracts_member user db c | None => false end.

Definition suggestions_member user db (s : SuggestionRow) : bool :=
  match reimbursements db !! s_reimbursement_id s with
  | Some r => app_is_list_member user db (r_list_id r) | None => false
  end.

Definition group_memberships_member user db (k : Uuid * Uuid) : bool :=
  app_is_current_user user (Some k.1) || app_is_group_member user db k.2.

(** What the statements of the user's request see; the other tables have no
    policy. *)
Definition view user db : Db :=
  mkDb (users db) (characters db) (groups db)
    (visible_rows (λ k _, group_memberships_member user db k) (group_memberships db))
    (visible_rows (λ k _, app_is_group_member user db k) (group_discord_webhooks db))
    (type_cache db) (markets db) (market_prices db)
    (visible_rows (λ k _, app_is_group_member user db k.1) (group_tracked_markets db))
    (character_structure_access db) (corps db)
    (visible_rows (λ k _, app_is_group_member user db k.1) (group_corps db))
    (visible_rows (λ k _, app_is_corp_member user db k.1) (corp_ambassadors db))
    (visible_rows (λ _ j, app_is_corp_member user db (wj_corp_id j)) (corp_wallet_journal db))
    (visible_rows (λ k _, app_is_corp_member user db k.1) (corp_wallet_divisions db))
    (principals db)
    (visible_rows (λ _ l, app_is_group_member user db (l_group_id l)) (lists db))
    (visible_rows (λ _ li, app_is_list_member user db (li_list_id li)) (list_items db))
    (visible_rows (λ k _, app_is_list_member user db k.1) (list_markets db))
    (visible_rows (λ _ c, app_is_list_member user db (cl_list_id c)) (claims db))
    (visible_rows (λ k _, claim_items_member user db k.1) (claim_items db))
    (visible_rows (λ _, fulfillments_member user db) (fulfillments db))
    (visible_rows (λ _, contracts_member user db) (contracts db))
    (visible_rows (λ k _, contract_items_member user db k.1) (contract_items db))
    (visible_rows (λ _ r, app_is_list_member user db (r_list_id r)) (reimbursements db))
    (visible_rows (λ _, suggestions_member user db) (contract_match_suggestions db))
    (visible_rows (λ _ w, app_is_group_member user db (pw_group_id w)) (pending_webhooks db))
    (db_now db) (db_utc_now db) (db_draws db).

(** What the database is after a statement on the view. *)
Definition rejoin_db user db d : Db :=
  mkDb (users d) (characters d) (groups d)
    (rejoin (λ k _, group_memberships_member user db k) (group_memberships db) (group_memberships d))
    (rejoin (λ k _, app_is_group_member user db k) (group_discord_webhooks db) (group_discord_webhooks d))
    (type_cache d) (markets d) (market_prices d)
    (rejoin (λ k _, app_is_group_member user db k.1) (group_tracked_markets db) (group_tracked_markets d))
    (character_structure_access d) (corps d)
    (rejoin (λ k _, app_is_group_member user db k.1) (group_corps db) (group_corps d))
    (rejoin (λ k _, app_is_corp_member user db k.1) (corp_ambassadors db) (corp_ambassadors d))
    (rejoin (λ _ j, app_is_corp_member user db (wj_corp_id j)) (corp_wallet_journal db) (corp_wallet_journal d))
    (rejoin (λ k _, app_is_corp_member user db k.1) (corp_wallet_divisions db) (corp_wallet_divisions d))
    (principals d)
    (rejoin (λ _ l, app_is_group_member user db (l_group_id l)) (lists db) (lists d))
    (rejoin (λ _ li, app_is_list_member user db (li_list_id li)) (list_items db) (list_items d))
    (rejoin (λ k _, app_is_list_member user db k.1) (list_markets db) (list_markets d))
    (rejoin (λ _ c, app_is_list_member user db (cl_list_id c)) (claims db) (claims d))
    (rejoin (λ k _, claim_items_member user db k.1) (claim_items db) (claim_items d))
    (rejoin (λ _, fulfillments_member user db) (fulfillments db) (fulfillments d))
    (rejoin (λ _, contracts_member user db) (contracts db) (contracts d))
    (rejoin (λ k _, contract_items_member user db k.1) (contract_items db) (contract_items d))
    (rejoin (λ _ r, app_is_list_member user db (r_list_id r)) (reimbursements db) (reimbursements d))
    (rejoin (λ _, suggestions_member user db) (contract_match_suggestions db) (contract_match_suggestions d))
    (rejoin (λ _ w, app_is_group_member user db (pw_group_id w)) (pending_webhooks db) (pending_webhooks d))
    (db_now d) (db_utc_now d) (db_draws d).

(** A statement, or several none of which changes who is a member of what. *)
Definition as_app {E A} user (s : M Db E A) : M Db E A := λ db,
  match s (view user db) with
  | Ok (a, d) => Ok (a, rejoin_db user db d)
  | Err e => Err e
  end.

Lemma rejoin_view user db : rejoin_db user db (view user db) = db.
Proof. destruct db. unfold rejoin_db, view. cbn. by rewrite !rejoin_visible. Qed.

Lemma as_app_Ok {E A} user (s : M Db E A) db a db' :
  as_app user s db = Ok (a, db') ↔ ∃ d, s (view user db) = Ok (a, d) ∧ db' = rejoin_db user db d.
Proof.
  unfold as_app. destruct (s _) as [[a0 d]|e]; [|naive_solver]. split; [intros [= -> <-]; eauto|].
  by intros (d' & [= -> ->] & ->).
Qed.

(** ** Whose rows are seen *)

Section Seen.
Context (g : Uuid).

(** A member sees all of the group's rows. *)
Lemma view_member (user : Uuid) db : is_member db g user = true → kept g db (view (Some user) db).
Proof.
  intros Hm.
  assert (∀ lid, list_of g db lid → app_is_list_member (Some user) db lid = true) as Hl.
  { intros lid (l & Hl & Hg). unfold app_is_list_member. rewrite Hl. cbn. by rewrite Hg. }
  split; try exact (same_on_refl _ _); apply same_on_visible; cbn beta.
  - intros [u g'] m _ Hg. cbn in Hg. subst g'. unfold group_memberships_member. cbn. by rewrite Hm, orb_true_r.
  - intros k w _ ->. exact Hm.
  - intros k t _ ->. exact Hm.
  - intros k gc _ ->. exact Hm.
  - intros k l _ ->. exact Hm.
  - intros k lm _. apply Hl.
  - intros k li _. apply Hl.
  - intros k c _. apply Hl.
  - intros k ci _ (c & Hc & Hg). unfold claim_items_member. rewrite Hc. by apply Hl.
  - intros k f _ (li & Hli & Hg). unfold fulfillments_member. rewrite Hli. by apply Hl.
  - intros k r _. apply Hl.
  - intros k s _ (r & Hr & Hg). unfold suggestions_member. rewrite Hr. by apply Hl.
  - intros k w _ ->. exact Hm.
Qed.

Definition none_on {K V} `{Countable K} (Q : K → V → Prop) (t : gmap K V) : Prop :=
  ∀ k v, t !! k = Some v → ¬ Q k v.

(** No row of [g] is in a state seen of [db], in any of the tables that have a
    policy; its own row in [groups] is not among them. *)
Record unseen db d : Prop := mkUnseen {
  us_members : none_on (λ k _, k.2 = g) (group_memberships d);
  us_webhook : none_on (λ k _, k = g) (group_discord_webhooks d);
  us_tracked : none_on (λ k _, k.1 = g) (group_tracked_markets d);
  us_corps : none_on (λ k _, k.1 = g) (group_corps d);
  us_lists : none_on (λ _ l, l_group_id l = g) (lists d);
  us_markets : none_on (λ k _, list_of g db k.1) (list_markets d);
  us_items : none_on (λ _ li, list_of g db (li_list_id li)) (list_items d);
  us_claims : none_on (λ _ c, list_of g db (cl_list_id c)) (claims d);
  us_claim_items : none_on (λ k _, claim_of g db k.1) (claim_items d);
  us_fulfillments : none_on (λ _ f, item_of g db (f_list_item_id f)) (fulfillments d);
  us_debts : none_on (λ _ r, list_of g db (r_list_id r)) (reimbursements d);
  us_suggestions : none_on (λ _ s, debt_of g db (s_reimbursement_id s)) (contract_match_suggestions d);
  us_queue : none_on (λ _ w, pw_group_id w = g) (pending_webhooks d)
}.

Lemma none_on_visible {K V} `{Countable K} (Q : K → V → Prop) P (t : gmap K V) :
  (∀ k v, t !! k = Some v → Q k v → P k v = false) → none_on Q (visible_rows P t).
Proof. intros HP k v [Hk Hv]%lookup_visible HQ. rewrite (HP _ _ Hk HQ) in Hv. done. Qed.

(** C5 The row-level policies are the tenancy of [Tenancy]: a member of a group
    sees every row of it, of each of its tables, and any other user none of
    them, but for the group's own row: the table of the groups has no policy,
    and everybody's statements see all of it. *)
Theorem view_spec (user : Uuid) db :
  groups (view (Some user) db) = groups db ∧
  if is_member db g user then kept g db (view (Some user) db) else unseen db (view (Some user) db).
Proof.
  split; [done|]. destruct (is_member db g user) eqn:Hm; [by apply view_member|].
  assert (∀ lid, list_of g db lid → app_is_list_member (Some user) db lid = false) as Hl.
  { intros lid (l & Hl & Hg). unfold app_is_list_member. rewrite Hl. cbn. by rewrite Hg. }
  split; apply none_on_visible; cbn beta.
  - intros [u g'] m Hk Hg. cbn in Hg. subst g'. unfold group_memberships_member. cbn.
    rewrite Hm, orb_false_r. apply bool_decide_eq_false. intros [= ->].
    unfold is_member in Hm. rewrite row_exists_false in Hm. congruence.
  - intros k w _ ->. exact Hm.
  - intros k t _ ->. exact Hm.
  - intros k gc _ ->. exact Hm.
  - intros k l _ ->. exact Hm.
  - intros k lm _. apply Hl.
  - intros k li _. apply Hl.
  - intros k c _. apply Hl.
  - intros k ci _ (c & Hc & Hg). unfold claim_items_member. rewrite Hc. by apply Hl.
  - intros k f _ (li & Hli & Hg). unfold fulfillments_member. rewrite Hli. by apply Hl.
  - intros k r _. apply Hl.
  - intros k s _ (r & Hr & Hg). unfold suggestions_member. rewrite Hr. by apply Hl.
  - intros k w _ ->. exact Hm.
Qed.
End Seen.

(** ** Guards that look at other groups *)

Lemma view_list user db lid l :
  lists (view user db) !! lid = Some l ↔
  lists db !! lid = Some l ∧ app_is_group_member user db (l_group_id l) = true.
Proof. apply (lookup_visible (λ _ l, app_is_group_member user db (l_group_id l))). Qed.

Lemma view_own_membership (user : Uuid) db gid :
  is_member (view (Some user) db) gid user = is_member db gid user.
Proof.
  unfold is_member, row_exists.
  change (group_memberships (view (Some user) db)) with
    (visible_rows (λ k (_ : MembershipRow), group_memberships_member (Some user) db k) (group_memberships db)).
  unfold visible_rows, rows_where. rewrite lookup_delete_where. destruct (_ !! _) as [m|]; [cbn|done].
  unfold group_memberships_member. cbn. by rewrite bool_decide_eq_true_2.
Qed.

(** [do_unlink] means to refuse a caller outside a group whose debt is bound
    to the contract; such a debt is not among the rows it sees, so it never
    does. *)
Theorem unlink_guard_void (user : Uuid) db cid : outside_group (view (Some user) db) cid user = false.
Proof.
  unfold outside_group. apply sel_exists_false. intros rid r Hr. rewrite andb_false_iff. right.
  destruct (lists (view (Some user) db) !! r_list_id r) as [l|] eqn:Hl; [|done].
  apply view_list in Hl as [_ Hm]. rewrite view_own_membership. cbn in Hm. by rewrite Hm.
Qed.

(** ** Unlinking a contract *)

Section UnlinkContract.
Context (user cid : Uuid) (db : Db).

(** The caller's word counts for the contract: they issued it, or no user did
    and they are its assignee, or an active ambassador of its corporation,
    which a group of theirs links. *)
Definition has_standing (c : ContractRow) : Prop :=
  match ct_issuer_user_id c with
  | Some issuer => issuer = user
  | None => ct_assignee_user_id c = Some user ∨
      ∃ corp, ct_source_corp_id c = Some corp ∧ is_ambassador db corp user = true ∧
        app_is_corp_member (Some user) db corp = true
  end.

Lemma view_ambassador corp :
  is_ambassador (view (Some user) db) corp user = true ↔
  is_ambassador db corp user = true ∧ app_is_corp_member (Some user) db corp = true.
Proof.
  unfold is_ambassador. rewrite !sel_exists_true.
  change (corp_ambassadors (view (Some user) db)) with (visible_rows (λ k (_ : AmbassadorRow),
    app_is_corp_member (Some user) db k.1) (corp_ambassadors db)).
  change (characters (view (Some user) db)) with (characters db).
  setoid_rewrite lookup_visible.
  assert (∀ (k : Uuid * Uuid) ca, (k.1 == corp) && is_none (ca_disabled_at ca) &&
    match characters db !! k.2 with Some ch => ch_user_id ch == user | None => false end = true →
    k.1 = corp) as Hcorp.
  { intros k ca Hp. by apply andb_prop in Hp as [[?%bool_decide_eq_true _]%andb_prop _]. }
  split.
  - intros (k & ca & [Hk Hm] & Hp).
    rewrite (Hcorp _ _ Hp) in Hm.
    split; [by exists k, ca|exact Hm].
  - intros [(k & ca & Hk & Hp) Hm]. exists k, ca.
    split; [split; [exact Hk|by rewrite (Hcorp _ _ Hp)]|exact Hp].
Qed.

Lemma view_may_unlink c : may_unlink (view (Some user) db) c user = true → has_standing c.
Proof.
  unfold may_unlink, has_standing. destruct (ct_issuer_user_id c) as [issuer|]; [by intros ?%bool_decide_eq_true|].
  case_match eqn:Ha; [intros _; left; by apply bool_decide_eq_true in Ha|].
  destruct (ct_source_corp_id c) as [corp|]; [|done]. rewrite view_ambassador. eauto.
Qed.

(** What the caller sees of the debts that stay bound. *)
Definition seen_bound (r : ReimbursementRow) : bool :=
  bound_to cid r && (r_status r != Reimb_Pending) && app_is_list_member (Some user) db (r_list_id r).
Definition seen_total : option Z :=
  if sel_exists (λ _, seen_bound) (reimbursements db)
  then Some (sum_where (λ _, seen_bound) (λ _ r, r_subtotal_isk r + r_tip_isk r)%Z (reimbursements db))
  else None.

Definition seen_free (r : ReimbursementRow) : bool :=
  bound_to cid r && (r_status r == Reimb_Pending) && app_is_list_member (Some user) db (r_list_id r).
Definition freed (r : ReimbursementRow) : ReimbursementRow :=
  r <| r_contract_id := None |> <| r_updated_at := db_now db |>.
Definition seen_confirmed (s : SuggestionRow) : bool :=
  (s_contract_id s == cid) && (s_state s == Match_Confirmed) && suggestions_member (Some user) db s.
Definition superseded (s : SuggestionRow) : SuggestionRow :=
  s <| s_state := Match_Superseded |> <| s_decided_at := Some (db_now db) |>.

(** The rows the recomputation adds up are the visible ones that stay bound. *)
Definition after_unlink : gmap Uuid ReimbursementRow :=
  update_where (λ _ r, bound_to cid r && (r_status r == Reimb_Pending)) freed
    (visible_rows (λ _ r, app_is_list_member (Some user) db (r_list_id r)) (reimbursements db)).

Lemma bound_after_unlink rid r :
  after_unlink !! rid = Some r ∧ bound_to cid r = true ↔
  reimbursements db !! rid = Some r ∧ seen_bound r = true.
Proof.
  unfold after_unlink, seen_bound. rewrite lookup_update_where_Some. setoid_rewrite lookup_visible. split.
  - intros [(r0 & [Hr Hv] & ->) Hb]. destruct (bound_to cid r0) eqn:Hb0, (r_status r0 == Reimb_Pending) eqn:Hs;
      cbn in *; try done; [|congruence..]. by rewrite Hb0, Hs, Hv.
  - intros [Hr [[Hb Hs]%andb_prop Hv]%andb_prop]. split; [|done]. exists r. split; [done|].
    apply negb_true_iff in Hs. by rewrite Hb, Hs.
Qed.

Lemma expected_after_unlink d :
  reimbursements d = after_unlink → expected_total d cid = seen_total.
Proof.
  intros Hd. unfold expected_total, seen_total. rewrite Hd.
  assert (sel_exists (λ _, bound_to cid) after_unlink = sel_exists (λ _, seen_bound) (reimbursements db)) as ->.
  { apply eq_true_iff_eq. rewrite !sel_exists_true. by setoid_rewrite bound_after_unlink. }
  assert (sum_where (λ _, bound_to cid) (λ _ r, r_subtotal_isk r + r_tip_isk r)%Z after_unlink =
    sum_where (λ _, seen_bound) (λ _ r, r_subtotal_isk r + r_tip_isk r)%Z (reimbursements db)) as ->; [|done].
  rewrite !sum_where_rows. f_equal. apply rows_where_same, bound_after_unlink.
Qed.

Lemma rejoin_debts (F : gmap Uuid ReimbursementRow → gmap Uuid ReimbursementRow) d :
  rejoin_db (Some user) db (d <| reimbursements ::= F |>) =
  rejoin_db (Some user) db d <| reimbursements :=
    rejoin (λ _ r, app_is_list_member (Some user) db (r_list_id r)) (reimbursements db)
      (F (reimbursements d)) |>.
Proof. reflexivity. Qed.

Lemma rejoin_suggestions (F : gmap Uuid SuggestionRow → gmap Uuid SuggestionRow) d :
  rejoin_db (Some user) db (d <| contract_match_suggestions ::= F |>) =
  rejoin_db (Some user) db d <| contract_match_suggestions :=
    rejoin (λ _, suggestions_member (Some user) db) (contract_match_suggestions db)
      (F (contract_match_suggestions d)) |>.
Proof. reflexivity. Qed.

Lemma rejoin_contracts (F : gmap Uuid ContractRow → gmap Uuid ContractRow) d :
  rejoin_db (Some user) db (d <| contracts ::= F |>) =
  rejoin_db (Some user) db d <| contracts :=
    rejoin (λ _, contracts_member (Some user) db) (contracts db) (F (contracts d)) |>.
Proof. reflexivity. Qed.

Lemma view_debts : reimbursements (view (Some user) db) =
  visible_rows (λ _ r, app_is_list_member (Some user) db (r_list_id r)) (reimbursements db).
Proof. reflexivity. Qed.
Lemma view_suggestions : contract_match_suggestions (view (Some user) db) =
  visible_rows (λ _, suggestions_member (Some user) db) (contract_match_suggestions db).
Proof. reflexivity. Qed.
Lemma view_contracts : contracts (view (Some user) db) =
  visible_rows (λ _, contracts_member (Some user) db) (contracts db).
Proof. reflexivity. Qed.

Lemma app_unlink_run dec db' : as_app (Some user) (do_unlink user cid) db = Ok (dec, db') →
  (∃ c, contracts db !! cid = Some c ∧ contracts_member (Some user) db c = true ∧
     is_terminal_success (ct_status c) = false ∧ has_standing c) ∧
  db' = db <| reimbursements ::= update_where (λ _, seen_free) freed |>
           <| contract_match_suggestions ::= update_where (λ _, seen_confirmed) superseded |>
           <| contracts ::= update_where (λ k c, (k == cid) && contracts_member (Some user) db c)
                (λ c, c <| ct_expected_total_isk := seen_total |>) |>.
Proof.
  intros (d & Hrun & ->)%as_app_Ok. unfold do_unlink in Hrun. inv_sql.
  match goal with H : recompute_contract_expected_total _ _ = _ |- _ =>
    apply recompute_Ok in H; rename H into Hrec end.
  match goal with H : may_unlink _ _ _ = true |- _ => apply view_may_unlink in H end.
  match goal with H : contracts _ !! cid = Some _ |- _ =>
    rewrite view_contracts in H; apply lookup_visible in H as [Hc Hseen] end.
  split; [bool_simpl; eauto|]. rewrite Hrec.
  match goal with |- context [expected_total ?d cid] => rewrite (expected_after_unlink d eq_refl) end.
  rewrite rejoin_contracts, rejoin_suggestions, rejoin_debts, rejoin_view.
  rejoin_table (contracts db). rejoin_table (contract_match_suggestions db). rejoin_table (reimbursements db).
  reflexivity.
Qed.
End UnlinkContract.

(** C23 Unbinding a failed contract does not free its reimbursements: they are no
    longer bound, but the confirmed suggestion stays confirmed, and on every
    later database in which it still is (or view of one, for a member sees
    it), linking such a reimbursement to any other contract, by suggestion or
    manually, is refused.  What supersedes it is to unlink the failed contract,
    which has nothing bound to it any more, by somebody who sees the suggestion. *)
Theorem unbind_strands_reimbursement cid db n db' sid s rid r :
  unbind_contract cid db = Ok (n, db') →
  contract_match_suggestions db !! sid = Some s → s_contract_id s = cid →
  s_reimbursement_id s = rid → s_state s = Match_Confirmed →
  reimbursements db !! rid = Some r → r_contract_id r = Some cid → r_status r = Reimb_Pending →
  r_contract_id <$> reimbursements db' !! rid = Some None ∧
  contract_match_suggestions db' !! sid = Some s ∧
  ∀ later, contract_match_suggestions later !! sid = Some s →
    (∀ (user : Uuid) target cid2, cid2 ≠ cid → link_target later target cid2 rid →
       is_ok (link_run user target later) = false) ∧
    (∀ (user : Uuid) dec later', suggestions_member (Some user) later s = true →
       as_app (Some user) (do_unlink user cid) later = Ok (dec, later') →
       contract_match_suggestions later' !! sid = Some (superseded later s)).
Proof.
  intros Hrun Hs Hc Hr Hst Hrr Hb Hp. apply unbind_contract_spec in Hrun as (_ & Hreimbs & Hsugg & _).
  split; [|split].
  - rewrite (Hreimbs _ _ Hrr). unfold bound_to. by rewrite Hb, Hp, !bool_decide_eq_true_2.
  - rewrite (Hsugg _ _ Hs). by rewrite Hst, andb_false_r.
  - intros later Hl. split.
    + intros user target cid2 Hne Ht.
      eapply link_run_stranded; [exact Hl|exact Hr|exact Hst| |exact Ht]. congruence.
    + intros user dec later' Hm [_ ->]%app_unlink_run. set_simpl. rewrite lookup_update_where, Hl. cbn.
      unfold seen_confirmed. by rewrite Hm, Hc, Hst, !bool_decide_eq_true_2.
Qed.

(** C24 What unlinking a contract does under the policies: the caller sees the
    contract, has standing on it and it is not finished; of the debts bound to
    it exactly the pending ones of the caller's groups are freed, whoever else
    has debts bound to it, which stay as they are; of its confirmed suggestions
    exactly those of the caller's groups are superseded; its expected total is
    what remains bound of the debts the caller sees; and no other row of any
    table changes.  That no debt outside the caller's groups is bound is not
    required: the guard meant to, and never fires ([unlink_guard_void]). *)
Theorem app_unlink_spec (user cid : Uuid) db dec db' :
  as_app (Some user) (do_unlink user cid) db = Ok (dec, db') →
  (∃ c, contracts db !! cid = Some c ∧ contracts_member (Some user) db c = true ∧
     is_terminal_success (ct_status c) = false ∧ has_standing user db c ∧
     contracts db' !! cid = Some (c <| ct_expected_total_isk := seen_total user cid db |>)) ∧
  (∀ k r, reimbursements db !! k = Some r →
     reimbursements db' !! k = Some r ∧
       (r_contract_id r = Some cid → r_status r = Reimb_Pending →
        app_is_list_member (Some user) db (r_list_id r) = false) ∨
     reimbursements db' !! k = Some (freed db r) ∧ r_contract_id r = Some cid ∧
       r_status r = Reimb_Pending ∧ app_is_list_member (Some user) db (r_list_id r) = true) ∧
  (∀ k s, contract_match_suggestions db !! k = Some s →
     contract_match_suggestions db' !! k = Some s ∧
       (s_contract_id s = cid → s_state s = Match_Confirmed → suggestions_member (Some user) db s = false) ∨
     contract_match_suggestions db' !! k = Some (superseded db s) ∧ s_contract_id s = cid ∧
       s_state s = Match_Confirmed ∧ suggestions_member (Some user) db s = true) ∧
  (∀ k, k ≠ cid → contracts db' !! k = contracts db !! k) ∧
  db' = db <| reimbursements := reimbursements db' |>
           <| contract_match_suggestions := contract_match_suggestions db' |>
           <| contracts := contracts db' |>.
Proof.
  intros [(c & Hc & Hm & Ht & Hs) Hdb]%app_unlink_run.
  assert (reimbursements db' = update_where (λ _, seen_free user cid db) (freed db) (reimbursements db)) as Er
    by by rewrite Hdb.
  assert (contract_match_suggestions db' = update_where (λ _, seen_confirmed user cid db) (superseded db)
    (contract_match_suggestions db)) as Es by by rewrite Hdb.
  assert (contracts db' = update_where (λ k c, (k == cid) && contracts_member (Some user) db c)
    (λ c, c <| ct_expected_total_isk := seen_total user cid db |>) (contracts db)) as Ec by by rewrite Hdb.
  split; [|split; [|split; [|split]]].
  - exists c. split_and!; try done. rewrite Ec, lookup_update_where, Hc. cbn.
    by rewrite Hm, bool_decide_eq_true_2.
  - intros k r Hr. rewrite Er, lookup_update_where, Hr. cbn. unfold seen_free, bound_to.
    destruct (r_contract_id r == Some cid) eqn:Hb, (r_status r == Reimb_Pending) eqn:Hp,
      (app_is_list_member (Some user) db (r_list_id r)); cbn; bool_simpl; eauto 6; left; split; done.
  - intros k s Hk. rewrite Es, lookup_update_where, Hk. cbn. unfold seen_confirmed.
    destruct (s_contract_id s == cid) eqn:Hb, (s_state s == Match_Confirmed) eqn:Hp,
      (suggestions_member (Some user) db s); cbn; bool_simpl; eauto 6; left; split; done.
  - intros k Hne. rewrite Ec, lookup_update_where. destruct (contracts db !! k); cbn; [|done].
    by rewrite bool_decide_eq_false_2.
  - rewrite Er, Es, Ec. by rewrite Hdb.
Qed.

(** ** Unlinking a corporation *)

(** [unlink_corp], each of its statements under the policies. *)
Definition app_unlink_corp user (cur : CurrentGroup) (corp_id : Uuid) : Handler unit :=
  _ ← require_owner (cg_role cur);
  _ ← as_app user (require_corp_in_group (cg_group_id cur) corp_id);
  _ ← as_app user (unlink_link (cg_group_id cur) corp_id);
  _ ← as_app user (disable_contributed (cg_group_id cur) corp_id);
  linked ← as_app user (query (λ db, linked_somewhere db corp_id));
  when (negb linked) (as_app user (disable_corp corp_id)).

Section Unlink.
Context (user : Uuid) (db : Db).

Lemma view_group_corps : group_corps (view (Some user) db) =
  visible_rows (λ k _, app_is_group_member (Some user) db k.1) (group_corps db).
Proof. reflexivity. Qed.
Lemma view_ambassadors : corp_ambassadors (view (Some user) db) =
  visible_rows (λ k _, app_is_corp_member (Some user) db k.1) (corp_ambassadors db).
Proof. reflexivity. Qed.

Lemma rejoin_group_corps (F : gmap (Uuid * Uuid) GroupCorpRow → gmap (Uuid * Uuid) GroupCorpRow) d :
  rejoin_db (Some user) db (d <| group_corps ::= F |>) =
  rejoin_db (Some user) db d <| group_corps :=
    rejoin (λ k _, app_is_group_member (Some user) db k.1) (group_corps db) (F (group_corps d)) |>.
Proof. reflexivity. Qed.

Lemma rejoin_ambassadors (F : gmap (Uuid * Uuid) AmbassadorRow → gmap (Uuid * Uuid) AmbassadorRow) d :
  rejoin_db (Some user) db (d <| corp_ambassadors ::= F |>) =
  rejoin_db (Some user) db d <| corp_ambassadors :=
    rejoin (λ k _, app_is_corp_member (Some user) db k.1) (corp_ambassadors db) (F (corp_ambassadors d)) |>.
Proof. reflexivity. Qed.

Lemma rejoin_corps (F : gmap Uuid CorpRow → gmap Uuid CorpRow) d :
  rejoin_db (Some user) db (d <| corps ::= F |>) = rejoin_db (Some user) db d <| corps ::= F |>.
Proof. reflexivity. Qed.

Lemma app_unlink_link_Ok gid corp x db' : as_app (Some user) (unlink_link gid corp) db = Ok (x, db') →
  db' = db <| group_corps ::= update_where
    (λ k gc, ((k == (gid, corp)) && active_link gc) && app_is_group_member (Some user) db k.1)
    (λ gc, gc <| gc_unlinked_at := Some (db_now db) |>) |>.
Proof.
  intros (d & H & ->)%as_app_Ok. unfold unlink_link in H. inv_sql.
  by rewrite rejoin_group_corps, rejoin_view, view_group_corps, rejoin_update.
Qed.

(** The ambassadors of a corporation the caller's groups do not link are not
    seen. *)
Lemma app_disable_contributed_none gid corp x db' :
  as_app (Some user) (disable_contributed gid corp) db = Ok (x, db') →
  app_is_corp_member (Some user) db corp = false → db' = db.
Proof.
  intros (d & H & ->)%as_app_Ok Hc. unfold disable_contributed, disable_ambassadors in H. inv_sql.
  rewrite rejoin_ambassadors, rejoin_view, view_ambassadors, rejoin_update, update_where_id;
    [by destruct db|]. intros k a _ Hk. bool_simpl. congruence.
Qed.

Lemma view_linked corp : linked_somewhere (view (Some user) db) corp = app_is_corp_member (Some user) db corp.
Proof.
  unfold linked_somewhere, app_is_corp_member. apply eq_true_iff_eq. rewrite !sel_exists_true.
  rewrite view_group_corps. setoid_rewrite lookup_visible. split.
  - intros (k & gc & [Hk Hm] & Hp). exists k, gc. split; [done|]. by rewrite Hp.
  - intros (k & gc & Hk & [Hp Hm]%andb_true_iff). by exists k, gc.
Qed.

Lemma app_disable_corp_Ok corp x db' : as_app (Some user) (disable_corp corp) db = Ok (x, db') →
  db' = db <| corps ::= update_where (λ k _, k == corp) (λ c, c <| co_disabled_at := Some (db_now db) |>) |>.
Proof. intros (d & H & ->)%as_app_Ok. unfold disable_corp in H. inv_sql. by rewrite rejoin_corps, rejoin_view. Qed.
End Unlink.

(** Under the policies [unlink_corp] does the opposite of what it means to,
    when no other group of its caller links the corporation: the link once
    cut, the ambassadors contributed through the group are no longer seen and
    all stay enabled; and no link of another group is seen either, so the
    corporation is disabled whoever else has it linked. *)
Theorem unlink_corp_under_policies cur corp db x db' :
  app_unlink_corp (Some (cg_user_id cur)) cur corp db = Ok (x, db') →
  (∀ gid gc, group_corps db !! (gid, corp) = Some gc → active_link gc = true →
     is_member db gid (cg_user_id cur) = true → gid = cg_group_id cur) →
  corp_ambassadors db' = corp_ambassadors db ∧
  corps db' = update_where (λ k _, k == corp) (λ c, c <| co_disabled_at := Some (db_now db) |>) (corps db).
Proof.
  unfold app_unlink_corp, require_owner. intros Hrun Honly. inv_sql.
  match goal with H : as_app _ (require_corp_in_group _ _) _ = Ok _ |- _ =>
    apply as_app_Ok in H as (d & H & ->); unfold require_corp_in_group in H; inv_sql end.
  rewrite rejoin_view in *.
  match goal with H : as_app _ (unlink_link _ _) _ = Ok (_, ?d) |- _ =>
    apply app_unlink_link_Ok in H; rename d into db1, H into Hdb1 end.
  assert (app_is_corp_member (Some (cg_user_id cur)) db1 corp = false) as Hcorp.
  { unfold app_is_corp_member. apply sel_exists_false. intros [gid c] gc Hgc. cbn.
    apply not_true_iff_false. intros [[->%bool_decide_eq_true Ha]%andb_true_iff Hm]%andb_true_iff.
    subst db1. apply lookup_update_where_Some in Hgc as (gc0 & Hgc & ->). change (is_member db gid (cg_user_id cur) = true) in Hm.
    destruct (_ && _) eqn:Hcase; [done|]. pose proof (Honly _ _ Hgc Ha Hm) as ->.
    rewrite bool_decide_eq_true_2, Ha in Hcase by done.
    change (is_member db (cg_group_id cur) (cg_user_id cur) = false) in Hcase. congruence. }
  match goal with H : as_app _ (disable_contributed _ _) _ = _ |- _ =>
    apply app_disable_contributed_none in H as ->; [|done] end.
  match goal with H : as_app _ (query _) _ = Ok _ |- _ => apply as_app_Ok in H as (d & H & ->); inv_sql end.
  rewrite rejoin_view, view_linked, Hcorp in Hrun. apply app_disable_corp_Ok in Hrun as ->.
  done.
Qed.
End Policies.

(** ** Witnesses *)

Section Witnesses.
#[local] Existing Instance fixture_runtime.
#[local] Existing Instance fixture_api.
#[local] Existing Instance fixture_market.
#[local] Existing Instance fixture_config.
#[local] Existing Instance fixture_decimal.
#[local] Existing Instance fixture_codes.
#[local] Existing Instance fixture_corp_esi.
#[local] Existing Instance fixture_shares.

(** Alice links her corporation to group 10 and contributes herself as its
    ambassador; Bob links the same corporation to a group of his. *)
Definition shared_corp_db : Db :=
  foldl run_request start_db
    [ (1%N, LinkCorp 10 502); (1%N, AddAmbassador 10 1000 502);
      (2%N, CreateGroup (str "Crew")); (2%N, LinkCorp 1003 501) ].

Definition alice_in_10 : CurrentGroup := mkCurrentGroup 1 10 Owner.

(** Alice unlinks it: her access stays enabled, Bob's corporation is disabled. *)
Definition unlinked_db : Db :=
  match app_unlink_corp (Some 1%N) alice_in_10 1000 shared_corp_db with
  | Ok (_, db) => db | Err _ => shared_corp_db
  end.

Lemma only_member_of (user gid0 gid : Uuid) (db : Db) :
  forallb (λ kv, (kv.1.2 == gid0) || (kv.1.1 != user)) (map_to_list (group_memberships db)) = true →
  is_member db gid user = true → gid = gid0.
Proof.
  intros Hall [m Hm]%row_exists_true.
  pose proof (forall_rows (group_memberships db) (λ k _, (k.2 == gid0) || (k.1 != user)) Hall _ _ Hm) as Hb.
  cbn in Hb. rewrite (bool_decide_eq_true_2 (user = user)), orb_false_r in Hb by done.
  by apply bool_decide_eq_true in Hb.
Qed.

Lemma unlink_corp_under_policies_witness :
  corp_ambassadors unlinked_db = corp_ambassadors shared_corp_db ∧
  (ca_contributed_via_group_id <$> corp_ambassadors unlinked_db !! (1000%N, 201%N)) = Some (Some 10%N) ∧
  (ca_disabled_at <$> corp_ambassadors unlinked_db !! (1000%N, 201%N)) = Some None ∧
  linked_somewhere unlinked_db 1000 = true ∧
  (co_disabled_at <$> corps unlinked_db !! 1000%N) = Some (Some (db_now shared_corp_db)).
Proof.
  run_concrete (app_unlink_corp (Some 1%N) alice_in_10 1000 shared_corp_db) u db' H.
  pose proof (unlink_corp_under_policies alice_in_10 1000 shared_corp_db u db' H) as [Ha _].
  - intros gid gc _ _. apply only_member_of. vm_compute. reflexivity.
  - split; [unfold unlinked_db; by rewrite H|]. vm_compute. by split_and!.
Defined.

(** Bob's failed contract is unbound; linking its replacement is refused until he
    has unlinked the failed one. *)
Lemma unbind_strands_reimbursement_witness :
  (∃ n db', unbind_contract 80 replaced_db = Ok (n, db') ∧
     is_ok (link_run 2 (inr (81%N, 60%N)) db') = false) ∧
  match unbind_contract 80 replaced_db with
  | Ok (_, db') => match as_app (Some 2%N) (do_unlink 2 80) db' with
                   | Ok (_, db2) => is_ok (link_run 2 (inr (81%N, 60%N)) db2) = true
                   | Err _ => False
                   end
  | Err _ => False
  end.
Proof.
  split; [|vm_compute; reflexivity].
  run_concrete (unbind_contract 80 replaced_db) n db' Hrun.
  exists n, db'. split; [done|].
  destruct (unbind_strands_reimbursement 80 replaced_db n db' 90
    (mkSuggestionRow 80 60 10000 true Match_Confirmed 76 (Some 77%Z) (Some 2%N)) 60 _
    Hrun eq_refl eq_refl eq_refl eq_refl eq_refl eq_refl eq_refl) as (_ & Hs & Hall).
  by apply (proj1 (Hall db' Hs) 2%N (inr (81%N, 60%N)) 81%N).
Defined.

Lemma app_unlink_spec_witness :
  ∃ dec db' r, as_app (Some 2%N) (do_unlink 2 1006) linked_db = Ok (dec, db') ∧
    reimbursements linked_db !! 1005%N = Some r ∧ r_contract_id r = Some 1006%N ∧
    reimbursements db' !! 1005%N = Some (freed linked_db r).
Proof.
  run_concrete (as_app (Some 2%N) (do_unlink 2 1006) linked_db) dec db' H. exists dec, db'.
  destruct (lookup_row (reimbursements linked_db) 1005
    (λ r, (r_contract_id r, r_status r, app_is_list_member (Some 2%N) linked_db (r_list_id r)))
    (Some 1006%N, Reimb_Pending, true)) as (r & Hr & Hq); [vm_compute; reflexivity|].
  pose proof (f_equal (λ p, p.1.1) Hq) as Hc. pose proof (f_equal (λ p, p.1.2) Hq) as Hp. cbn [fst snd] in Hc, Hp.
  exists r. split; [exact H|]. split; [exact Hr|]. split; [exact Hc|].
  destruct (app_unlink_spec 2 1006 linked_db dec db' H) as (_ & Hall & _).
  destruct (Hall _ _ Hr) as [[_ Hn]|[Hk _]]; [rewrite (Hn Hc Hp) in Hq; discriminate Hq|exact Hk].
Defined.
End Witnesses.
