(* ===== verification/Export.v ===== *)
(** * Data export

    [crates/api/src/auth.rs: do_export_me]: everything keyed to the caller, as
    the rows of the JSON document; no token column is among them. *)

From Stdlib Require Import ZArith Lia.
From stdpp Require Import base tactics decidable option list gmap strings sorting.
From S2P Require Import Prelude Effect Domain Host Schema Errors Detail Policies.

Local Open Scope string_scope.
Local Open Scope list_scope.

Record ExportCharacter := mkExportCharacter {
  ex_id : Uuid;
  ex_character_id : Z;
  ex_character_name : string;
  ex_owner_hash : string;
  ex_scopes : list string;
  ex_access_token_expires_at : option Timestamp;
  ex_created_at : Timestamp;
  ex_last_refreshed_at : option Timestamp;
  ex_token_key_id : string
}.

Record ExportMembership := mkExportMembership {
  ex_group_id : Uuid;
  ex_group_name : string;
  ex_role : GroupRole;
  ex_joined_at : Timestamp
}.

Record ExportList := mkExportList {
  ex_list_id : Uuid;
  ex_list_group_id : Uuid;
  ex_destination_label : option string;
  ex_status : ListStatus;
  ex_total_estimate_isk : Z;
  ex_list_created_at : Timestamp;
  ex_updated_at : Timestamp
}.

Record ExportFulfillment := mkExportFulfillment {
  ex_fulfillment_id : Uuid;
  ex_list_item_id : Uuid;
  ex_qty : Z;
  ex_unit_price_isk : Z;
  ex_bought_at_market_id : option Uuid;
  ex_bought_at : Timestamp;
  ex_reversed_at : option Timestamp
}.

Record ExportReimbursement := mkExportReimbursement {
  ex_reimbursement_id : Uuid;
  ex_reimbursement_list_id : Uuid;
  ex_reimbursement_status : ReimbursementStatus;
  ex_total_isk : Z;
  ex_contract_id : option Uuid;
  ex_settled_at : option Timestamp
}.

Record ExportDocument := mkExportDocument {
  exported_at : Timestamp;
  ex_user : User;
  ex_characters : list ExportCharacter;
  ex_group_memberships : list ExportMembership;
  ex_lists_created : list ExportList;
  ex_fulfillments_as_hauler : list ExportFulfillment;
  ex_reimbursements_involving_me : list ExportReimbursement
}.

Section DataExport.
Context `{RT : Runtime}.

(** [jsonb_agg(.. ORDER BY key)] and its descending form. *)
Definition by_time {A} (key : A → Timestamp) (a b : A) : bool := (key a <=? key b)%Z.
Definition latest_first {A} (key : A → Timestamp) (a b : A) : bool := (key b <=? key a)%Z.

Definition export_characters (db : Db) (user_id : Uuid) : list ExportCharacter :=
  sort_by (by_time ex_created_at)
    ((λ kc, mkExportCharacter kc.1 (ch_character_id kc.2) (ch_character_name kc.2) (ch_owner_hash kc.2)
              (ch_scopes kc.2) (ch_access_token_expires_at kc.2) (ch_created_at kc.2)
              (ch_last_refreshed_at kc.2) (ch_token_key_id kc.2)) <$>
       select_where (λ _ ch, ch_user_id ch == user_id) (characters db)).

Definition export_memberships (db : Db) (user_id : Uuid) : list ExportMembership :=
  sort_by (by_time ex_joined_at)
    (omap (λ '(k, gm), g ← groups db !! k.2;
             Some (mkExportMembership k.2 (g_name g) (gm_role gm) (gm_joined_at gm)))
       (select_where (λ k _, k.1 == user_id) (group_memberships db))).

Definition export_lists (db : Db) (user_id : Uuid) : list ExportList :=
  sort_by (latest_first ex_list_created_at)
    ((λ kl, mkExportList kl.1 (l_group_id kl.2) (l_destination_label kl.2) (l_status kl.2)
              (l_total_estimate_isk kl.2) (l_created_at kl.2) (l_updated_at kl.2)) <$>
       select_where (λ _ l, l_created_by_user_id l == user_id) (lists db)).

Definition export_fulfillments (db : Db) (user_id : Uuid) : list ExportFulfillment :=
  sort_by (latest_first ex_bought_at)
    ((λ kf, mkExportFulfillment kf.1 (f_list_item_id kf.2) (f_qty kf.2) (f_unit_price_isk kf.2)
              (f_bought_at_market_id kf.2) (f_bought_at kf.2) (f_reversed_at kf.2)) <$>
       select_where (λ _ f, f_hauler_user_id f == user_id) (fulfillments db)).

Definition export_reimbursements (db : Db) (user_id : Uuid) : list ExportReimbursement :=
  sort_by (λ a b, ex_reimbursement_id a <=? ex_reimbursement_id b)%N
    ((λ kr, mkExportReimbursement kr.1 (r_list_id kr.2) (r_status kr.2) (r_total_isk kr.2)
              (r_contract_id kr.2) (r_settled_at kr.2)) <$>
       select_where (λ _ r, (r_requester_user_id r == Some user_id) || (r_hauler_user_id r == user_id))
         (reimbursements db)).

Definition do_export_me (user_id : Uuid) : Handler ExportDocument :=
  user ← query (λ db, users db !! user_id);
  user ← expect (internal "user not found") user;
  query (λ db, mkExportDocument (db_utc_now db) (mkUser user_id (u_display_name user) (u_created_at user))
    (export_characters db user_id) (export_memberships db user_id) (export_lists db user_id)
    (export_fulfillments db user_id) (export_reimbursements db user_id)).

(** The debts exported are those the caller is a party to, all of them. *)
Lemma export_reimbursements_spec db user_id rid :
  (∃ e, e ∈ export_reimbursements db user_id ∧ ex_reimbursement_id e = rid) ↔
  ∃ r, reimbursements db !! rid = Some r ∧
    (r_requester_user_id r = Some user_id ∨ r_hauler_user_id r = user_id).
Proof.
  unfold export_reimbursements, sort_by. setoid_rewrite merge_sort_Permutation.
  setoid_rewrite list_elem_of_fmap. split.
  - intros (e & ([k r] & -> & [Hk HP]%elem_of_select_where) & <-). exists r. split; [done|]. cbn in HP.
    by rewrite orb_true_iff, !bool_decide_eq_true in HP.
  - intros (r & Hk & HP). eexists. split; [exists (rid, r); split; [done|]|done].
    apply elem_of_select_where. split; [done|]. cbn. by rewrite orb_true_iff, !bool_decide_eq_true.
Qed.

(** Under the row-level policies they are those of the groups the caller is
    still in. *)
Lemma export_omits_left_groups db user_id rid :
  (∃ e, e ∈ export_reimbursements (view (Some user_id) db) user_id ∧ ex_reimbursement_id e = rid) ↔
  ∃ r, reimbursements db !! rid = Some r ∧ app_is_list_member (Some user_id) db (r_list_id r) = true ∧
    (r_requester_user_id r = Some user_id ∨ r_hauler_user_id r = user_id).
Proof.
  rewrite export_reimbursements_spec. setoid_rewrite (lookup_visible (λ _ r,
    app_is_list_member (Some user_id) db (r_list_id r)) (reimbursements db)).
  split; [intros (r & [? ?] & ?)|intros (r & ? & ? & ?)]; eauto.
Qed.
End DataExport.
