(* ===== verification/Runs.v ===== *)
(** * Runs

    [crates/api/src/fulfillment/runs.rs]: the open lists of a group, with how
    far their items are and the caller's claim. *)

From Stdlib Require Import ZArith Lia.
From stdpp Require Import base tactics decidable option list gmap strings sorting.
From S2P Require Import Prelude Effect Domain Host Schema Fixtures Errors Extract Detail.

Local Open Scope string_scope.
Local Open Scope list_scope.

Section Runs.
Context `{RT : Runtime}.

Definition open_lists (db : Db) (group_id : Uuid) : list (Uuid * ListRow) :=
  sort_by (λ a b, l_created_at b.2 <=? l_created_at a.2)%Z
    (select_where (λ _ l, (l_group_id l == group_id) && (l_status l == List_Open)) (lists db)).

(** [COUNT( * ) FILTER (WHERE status = ..)], zero without items. *)
Definition items_in (db : Db) (list_id : Uuid) (status : ListItemStatus) : Z :=
  count_where (λ _ li, (li_list_id li == list_id) && (li_status li == status)) (list_items db).

(** [DISTINCT ON (list_id) .. ORDER BY created_at DESC, id DESC]. *)
Definition claim_before (a b : Uuid * ClaimRow) : bool :=
  (cl_created_at b.2 <? cl_created_at a.2)%Z ||
  ((cl_created_at b.2 =? cl_created_at a.2)%Z && (b.1 <=? a.1)%N).

Definition my_claims (db : Db) (list_id user_id : Uuid) : list (Uuid * ClaimRow) :=
  select_where (λ _ c, (cl_list_id c == list_id) && (cl_hauler_user_id c == user_id) &&
                       (cl_status c == Claim_Active)) (claims db).

Definition my_active_claim (db : Db) (list_id user_id : Uuid) : option Uuid :=
  fst <$> head (sort_by claim_before (my_claims db list_id user_id)).

(** The accepted markets of a list, [ORDER BY is_primary DESC, short_label]. *)
Definition run_market_before (a b : RunMarketRef) : bool :=
  (RunMarketRef_is_primary a && negb (RunMarketRef_is_primary b)) ||
  (Bool.eqb (RunMarketRef_is_primary a) (RunMarketRef_is_primary b) &&
   le_nulls_last collate_leb (RunMarketRef_short_label a) (RunMarketRef_short_label b)).

Definition run_markets (db : Db) (list_id : Uuid) : list RunMarketRef :=
  sort_by run_market_before
    (omap (λ '(k, lm), m ← markets db !! k.2;
             Some (mkRunMarketRef k.2 (m_short_label m) (lm_is_primary lm)))
       (select_where (λ k _, k.1 == list_id) (list_markets db))).

Definition summary_of (db : Db) (user_id : Uuid) (kl : Uuid * ListRow) : RunSummary :=
  let '(id, l) := kl in
  let claim := my_active_claim db id user_id in
  mkRunSummary id (l_destination_label l) (l_status l) (l_created_at l) (run_markets db id)
    (items_in db id Item_Open) (items_in db id Item_Claimed) (items_in db id Item_Bought)
    (items_in db id Item_Delivered) (items_in db id Item_Settled)
    (l_total_estimate_isk l) (negb (is_none claim)) claim.

Definition runs (cur : CurrentGroup) : Handler (list RunSummary) :=
  query (λ db, summary_of db (cg_user_id cur) <$> open_lists db (cg_group_id cur)).

(** The five counts of a list are its items. *)
Lemma counts_total db id :
  (items_in db id Item_Open + items_in db id Item_Claimed + items_in db id Item_Bought +
   items_in db id Item_Delivered + items_in db id Item_Settled)%Z =
  count_where (λ _ li, li_list_id li == id) (list_items db).
Proof.
  unfold items_in, count_where, sum_where. rewrite <- !sum_of_add. apply sum_of_ext. intros k li _.
  destruct (li_list_id li == id); [|done]. cbn [andb]. by destruct (li_status li).
Qed.

(** The claim shown is the caller's own, active and on the list; and it is
    shown when there is one. *)
Lemma my_active_claim_spec db id user :
  match my_active_claim db id user with
  | Some cid => ∃ c, claims db !! cid = Some c ∧ cl_list_id c = id ∧ cl_hauler_user_id c = user ∧
      cl_status c = Claim_Active
  | None => ∀ cid c, claims db !! cid = Some c → cl_list_id c = id → cl_hauler_user_id c = user →
      cl_status c ≠ Claim_Active
  end.
Proof.
  unfold my_active_claim. destruct (head (sort_by _ _)) as [[cid c]|] eqn:Hh; cbn [fmap option_fmap option_map fst].
  - apply head_Some_elem_of in Hh. unfold sort_by in Hh. rewrite merge_sort_Permutation in Hh.
    apply elem_of_select_where in Hh as [Hk HP]. bool_simpl. eauto.
  - intros cid c Hk H1 H2 H3.
    assert ((cid, c) ∈ sort_by claim_before (my_claims db id user)) as Hin.
    { unfold sort_by. rewrite merge_sort_Permutation. apply elem_of_select_where. split; [done|].
      cbn. bool_solve. }
    destruct (sort_by claim_before (my_claims db id user)); [by apply not_elem_of_nil in Hin|done].
Qed.

(** The runs view lists exactly the open lists of the group, and for each of
    them the five counts are its items and the claim shown is an active one of
    the caller's, absent only when there is none. *)
Theorem runs_spec cur db rs db' :
  runs cur db = Ok (rs, db') →
  db' = db ∧
  (∀ id l, lists db !! id = Some l → l_group_id l = cg_group_id cur → l_status l = List_Open →
     ∃ r, r ∈ rs ∧ RunSummary_list_id r = id) ∧
  (∀ r, r ∈ rs → ∃ l, lists db !! RunSummary_list_id r = Some l ∧ l_group_id l = cg_group_id cur ∧
     l_status l = List_Open ∧
     (RunSummary_items_open r + RunSummary_items_claimed r + RunSummary_items_bought r +
      RunSummary_items_delivered r + RunSummary_items_settled r)%Z =
       count_where (λ _ li, li_list_id li == RunSummary_list_id r) (list_items db) ∧
     match RunSummary_my_active_claim_id r with
     | Some cid => RunSummary_claimed_by_me r = true ∧ ∃ c, claims db !! cid = Some c ∧
         cl_list_id c = RunSummary_list_id r ∧ cl_hauler_user_id c = cg_user_id cur ∧ cl_status c = Claim_Active
     | None => RunSummary_claimed_by_me r = false ∧ ∀ cid c, claims db !! cid = Some c →
         cl_list_id c = RunSummary_list_id r → cl_hauler_user_id c = cg_user_id cur → cl_status c ≠ Claim_Active
     end).
Proof.
  unfold runs. intros [-> ->]%reads_Ok. split; [done|]. split.
  - intros id l Hl Hg Hs. exists (summary_of db (cg_user_id cur) (id, l)). split; [|done].
    apply list_elem_of_fmap. exists (id, l). split; [done|]. unfold open_lists, sort_by.
    rewrite merge_sort_Permutation. apply elem_of_select_where. split; [done|]. cbn. bool_solve.
  - intros r ([id l] & -> & Hin)%list_elem_of_fmap. unfold open_lists, sort_by in Hin.
    rewrite merge_sort_Permutation in Hin. apply elem_of_select_where in Hin as [Hl HP]. cbn in HP. bool_simpl.
    exists l. cbn. split_and!; try done; [apply counts_total|].
    pose proof (my_active_claim_spec db id (cg_user_id cur)) as Hc.
    by destruct (my_active_claim db id (cg_user_id cur)).
Qed.
End Runs.
