(* ===== verification/Jobs.v ===== *)
(** * The worker's jobs

    [crates/worker/src/main.rs] and [jobs/mod.rs]: the configuration, the
    context a job runs in and the helpers the pollers share.  A job is not a
    transaction: each statement on the pool commits by itself, so a
    computation [J] keeps the world it reached when it fails.  Concurrent tasks
    of one tick are run in the order they are spawned, and the clock stands
    still within a tick. *)

From Stdlib Require Import ZArith Lia.
From stdpp Require Import base tactics decidable option list gmap strings pretty sorting relations.
From S2P Require Import Prelude Effect Money Domain Host Schema Errors Market Detail Budget Cipher Tokens.

Local Open Scope string_scope.
Local Open Scope list_scope.

(** ** Configuration *)

Record WorkerPollIntervals := mkWorkerPollIntervals {
  wp_market_prices : Z;
  wp_contracts : Z;
  wp_citadel_discovery : Z;
  wp_citadel_details : Z;
  wp_citadel_orders : Z;
  wp_structure_access_backoff : Z;
  wp_corp_contracts : Z;
  wp_corp_wallet : Z
}.
Definition WorkerPollIntervals_default : WorkerPollIntervals :=
  mkWorkerPollIntervals 300 300 3600 86400 600 86400 300 3600.

(** The fields of [WorkerSection] the jobs read; how many tasks run at once
    does not matter here. *)
Record WorkerSection := mkWorkerSection {
  wk_tick_secs : Z;
  wk_citadel_discovery_missing_threshold : Z
}.
Definition WorkerSection_default : WorkerSection := mkWorkerSection 60 3.

Record WorkerConfig := mkWorkerConfig {
  wc_poll_intervals_secs : WorkerPollIntervals;
  wc_worker : WorkerSection
}.

(** ** Scheduling *)

(** [base / 10] at least one, and a random [u32] taken modulo [2 * span + 1]. *)
Definition jitter_secs (random : Z) (base : Z) : Z :=
  if (base =? 0)%Z then 0%Z
  else
    let span := Z.max (base / 10) 1 in
    (random mod (2 * span + 1) - span)%Z.

(** [((eligible as f64) * tick_secs / interval_secs).ceil() as i64], at least
    one.  Below [2 ^ 53] the product is exact and the rounded quotient has the
    ceiling of the exact one; a zero interval divides to infinity, or to NaN,
    which the cast takes to the largest [i64] and to zero. *)
Definition slice_size (eligible tick_secs interval_secs : Z) : Z :=
  if (interval_secs =? 0)%Z
  then (if (eligible * tick_secs =? 0)%Z then 1 else i64_max)%Z
  else Z.max 1 (- ((- (eligible * tick_secs)) / interval_secs))%Z.

(** [mk_interval]: the period of a slot's ticker. *)
Definition mk_interval (secs : Z) : Z := Z.max secs 1.

(** ** Computations *)

(** [nea_esi::EsiError], as far as the jobs look at it. *)
Inductive EsiError :=
| Esi_Api (status : Z)
| Esi_Other.
#[export] Instance EsiError_eq_dec : EqDecision EsiError.
Proof. solve_decision. Defined.

Inductive JobError :=
| Je_Token (e : TokenError)
| Je_Esi (e : EsiError)
| Je_Anyhow (e : Anyhow).

(** What an ESI call does to the tokens of the client that makes it: none, or
    the refreshed pair; the random numbers of [jitter_secs]; and the order in
    which a [HashSet] of the given elements is iterated. *)
Class WorkerEnv := {
  refreshed_by_call : Uuid → option EsiTokens;
  random_for : Uuid → Z;
  hash_order : list Uuid → list Uuid
}.

Section Jobs.
Context `{RT : Runtime} {AE : Aead} {EA : EsiAuth} {WE : WorkerEnv}.

(** The shared state of the process: the token store, which holds the pool, the
    error budget, and the regions of solar systems looked up before. *)
Record World := mkWorld {
  w_store : Store;
  w_budget : EsiBudgetGuard;
  w_regions : gmap Z Z
}.

(** [GET /healthz/esi]: what is left of the budget, and whether jobs may run. *)
Definition healthz_esi (w : World) : Z * bool := (remaining (w_budget w), has_budget (w_budget w)).

Definition w_db (w : World) : Db := v_db (st_vault (w_store w)).
Definition with_db (f : Db → Db) (w : World) : World :=
  mkWorld (mkStore (mkVault (f (w_db w)) (v_draws (st_vault (w_store w))))
             (st_cipher (w_store w)) (st_clients (w_store w))) (w_budget w) (w_regions w).

Definition J (A : Type) : Type := World → result JobError A * World.

#[export] Instance J_ret : MRet J := λ A a w, (Ok a, w).
#[export] Instance J_bind : MBind J := λ A B k m w,
  match m w with (Ok a, w') => k a w' | (Err e, w') => (Err e, w') end.

Definition j_throw {A} (e : JobError) : J A := λ w, (Err e, w).

(** [SELECT] and [UPDATE] on the pool, and a transaction. *)
Definition j_query {A} (f : Db → A) : J A := λ w, (Ok (f (w_db w)), w).
Definition j_execute (f : Db → Db) : J unit := λ w, (Ok tt, with_db f w).
Definition j_transaction {A} (body : M Db Anyhow A) : J A := λ w,
  let '(r, db) := in_transaction body (w_db w) in
  (match r with Ok a => Ok a | Err e => Err (Je_Anyhow e) end, with_db (λ _, db) w).

Definition j_store {A} (f : Store → result TokenError A * Store) : J A := λ w,
  let '(r, s) := f (w_store w) in
  (match r with Ok a => Ok a | Err e => Err (Je_Token e) end, mkWorld s (w_budget w) (w_regions w)).

Definition j_has_budget : J bool := λ w, (Ok (has_budget (w_budget w)), w).
Definition j_record_non_2xx : J unit := λ w,
  (Ok tt, mkWorld (w_store w) (record_non_2xx (w_budget w)) (w_regions w)).

(** [match m.await { Ok(..) => .., Err(..) => .. }]. *)
Definition j_attempt {A} (m : J A) : J (result JobError A) := λ w,
  let '(r, w') := m w in (Ok r, w').

Fixpoint j_for_each {X} (body : X → J unit) (xs : list X) : J unit :=
  match xs with
  | [] => mret tt
  | x :: rest => _ ← body x; j_for_each body rest
  end.

Definition authed_client (character_id : Uuid) : J CachedClient :=
  j_store (authed_client_for character_id).
Definition persist (character_id : Uuid) : J unit := j_store (persist_rotations true character_id).

(** An ESI call by the client of [character_id]. *)
Definition esi_call {A} (character_id : Uuid) (answer : result EsiError A) : J (result EsiError A) := λ w,
  (Ok answer,
   match refreshed_by_call character_id with
   | Some tokens => mkWorld (client_refreshed character_id tokens (w_store w)) (w_budget w) (w_regions w)
   | None => w
   end).

(** [budgeted(&budget, fut).await]. *)
Definition j_budgeted {A} (m : J A) : J A :=
  r ← j_attempt m;
  match r with
  | Ok v => mret v
  | Err e => _ ← j_record_non_2xx; j_throw e
  end.

(** [match r { Ok(v) => v, Err(e) => { budget.record_non_2xx(); return Err(e.into()) } }]. *)
Definition counted {A} (r : result EsiError A) : J A :=
  match r with
  | Ok v => mret v
  | Err e => _ ← j_record_non_2xx; j_throw (Je_Esi e)
  end.

(** [if !budget.has_budget() { return .. }]. *)
Definition with_budget {A} (deferred : A) (m : J A) : J A :=
  ok ← j_has_budget; if negb ok then mret deferred else m.

(** [ids.collect::<HashSet<_>>().into_iter().collect()]. *)
Definition distinct_ids (ids : list Uuid) : list Uuid := hash_order (remove_dups ids).

(** The tasks of a tick, with what each returned; a failed one is logged and
    counts for nothing. *)
Fixpoint run_tasks {X A} (task : X → J (list A)) (xs : list X) : J (list A) :=
  match xs with
  | [] => mret []
  | x :: rest =>
      r ← j_attempt (task x);
      out ← run_tasks task rest;
      mret (match r with Ok v => v | Err _ => [] end ++ out)
  end.

(** Tasks that return nothing. *)
Fixpoint spawn_all {X} (task : X → J unit) (xs : list X) : J unit :=
  match xs with
  | [] => mret tt
  | x :: rest => _ ← j_attempt (task x); spawn_all task rest
  end.

(** One statement on the pool that may fail. *)
Definition j_statement {A} (s : Stmt A) : J A := j_transaction (sql s).

(** [ORDER BY at NULLS FIRST]. *)
Definition nulls_first (a b : option Timestamp) : bool :=
  match a, b with
  | None, _ => true
  | Some _, None => false
  | Some x, Some y => (x <=? y)%Z
  end.

(** [at IS NULL OR at <= now()]. *)
Definition due_at (db : Db) (at_ : option Timestamp) : bool :=
  match at_ with None => true | Some t => (t <=? db_now db)%Z end.

(** [scope = ANY(scopes)]. *)
Definition has_scope (scope : string) (ch : CharacterRow) : bool :=
  bool_decide (scope ∈ ch_scopes ch).

(** ** Ambassadors *)

Definition HOUR_SECS : Z := 3600.

(** [ca.disabled_at IS NULL AND $2 = ANY(ch.scopes) AND (ca.last_auth_error_at
    IS NULL OR ca.last_auth_error_at < now() - interval '1 hour')]. *)
Definition ambassador_usable (db : Db) (scope : string) (character_id : Uuid) (ca : AmbassadorRow) : bool :=
  match characters db !! character_id with
  | Some ch =>
      is_none (ca_disabled_at ca) && has_scope scope ch &&
      match ca_last_auth_error_at ca with
      | None => true
      | Some t => (t <? db_now db - seconds HOUR_SECS)%Z
      end
  | None => false
  end.

(** The usable ambassadors of a corporation, longest unused first. *)
Definition usable_ambassadors (db : Db) (scope : string) (corp_id : Uuid) : list Uuid :=
  (λ kv, kv.1.2) <$>
    sort_by (λ a b, nulls_first (ca_last_used_at a.2) (ca_last_used_at b.2))
      (select_where (λ k ca, (k.1 == corp_id) && ambassador_usable db scope k.2 ca)
         (corp_ambassadors db)).

Definition mark_ambassador (g : Db → AmbassadorRow → AmbassadorRow) (corp_id character_id : Uuid)
    (db : Db) : Db :=
  db <| corp_ambassadors ::= update_where (λ k _, k == (corp_id, character_id)) (g db) |>.
Definition mark_used : Uuid → Uuid → Db → Db :=
  mark_ambassador (λ db ca, ca <| ca_last_used_at := Some (db_now db) |>).
Definition mark_auth_error : Uuid → Uuid → Db → Db :=
  mark_ambassador (λ db ca, ca <| ca_last_auth_error_at := Some (db_now db) |>).

Definition corp_auth_error (corp_id : Uuid) (db : Db) : Db :=
  db <| corps ::= update_where (λ k _, k == corp_id)
    (λ co, co <| co_last_auth_error_at := Some (db_now db) |>) |>.

(** The corporations a poller may take up, and those it takes up now. *)
Definition enabled_corps (db : Db) : list (Uuid * CorpRow) :=
  select_where (λ _ co, is_none (co_disabled_at co)) (corps db).

Definition due_corps (next_poll_at : CorpRow → option Timestamp) (slice : Z) (db : Db)
    : list (Uuid * Z) :=
  (λ kc, (kc.1, co_esi_corporation_id kc.2)) <$>
    take (Z.to_nat slice)
      (sort_by (λ a b, nulls_first (next_poll_at a.2) (next_poll_at b.2))
         (List.filter (λ kc, due_at db (next_poll_at kc.2)) (enabled_corps db))).

(** The moment a cursor that advances by [interval_secs] is next due. *)
Definition next_poll (db : Db) (id : Uuid) (interval_secs : Z) : Timestamp :=
  (db_now db + seconds (interval_secs + jitter_secs (random_for id) interval_secs))%Z.

(** Tasks that come to nothing. *)
Lemma run_tasks_idle {X A} (task : X → J (list A)) xs w :
  (∀ x, x ∈ xs → (task x w).2 = w ∧ from_option id [] (match (task x w).1 with Ok v => Some v | Err _ => None end) = []) →
  run_tasks task xs w = (Ok [], w).
Proof.
  induction xs as [|x rest IH]; intros Hx; [done|]. cbn [run_tasks].
  destruct (Hx x ltac:(left)) as [Hw Hr].
  unfold mbind, J_bind, j_attempt. destruct (task x w) as [r w1]. cbn in Hw, Hr. subst w1.
  rewrite IH by (intros; apply Hx; by right). destruct r as [v|e]; [|done]. cbn in Hr. by subst.
Qed.

(** ** Arithmetic of the schedule *)

Lemma jitter_bound random base :
  (0 < base)%Z → (- Z.max (base / 10) 1 ≤ jitter_secs random base ≤ Z.max (base / 10) 1)%Z.
Proof.
  intros Hb. unfold jitter_secs. destruct (base =? 0)%Z eqn:E; [apply Z.eqb_eq in E; lia|].
  pose proof (Z.mod_pos_bound random (2 * Z.max (base / 10) 1 + 1) ltac:(lia)). lia.
Qed.

(** A cursor moves forward, by nine to eleven tenths of the interval. *)
Lemma next_poll_bound db id interval_secs :
  (10 ≤ interval_secs)%Z →
  (db_now db + seconds (interval_secs - interval_secs / 10) ≤ next_poll db id interval_secs
     ≤ db_now db + seconds (interval_secs + interval_secs / 10))%Z.
Proof.
  intros Hi. unfold next_poll. pose proof (jitter_bound (random_for id) interval_secs ltac:(lia)).
  assert (1 ≤ interval_secs / 10)%Z by (apply Z.div_le_lower_bound; lia). unfold seconds. lia.
Qed.

(** The slices of an interval's ticks together hold everyone eligible. *)
Lemma slice_covers eligible tick interval :
  (0 ≤ eligible)%Z → (0 < tick)%Z → (0 < interval)%Z →
  (1 ≤ slice_size eligible tick interval)%Z ∧
  (eligible * tick ≤ slice_size eligible tick interval * interval)%Z.
Proof.
  intros He Ht Hi. unfold slice_size. destruct (interval =? 0)%Z eqn:E; [apply Z.eqb_eq in E; lia|].
  pose proof (Z.div_mod (- (eligible * tick)) interval ltac:(lia)).
  pose proof (Z.mod_pos_bound (- (eligible * tick)) interval Hi). nia.
Qed.
End Jobs.
