(* ===== verification/ContractsJob.v ===== *)
(** * The character contract poller

    [crates/worker/src/jobs/contracts.rs]: which characters a tick polls, what
    it does with the contracts ESI returns, and the pass that fetches the items
    of contracts not yet synced.  The transactions a poll makes are those of
    [Poller]; ESI's answers are the fields of [ContractEsi]. *)

From Stdlib Require Import ZArith Lia.
From stdpp Require Import base tactics decidable option list gmap strings pretty sorting.
From S2P Require Import Prelude Effect Money Domain Host Schema Errors Market Detail Cipher Tokens Jobs.
From S2P Require Import Settlement Poller Matching.

Local Open Scope string_scope.
Local Open Scope list_scope.

(** The contract calls of an authenticated [nea_esi::EsiClient], and the fields
    of [EsiContractItem] that are stored. *)
Class ContractEsi `{RT : Runtime} {API : EsiApi} := {
  EsiContractItem : Type;
  ei_record_id : EsiContractItem → Z;
  ei_type_id : EsiContractItem → Z;
  ei_quantity : EsiContractItem → Z;
  ei_is_included : EsiContractItem → bool;
  character_contracts : CachedClient → Z → result EsiError (list EsiContract);
  character_contract_items : CachedClient → Z → Z → result EsiError (list EsiContractItem);
  corp_contracts : CachedClient → Z → result EsiError (list EsiContract);
  corp_contract_items : CachedClient → Z → Z → result EsiError (list EsiContractItem)
}.

Definition CONTRACTS_SCOPE : string := "esi-contracts.read_character_contracts.v1".
Definition CORP_CONTRACTS_SCOPE : string := "esi-contracts.read_corporation_contracts.v1".
Definition ITEMS_BATCH : nat := 50.

Section ContractsJob.
Context `{RT : Runtime} {API : EsiApi} {CES : ContractEsi} {AE : Aead} {EA : EsiAuth} {WE : WorkerEnv}.

(** ** Polling a character *)

Definition eligible_characters (db : Db) : list (Uuid * CharacterRow) :=
  select_where (λ _ ch, has_scope CONTRACTS_SCOPE ch) (characters db).

Definition due_characters (slice : Z) (db : Db) : list (Uuid * Z) :=
  (λ kc, (kc.1, ch_character_id kc.2)) <$>
    take (Z.to_nat slice)
      (sort_by (λ a b, nulls_first (ch_contracts_next_poll_at a.2) (ch_contracts_next_poll_at b.2))
         (List.filter (λ kc, due_at db (ch_contracts_next_poll_at kc.2)) (eligible_characters db))).

Definition advance_cursor (character_id : Uuid) (interval_secs : Z) (db : Db) : Db :=
  db <| characters ::= update_where (λ k _, k == character_id)
    (λ ch, ch <| ch_contracts_last_polled_at := Some (db_now db) |>
              <| ch_contracts_next_poll_at := Some (next_poll db character_id interval_secs) |>) |>.

(** [SET scopes = array_remove(scopes, $1), contracts_next_poll_at = NULL]. *)
Definition drop_scope (character_id : Uuid) (db : Db) : Db :=
  db <| characters ::= update_where (λ k _, k == character_id)
    (λ ch, ch <| ch_scopes := List.filter (λ s, negb (s == CONTRACTS_SCOPE)) (ch_scopes ch) |>
              <| ch_contracts_next_poll_at := None |>) |>.

Definition poll_one_character (interval_secs : Z) (row : Uuid * Z) : J (list UpsertedContract) :=
  with_budget [] (
    client ← authed_client row.1;
    answer ← esi_call row.1 (character_contracts client row.2);
    match answer with
    | Ok contracts =>
        out ← j_transaction (poll_character contracts);
        _ ← j_execute (advance_cursor row.1 interval_secs);
        _ ← j_attempt (persist row.1);
        mret out
    | Err e =>
        if e == Esi_Api 403
        then _ ← j_execute (drop_scope row.1); mret []
        else
          _ ← j_record_non_2xx;
          _ ← j_execute (advance_cursor row.1 interval_secs);
          j_throw (Je_Esi e)
    end).

(** ** Items *)

Definition pending_items (db : Db) : list (Uuid * ContractRow) :=
  take ITEMS_BATCH
    (sort_by (λ a b, ct_first_seen_at a.2 <=? ct_first_seen_at b.2)%Z
       (select_where (λ _ c, is_none (ct_items_synced_at c) && (ct_contract_type c == ItemExchange))
          (contracts db))).

(** A tracked character on either side of the contract, with the scope: [LIMIT 1]
    without an order. *)
Definition pick_character (db : Db) (c : ContractRow) : option (Uuid * CharacterRow) :=
  let candidates := ct_issuer_character_id c :: option_list (ct_assignee_character_id c) in
  head (select_where (λ _ ch, bool_decide (ch_character_id ch ∈ candidates) &&
                              has_scope CONTRACTS_SCOPE ch) (characters db)).

(** The longest unused ambassador of a corporation, with its EVE id. *)
Definition pick_ambassador (db : Db) (corp_id : Uuid) : option (Uuid * Z) :=
  character_id ← head (usable_ambassadors db CORP_CONTRACTS_SCOPE corp_id);
  co ← corps db !! corp_id;
  Some (character_id, co_esi_corporation_id co).

Definition insert_contract_item (contract_id : Uuid) (it : EsiContractItem) : Stmt unit :=
  _ ← unique (λ db, negb (row_exists (contract_items db) (contract_id, ei_record_id it)))
        "contract_items_pkey";
  execute (λ db, db <| contract_items ::=
    <[(contract_id, ei_record_id it) :=
        mkContractItemRow (ei_type_id it) (ei_quantity it) (ei_is_included it)]> |>).

Definition store_items (contract_id : Uuid) (items : list EsiContractItem) : M Db Anyhow unit :=
  _ ← execute (λ db, db <| contract_items ::= delete_where (λ k _, k.1 == contract_id) |>);
  _ ← when (negb (bool_decide (length items = 0%nat)))
        (sql (_ ← foreign_key (λ db, row_exists (contracts db) contract_id)
                    "contract_items_contract_id_fkey";
              for_each (insert_contract_item contract_id) items));
  execute (λ db, db <| contracts ::= update_where (λ k _, k == contract_id)
    (λ c, c <| ct_items_synced_at := Some (db_now db) |>) |>).

(** What follows the choice of a client, [call] being its request. *)
Definition fetch_items (contract_id reader : Uuid)
    (call : CachedClient → result EsiError (list EsiContractItem)) : J bool :=
  client ← authed_client reader;
  answer ← esi_call reader (call client);
  items ← counted answer;
  _ ← j_transaction (store_items contract_id items);
  _ ← j_attempt (persist reader);
  mret true.

Definition sync_items_for (row : Uuid * ContractRow) : J bool :=
  with_budget false (
    pick ← j_query (λ db, pick_character db row.2);
    match pick with
    | Some (id, ch) =>
        fetch_items row.1 id (λ client,
          character_contract_items client (ch_character_id ch) (ct_esi_contract_id row.2))
    | None =>
        match ct_source_corp_id row.2 with
        | Some corp_id =>
            amb ← j_query (λ db, pick_ambassador db corp_id);
            match amb with
            | Some (id, esi_corp_id) =>
                fetch_items row.1 id (λ client,
                  corp_contract_items client esi_corp_id (ct_esi_contract_id row.2))
            | None => mret false
            end
        | None => mret false
        end
    end).

Definition sync_task (row : Uuid * ContractRow) : J (list Uuid) :=
  synced ← sync_items_for row; mret (if synced : bool then [row.1] else []).

Definition sync_pending_items : J (list Uuid) :=
  needs ← j_query pending_items;
  run_tasks sync_task needs.

(** ** The tick *)

(** [if !ids.is_empty() { run_for_contracts(..) }]; a failure is logged. *)
Definition match_contracts (ids : list Uuid) : J unit :=
  match ids with
  | [] => mret tt
  | _ => j_execute (run_for_contracts ids)
  end.

(** What both contract pollers end with. *)
Definition settle_terminals (upserts : list UpsertedContract) : J unit :=
  j_execute (handle_terminals upserts).

Definition run (cfg : WorkerConfig) : J unit :=
  with_budget tt (
    let interval_secs := wp_contracts (wc_poll_intervals_secs cfg) in
    eligible_count ← j_query (λ db, Z.of_nat (length (eligible_characters db)));
    if (eligible_count =? 0)%Z then
      synced ← sync_pending_items;
      match_contracts synced
    else
      let slice := slice_size eligible_count (wk_tick_secs (wc_worker cfg)) interval_secs in
      due ← j_query (due_characters slice);
      upserts ← run_tasks (poll_one_character interval_secs) due;
      synced_ids ← sync_pending_items;
      _ ← match_contracts (distinct_ids ((uc_contract_id <$> upserts) ++ synced_ids));
      settle_terminals upserts).

(** ** Starvation *)

(** A pass that finds no reader for any contract of its batch changes nothing,
    so the next pass takes up the same batch, whatever waits behind it. *)
Lemma items_starve w :
  (∀ row, row ∈ pending_items (w_db w) → pick_character (w_db w) row.2 = None ∧
     (ct_source_corp_id row.2 ≫= pick_ambassador (w_db w)) = None) →
  sync_pending_items w = (Ok [], w).
Proof.
  intros Hno. apply run_tasks_idle. intros row Hrow. destruct (Hno row Hrow) as [Hc Ha].
  unfold sync_task, sync_items_for, with_budget, mbind, J_bind, j_has_budget, j_query.
  destruct (Budget.has_budget (w_budget w)); [|done]. cbn [negb]. rewrite Hc.
  destruct (ct_source_corp_id row.2) as [corp|]; [|done]. cbn [mbind option_bind] in Ha. by rewrite Ha.
Qed.

(** Likewise for characters whose tokens cannot be read: the poll fails before
    it advances the cursor, so they stay first in line. *)
Lemma polls_starve interval_secs slice w :
  (∀ row, row ∈ due_characters slice (w_db w) →
     is_ok (load_tokens (st_cipher (w_store w)) (w_db w) row.1) = false) →
  run_tasks (poll_one_character interval_secs) (due_characters slice (w_db w)) w = (Ok [], w).
Proof.
  intros Hno. apply run_tasks_idle. intros row Hrow. specialize (Hno row Hrow).
  unfold poll_one_character, with_budget, mbind, J_bind, j_has_budget.
  destruct (Budget.has_budget (w_budget w)); [|done]. cbn [negb].
  unfold authed_client, j_store, authed_client_for. unfold w_db in Hno.
  destruct (load_tokens _ _ _); [done|]. by destruct w.
Qed.
End ContractsJob.
