(* ===== verification/CorpContractsJob.v ===== *)
(** * The corporation contract poller

    [crates/worker/src/jobs/corp_contracts.rs]: the ambassadors of a due
    corporation are tried in turn until one may read its contracts. *)

From Stdlib Require Import ZArith Lia.
From stdpp Require Import base tactics decidable option list gmap strings pretty sorting.
From S2P Require Import Prelude Effect Money Domain Host Schema Errors Market Detail Cipher Tokens Jobs.
From S2P Require Import Settlement Poller Matching ContractsJob.

Local Open Scope string_scope.
Local Open Scope list_scope.

(** "Exponential back-off ceiling when all ambassadors fail". *)
Definition MAX_BACKOFF_SECS : Z := 86400.
(** [LIMIT 5]. *)
Definition AMBASSADORS : nat := 5.

Section CorpContractsJob.
Context `{RT : Runtime} {API : EsiApi} {CES : ContractEsi} {AE : Aead} {EA : EsiAuth} {WE : WorkerEnv}.

Definition advance_corp_cursor (corp_id : Uuid) (interval_secs : Z) (db : Db) : Db :=
  db <| corps ::= update_where (λ k _, k == corp_id)
    (λ co, co <| co_contracts_last_polled_at := Some (db_now db) |>
              <| co_contracts_next_poll_at := Some (next_poll db corp_id interval_secs) |>) |>.

(** The loop over the ambassadors; [None] when all of them failed. *)
Fixpoint first_contracts (corp_id : Uuid) (esi_corp_id interval_secs : Z) (ambassadors : list Uuid)
    : J (option (list EsiContract * Uuid)) :=
  match ambassadors with
  | [] => mret None
  | amb :: rest =>
      client ← j_attempt (authed_client amb);
      match client with
      | Err _ => first_contracts corp_id esi_corp_id interval_secs rest
      | Ok client =>
          answer ← esi_call amb (corp_contracts client esi_corp_id);
          match answer with
          | Ok contracts =>
              _ ← j_execute (mark_used corp_id amb);
              mret (Some (contracts, amb))
          | Err e =>
              if e == Esi_Api 403 then
                _ ← j_execute (mark_auth_error corp_id amb);
                _ ← j_record_non_2xx;
                first_contracts corp_id esi_corp_id interval_secs rest
              else
                _ ← j_record_non_2xx;
                _ ← j_execute (advance_corp_cursor corp_id interval_secs);
                j_throw (Je_Esi e)
          end
      end
  end.

Definition poll_one_corp (interval_secs : Z) (corp : Uuid * Z) : J (list UpsertedContract) :=
  let '(corp_id, esi_corp_id) := corp in
  with_budget [] (
    ambassadors ← j_query (λ db,
      take AMBASSADORS (usable_ambassadors db CORP_CONTRACTS_SCOPE corp_id));
    if bool_decide (ambassadors = []) then
      _ ← j_execute (advance_corp_cursor corp_id interval_secs); mret []
    else
      found ← first_contracts corp_id esi_corp_id interval_secs ambassadors;
      match found with
      | None =>
          _ ← j_execute (corp_auth_error corp_id);
          _ ← j_execute (advance_corp_cursor corp_id (Z.min interval_secs MAX_BACKOFF_SECS));
          mret []
      | Some (contracts, amb) =>
          _ ← j_attempt (persist amb);
          out ← j_transaction (poll_corp corp_id esi_corp_id contracts);
          _ ← j_execute (advance_corp_cursor corp_id interval_secs);
          mret out
      end).

Definition run (cfg : WorkerConfig) : J unit :=
  with_budget tt (
    let interval_secs := wp_corp_contracts (wc_poll_intervals_secs cfg) in
    eligible_count ← j_query (λ db, Z.of_nat (length (enabled_corps db)));
    if (eligible_count =? 0)%Z then mret tt
    else
      let slice := slice_size eligible_count (wk_tick_secs (wc_worker cfg)) interval_secs in
      due ← j_query (due_corps co_contracts_next_poll_at slice);
      all_upserts ← run_tasks (poll_one_corp interval_secs) due;
      _ ← match_contracts (distinct_ids (uc_contract_id <$> all_upserts));
      settle_terminals all_upserts).
End CorpContractsJob.
