(* ===== verification/CorpWalletJob.v ===== *)
(** * The corporation wallet poller

    [crates/worker/src/jobs/corp_wallet.rs]: division balances and journal
    entries of a due corporation, and the contracts whose payout they may
    prove.  Every statement is on the pool, so what was written before a
    failure stays. *)

From Stdlib Require Import ZArith Lia.
From stdpp Require Import base tactics decidable option list gmap strings pretty sorting.
From S2P Require Import Prelude Effect Money Domain Host Schema Errors Market Detail Cipher Tokens Jobs.
From S2P Require Import Settlement Poller Wallet CorpContractsJob.

Local Open Scope string_scope.
Local Open Scope list_scope.

(** The wallet calls of an authenticated client, and the fields of a balance
    and of [EsiWalletJournalEntry] that are read. *)
Class WalletEsi `{RT : Runtime} := {
  EsiWallet : Type;
  ew_division : EsiWallet → Z;
  ew_balance : EsiWallet → Decimal;
  EsiWalletJournalEntry : Type;
  ej_id : EsiWalletJournalEntry → Z;
  ej_date : EsiWalletJournalEntry → Timestamp;
  ej_ref_type : EsiWalletJournalEntry → string;
  ej_amount : EsiWalletJournalEntry → option Decimal;
  ej_balance : EsiWalletJournalEntry → option Decimal;
  ej_first_party_id : EsiWalletJournalEntry → option Z;
  ej_second_party_id : EsiWalletJournalEntry → option Z;
  ej_context_id : EsiWalletJournalEntry → option Z;
  ej_context_id_type : EsiWalletJournalEntry → option string;
  ej_reason : EsiWalletJournalEntry → option string;
  (** [serde_json::to_value(entry)]. *)
  ej_to_value : EsiWalletJournalEntry → option Value;
  corp_wallet_balances : CachedClient → Z → result EsiError (list EsiWallet);
  corp_wallet_journal_of : CachedClient → Z → Z → result EsiError (list EsiWalletJournalEntry)
}.

Definition CORP_WALLET_SCOPE : string := "esi-wallet.read_corporation_wallets.v1".

(** [x as i16] of an [i32]. *)
Definition wrap_i16 (z : Z) : Z := ((z + 2 ^ 15) mod 2 ^ 16 - 2 ^ 15)%Z.

Section CorpWalletJob.
Context `{RT : Runtime} {API : EsiApi} {WES : WalletEsi} {SA : ShareArith} {AE : Aead} {EA : EsiAuth}
  {WE : WorkerEnv}.

Definition advance_wallet_cursor (corp_id : Uuid) (interval_secs : Z) (db : Db) : Db :=
  db <| corps ::= update_where (λ k _, k == corp_id)
    (λ co, co <| co_wallet_last_polled_at := Some (db_now db) |>
              <| co_wallet_next_poll_at := Some (next_poll db corp_id interval_secs) |>) |>.

Definition upsert_division (corp_id : Uuid) (w : EsiWallet) : Stmt unit :=
  let division := wrap_i16 (ew_division w) in
  balance ← expect NumericOverflow (numeric_cast 20 2 (ew_balance w));
  _ ← check ((1 <=? division)%Z && (division <=? 7)%Z) "corp_wallet_divisions_division_check";
  _ ← foreign_key (λ db, row_exists (corps db) corp_id) "corp_wallet_divisions_corp_id_fkey";
  execute (λ db, db <| corp_wallet_divisions ::= <[(corp_id, division) :=
    mkDivisionRow (corp_wallet_divisions db !! (corp_id, division) ≫= wd_name) balance
      (Some (db_now db))]> |>).

(** [ON CONFLICT (corp_id, division, esi_journal_ref_id) DO NOTHING RETURNING
    context_id]: [None] when the entry was there. *)
Definition same_entry (corp_id : Uuid) (division ref : Z) (_ : Uuid) (j : JournalRow) : bool :=
  (wj_corp_id j == corp_id) && (wj_division j == division) && (wj_esi_journal_ref_id j == ref).

Definition insert_journal (corp_id : Uuid) (division : Z) (entry : EsiWalletJournalEntry) (raw : Value)
    : Stmt (option (option Z)) :=
  amount ← expect NumericOverflow (numeric_cast 20 2 (isk_or_zero (ej_amount entry)));
  balance ← expect NumericOverflow (numeric_cast 20 2 (isk_or_zero (ej_balance entry)));
  id ← new_uuid;
  conflict ← reads (λ db, sel_exists (same_entry corp_id division (ej_id entry)) (corp_wallet_journal db));
  if conflict : bool then mret None
  else
    _ ← unique (λ db, negb (row_exists (corp_wallet_journal db) id)) "corp_wallet_journal_pkey";
    _ ← foreign_key (λ db, row_exists (corps db) corp_id) "corp_wallet_journal_corp_id_fkey";
    _ ← execute (λ db, db <| corp_wallet_journal ::= <[id :=
          mkJournalRow corp_id division (ej_id entry) (ej_date entry) (ej_ref_type entry)
            amount balance (ej_first_party_id entry) (ej_second_party_id entry)
            (ej_context_id entry) (ej_context_id_type entry) (ej_reason entry) raw (db_now db)]> |>);
    mret (Some (ej_context_id entry)).

(** The ESI id of the contract a newly inserted entry is about. *)
Definition record_entry (corp_id : Uuid) (division : Z) (entry : EsiWalletJournalEntry) : J (list Z) :=
  match ej_to_value entry with
  | None => j_throw (Je_Anyhow "serialize journal entry")
  | Some raw =>
      inserted ← j_statement (insert_journal corp_id (wrap_i16 division) entry raw);
      mret match inserted with
           | Some (Some ctx_id) =>
               if ej_context_id_type entry == Some "contract_id" then [ctx_id] else []
           | _ => []
           end
  end.

Fixpoint j_collect {X A} (body : X → J (list A)) (xs : list X) : J (list A) :=
  match xs with
  | [] => mret []
  | x :: rest => out ← body x; outs ← j_collect body rest; mret (out ++ outs)
  end.

(** The divisions' journals; [None] when ESI answers 403 part way. *)
Fixpoint fetch_journals (corp_id : Uuid) (esi_corp_id : Z) (amb : Uuid) (client : CachedClient)
    (divisions : list Z) : J (option (list Z)) :=
  match divisions with
  | [] => mret (Some [])
  | division :: rest =>
      answer ← esi_call amb (corp_wallet_journal_of client esi_corp_id division);
      match answer with
      | Ok journal =>
          ids ← j_collect (record_entry corp_id division) journal;
          more ← fetch_journals corp_id esi_corp_id amb client rest;
          mret ((λ ids', ids ++ ids') <$> more)
      | Err e =>
          if e == Esi_Api 403 then
            _ ← j_execute (mark_auth_error corp_id amb);
            _ ← j_record_non_2xx;
            mret None
          else _ ← j_record_non_2xx; j_throw (Je_Esi e)
      end
  end.

Definition contracts_by_esi (esi_ids : list Z) (db : Db) : list Uuid :=
  fst <$> select_where (λ _ c, bool_decide (ct_esi_contract_id c ∈ esi_ids)) (contracts db).

(** The backfill: a row per unverified contract and entry of the corporation
    that names it. *)
Definition unverified (corp_id : Uuid) (db : Db) : list Uuid :=
  kc ← select_where (λ _ c, is_none (ct_wallet_verified_at c)) (contracts db);
  kj ← select_where (λ _ j, (wj_corp_id j == corp_id) &&
                            (wj_context_id_type j == Some "contract_id") &&
                            (wj_context_id j == Some (ct_esi_contract_id kc.2)))
         (corp_wallet_journal db);
  [kc.1].

(** What follows a division whose journals were all read. *)
Definition finish_wallet (corp_id amb : Uuid) (interval_secs : Z) (esi_ids : list Z) : J (list Uuid) :=
  contract_uuids ← j_query (contracts_by_esi esi_ids);
  backfill ← j_query (unverified corp_id);
  _ ← j_execute (mark_used corp_id amb);
  _ ← j_attempt (persist amb);
  _ ← j_execute (advance_wallet_cursor corp_id interval_secs);
  mret (contract_uuids ++
        List.filter (λ id, negb (bool_decide (id ∈ contract_uuids))) backfill).

Fixpoint try_ambassadors (corp_id : Uuid) (esi_corp_id interval_secs : Z) (ambassadors : list Uuid)
    : J (list Uuid) :=
  match ambassadors with
  | [] =>
      _ ← j_execute (corp_auth_error corp_id);
      _ ← j_execute (advance_wallet_cursor corp_id interval_secs);
      mret []
  | amb :: rest =>
      client ← j_attempt (authed_client amb);
      match client with
      | Err _ => try_ambassadors corp_id esi_corp_id interval_secs rest
      | Ok client =>
          answer ← esi_call amb (corp_wallet_balances client esi_corp_id);
          match answer with
          | Err e =>
              if e == Esi_Api 403 then
                _ ← j_execute (mark_auth_error corp_id amb);
                _ ← j_record_non_2xx;
                try_ambassadors corp_id esi_corp_id interval_secs rest
              else _ ← j_record_non_2xx; j_throw (Je_Esi e)
          | Ok wallets =>
              _ ← j_for_each (λ w, j_statement (upsert_division corp_id w)) wallets;
              esi_ids ← fetch_journals corp_id esi_corp_id amb client (ew_division <$> wallets);
              match esi_ids with
              | None => mret []
              | Some esi_ids => finish_wallet corp_id amb interval_secs esi_ids
              end
          end
      end
  end.

Definition poll_one_corp_wallet (interval_secs : Z) (corp : Uuid * Z) : J (list Uuid) :=
  let '(corp_id, esi_corp_id) := corp in
  with_budget [] (
    ambassadors ← j_query (λ db,
      take AMBASSADORS (usable_ambassadors db CORP_WALLET_SCOPE corp_id));
    if bool_decide (ambassadors = []) then
      _ ← j_execute (advance_wallet_cursor corp_id interval_secs); mret []
    else try_ambassadors corp_id esi_corp_id interval_secs ambassadors).

Definition run (cfg : WorkerConfig) : J unit :=
  with_budget tt (
    let interval_secs := wp_corp_wallet (wc_poll_intervals_secs cfg) in
    eligible_count ← j_query (λ db, Z.of_nat (length (enabled_corps db)));
    if (eligible_count =? 0)%Z then mret tt
    else
      let slice := slice_size eligible_count (wk_tick_secs (wc_worker cfg)) interval_secs in
      due ← j_query (due_corps co_wallet_next_poll_at slice);
      all_contract_ids ← run_tasks (poll_one_corp_wallet interval_secs) due;
      j_execute (verify_all all_contract_ids)).
End CorpWalletJob.
