(* ===== verification/Csa.v ===== *)
(** * Structure access

    [crates/worker/src/jobs/csa.rs]: which characters may read a citadel, and
    the record of what they were answered. *)

From Stdlib Require Import ZArith Lia.
From stdpp Require Import base tactics decidable option list gmap strings pretty sorting.
From S2P Require Import Prelude Effect Money Domain Host Schema Errors Market Detail Cipher Tokens Jobs.

Local Open Scope string_scope.
Local Open Scope list_scope.

Inductive AccessDimension := Details | Market.

Definition CANDIDATES : nat := 5.

Section Csa.
Context `{RT : Runtime} {AE : Aead} {EA : EsiAuth} {WE : WorkerEnv}.

(** The columns of a dimension; a missing row reads as unknown, never checked. *)
Definition access_of (dim : AccessDimension) (csa : option CsaRow) : AccessStatus * option Timestamp :=
  match csa with
  | None => (Access_Unknown, None)
  | Some r =>
      match dim with
      | Details => (csa_details_status r, csa_details_checked_at r)
      | Market => (csa_market_status r, csa_market_checked_at r)
      end
  end.

Definition with_access (dim : AccessDimension) (status : AccessStatus) (checked_at : Timestamp)
    (csa : option CsaRow) : CsaRow :=
  let r := from_option id (mkCsaRow Access_Unknown None Access_Unknown None) csa in
  match dim with
  | Details => r <| csa_details_status := status |> <| csa_details_checked_at := Some checked_at |>
  | Market => r <| csa_market_status := status |> <| csa_market_checked_at := Some checked_at |>
  end.

Definition upsert_access (character_id market_id : Uuid) (status : AccessStatus) (dim : AccessDimension)
    : Stmt unit :=
  _ ← foreign_key (λ db, row_exists (characters db) character_id)
        "character_structure_access_character_id_fkey";
  _ ← foreign_key (λ db, row_exists (markets db) market_id)
        "character_structure_access_market_id_fkey";
  execute (λ db, db <| character_structure_access ::= <[(character_id, market_id) :=
    with_access dim status (db_now db) (character_structure_access db !! (character_id, market_id))]> |>).

Definition status_rank (s : AccessStatus) : Z :=
  match s with Access_Ok => 0 | Access_Unknown => 1 | Access_Forbidden => 2 end.

(** The joins of a search restricted to groups that track the market. *)
Definition in_tracking_group (db : Db) (market_id user_id : Uuid) : bool :=
  sel_exists (λ k _, (k.1 == user_id) && row_exists (group_tracked_markets db) (k.2, market_id))
    (group_memberships db).

Definition may_ask (db : Db) (backoff_secs : Z) (access : AccessStatus * option Timestamp) : bool :=
  negb (access.1 == Access_Forbidden) ||
  match access.2 with
  | None => true
  | Some t => (t <? db_now db - seconds backoff_secs)%Z
  end.

(** [ORDER BY status_rank, checked_at NULLS FIRST, id]. *)
Definition rank_before (a b : Uuid * (AccessStatus * option Timestamp)) : bool :=
  let ra := status_rank a.2.1 in
  let rb := status_rank b.2.1 in
  (ra <? rb)%Z ||
  ((ra =? rb)%Z &&
   ((nulls_first a.2.2 b.2.2 && negb (nulls_first b.2.2 a.2.2)) ||
    ((a.2.2 == b.2.2) && (a.1 <=? b.1)%N))).

Definition select_candidates (market_id : Uuid) (scope : string) (dim : AccessDimension)
    (backoff_secs : Z) (require_group_tracking : bool) (db : Db) : list Uuid :=
  let access k := access_of dim (character_structure_access db !! (k, market_id)) in
  fst <$> take CANDIDATES (sort_by rank_before
    ((λ kc, (kc.1, access kc.1)) <$>
       select_where (λ k ch, has_scope scope ch &&
                             (negb require_group_tracking || in_tracking_group db market_id (ch_user_id ch)) &&
                             may_ask db backoff_secs (access k)) (characters db))).

(** Whom a search returns. *)
Lemma select_candidates_sound market_id scope dim backoff tracking db id :
  id ∈ select_candidates market_id scope dim backoff tracking db →
  ∃ ch, characters db !! id = Some ch ∧ has_scope scope ch = true ∧
    (tracking = true → in_tracking_group db market_id (ch_user_id ch) = true) ∧
    may_ask db backoff (access_of dim (character_structure_access db !! (id, market_id))) = true.
Proof.
  unfold select_candidates. intros ([k a] & -> & Hin)%list_elem_of_fmap.
  assert ((k, a) ∈ (λ kc : Uuid * CharacterRow,
    (kc.1, access_of dim (character_structure_access db !! (kc.1, market_id)))) <$>
      select_where (λ k ch, has_scope scope ch &&
        (negb tracking || in_tracking_group db market_id (ch_user_id ch)) &&
        may_ask db backoff (access_of dim (character_structure_access db !! (k, market_id))))
        (characters db)) as Hin'.
  { apply subseteq_take in Hin.
    unfold sort_by in Hin. by rewrite merge_sort_Permutation in Hin. }
  apply list_elem_of_fmap in Hin' as ([k' ch] & [= -> ->] & [Hk HP]%elem_of_select_where).
  cbn in *. bool_simpl. exists ch. split_and!; try done. intros ->. done.
Qed.
End Csa.
