(* ===== verification/CitadelDiscovery.v ===== *)
(** * Citadel discovery

    [crates/worker/src/jobs/citadel_discovery.rs]: the public structures ESI
    lists are upserted, and a structure missing from too many lists in a row is
    no longer public. *)

From Stdlib Require Import ZArith Lia.
From stdpp Require Import base tactics decidable option list gmap strings pretty.
From S2P Require Import Prelude Effect Money Domain Host Schema Fixtures Errors Market Detail Cipher Tokens Jobs.

Local Open Scope string_scope.
Local Open Scope list_scope.

Section CitadelDiscovery.
Context `{RT : Runtime} {AE : Aead} {EA : EsiAuth} {WE : WorkerEnv}.

Definition at_location (loc : Z) (_ : Uuid) (m : MarketRow) : bool := m_esi_location_id m == loc.

Definition seen_again (now : Timestamp) (m : MarketRow) : MarketRow :=
  m <| m_last_seen_public_at := Some now |> <| m_missing_poll_count := 0%Z |> <| m_is_public := true |>.

Definition discovered (now : Timestamp) (loc : Z) : MarketRow :=
  mkMarketRow PublicStructure loc None None None false true (Some now) None None None None None 0 None now.

(** One row of the [INSERT ... ON CONFLICT (esi_location_id) DO UPDATE]. *)
Definition upsert_structure (loc : Z) : Stmt unit :=
  id ← new_uuid;
  known ← reads (λ db, sel_exists (at_location loc) (markets db));
  if known : bool
  then execute (λ db, db <| markets ::= update_where (at_location loc) (seen_again (db_now db)) |>)
  else
    _ ← unique (λ db, negb (row_exists (markets db) id)) "markets_pkey";
    execute (λ db, db <| markets ::= <[id := discovered (db_now db) loc]> |>).

Definition listed_public (m : MarketRow) : bool := (m_kind m == PublicStructure) && m_is_public m.

(** Structures missing from the list. *)
Definition missed (ids : list Z) (_ : Uuid) (m : MarketRow) : bool :=
  listed_public m && negb (bool_decide (m_esi_location_id m ∈ ids)).

Definition count_missing (ids : list Z) : Stmt unit :=
  overflow ← reads (λ db, sel_exists (λ k m, missed ids k m && (m_missing_poll_count m =? 2 ^ 31 - 1)%Z)
                            (markets db));
  _ ← ensure (negb overflow) NumericOverflow;
  execute (λ db, db <| markets ::= update_where (missed ids)
    (λ m, m <| m_missing_poll_count ::= Z.succ |>) |>).

Definition disable_stale (threshold : Z) : Stmt unit :=
  execute (λ db, db <| markets ::= update_where
    (λ _ m, listed_public m && (threshold <=? m_missing_poll_count m)%Z)
    (λ m, m <| m_is_public := false |>) |>).

Definition record_structures (threshold : Z) (ids : list Z) : M Db Anyhow unit :=
  _ ← sql (ensure (bool_decide (NoDup ids)) CardinalityViolation);
  _ ← sql (for_each upsert_structure ids);
  _ ← sql (count_missing ids);
  sql (disable_stale threshold).

(** [listed] is [list_public_structure_ids()]. *)
Definition run (listed : result Anyhow (list Z)) (cfg : WorkerConfig) : J unit :=
  with_budget tt (
    ids ← j_budgeted (match listed with
                      | Ok ids => mret ids
                      | Err e => j_throw (Je_Anyhow ("list_public_structure_ids: " +:+ e))
                      end);
    j_transaction (record_structures
      (wk_citadel_discovery_missing_threshold (wc_worker cfg)) ids)).

(** ** What a round does to a market *)

(** The row of a market after a round that lists [ids]. *)
Definition after_round (now : Timestamp) (threshold : Z) (ids : list Z) (m : MarketRow) : MarketRow :=
  let m := if bool_decide (m_esi_location_id m ∈ ids) then seen_again now m else m in
  let m := if missed ids 0%N m then m <| m_missing_poll_count ::= Z.succ |> else m in
  if listed_public m && (threshold <=? m_missing_poll_count m)%Z then m <| m_is_public := false |> else m.

Record upserted (ids : list Z) (db db' : Db) : Prop := mkUpserted {
  us_old k m : markets db !! k = Some m →
    markets db' !! k = Some (if bool_decide (m_esi_location_id m ∈ ids)
                             then seen_again (db_now db) m else m);
  us_new k m : markets db' !! k = Some m → markets db !! k = None →
    ∃ loc, loc ∈ ids ∧ m = discovered (db_now db) loc;
  us_all loc : loc ∈ ids → ∃ k m, markets db' !! k = Some m ∧ m_esi_location_id m = loc ∧
    m_is_public m = true ∧ m_missing_poll_count m = 0%Z;
  us_now : db_now db' = db_now db
}.

Lemma upsert_structure_run loc db u db' :
  upsert_structure loc db = Ok (u, db') → upserted [loc] db db'.
Proof.
  unfold upsert_structure. intros Hrun. inv_sql.
  destruct (sel_exists (at_location loc) _) eqn:Hex; inv_sql; set_simpl.
  - apply sel_exists_true in Hex as (k0 & m0 & Hk0 & HP0).
    split; set_simpl; [| |intros l ->%list_elem_of_singleton|done].
    + intros k m Hk. rewrite lookup_update_where, Hk. cbn. unfold at_location. f_equal.
      destruct (decide (m_esi_location_id m = loc)) as [->|Hne].
      * by rewrite !bool_decide_eq_true_2 by (done || by left).
      * rewrite !bool_decide_eq_false_2; [done|by intros ?%list_elem_of_singleton|done].
    + intros k m Hk Hn. rewrite lookup_update_where, Hn in Hk. done.
    + exists k0, (seen_again (db_now db) m0). rewrite lookup_update_where, Hk0. cbn. rewrite HP0.
      unfold at_location in HP0. bool_simpl. by destruct m0.
  - rewrite sel_exists_false in Hex. split; set_simpl; [| |intros l ->%list_elem_of_singleton|done].
    + intros k m Hk. rewrite bool_decide_eq_false_2.
      * rewrite lookup_insert_ne; [done|]. intros <-. unfold row_exists in *. rewrite Hk in *. done.
      * intros Hloc%list_elem_of_singleton. subst loc. specialize (Hex _ _ Hk). unfold at_location in Hex.
        by rewrite bool_decide_eq_true_2 in Hex.
    + intros k m Hk Hn. apply lookup_insert_Some in Hk as [[_ <-]|[_ Hk]]; [|congruence].
      exists loc. by split; [left|].
    + eexists _, _. split; [apply lookup_insert_eq|done].
Qed.

Lemma upserted_trans ids1 ids2 db1 db2 db3 :
  upserted ids1 db1 db2 → upserted ids2 db2 db3 → upserted (ids1 ++ ids2) db1 db3.
Proof.
  intros [O1 N1 A1 T1] [O2 N2 A2 T2]. rewrite T1 in *. split; [| | |congruence].
  - intros k m Hk. apply O1 in Hk. apply O2 in Hk. rewrite Hk. f_equal. unfold seen_again.
    repeat case_bool_decide; set_simpl; try set_solver; by destruct m.
  - intros k m Hk Hn. destruct (markets db2 !! k) as [m2|] eqn:Hk2.
    + destruct (N1 _ _ Hk2 Hn) as (loc & Hin & ->). apply O2 in Hk2. rewrite Hk in Hk2.
      injection Hk2 as ->. exists loc. split; [set_solver|]. by case_bool_decide.
    + destruct (N2 _ _ Hk Hk2) as (loc & Hin & ->). exists loc. set_solver.
  - intros loc [Hin|Hin]%elem_of_app; [|by apply A2].
    apply A1 in Hin as (k & m & Hk & HP). apply O2 in Hk.
    eexists _, _. split; [exact Hk|]. by case_bool_decide; [destruct m; naive_solver|].
Qed.

Lemma upsert_all_run ids db u db' :
  for_each upsert_structure ids db = Ok (u, db') → upserted ids db db'.
Proof.
  revert db. induction ids as [|loc rest IH]; intros db Hrun.
  - apply for_each_nil in Hrun as ->. split; [|congruence|intros ? ?; set_solver|done].
    intros k m Hk. by rewrite bool_decide_eq_false_2 by set_solver.
  - cbn [for_each] in Hrun. apply bind_Ok in Hrun as (? & db1 & Hx & Hrest).
    change (loc :: rest) with ([loc] ++ rest).
    eapply upserted_trans; [by eapply upsert_structure_run|by apply IH].
Qed.

(** A structure just listed is public and stays so. *)
Lemma listed_stays threshold ids k m :
  (0 < threshold)%Z → m_esi_location_id m ∈ ids → m_missing_poll_count m = 0%Z →
  let m1 := if missed ids k m then m <| m_missing_poll_count ::= Z.succ |> else m in
  (if listed_public m1 && (threshold <=? m_missing_poll_count m1)%Z
   then m1 <| m_is_public := false |> else m1) = m.
Proof.
  intros Hth Hin H0. unfold missed. rewrite (bool_decide_eq_true_2 _ Hin), andb_false_r. cbn zeta.
  rewrite H0. destruct (threshold <=? 0)%Z eqn:Hle; [apply Z.leb_le in Hle; lia|]. by rewrite andb_false_r.
Qed.

(** C38 A round leaves every market as [after_round] says, and adds exactly the
    listed structures it did not know. *)
Theorem record_structures_spec threshold ids db u db' :
  record_structures threshold ids db = Ok (u, db') → (0 < threshold)%Z →
  (∀ k m, markets db !! k = Some m →
     markets db' !! k = Some (after_round (db_now db) threshold ids m)) ∧
  (∀ k m, markets db' !! k = Some m → markets db !! k = None →
     ∃ loc, loc ∈ ids ∧ m = discovered (db_now db) loc) ∧
  (∀ loc, loc ∈ ids → ∃ k m, markets db' !! k = Some m ∧ m_esi_location_id m = loc ∧ m_is_public m = true).
Proof.
  unfold record_structures, count_missing, disable_stale. intros Hrun Hth. inv_sql.
  match goal with H : for_each _ _ _ = _ |- _ => apply upsert_all_run in H as [O N A T] end.
  set_simpl. split_and!.
  - intros k m Hk. rewrite !lookup_update_where, (O _ _ Hk). cbn [fmap option_fmap option_map].
    unfold after_round. done.
  - intros k m Hk Hn. rewrite !lookup_update_where in Hk.
    destruct (markets _ !! k) as [m1|] eqn:Hk1; [|done].
    destruct (N _ _ Hk1 Hn) as (loc & Hin & ->). exists loc. split; [done|].
    injection Hk as <-. by apply listed_stays.
  - intros loc Hin. destruct (A _ Hin) as (k & m & Hk & <- & Hp & H0). exists k, m. split; [|done].
    rewrite !lookup_update_where, Hk. cbn [fmap option_fmap option_map]. f_equal. by apply listed_stays.
Qed.
End CitadelDiscovery.

(** ** Witness *)
Section Witnesses.
#[local] Existing Instance fixture_runtime.

(** One structure missed twice already, one that is listed again, and a new one. *)
Definition discovery_db : Db :=
  base_db <| markets ::= λ m, <[51%N := discovered 10 1001 <| m_missing_poll_count := 2%Z |>]>
                              (<[52%N := discovered 10 1002 <| m_is_public := false |>]> m) |>.

Lemma record_structures_spec_witness :
  ∃ db', record_structures 3 [1002%Z; 1003%Z] discovery_db = Ok (tt, db') ∧
    (m_is_public <$> markets db' !! 51%N) = Some false ∧
    (m_is_public <$> markets db' !! 52%N) = Some true.
Proof.
  run_concrete (record_structures 3 [1002%Z; 1003%Z] discovery_db) u db' Hrun. destruct u.
  destruct (record_structures_spec 3 [1002%Z; 1003%Z] discovery_db tt db' Hrun ltac:(lia)) as (Hold & _ & _).
  exists db'. split; [exact Hrun|]. split.
  - rewrite (Hold 51%N (discovered 10 1001 <| m_missing_poll_count := 2%Z |>)); reflexivity.
  - rewrite (Hold 52%N (discovered 10 1002 <| m_is_public := false |>)); reflexivity.
Defined.
End Witnesses.
