(* ===== verification/CitadelDetails.v ===== *)
(** * Citadel details

    [crates/worker/src/jobs/citadel_details.rs]: name, region and type of the
    citadels that lack them or have stale ones, read through the first
    character that may. *)

From Stdlib Require Import ZArith Lia.
From stdpp Require Import base tactics decidable option list gmap strings pretty sorting.
From S2P Require Import Prelude Effect Money Unicode Domain Host Schema Errors Market Detail Cipher Tokens Jobs Csa.

Local Open Scope string_scope.
Local Open Scope list_scope.

(** The fields of [EsiStructureInfo] that are stored, and the calls: that of an
    authenticated client, and the two public ones that lead from a system to
    its constellation and from there to its region. *)
Class StructureEsi := {
  EsiStructureInfo : Type;
  si_name : EsiStructureInfo → Str;
  si_solar_system_id : EsiStructureInfo → Z;
  si_type_id : EsiStructureInfo → option Z;
  get_structure : CachedClient → Z → result EsiError EsiStructureInfo;
  get_system : Z → result Anyhow Z;
  get_constellation : Z → result Anyhow Z
}.

Definition REFRESH_BATCH : nat := 50.
Definition BACKFILL_BATCH : nat := 25.
Definition STRUCTURES_SCOPE : string := "esi-universe.read_structures.v1".

Definition ellipsis : N := 0x2026.

Definition derive_short_label (name : Str) : Str :=
  let trimmed := trim name in
  let shortened := if (length trimmed <=? 24)%nat then trimmed else take 23 trimmed ++ [ellipsis] in
  match split_once (str " - ") name with
  | Some (pre, _) => if (length (trim pre) <=? 24)%nat then trim pre else shortened
  | None => shortened
  end.

(** Never more than the 24 characters the comment promises. *)
Lemma derive_short_label_bound name : (length (derive_short_label name) ≤ 24)%nat.
Proof.
  assert (∀ s : Str, length (if (length s <=? 24)%nat then s else take 23 s ++ [ellipsis]) ≤ 24)%nat as Hs.
  { intros s. destruct (length s <=? 24)%nat eqn:Hl; [by apply Nat.leb_le|].
    rewrite length_app, length_take. cbn [length]. lia. }
  unfold derive_short_label. destruct (split_once _ name) as [[pre post]|]; [|apply Hs].
  destruct (length (trim pre) <=? 24)%nat eqn:Hl; [by apply Nat.leb_le|apply Hs].
Qed.

Section CitadelDetails.
Context `{RT : Runtime} {SE : StructureEsi} {AE : Aead} {EA : EsiAuth} {WE : WorkerEnv}.

(** [resolve_region_for_system], with its process-wide cache. *)
Definition resolve_region_for_system (system_id : Z) : J Z := λ w,
  match w_regions w !! system_id with
  | Some region => (Ok region, w)
  | None =>
      match get_system system_id with
      | Err e => (Err (Je_Anyhow ("get_system(" +:+ pretty system_id +:+ "): " +:+ e)), w)
      | Ok constellation =>
          match get_constellation constellation with
          | Err e => (Err (Je_Anyhow ("get_constellation(" +:+ pretty constellation +:+ "): " +:+ e)), w)
          | Ok region => (Ok region, mkWorld (w_store w) (w_budget w) (<[system_id := region]> (w_regions w)))
          end
      end
  end.

Fixpoint first_structure (market_id : Uuid) (location : Z) (candidates : list Uuid)
    : J (option EsiStructureInfo) :=
  match candidates with
  | [] => mret None
  | cid :: rest =>
      client ← j_attempt (authed_client cid);
      match client with
      | Err _ => first_structure market_id location rest
      | Ok client =>
          answer ← esi_call cid (get_structure client location);
          match answer with
          | Ok info =>
              _ ← j_statement (upsert_access cid market_id Access_Ok Details);
              _ ← j_attempt (persist cid);
              mret (Some info)
          | Err e =>
              _ ← j_record_non_2xx;
              _ ← (if e == Esi_Api 403
                   then j_statement (upsert_access cid market_id Access_Forbidden Details)
                   else mret tt);
              first_structure market_id location rest
          end
      end
  end.

Definition store_details (market_id : Uuid) (info : EsiStructureInfo) (region_id : Z) (db : Db) : Db :=
  db <| markets ::= update_where (λ k _, k == market_id)
    (λ m, m <| m_name := Some (utf8 (si_name info)) |>
            <| m_short_label := Some (utf8 (derive_short_label (si_name info))) |>
            <| m_region_id := Some region_id |>
            <| m_solar_system_id := Some (si_solar_system_id info) |>
            <| m_structure_type_id := si_type_id info |>
            <| m_details_synced_at := Some (db_now db) |>) |>.

Definition resolve_one (access_backoff_secs : Z) (row : Uuid * Z) : J unit :=
  candidates ← j_query (select_candidates row.1 STRUCTURES_SCOPE Details access_backoff_secs false);
  if bool_decide (candidates = []) then mret tt
  else
    info ← first_structure row.1 row.2 candidates;
    match info with
    | None => mret tt
    | Some info =>
        region_id ← resolve_region_for_system (si_solar_system_id info);
        j_execute (store_details row.1 info region_id)
    end.

Definition public_structure (m : MarketRow) : bool := (m_kind m == PublicStructure) && m_is_public m.

Definition tracked (db : Db) (market_id : Uuid) : bool :=
  sel_exists (λ k _, k.2 == market_id) (group_tracked_markets db).

(** [at IS NULL OR at < now() - make_interval(secs => $1)]. *)
Definition stale_at (db : Db) (secs : Z) (at_ : option Timestamp) : bool :=
  match at_ with None => true | Some t => (t <? db_now db - seconds secs)%Z end.

Definition targets (rows : list (Uuid * MarketRow)) : list (Uuid * Z) :=
  (λ km, (km.1, m_esi_location_id km.2)) <$> rows.

Definition refresh_rows (refresh_secs : Z) (db : Db) : list (Uuid * Z) :=
  targets (take REFRESH_BATCH
    (sort_by (λ a b, nulls_first (m_details_synced_at a.2) (m_details_synced_at b.2))
       (select_where (λ k m, public_structure m && tracked db k &&
                             stale_at db refresh_secs (m_details_synced_at m)) (markets db)))).

Definition backfill_rows (db : Db) : list (Uuid * Z) :=
  targets (take BACKFILL_BATCH
    (sort_by (λ a b, m_created_at a.2 <=? m_created_at b.2)%Z
       (select_where (λ _ m, public_structure m && is_none (m_details_synced_at m)) (markets db)))).

Definition run (cfg : WorkerConfig) : J unit :=
  with_budget tt (
    let intervals := wc_poll_intervals_secs cfg in
    refresh ← j_query (refresh_rows (wp_citadel_details intervals));
    backfill ← j_query backfill_rows;
    spawn_all (resolve_one (wp_structure_access_backoff intervals)) (refresh ++ backfill)).
End CitadelDetails.
