(* ===== verification/CitadelOrders.v ===== *)
(** * Citadel orders

    [crates/worker/src/jobs/citadel_orders.rs]: the order books of tracked
    citadels on open lists.  A citadel whose every candidate is refused is
    paused. *)

From Stdlib Require Import ZArith Lia.
From stdpp Require Import base tactics decidable option list gmap strings pretty sorting.
From S2P Require Import Prelude Effect Money Unicode Domain Host Schema Errors Market Detail Cipher Tokens Jobs Csa.
From S2P Require Import CitadelDetails.

Local Open Scope string_scope.
Local Open Scope list_scope.

(** The market endpoints as a character's client is answered, and the status of
    the [EsiError] an [anyhow::Error] may wrap. *)
Class OrdersEsi := {
  market_client : CachedClient → MarketApi;
  esi_status : Anyhow → option Z
}.

Definition BATCH : nat := 50.

Section CitadelOrders.
Context `{RT : Runtime} {OE : OrdersEsi} {AE : Aead} {EA : EsiAuth} {WE : WorkerEnv}.

(** The types the open lists of a market ask for. *)
Definition wanted_types (db : Db) (market_id : Uuid) (live : ListItemStatus → bool) : list Z :=
  remove_dups ((λ kli, li_type_id kli.2) <$>
    select_where (λ _ li, live (li_status li) &&
      (from_option (λ l, l_status l == List_Open) false (lists db !! li_list_id li)) &&
      row_exists (list_markets db) (li_list_id li, market_id)) (list_items db)).

Definition unfilled (s : ListItemStatus) : bool := (s == Item_Open) || (s == Item_Claimed).

Record DriverRow := mkDriverRow {
  dr_market_id : Uuid;
  dr_esi_location_id : Z;
  dr_type_ids : list Z
}.

Definition driver_rows (cadence_secs : Z) (db : Db) : list DriverRow :=
  (λ km, mkDriverRow km.1 (m_esi_location_id km.2) (wanted_types db km.1 unfilled)) <$>
    take BATCH (sort_by (λ a b, nulls_first (m_last_orders_synced_at a.2) (m_last_orders_synced_at b.2))
      (select_where (λ k m, public_structure m &&
         match m_untrackable_until m with None => true | Some t => (t <? db_now db)%Z end &&
         tracked db k && stale_at db cadence_secs (m_last_orders_synced_at m) &&
         negb (bool_decide (wanted_types db k unfilled = []))) (markets db))).

(** How the candidates fared. *)
Record Tries := mkTries { succeeded : bool; access_denied : nat; transient : nat }.

Definition hide_market (market_id : Uuid) (db : Db) : Db :=
  db <| markets ::= update_where (λ k _, k == market_id) (λ m, m <| m_is_public := false |>) |>.

Definition pause_market (market_id : Uuid) (backoff_secs : Z) (db : Db) : Db :=
  db <| markets ::= update_where (λ k _, k == market_id)
    (λ m, m <| m_untrackable_until := Some (db_now db + seconds backoff_secs)%Z |>) |>.

(** [market::refresh_many_for_citadel] by a character's client. *)
Definition refresh_by (cid : Uuid) (client : CachedClient) (row : DriverRow) : J unit :=
  _ ← esi_call (A := unit) cid (Ok tt);
  j_transaction (
    _ ← @refresh_many_for_citadel _ (market_client client) (dr_market_id row)
          (dr_esi_location_id row) (dr_type_ids row);
    mret tt).

Definition status_of (e : JobError) : option Z :=
  match e with Je_Anyhow msg => esi_status msg | _ => None end.

Fixpoint try_candidates (row : DriverRow) (candidates : list Uuid) (t : Tries) : J Tries :=
  match candidates with
  | [] => mret t
  | cid :: rest =>
      client ← j_attempt (authed_client cid);
      match client with
      | Err _ => try_candidates row rest (mkTries false (access_denied t) (S (transient t)))
      | Ok client =>
          outcome ← j_attempt (refresh_by cid client row);
          match outcome with
          | Ok _ =>
              _ ← j_statement (upsert_access cid (dr_market_id row) Access_Ok Csa.Market);
              _ ← j_attempt (persist cid);
              mret (mkTries true (access_denied t) (transient t))
          | Err e =>
              _ ← j_record_non_2xx;
              if status_of e == Some 403%Z then
                _ ← j_statement (upsert_access cid (dr_market_id row) Access_Forbidden Csa.Market);
                try_candidates row rest (mkTries false (S (access_denied t)) (transient t))
              else if status_of e == Some 404%Z then
                _ ← j_execute (hide_market (dr_market_id row));
                j_throw (Je_Anyhow "structure 404, marked non-public")
              else try_candidates row rest (mkTries false (access_denied t) (S (transient t)))
          end
      end
  end.

Definition refresh_one (backoff_secs : Z) (row : DriverRow) : J unit :=
  candidates ← j_query (select_candidates (dr_market_id row) structure_markets_scope Csa.Market
                          backoff_secs true);
  if bool_decide (candidates = []) then mret tt
  else
    t ← try_candidates row candidates (mkTries false 0 0);
    if negb (succeeded t) && (0 <? access_denied t)%nat && (transient t =? 0)%nat
    then j_execute (pause_market (dr_market_id row) backoff_secs)
    else mret tt.

Definition run (cfg : WorkerConfig) : J unit :=
  with_budget tt (
    let intervals := wc_poll_intervals_secs cfg in
    rows ← j_query (driver_rows (wp_citadel_orders intervals));
    spawn_all (refresh_one (wp_structure_access_backoff intervals)) rows).
End CitadelOrders.
