(* ===== verification/NpcHubs.v ===== *)
(** * NPC hub prices

    [crates/worker/src/jobs/npc_hubs.rs]: the stale prices of the hubs on open
    lists, refreshed through the anonymous client. *)

From Stdlib Require Import ZArith Lia.
From stdpp Require Import base tactics decidable option list gmap strings pretty sorting.
From S2P Require Import Prelude Effect Money Domain Host Schema Errors Market Detail Cipher Tokens Jobs.
From S2P Require Import CitadelDetails CitadelOrders.

Local Open Scope string_scope.
Local Open Scope list_scope.

Section NpcHubs.
Context `{RT : Runtime} {MA : MarketApi} {AE : Aead} {EA : EsiAuth} {WE : WorkerEnv}.

Definition price_stale (db : Db) (ttl : Z) (market_id : Uuid) (type_id : Z) : bool :=
  stale_at db ttl (mp_computed_at <$> market_prices db !! (market_id, type_id)).

(** The (market, type) pairs to refresh; each market's row carries its types. *)
Definition stale_pairs (ttl : Z) (db : Db) : list (Domain.Market * Z) :=
  km ← select_where (λ _ m, m_is_public m && (m_kind m == NpcHub)) (markets db);
  t ← List.filter (price_stale db ttl km.1) (wanted_types db km.1 (λ _, true));
  [(into_market km.1 km.2, t)].

Definition refresh_pair (pair : Domain.Market * Z) : J unit :=
  j_budgeted (_ ← j_transaction (Market.refresh_one pair.1 pair.2); mret tt).

Definition run (cfg : WorkerConfig) : J unit :=
  with_budget tt (
    rows ← j_query (stale_pairs (wp_market_prices (wc_poll_intervals_secs cfg)));
    spawn_all refresh_pair rows).
End NpcHubs.
