(* ===== verification/Worker.v ===== *)
(** * The worker

    [crates/worker/src/main.rs] and [jobs/mod.rs: registry]: the slots, each
    with a ticker of its own, over one shared state; and that whatever ESI and
    Discord answer, no sequence of ticks leaves the ledger's step relation. *)

From Stdlib Require Import ZArith Lia.
From stdpp Require Import base tactics decidable option list gmap relations strings pretty.
From S2P Require Import ContractsJob CorpContractsJob CorpWalletJob Csa CitadelDiscovery CitadelDetails.
From S2P Require Import CitadelOrders NpcHubs.
From S2P Require Import Prelude Effect Money Unicode Domain Host Schema Fixtures Errors Within.
From S2P Require Import Market Config Detail Webhooks Settlement Wallet Poller Matching Corps Groups Pricing.
From S2P Require Import Invariant Book Growth Editing DebtSteps Ledger Outbox Cipher Tokens Budget Jobs.

Local Open Scope string_scope.
Local Open Scope list_scope.

(** ** Slots *)

Inductive Slot :=
| Npc_hubs
| Citadel_discovery
| Citadel_details
| Citadel_orders
| Contracts
| Corp_contracts
| Corp_wallet
| Pending_webhooks
| Token_reencrypt.

Definition registry : list Slot :=
  [Npc_hubs; Citadel_discovery; Citadel_details; Citadel_orders; Contracts; Corp_contracts;
   Corp_wallet; Pending_webhooks; Token_reencrypt].

Definition name (s : Slot) : string :=
  match s with
  | Npc_hubs => "npc_hubs"
  | Citadel_discovery => "citadel_discovery"
  | Citadel_details => "citadel_details"
  | Citadel_orders => "citadel_orders"
  | Contracts => "contracts"
  | Corp_contracts => "corp_contracts"
  | Corp_wallet => "corp_wallet"
  | Pending_webhooks => "pending_webhooks"
  | Token_reencrypt => "token_reencrypt"
  end.

Definition interval_secs (s : Slot) (cfg : WorkerConfig) : Z :=
  let intervals := wc_poll_intervals_secs cfg in
  match s with
  | Npc_hubs | Contracts | Corp_contracts | Corp_wallet => wk_tick_secs (wc_worker cfg)
  | Citadel_discovery => wp_citadel_discovery intervals
  | Citadel_details => Z.min (wp_citadel_details intervals) 300
  | Citadel_orders => wp_citadel_orders intervals
  | Pending_webhooks => 30
  | Token_reencrypt => 3600
  end.

Section Worker.
Context `{RT : Runtime} {API : EsiApi} {MA0 : MarketApi} {CFG : AppConfig} {RD : RustDecimal}
  {IC : InviteCodes} {CE : CorpEsi} {SA : ShareArith} {EC : EventCodec} {AE : Aead} {EA : EsiAuth}.

(** What a tick meets outside the process. *)
Record Outside := mkOutside {
  out_env : WorkerEnv;
  out_hubs : MarketApi;
  out_contracts : ContractsJob.ContractEsi;
  out_wallets : CorpWalletJob.WalletEsi;
  out_structures : CitadelDetails.StructureEsi;
  out_orders : CitadelOrders.OrdersEsi;
  out_listed : result Anyhow (list Z);
  out_discord : Outbox.Tick;
  out_locked : Uuid → bool
}.

Definition j_vault {A} (f : Vault → result TokenError A * Vault) : J A :=
  j_store (λ s, let '(r, v) := f (st_vault s) in (r, mkStore v (st_cipher s) (st_clients s))).

Definition reencrypt_run (locked : Uuid → bool) : J unit := λ w,
  j_vault (token_reencrypt (st_cipher (w_store w)) locked) w.

(** [slot.run(&ctx)]. *)
Definition run (o : Outside) (cfg : WorkerConfig) (s : Slot) : J unit :=
  let WE := out_env o in
  match s with
  | Npc_hubs => NpcHubs.run (MA := out_hubs o) cfg
  | Citadel_discovery => CitadelDiscovery.run (out_listed o) cfg
  | Citadel_details => CitadelDetails.run (SE := out_structures o) cfg
  | Citadel_orders => CitadelOrders.run (OE := out_orders o) cfg
  | Contracts => ContractsJob.run (CES := out_contracts o) cfg
  | Corp_contracts => CorpContractsJob.run (CES := out_contracts o) cfg
  | Corp_wallet => CorpWalletJob.run (WES := out_wallets o) cfg
  | Pending_webhooks => j_transaction (Outbox.run (out_discord o))
  | Token_reencrypt => reencrypt_run (out_locked o)
  end.

(** One turn of [drive_slot]'s loop, at a given time; a failed tick is logged.
    Or the budget's own ticker. *)
Inductive turn (cfg : WorkerConfig) : World → World → Prop :=
| turn_slot o s now utc w : turn cfg w (run o cfg s (with_db (at_clock now utc) w)).2
| turn_budget w : turn cfg w (mkWorld (w_store w) (Budget.reset (w_budget w)) (w_regions w)).

(** ** Computations that stay within the ledger's steps *)

Definition evolves {A} (m : J A) : Prop := ∀ w, rtc step (w_db w) (w_db (m w).2).

Lemma step_ledger db db' : same_ledger db db' → rtc step db db'.
Proof. intros H. by apply rtc_once, step_other. Qed.

Lemma at_clock_id db : at_clock (db_now db) (db_utc_now db) db = db.
Proof. by destruct db. Qed.

Lemma w_db_with f w : w_db (with_db f w) = f (w_db w).
Proof. done. Qed.

Section Closure.
Context {WE : WorkerEnv}.

Lemma evolves_ret {A} (a : A) : evolves (mret a).
Proof. intros w. apply rtc_refl. Qed.

Lemma evolves_throw {A} (e : JobError) : evolves (j_throw (A := A) e).
Proof. intros w. apply rtc_refl. Qed.

Lemma evolves_bind {A B} (m : J A) (k : A → J B) :
  evolves m → (∀ a, evolves (k a)) → evolves (m ≫= k).
Proof.
  intros Hm Hk w. unfold mbind, J_bind. pose proof (Hm w) as H. destruct (m w) as [[a|e] w1]; [|done].
  etransitivity; [exact H|apply Hk].
Qed.

Lemma evolves_query {A} (f : Db → A) : evolves (j_query f).
Proof. intros w. apply rtc_refl. Qed.

Lemma evolves_execute f : (∀ db, rtc step db (f db)) → evolves (j_execute f).
Proof. intros Hf w. apply Hf. Qed.

Lemma evolves_transaction {A} (body : M Db Anyhow A) :
  (∀ db, rtc step db (in_transaction body db).2) → evolves (j_transaction body).
Proof.
  intros Hb w. unfold j_transaction. specialize (Hb (w_db w)).
  by destruct (in_transaction body (w_db w)) as [r db].
Qed.

Lemma within_transaction {A} (body : M Db Anyhow A) :
  within same_ledger body → evolves (j_transaction body).
Proof.
  intros Hb. apply evolves_transaction. intros db. apply step_ledger. unfold in_transaction.
  destruct (body db) as [[a db']|e] eqn:H; [by eapply Hb|done].
Qed.

Lemma evolves_statement {A} (s : Stmt A) : within same_ledger s → evolves (j_statement s).
Proof. intros Hs. apply within_transaction. by apply within_map_err. Qed.

Lemma evolves_store {A} (f : Store → result TokenError A * Store) :
  (∀ s, same_ledger (v_db (st_vault s)) (v_db (st_vault (f s).2))) → evolves (j_store f).
Proof.
  intros Hf w. unfold j_store. specialize (Hf (w_store w)). destruct (f (w_store w)) as [r s].
  by apply step_ledger.
Qed.

Lemma evolves_has_budget : evolves j_has_budget.
Proof. intros w. apply rtc_refl. Qed.

Lemma evolves_record : evolves j_record_non_2xx.
Proof. intros w. apply rtc_refl. Qed.

Lemma evolves_attempt {A} (m : J A) : evolves m → evolves (j_attempt m).
Proof. intros Hm w. unfold j_attempt. specialize (Hm w). by destruct (m w). Qed.

Lemma evolves_for_each {X} (body : X → J unit) xs : (∀ x, evolves (body x)) → evolves (j_for_each body xs).
Proof. intros Hb. induction xs; [apply evolves_ret|by apply evolves_bind]. Qed.

Lemma evolves_tasks {X A} (task : X → J (list A)) xs :
  (∀ x, evolves (task x)) → evolves (run_tasks task xs).
Proof.
  intros Ht. induction xs as [|x xs IH]; [apply evolves_ret|].
  apply evolves_bind; [by apply evolves_attempt|intros r]. apply evolves_bind; [done|intros; apply evolves_ret].
Qed.

Lemma evolves_spawn {X} (task : X → J unit) xs : (∀ x, evolves (task x)) → evolves (spawn_all task xs).
Proof.
  intros Ht. induction xs as [|x xs IH]; [apply evolves_ret|].
  apply evolves_bind; [by apply evolves_attempt|done].
Qed.

Lemma evolves_collect {X A} (body : X → J (list A)) xs :
  (∀ x, evolves (body x)) → evolves (CorpWalletJob.j_collect body xs).
Proof.
  intros Hb. induction xs as [|x xs IH]; [apply evolves_ret|].
  apply evolves_bind; [done|intros]. apply evolves_bind; [done|intros; apply evolves_ret].
Qed.

Lemma evolves_call {A} id (answer : result EsiError A) : evolves (esi_call id answer).
Proof. intros w. unfold esi_call. cbn. destruct (refreshed_by_call id); apply rtc_refl. Qed.

Lemma evolves_client id : evolves (authed_client id).
Proof.
  apply evolves_store. intros s. unfold authed_client_for.
  destruct (load_tokens _ _ _) as [row|e]; [|done].
  destruct (st_clients s !! id) as [entry|]; [case_bool_decide; [done|]|]; by destruct with_web_app.
Qed.

Lemma evolves_persist id : evolves (persist id).
Proof.
  apply evolves_store. intros s. unfold persist_rotations.
  destruct (st_clients s !! id) as [entry|]; [|done]. destruct (cc_tokens entry) as [tokens|]; [|done].
  case_bool_decide; [done|].
  destruct (write_rotation _ _ _ _ _ _) as [[u v]|e] eqn:Hw; [|done].
  unfold write_rotation, seal, os_rng in Hw. inv_M. by split.
Qed.
End Closure.

Create HintDb evolves.
#[local] Hint Resolve evolves_query evolves_has_budget evolves_record evolves_call evolves_client
  evolves_persist evolves_ret evolves_throw : evolves.

Ltac evolve_step :=
  match goal with
  | |- evolves (_ ≫= _) => apply evolves_bind; [|intros ?]
  | |- evolves (mbind _ _) => apply evolves_bind; [|intros ?]
  | |- evolves (j_attempt _) => apply evolves_attempt
  | |- evolves (with_budget _ _) => unfold with_budget
  | |- evolves (counted _) => unfold counted
  | |- evolves (j_budgeted _) => unfold j_budgeted
  | |- evolves (run_tasks _ _) => apply evolves_tasks; intros ?
  | |- evolves (spawn_all _ _) => apply evolves_spawn; intros ?
  | |- evolves (j_for_each _ _) => apply evolves_for_each; intros ?
  | |- evolves (CorpWalletJob.j_collect _ _) => apply evolves_collect; intros ?
  | |- evolves (j_statement _) => apply evolves_statement; within_solve; by split
  | |- evolves (j_execute _) => apply evolves_execute; intros ?; apply step_ledger; by split
  | |- evolves (let '(_, _) := ?x in _) => destruct x
  | |- evolves (match ?x with _ => _ end) => destruct x
  end.
Ltac evolve := repeat first [solve [eauto with evolves] | evolve_step].

(** ** The ledger's own transactions *)

Lemma matched_steps ids db : rtc step db (run_for_contracts ids db).
Proof.
  revert db. induction ids as [|cid rest IH]; intros db; [apply rtc_refl|]. cbn [run_for_contracts].
  etransitivity; [|apply IH]. apply rtc_once.
  pose proof (step_match cid (db_now db) (db_utc_now db) db) as H. by rewrite at_clock_id in H.
Qed.

Lemma terminal_steps us db : rtc step db (handle_terminals us db).
Proof.
  revert db. induction us as [|u rest IH]; intros db; [apply rtc_refl|]. cbn [handle_terminals].
  etransitivity; [|apply IH]. destruct (uc_status_changed u); [|apply rtc_refl]. apply rtc_once.
  pose proof (step_terminal u (db_now db) (db_utc_now db) db) as H. by rewrite at_clock_id in H.
Qed.

Lemma verified_steps ids db : rtc step db (verify_all ids db).
Proof.
  apply rtc_once. pose proof (step_verify ids (db_now db) (db_utc_now db) db) as H.
  by rewrite at_clock_id in H.
Qed.

Lemma polled_steps cs db : rtc step db (in_transaction (poll_character cs) db).2.
Proof.
  apply rtc_once. pose proof (step_poll_character cs (db_now db) (db_utc_now db) db) as H.
  by rewrite at_clock_id in H.
Qed.

Lemma corp_polled_steps corp_id esi_corp_id cs db :
  rtc step db (in_transaction (poll_corp corp_id esi_corp_id cs) db).2.
Proof.
  apply rtc_once. pose proof (step_poll_corp corp_id esi_corp_id cs (db_now db) (db_utc_now db) db) as H.
  by rewrite at_clock_id in H.
Qed.

#[local] Hint Extern 1 (evolves (j_execute (handle_terminals _))) =>
  apply evolves_execute, terminal_steps : evolves.
#[local] Hint Extern 1 (evolves (j_execute (run_for_contracts _))) =>
  apply evolves_execute, matched_steps : evolves.
#[local] Hint Extern 1 (evolves (j_execute (verify_all _))) =>
  apply evolves_execute, verified_steps : evolves.
#[local] Hint Extern 1 (evolves (j_transaction (poll_character _))) =>
  apply evolves_transaction, polled_steps : evolves.
#[local] Hint Extern 1 (evolves (j_transaction (poll_corp _ _ _))) =>
  apply evolves_transaction, corp_polled_steps : evolves.

(** ** The jobs *)

Section Slots.
Context {WE : WorkerEnv} {CES : ContractsJob.ContractEsi} {WES : CorpWalletJob.WalletEsi}
  {SE : CitadelDetails.StructureEsi} {OE : CitadelOrders.OrdersEsi}.

Lemma evolves_match ids : evolves (ContractsJob.match_contracts ids).
Proof. unfold ContractsJob.match_contracts. evolve. Qed.

Lemma store_items_within cid items : within same_ledger (ContractsJob.store_items cid items).
Proof. unfold ContractsJob.store_items, ContractsJob.insert_contract_item. within_solve; by split. Qed.
#[local] Hint Resolve evolves_match store_items_within within_transaction : evolves.

Lemma evolves_fetch_items cid reader call : evolves (ContractsJob.fetch_items cid reader call).
Proof. unfold ContractsJob.fetch_items. evolve. Qed.
#[local] Hint Resolve evolves_fetch_items : evolves.

Lemma evolves_sync : evolves ContractsJob.sync_pending_items.
Proof.
  unfold ContractsJob.sync_pending_items, ContractsJob.sync_task, ContractsJob.sync_items_for. evolve.
Qed.

Lemma evolves_poll_character i row : evolves (ContractsJob.poll_one_character i row).
Proof. unfold ContractsJob.poll_one_character. evolve. Qed.
#[local] Hint Resolve evolves_sync evolves_poll_character : evolves.

Lemma evolves_contracts cfg : evolves (ContractsJob.run cfg).
Proof. unfold ContractsJob.run, ContractsJob.settle_terminals. evolve. Qed.

Lemma evolves_first_contracts corp esi i ambs : evolves (CorpContractsJob.first_contracts corp esi i ambs).
Proof. induction ambs; cbn [CorpContractsJob.first_contracts]; evolve. Qed.
#[local] Hint Resolve evolves_first_contracts : evolves.

Lemma evolves_corp_contracts cfg : evolves (CorpContractsJob.run cfg).
Proof.
  unfold CorpContractsJob.run, ContractsJob.settle_terminals, CorpContractsJob.poll_one_corp. evolve.
Qed.

Lemma insert_journal_within corp d e raw : within same_ledger (CorpWalletJob.insert_journal corp d e raw).
Proof. unfold CorpWalletJob.insert_journal. within_solve; try apply new_uuid_within; by split. Qed.
#[local] Hint Resolve insert_journal_within evolves_statement : evolves.

Lemma evolves_journals corp esi amb client ds :
  evolves (CorpWalletJob.fetch_journals corp esi amb client ds).
Proof. induction ds; cbn [CorpWalletJob.fetch_journals]; unfold CorpWalletJob.record_entry; evolve. Qed.
#[local] Hint Resolve evolves_journals : evolves.

Lemma evolves_ambassadors corp esi i ambs : evolves (CorpWalletJob.try_ambassadors corp esi i ambs).
Proof.
  induction ambs; cbn [CorpWalletJob.try_ambassadors];
    unfold CorpWalletJob.upsert_division, CorpWalletJob.finish_wallet; evolve.
Qed.
#[local] Hint Resolve evolves_ambassadors : evolves.

Lemma evolves_corp_wallet cfg : evolves (CorpWalletJob.run cfg).
Proof. unfold CorpWalletJob.run, CorpWalletJob.poll_one_corp_wallet. evolve. Qed.

Lemma record_structures_within th ids : within same_ledger (CitadelDiscovery.record_structures th ids).
Proof.
  unfold CitadelDiscovery.record_structures, CitadelDiscovery.upsert_structure,
    CitadelDiscovery.count_missing, CitadelDiscovery.disable_stale.
  within_solve; try apply new_uuid_within; by split.
Qed.
#[local] Hint Resolve record_structures_within : evolves.

Lemma evolves_discovery listed cfg : evolves (CitadelDiscovery.run listed cfg).
Proof. unfold CitadelDiscovery.run. evolve. Qed.

Lemma upsert_access_within c m s d : within same_ledger (Csa.upsert_access c m s d).
Proof. unfold Csa.upsert_access. within_solve; by split. Qed.
#[local] Hint Resolve upsert_access_within : evolves.

Lemma evolves_first_structure m l cs : evolves (CitadelDetails.first_structure m l cs).
Proof. induction cs; cbn [CitadelDetails.first_structure]; evolve. Qed.

Lemma evolves_region s : evolves (CitadelDetails.resolve_region_for_system s).
Proof.
  intros w. unfold CitadelDetails.resolve_region_for_system. destruct (w_regions w !! s); [done|].
  destruct (CitadelDetails.get_system s); [|done]. by destruct (CitadelDetails.get_constellation _).
Qed.
#[local] Hint Resolve evolves_first_structure evolves_region : evolves.

Lemma evolves_details cfg : evolves (CitadelDetails.run cfg).
Proof. unfold CitadelDetails.run, CitadelDetails.resolve_one. evolve. Qed.

Lemma refresh_many_within `{MA : MarketApi} m s ts : within same_ledger (refresh_many_for_citadel m s ts).
Proof.
  unfold refresh_many_for_citadel, upsert_citadel_row. within_solve;
    first [apply upsert_price_row_within | by split].
Qed.

Lemma evolves_refresh_by cid client row : evolves (CitadelOrders.refresh_by cid client row).
Proof.
  unfold CitadelOrders.refresh_by. evolve. apply within_transaction. within_solve.
  apply refresh_many_within.
Qed.
#[local] Hint Resolve evolves_refresh_by : evolves.

Lemma evolves_candidates row cs t : evolves (CitadelOrders.try_candidates row cs t).
Proof. revert t. induction cs; intros t; cbn [CitadelOrders.try_candidates]; evolve. Qed.
#[local] Hint Resolve evolves_candidates : evolves.

Lemma evolves_orders cfg : evolves (CitadelOrders.run cfg).
Proof. unfold CitadelOrders.run, CitadelOrders.refresh_one. evolve. Qed.

Lemma refresh_one_within `{MA : MarketApi} m t : within same_ledger (Market.refresh_one m t).
Proof. unfold Market.refresh_one. within_solve. apply upsert_price_row_within. Qed.

Lemma evolves_hubs `{MA : MarketApi} cfg : evolves (NpcHubs.run cfg).
Proof.
  unfold NpcHubs.run, NpcHubs.refresh_pair. evolve. apply within_transaction. within_solve.
  apply refresh_one_within.
Qed.

Lemma drain_within t : within same_ledger (Outbox.run t).
Proof.
  unfold Outbox.run, lease, drain_row, drop_row, retry_row, dispatch_webhook. within_solve; by split.
Qed.

Definition same_vault_ledger (v v' : Vault) : Prop := same_ledger (v_db v) (v_db v').
#[local] Instance same_vault_ledger_pre : PreOrder same_vault_ledger.
Proof. split; [by intros v|intros v1 v2 v3; unfold same_vault_ledger; apply transitivity]. Qed.

Lemma seal_within c pt aad : within same_vault_ledger (seal c pt aad).
Proof. unfold seal. within_solve. intros v a v' [= _ <-]. by split. Qed.

Lemma rekey_within id old kid rt_ct rt_nonce at_ct at_nonce :
  within same_vault_ledger (rekey id old kid rt_ct rt_nonce at_ct at_nonce).
Proof. intros v a v' [= _ <-]. by split. Qed.
#[local] Hint Resolve seal_within rekey_within : within.

Lemma reencrypt_within c locked n : within same_vault_ledger (reencrypt_body c locked n).
Proof. unfold reencrypt_body, reencrypt_row, reseal_access. within_solve. Qed.

Lemma evolves_reencrypt locked : evolves (reencrypt_run locked).
Proof.
  intros w. unfold reencrypt_run, j_vault. apply evolves_store. intros s.
  unfold token_reencrypt, reencrypt_stale.
  destruct (reencrypt_body _ _ _ _) as [[o v]|e] eqn:Hr; cbn; [|done].
  exact (reencrypt_within _ _ _ _ _ _ Hr).
Qed.
End Slots.

#[local] Hint Resolve evolves_hubs evolves_discovery evolves_details evolves_orders evolves_contracts
  evolves_corp_contracts evolves_corp_wallet evolves_reencrypt within_transaction drain_within : evolves.

Lemma evolves_slot o cfg s : evolves (run o cfg s).
Proof. destruct s; cbn [run]; eauto with evolves. Qed.

Lemma turn_steps cfg w w' : turn cfg w w' → rtc step (w_db w) (w_db w').
Proof.
  intros [o s now utc w0|w0]; [|apply rtc_refl].
  pose proof (evolves_slot o cfg s (with_db (at_clock now utc) w0)) as H. rewrite w_db_with in H.
  etransitivity; [apply step_ledger, (at_clock_ledger now utc)|exact H].
Qed.

Lemma reachable_steps db db' : reachable db → rtc step db db' → reachable db'.
Proof. intros Hr. induction 1; [done|]. eauto using reachable_step. Qed.

(** C6 The worker implements the ledger: whatever ESI and Discord answer, in
    whatever order the nine tickers fire and whether or not a tick fails part
    way, what the worker does to the database is a sequence of the ledger's
    steps, so every property of the reachable states holds between ticks. *)
Theorem worker_refines_ledger cfg w w' :
  rtc (turn cfg) w w' →
  rtc step (w_db w) (w_db w') ∧ (reachable (w_db w) → reachable (w_db w')).
Proof.
  intros Ht. assert (rtc step (w_db w) (w_db w')) as Hs.
  { induction Ht as [w|w1 w2 w3 H1 _ IH]; [apply rtc_refl|]. etransitivity; [by eapply turn_steps|done]. }
  split; [done|]. intros Hr. by eapply reachable_steps.
Qed.
End Worker.

(** ** Witness *)
Section Witnesses.
#[local] Existing Instance fixture_runtime.
#[local] Existing Instance fixture_api.
#[local] Existing Instance fixture_market.
#[local] Existing Instance fixture_config.
#[local] Existing Instance fixture_decimal.
#[local] Existing Instance fixture_codes.
#[local] Existing Instance fixture_corp_esi.
#[local] Existing Instance fixture_shares.
#[local] Existing Instance fixture_codec.
#[local] Existing Instance fixture_aead.
#[local] Existing Instance fixture_auth.

(** ESI knows one outstanding contract of Bob's, with ten Tritanium. *)
Definition fixture_outside : Outside := {|
  out_env := {| refreshed_by_call _ := None; random_for _ := 0%Z; hash_order := id |};
  out_hubs := fixture_market;
  out_contracts := {|
    ContractsJob.EsiContractItem := Z * Z;
    ContractsJob.ei_record_id _ := 1%Z;
    ContractsJob.ei_type_id := fst;
    ContractsJob.ei_quantity := snd;
    ContractsJob.ei_is_included _ := true;
    ContractsJob.character_contracts _ _ := Ok [(9000%Z, "outstanding")];
    ContractsJob.character_contract_items _ _ _ := Ok [(34%Z, 10%Z)];
    ContractsJob.corp_contracts _ _ := Err Esi_Other;
    ContractsJob.corp_contract_items _ _ _ := Err Esi_Other |};
  out_wallets := {|
    CorpWalletJob.EsiWallet := Z;
    CorpWalletJob.ew_division := id;
    CorpWalletJob.ew_balance _ := Decimal_ZERO;
    CorpWalletJob.EsiWalletJournalEntry := Z;
    CorpWalletJob.ej_id := id;
    CorpWalletJob.ej_date _ := 0%Z;
    CorpWalletJob.ej_ref_type _ := "";
    CorpWalletJob.ej_amount _ := None;
    CorpWalletJob.ej_balance _ := None;
    CorpWalletJob.ej_first_party_id _ := None;
    CorpWalletJob.ej_second_party_id _ := None;
    CorpWalletJob.ej_context_id _ := None;
    CorpWalletJob.ej_context_id_type _ := None;
    CorpWalletJob.ej_reason _ := None;
    CorpWalletJob.ej_to_value _ := None;
    CorpWalletJob.corp_wallet_balances _ _ := Err Esi_Other;
    CorpWalletJob.corp_wallet_journal_of _ _ _ := Err Esi_Other |};
  out_structures := {|
    CitadelDetails.EsiStructureInfo := unit;
    CitadelDetails.si_name _ := [];
    CitadelDetails.si_solar_system_id _ := 0%Z;
    CitadelDetails.si_type_id _ := None;
    CitadelDetails.get_structure _ _ := Err Esi_Other;
    CitadelDetails.get_system _ := Err "";
    CitadelDetails.get_constellation _ := Err "" |};
  out_orders := {|
    CitadelOrders.market_client _ := fixture_market;
    CitadelOrders.esi_status _ := None |};
  out_listed := Ok [];
  out_discord := mkTick (λ _ _ _, Ok tt) (λ _, 0%Z);
  out_locked _ := false
|}.

Definition fixture_worker : WorkerConfig := mkWorkerConfig WorkerPollIntervals_default WorkerSection_default.

(** The books of [open_db], with Bob's character able to read contracts. *)
Definition worker_db : Db :=
  open_db <| characters := {[ 201%N := Tokens.fixture_character 1 502 None;
                              202%N := Tokens.fixture_character 2 501 (Some 40%Z)
                                        <| ch_scopes := [ContractsJob.CONTRACTS_SCOPE] |> ]} |>.
Definition fixture_world : World :=
  mkWorld (mkStore (mkVault worker_db 2) new_cipher ∅) Budget.default ∅.

Lemma characters_ledger db cs : same_ledger db (db <| characters := cs |>).
Proof. by split. Qed.

Lemma worker_db_reachable : reachable worker_db.
Proof. eapply reachable_step; [exact open_db_reachable|]. apply step_other, characters_ledger. Qed.

(** One tick of the contracts slot finds the contract, reads its items and
    proposes it for Bob's purchase. *)
Lemma worker_refines_ledger_witness :
  ∃ w', rtc (turn fixture_worker) fixture_world w' ∧ reachable (w_db w') ∧
    (head (map_to_list (contract_match_suggestions (w_db w'))) ≫= λ ks, Some (s_exact_match ks.2)) = Some true.
Proof.
  assert (rtc (turn fixture_worker) fixture_world
    (run fixture_outside fixture_worker Contracts (with_db (at_clock 100 101) fixture_world)).2) as Ht
    by (apply rtc_once, turn_slot).
  destruct (worker_refines_ledger _ _ _ Ht) as [_ Hr].
  eexists. split; [exact Ht|]. split; [exact (Hr worker_db_reachable)|]. vm_compute. reflexivity.
Defined.
End Witnesses.
