(* ===== verification/Anomalies.v ===== *)
(** * Executions that show what the code does not mean

    Concrete runs of the model, from the fixture database, that the code's own
    comments rule out; the last two also under the row-level policies. *)

From Stdlib Require Import ZArith Lia.
From stdpp Require Import base tactics decidable option list gmap strings pretty.
From S2P Require Import Prelude Effect Unicode Money Domain Host Schema Fixtures Errors.
From S2P Require Import Market Config Extract Webhooks Detail Pricing Settlement Wallet Fulfillment Claims.
From S2P Require Import Reimbursements Fulfillments Contracts Poller Lists Items Groups Corps Ledger.
From S2P Require Import TenantDebts Isolation Policies.

Section Anomalies.
#[local] Existing Instance fixture_runtime.
#[local] Existing Instance fixture_api.
#[local] Existing Instance fixture_market.
#[local] Existing Instance fixture_config.
#[local] Existing Instance fixture_decimal.
#[local] Existing Instance fixture_codes.
#[local] Existing Instance fixture_corp_esi.
#[local] Existing Instance fixture_shares.

(** Bob buys four of the ten units of item 30, which leaves it open. *)
Definition part_bought_db : Db := run_request start_db (2%N, RecordFulfillment 20 30 (buy 4)).

(** Alice may then delete the item: its purchase goes with it, the debt stays. *)
Definition item_deleted_db : Db :=
  (tx_middleware (handle_deletion (Some 1%N) (DeleteItem 20 30)) (at_clock 100 101 part_bought_db)).2.

Definition debts (db : Db) : list (Z * ReimbursementStatus) :=
  (λ kr, (r_subtotal_isk kr.2, r_status kr.2)) <$> map_to_list (reimbursements db).
Definition live_purchases (db : Db) : nat := length (map_to_list (fulfillments db)).

Theorem delete_bought_item_strands_debt :
  (li_status <$> list_items part_bought_db !! 30%N) = Some Item_Open ∧
  live_purchases part_bought_db = 1 ∧ debts part_bought_db = [(40000%Z, Reimb_Pending)] ∧
  list_items item_deleted_db !! 30%N = None ∧ live_purchases item_deleted_db = 0 ∧
  debts item_deleted_db = [(40000%Z, Reimb_Pending)].
Proof. vm_compute. by split_and!. Qed.

(** Or edit it to ask for three: more is bought of it than asked for, and it is
    still open. *)
Theorem edit_below_bought_breaks_bound :
  (λ li, (li_status li, li_qty_fulfilled li, li_qty_requested li)) <$>
    list_items (run_request part_bought_db (1%N, PatchItem 20 30 (mkPatchItemBody (Some 3%Z) None)))
      !! 30%N = Some (Item_Open, 4%Z, 3%Z).
Proof. vm_compute. reflexivity. Qed.

(** A tip of 12.345 %: the list keeps 12.35 %, the pending debt is given 12.345 %,
    and the next purchase and its reversal leave it with 12.35 %. *)
Definition tipped_db : Db :=
  run_request (run_request start_db (2%N, RecordFulfillment 20 30 (buy 4)))
    (1%N, SetListTip 20 (mkDecimal 12345 5)).
Definition retipped_db : Db :=
  run_request tipped_db (2%N, RecordFulfillment 20 30 (buy 1)).

Definition tips (db : Db) : list (Z * Z) :=
  (λ kr, (r_subtotal_isk kr.2, r_tip_isk kr.2)) <$> map_to_list (reimbursements db).

Theorem tip_rounds_twice :
  (l_tip_pct <$> lists tipped_db !! 20%N) = Some 1235%Z ∧
  tips tipped_db = [(40000, 4938)]%Z ∧ tip_of 40000 (pct_of_column 1235) = 4940%Z ∧
  tips retipped_db = [(50000, 6175)]%Z.
Proof. vm_compute. by split_and!. Qed.

(** Bob's contract is linked to his debt in group 10.  He earns another from
    Alice in group 1009, leaves group 10, and links the same contract, polled
    as finished, to the second debt before its terminal transition is handled:
    the debt of the group he has left is settled by his request. *)
Definition left_db : Db :=
  foldl run_request linked_db
    [ (1%N, CreateGroup (str "Crew")); (2%N, JoinGroup "code8");
      (1%N, CreateList 1009 (mkCreateBody None None [50%N] 50 (str "Tritanium 7")));
      (2%N, RecordFulfillment 1010 1011 (buy 7)); (2%N, LeaveGroup 10) ].
Definition finished_db : Db :=
  (in_transaction (poll_character [(9000%Z, "finished")]) (at_clock 100 101 left_db)).2.
Definition relinked_db : Db := run_request finished_db (2%N, ManualLink 1006 1014).

Definition debt_state (db : Db) (rid : Uuid) : option (Uuid * ReimbursementStatus) :=
  r ← reimbursements db !! rid; l ← lists db !! r_list_id r; Some (l_group_id l, r_status r).

(** The handlers' own predicates do not prevent it; the row-level policies do,
    where they are in force. *)
Definition after_app (user : Uuid) (req : Request) (db : Db) : Db :=
  match as_app (Some user) (handle (Some user) req) db with Ok (_, db) => db | Err _ => db end.

Theorem link_settles_other_group :
  stranger 10 2 finished_db ∧ exposed 10 finished_db (ManualLink 1006 1014) = true ∧
  debt_state finished_db 1005 = Some (10%N, Reimb_Pending) ∧
  debt_state relinked_db 1005 = Some (10%N, Reimb_Settled) ∧
  debt_state relinked_db 1014 = Some (1009%N, Reimb_Settled) ∧
  debt_state (after_app 2 (ManualLink 1006 1014) finished_db) 1005 = Some (10%N, Reimb_Pending) ∧
  debt_state (after_app 2 (ManualLink 1006 1014) finished_db) 1014 = Some (1009%N, Reimb_Settled).
Proof. unfold stranger. vm_compute. by split_and!. Qed.

(** Before it is finished, Bob links the second debt too and unlinks the
    contract: refused when the guard sees every row; under the policies it
    does not see the debt of the group he has left, which stays bound while
    the contract no longer expects any payment. *)
Definition both_linked_db : Db := run_request left_db (2%N, ManualLink 1006 1014).

Definition link_state (db : Db) : option (option Z) * option (option Uuid) * option (option Uuid) :=
  (ct_expected_total_isk <$> contracts db !! 1006%N, r_contract_id <$> reimbursements db !! 1005%N,
   r_contract_id <$> reimbursements db !! 1014%N).

Theorem unlink_leaves_hidden_debt :
  is_ok (handle (Some 2%N) (UnlinkContract 1006) both_linked_db) = false ∧
  link_state both_linked_db = (Some (Some 180000%Z), Some (Some 1006%N), Some (Some 1006%N)) ∧
  link_state (after_app 2 (UnlinkContract 1006) both_linked_db) =
    (Some None, Some (Some 1006%N), Some None).
Proof. vm_compute. by split_and!. Qed.
End Anomalies.
